(* ===== verification/_CoqProject ===== *)
-Q . S2P
Prelude.v
Bytes.v
BitStream.v
Huffman.v
Blocks.v
Segments.v
Meta.v
Entropy.v
Mcu.v
Idct.v
FftwPlan.v
Raster.v
NQueens.v
Itertools.v
Traverse.v
AhoCorasick.v
AhoTrie.v
AhoLinks.v
AhoBuild.v
AhoMatch.v
