(* ===== verification/Prelude.v ===== *)
(** * A verification development of the baseline JPEG decoder of
      cpp-tool-every-week

    The repository's JPEG decoder ([src/applications/jpeg-decoder] and the
    shared [src/components]) reads a JFIF byte stream and produces an RGB
    raster.  Its parts, leaves first:

    - byte streams ([components/include/byte-streams.h],
      [components/src/byte-streams.cpp]): [SplitByte], [ComposeBytes],
      [ByteStream::Yield], the bit reader [BitStream] with its byte
      un-stuffing ([UpdateWord], [Yield], [YieldByte]) and the n-bit
      readers [ComposeNBitsLE] / [ComposeNBitsBE];
    - the Huffman tree ([components/include/huffman.h]): nodes with parent
      pointers, [HuffmanNode::AddNode] (a cursor walk that allocates the
      next free slot at a depth), [HuffmanTree::FromSequence];
    - the 8x8 block primitives ([jpeg-decoder/include/primitives.h]):
      zig-zag addressing [Block::AtZZ], [ToCartesianZZ], [Clip], the
      point-wise block operators;
    - the segment readers ([jpeg-decoder/src/commands.cpp]): content
      length, COM, APPn, SOF0 ("DCT"), DQT, DHT and SOS;
    - the inverse DCT ([jpeg-decoder/src/fourier.cpp]): [IDCT88V1] by
      the cosine formula, and [IDCT88V2], an object that owns an FFTW
      plan over its own member blocks, made by its constructor, executed
      by [Transform] and destroyed (with [fftw_cleanup]) by its
      destructor; [Decode] makes one and uses it for every block;
    - the decoder ([jpeg-decoder/src/decoder.cpp]): the metadata pass
      [JPEGMeta::JPEGMeta], [HuffmanStorage], [DecodeByte], [MaybeNegate],
      [DecodeBlock], [DecodeMCU], the sample lookup [MCU::GetValue], the
      colour conversion [MCU::GetRGB] and the raster loop [Decode].

    The repository also holds a LeetCode solution that shares nothing
    with the decoder, the N-queens solver
    ([applications/leetcode/51-nqueens.cpp]), modelled in its own file,
    and, among the shared components, an Aho-Corasick automaton
    ([components/include/aho-corasick.h], [components/src/aho-corasick.cpp])
    built on a generic breadth-first search ([components/include/traverse.h])
    and iterator ranges ([components/include/itertools.h]): the builder
    adds the words to a trie, then runs the search twice with two visitors
    that compute the suffix and the terminal links; matching follows
    [NodeReference::Next], which caches its answers in the nodes, and
    reports hits with [NodeReference::TraverseTerminal].

    All of them share one [std::istream]: every segment reader builds its
    own [ByteStream] over it, the bit reader seeks it back by two bytes
    when it meets a marker, and the metadata pass seeks it back over the
    SOS marker.  The development therefore threads one explicit input
    state through a small state-and-error monad.

    ** Files, in dependency order

    - [Prelude.v] (this file): the error type, the [result] type and the
      state-and-error monad [st] with their notations in [jpeg_scope];
      machine-integer conversions ([to_uint8], [to_uint16], [to_int16]);
      the shared lemmas, the [jpeg] hint databases and the tactics
      [bind_inv] and [monad_step].
    - [Bytes.v]: the [std::istream] state ([istream]: data, position, a
      failure flag), [read_byte], [seekg_back]; [SplitByte] and
      [ComposeBytes] as [Z] bit operations; [ByteStream::Yield]
      ([byte-streams.cpp]).
    - [BitStream.v]: the [BitStream] record (current word, read mask,
      finished flag, stuffing flag) and [UpdateWord], [Yield], [YieldByte],
      [ComposeNBitsLE], [ComposeNBitsBE] over the pair (bit reader,
      istream).
    - [Huffman.v]: the tree with explicit [Nil] for [nullptr], the cursor
      as a zipper (the parent pointers), [AddNode], [FromSequence],
      [DecodeByte] ([decoder.cpp]); the canonical-code specification.
    - [Blocks.v]: [Block::AtZZ], [ToCartesianZZ], [Clip], [operator*] and
      [operator+] of [primitives.h]; the zig-zag table of T.81.
    - [Segments.v]: the payload records of [commands.h] and every reader
      of [commands.cpp], each over its own [ByteStream] on the shared
      stream ([with_byte_stream]); encoders of DQT, DHT and SOS segments
      the readers are checked against; the [consuming] hint database
      (readers never give input back).
    - [Meta.v]: [HuffmanStorage::FromPayload] and [Get] with vectors as
      lists ([vec_at] checked, [vec_get]/[vec_set] unchecked), and the
      constructor [JPEGMeta::JPEGMeta] as [meta_loop] (the marker loop)
      followed by [meta_finish]; a one-block sample file.
    - [Entropy.v]: [MaybeNegate], [DecodeBlock] (split into [decode_dc],
      [ac_loop] and [decode_coeffs], then dequantisation, reordering, the
      transform, level shift and clip) and [DecodeMCU], in a section whose
      parameter [idct] is [IDCT88V2::Transform] followed by [blocks::As].
    - [Mcu.v]: [MCU::GetValue] with C++'s truncating [/] and [%]
      ([Z.quot], [Z.rem]) and unchecked indexing; [MCU::GetRGB] in IEEE
      binary64 on the kernel's primitive floats ([Stdlib.Floats]): the
      constants are the doubles nearest to the source's literals, each
      operation is rounded to nearest even as on the project's targets (no
      fused multiply-add), and [std::round] with the conversion to [int]
      ([lround]) is computed exactly from the double's mantissa and
      exponent; the specification's lookup [sample_spec] and rounding
      [round_div].
    - [Idct.v]: [IDCT88V2::Transform] of [fourier.cpp] in binary64 with
      its member blocks [input_] and [output_] (the normalisation loops,
      [Block::AtIJ], [ToCartesianIJ]); the FFTW plan execution is a
      section parameter [redft01_2d]; [decoder_idct], the transform of
      [DecodeBlock] with [ToCartesianZZ<int16_t, double>] before and
      [As<double, int16_t>] (truncation, undefined out of range) after;
      [IDCT88V1] with [std::cos] and [std::atan] as parameters.
    - [FftwPlan.v]: the lifetime of an [IDCT88V2] over a heap of FFTW
      plans (live or destroyed, with the addresses they read and write)
      and objects (alive or ended, with their plan handle and members);
      the FFTW calls after the library's documented contract; the
      constructor, [Transform], destructor and implicit copy of
      [fourier.cpp] / [fourier.h] ([IDCT88V2_new], [IDCT88V2_Transform],
      [IDCT88V2_delete], [IDCT88V2_copy]); [session], one object over
      the blocks of [Decode]; [Decode]'s discipline as the step relation
      [dstep] and the ownership invariant [own_inv], with its check
      [own_invb].
    - [Raster.v]: the raster [Image] of [rgb-image.h] (not among the
      sources: modelled from the specification as rows of [RGB] written
      by [SetPixel(row, col)]); [Decode(std::istream&, const JPEGMeta&)] as
      [decode_header] (SOS marker, [SOS::Read]), [scan_channels], the MCU
      loop [raster_loop] on [uint16_t] origins with [write_mcu] and
      [advance], and [decode_trailer] (EOI); [Decode(const std::string&)]
      as [Decode_file_with]; the specification's row-major walk
      [raster_ref].  The transform is again a section parameter.
    - [Itertools.v]: the class [ForwardIterator] ([!=], [++], [*]) with
      instances for a [std::vector] iterator, [enumerate]'s counter
      iterator and [zip]'s pair of iterators; [IteratorRange], [enumerate],
      [zip], and the range [for] loop on fuel; the tests of
      [test-itertools.cpp].
    - [Traverse.v]: [BfsVisitor] as a record of three state-passing
      callbacks and [BreadthFirstSearch] with its queue and set as lists;
      the pure event trace of a search ([bfs_trace]) and the level order
      of a tree ([level], [level_events]).
    - [AhoCorasick.v]: the nodes in a store (a list indexed by the
      pointers, [None] for [nullptr]), [std::map<char, _>] as a sorted
      association list, and every function of the two files:
      [GetTrieTransition], [GetAutomatonTransition] with its loop
      [transition_walk], [NodeReference] with [Next], [TraverseTerminal]
      ([terminal_walk]) and its predicates, [AutomatonBuilder] with [Add],
      [Build], [BuildTrie], [AddString], the graph adaptor ([Edge],
      [OutgoingEdges], [GetTarget]) and the visitors
      [SuffixLinkCalculator] ([suffix_search]) and
      [TerminalLinkCalculator].
    - [AhoTrie.v]: the dictionary of the added words and the trie
      invariant [trie_inv] over the list of node labels; [BuildTrie_spec].
    - [AhoLinks.v]: longest label suffixes [lsuf], the suffix-link target
      [slink], the trie as a tree whose levels are the labels of each
      length, and [bfs_trie_events]: each search of the builder is its
      visitor run over the level order.
    - [AhoBuild.v]: the induction over the levels ([LevelFold]), the
      correctness of both searches ([BuildSuffixLinks_spec],
      [BuildTerminalLinks_spec], with the terminal-link target [tlink]),
      the automaton invariant [aut_inv] and [Build_spec].
    - [AhoMatch.v]: the answer [goto] of a transition, the invariant
      [match_inv] with the cache, the specifications of
      [GetAutomatonTransition], [Next] and [TraverseTerminal], the matching
      loop of the repository's test ([match_text]) and the test itself.
    - [NQueens.v]: [Solution::answer], [solveNQueensRec] (its row loop
      [row_loop], column loop body [col_step], the marks of a queen
      [restrict] with the four diagonal loops [mark_while]) and
      [solveNQueens], with the three [std::array]s as [list bool] copied
      by value, and [main]; the specification [search] (backtracking on the list of
      queens placed), [render] and [solution].

    ** The theorems, by group

    - Huffman: [FromSequence] refines the canonical codes (a leaf for the
      k-th value at the k-th code, or the null dereference when the
      lengths overflow); [DecodeByte] inverts it; the leaves sit at the
      integer codes T.81 Annex C generates, written on their lengths
      ([FromSequence_annex_c]).
    - Bit stream: byte-stuffing transparency with the seek back at the
      marker; the bit order of the repository's test.
    - Segments: [GetContentLength], the DQT 8-bit round trip and the
      16-bit out-of-bounds write, the DHT round trip for whole segments
      (through [FromSequence]), the [uint16_t] overrun of [content_left]
      for every table longer than what is left, [SOS::Read] with
      its three checks, termination of the DHT loop.
    - Metadata: [Get] after [FromPayload] is the last table per (id,
      class); the marker loop terminates; a successful pass leaves the
      stream on [0xFF 0xDA]; a marker outside the if-chain always makes
      the pass fail instead of being skipped; a quantisation-table id not
      below the number of tables read is an out-of-bounds write; examples
      of the header checks it does not make (SOI, precision).
    - Entropy: [MaybeNegate] is EXTEND; the AC loop terminates; the DC
      predictor is the [int16_t] sum of the decoded differentials; four
      ZRL symbols after the DC coefficient run past the block, undefined
      behaviour, for every table and scan.
    - Blocks: both zig-zag round trips.
    - MCU assembly: [GetValue] refines the specification's
      nearest-neighbour lookup for every baseline layout but two, where
      an example shows the code reading the wrong block; [GetRGB]'s red
      and blue are the exact decimal formulas rounded, for all 65536 byte
      pairs (checked by computation, [all_below]), green is not at an
      exact half (an example); neutral chroma gives grey.
    - Inverse DCT: [IDCT88V2] hands FFTW the specification's normalised
      block in natural order whatever its member held (so the transform
      is a function of its argument, and the decoder's transform can be a
      parameter of the entropy decoder); [IDCT88V1]'s in-place loops
      compute the specification's formula, checked against its own
      constants ([C_spec], [pi_double]) when [std::atan(1.0)] is correctly
      rounded; [As] truncates where the
      specification rounds.
    - FFTW plan ownership: every heap [Decode]'s discipline reaches
      satisfies [own_inv] (rule induction on [dstep]); under it the
      heap's [Transform] refines the member-passing one of [Idct.v]; a
      whole session computes [decoder_idct] block by block and leaves no
      live plan; a copied object is destroyed twice, and with two live
      objects the first destructor's [fftw_cleanup] leaves the second a
      destroyed plan to execute.
    - Raster loop: with positive MCU steps and no 16-bit wrap, the loop
      is the row-major walk over the MCU origins and never runs out of
      fuel; every raster [Decode(filename)] returns has the frame's
      dimensions and bytes in every pixel; end to end, the sample file
      decodes to an 8 x 8 mid-grey raster for every transform that maps
      zero to zero; a file with no frame component makes the decoder loop
      forever; whenever the next origin reaches 65536 and wraps below the
      width, [advance] restarts the row.
    - N-queens: in a section over the board size [s <= 9], the arrays
      represent a placement ([qboard], [rboard], [rwboard]) and every
      step of the code keeps the representation ([restrict_spec] for the
      marks), so [solveNQueens] refines [search]; [search] returns only
      solutions and, in a nested section over a solution, returns it
      listed row by row; hence the solver returns exactly the boards of
      the solutions, for every [n <= 9]; [n = 10] overflows the arrays;
      [main] exits with 0.
    - Iterators and search: a range [for] over [zip] pairs the elements of
      containers of one size and reads past the shorter one otherwise;
      [BreadthFirstSearch] on a tree, with a visitor that leaves the
      edges alone, is the visitor run over the level order.
    - Aho-Corasick: [BuildTrie] builds the trie of the words
      ([trie_inv]); the two searches set every suffix link to the node of
      the longest proper label suffix and every terminal link to the node
      of the longest proper word suffix, leaving everything else as it
      was; no pointer of the result dangles; [Next] goes to the node of
      the longest label ending the text so far and keeps a cache of right
      answers, a repeated transition being served from it; end to end,
      after each character of a text [TraverseTerminal] reports the ids of
      every word ending there, longest first ([Build_match_text]); the
      repository's test passes.

    ** Fuel

    [AddNode] runs on [length ctx + level + 1] (the cursor's depth plus
    the target depth bounds its climb and descent); [DHT::ReadMultiple]
    and the marker loop run on the length of the unread input plus one,
    enough because each round takes at least 17 (resp. 2) bytes; the AC
    loop runs on 63, enough because each round moves the position
    forward.  For each, a theorem shows that more fuel gives the same
    result, so [OutOfFuel] never stands for a behaviour of the code.
    The MCU loop of [Decode] runs on [raster_fuel], the number of MCU
    origins [ceil(width / step_x) * ceil(height / step_y)]: theorem
    [raster_loop_tiling] shows it is enough whenever the steps are
    positive and [width + step_x] and [height + step_y] fit 16 bits.
    Outside these conditions the code itself need not stop: with a zero
    step it loops forever ([Decode_file_hangs], where [OutOfFuel] is the
    model of that divergence, for every fuel), and when the origin wraps
    it decodes a row again until the scan ends, which the model reports
    as [OutOfFuel].  The diagonal loops of the N-queens solver run on
    [size + 1], enough because each step moves one row towards the edge
    ([mark_while_ray]).  The loops of the automaton (the suffix-link
    loops of [GetAutomatonTransition] and [SuffixLinkCalculator], the
    terminal-link loop of [TraverseTerminal]) and the searches run on the
    number of nodes: each round of a link loop moves to a strictly shorter
    label, and a label is shorter than the number of nodes
    ([label_length_bound]); the search pops each vertex once, and the
    levels hold each node once ([trie_levels_size]).

    ** Not modelled

    - The FFTW library: what a plan computes ([redft01_2d]) and libm's
      [cos] and [atan] are parameters; its plan table is modelled in
      [FftwPlan.v] by its documented contract, not by its code.  The block
      decoder and the raster loop take the whole transform as a
      parameter, so their theorems hold for every transform; the
      end-to-end theorem instantiates it with [decoder_idct], and
      [session_decoder_idct] shows that the one object [Decode] shares
      between its blocks computes exactly that.
    - The copy operations [Automaton] deletes (there is nothing to
      model), and the file I/O of [Decode(filename)] beyond its bytes.

    ** What is modelled, and how

    - Integers are [Z] kept at the source's width: a [uint8_t] result is
      reduced with [to_uint8], a [uint16_t] with [to_uint16] (modular), an
      [int16_t] store with [to_int16] (two's complement, which is what
      the compilers the project targets do, and what C++20 mandates).
    - Errors: a thrown [std::runtime_error] is [RuntimeError msg] with the
      source's message; [vector::at] is [OutOfRange]; [optional::value]
      on an empty optional is [BadOptionalAccess].  Where the C++ code has
      undefined behaviour (a comparison with a byte that a failed
      [istream::read] left uninitialised, a null-pointer dereference, an
      out-of-bounds write or iterator, a negative shift count, an [int]
      overflow, a [double] out of the range of [int] converted to [int],
      a plan executed or destroyed once destroyed or after
      [fftw_cleanup])
      the model stops with
      [Undefined why]: the development never claims anything about what
      happens after undefined behaviour.
    - Loops whose termination is not structural run on explicit fuel; the
      fuel chosen by each caller is proved sufficient (the [OutOfFuel]
      error is unreachable from the callers), so the results are not
      partial-correctness statements.
*)

From Stdlib Require Import String ZArith Bool List Lia.
Import ListNotations.

Declare Scope jpeg_scope.
Delimit Scope jpeg_scope with jpeg.
Open Scope Z_scope.

(** ** Errors *)

(** The kinds of undefined behaviour the decoder can reach. *)
Inductive ub : Type :=
| UninitialisedRead   (** use of a byte that a failed [read] did not write *)
| NullDereference     (** [current->level] with [current == nullptr] *)
| OutOfBoundsAccess   (** [operator[]] or an iterator past the end *)
| NegativeShift       (** [raw >> (num_bits - 1)] with [num_bits = 0] *)
| ShiftPastWidth      (** [bit << i] with [i] at least the width of [int] *)
| SignedOverflow      (** an [int] product out of the range of [int] *)
| FloatConversion     (** a [double] out of the range of [int] converted to [int] *)
| UseAfterFree.       (** a plan executed or destroyed after [fftw_destroy_plan] or [fftw_cleanup] *)

Inductive error : Type :=
| RuntimeError (what : string)
| OutOfRange
| BadOptionalAccess
| Undefined (why : ub)
| OutOfFuel.

Inductive result (A : Type) : Type :=
| Ok (a : A)
| Err (e : error).
Arguments Ok {A} a.
Arguments Err {A} e.

Definition rbind {A B : Type} (r : result A) (k : A -> result B) : result B :=
  match r with
  | Ok a => k a
  | Err e => Err e
  end.

Definition is_ok {A : Type} (r : result A) : bool :=
  match r with Ok _ => true | Err _ => false end.

(** ** The state-and-error monad

    A computation reads and updates a state [S] and may stop with an
    [error]; the state at the error is dropped, as the decoder aborts the
    whole operation on its first exception. *)

Definition st (S A : Type) : Type := S -> result (A * S).

Definition ret {S A : Type} (a : A) : st S A := fun s => Ok (a, s).

Definition bind {S A B : Type} (c : st S A) (k : A -> st S B) : st S B :=
  fun s => match c s with
           | Ok (a, s') => k a s'
           | Err e => Err e
           end.

Definition raise {S A : Type} (e : error) : st S A := fun _ => Err e.

Definition get {S : Type} : st S S := fun s => Ok (s, s).

Definition put {S : Type} (s : S) : st S unit := fun _ => Ok (tt, s).

Definition lift {S A : Type} (r : result A) : st S A :=
  fun s => match r with Ok a => Ok (a, s) | Err e => Err e end.

Notation "'let*' x ':=' c 'in' k" := (bind c (fun x => k))
  (at level 61, x pattern, c at next level, right associativity) : jpeg_scope.
Notation "c1 ;; c2" := (bind c1 (fun _ => c2))
  (at level 61, right associativity) : jpeg_scope.
Notation "'let?' x ':=' r 'in' k" := (rbind r (fun x => k))
  (at level 61, x pattern, r at next level, right associativity) : jpeg_scope.

Open Scope jpeg_scope.

(** A [for] loop of [n] iterations over a state. *)
Fixpoint repeat_st {S A : Type} (n : nat) (body : st S A) : st S (list A) :=
  match n with
  | O => ret []
  | S n' => let* a := body in
            let* rest := repeat_st n' body in
            ret (a :: rest)
  end.

(** ** Machine integers *)

Definition to_uint8 (z : Z) : Z := z mod 2 ^ 8.
Definition to_uint16 (z : Z) : Z := z mod 2 ^ 16.
Definition to_int16 (z : Z) : Z := (z + 2 ^ 15) mod 2 ^ 16 - 2 ^ 15.
Definition to_int8 (z : Z) : Z := (z + 2 ^ 7) mod 2 ^ 8 - 2 ^ 7.

Definition is_byte (z : Z) : Prop := 0 <= z < 256.
Definition is_byteb (z : Z) : bool := (0 <=? z) && (z <? 256).

(** ** Shared lemmas *)

Create HintDb jpeg.
Create Rewrite HintDb jpeg_rw.

Lemma bind_ok {S A B : Type} (c : st S A) (k : A -> st S B) s a s' :
  c s = Ok (a, s') -> bind c k s = k a s'.
Proof. intros H. unfold bind. now rewrite H. Qed.

Lemma bind_err {S A B : Type} (c : st S A) (k : A -> st S B) s e :
  c s = Err e -> bind c k s = Err e.
Proof. intros H. unfold bind. now rewrite H. Qed.

Lemma bind_assoc {S A B C : Type} (c : st S A) (k : A -> st S B) (k' : B -> st S C) s :
  bind (bind c k) k' s = bind c (fun a => bind (k a) k') s.
Proof. unfold bind. destruct (c s) as [[a s']|e]; reflexivity. Qed.

Lemma lift_ok {S A : Type} (r : result A) (a : A) (s : S) : r = Ok a -> lift r s = Ok (a, s).
Proof. intros ->. reflexivity. Qed.

Lemma is_byteb_spec z : is_byteb z = true <-> is_byte z.
Proof.
  unfold is_byteb, is_byte. rewrite andb_true_iff, Z.leb_le, Z.ltb_lt. tauto.
Qed.

Lemma to_uint8_range z : 0 <= to_uint8 z < 256.
Proof. unfold to_uint8. apply Z.mod_pos_bound. reflexivity. Qed.

Lemma to_uint16_range z : 0 <= to_uint16 z < 65536.
Proof. unfold to_uint16. apply Z.mod_pos_bound. reflexivity. Qed.

Lemma to_int16_range z : -32768 <= to_int16 z < 32768.
Proof.
  unfold to_int16. pose proof (Z.mod_pos_bound (z + 2 ^ 15) (2 ^ 16) ltac:(reflexivity)).
  change (2 ^ 15) with 32768 in *. change (2 ^ 16) with 65536 in *. lia.
Qed.

Lemma to_uint8_id z : 0 <= z < 256 -> to_uint8 z = z.
Proof. intros H. unfold to_uint8. apply Z.mod_small. exact H. Qed.

Lemma to_uint16_id z : 0 <= z < 65536 -> to_uint16 z = z.
Proof. intros H. unfold to_uint16. apply Z.mod_small. exact H. Qed.

Lemma to_uint16_neg z : -65536 <= z < 0 -> to_uint16 z = z + 65536.
Proof.
  intros H. unfold to_uint16. replace z with ((z + 65536) + (-1) * 2 ^ 16) at 1 by (cbn; lia).
  rewrite Z.mod_add, Z.mod_small by (cbn; lia). reflexivity.
Qed.

Lemma fold_left_add_bytes l a :
  Forall is_byte l -> fold_left Z.add l a <= a + 255 * Z.of_nat (List.length l).
Proof.
  revert a. induction l as [|x l IH]; intros a Hl; cbn [fold_left List.length]; [lia|].
  inversion Hl as [|? ? Hx Hl']; subst. unfold is_byte in Hx. specialize (IH (a + x) Hl'). lia.
Qed.

Lemma to_uint16_wrap z : 65536 <= z < 131072 -> to_uint16 z = z - 65536.
Proof.
  intros H. unfold to_uint16. replace z with ((z - 65536) + 1 * 2 ^ 16) at 1 by (cbn; lia).
  rewrite Z.mod_add, Z.mod_small by (cbn; lia). reflexivity.
Qed.

Lemma to_int16_id z : -32768 <= z < 32768 -> to_int16 z = z.
Proof.
  intros H. unfold to_int16. rewrite Z.mod_small.
  - lia.
  - change (2 ^ 15) with 32768. change (2 ^ 16) with 65536. lia.
Qed.

(** Conversions to [int16_t] compose with addition: only the final
    store's wrap-around matters. *)
Lemma to_int16_add_l a b : to_int16 (to_int16 a + b) = to_int16 (a + b).
Proof.
  unfold to_int16.
  replace ((a + 2 ^ 15) mod 2 ^ 16 - 2 ^ 15 + b + 2 ^ 15)
    with ((a + 2 ^ 15) mod 2 ^ 16 + b) by lia.
  rewrite Z.add_mod_idemp_l by (apply Z.pow_nonzero; lia).
  f_equal. f_equal. lia.
Qed.

Lemma to_uint16_sub_idemp a b : to_uint16 (to_uint16 a - b) = to_uint16 (a - b).
Proof.
  unfold to_uint16. rewrite Zminus_mod_idemp_l. reflexivity.
Qed.

#[export] Hint Resolve to_uint8_range to_uint16_range to_int16_range : jpeg.
#[export] Hint Rewrite @bind_assoc : jpeg_rw.

(** Running a monadic program step by step: unfold one bind whose first
    computation is known. *)
(** Inverts the first step of a computation that succeeded. *)
Ltac bind_inv H :=
  match type of H with
  | bind ?c ?k ?s = Ok _ =>
      let E := fresh "E" in
      destruct (c s) as [[?a ?s1]|?e] eqn:E;
      [rewrite (bind_ok c k s _ _ E) in H | rewrite (bind_err c k s _ E) in H; discriminate H]
  end.

Ltac monad_step :=
  match goal with
  | H : ?c ?s = Ok (?a, ?s') |- context [bind ?c ?k ?s] => rewrite (bind_ok c k s a s' H)
  | H : ?c ?s = Err ?e |- context [bind ?c ?k ?s] => rewrite (bind_err c k s e H)
  end.

Lemma repeat_st_S {S A : Type} (n : nat) (c : st S A) s :
  repeat_st (Datatypes.S n) c s
  = bind c (fun a => bind (repeat_st n c) (fun rest => ret (a :: rest))) s.
Proof. reflexivity. Qed.

Lemma repeat_st_add {S A : Type} (n m : nat) (c : st S A) s :
  repeat_st (n + m) c s
  = bind (repeat_st n c) (fun l1 => bind (repeat_st m c) (fun l2 => ret (l1 ++ l2))) s.
Proof.
  revert s. induction n as [|n IH]; intros s.
  - cbn [Nat.add repeat_st]. unfold bind, ret. destruct (repeat_st m c s) as [[l s']|e]; reflexivity.
  - cbn [Nat.add repeat_st]. unfold bind, ret.
    destruct (c s) as [[a s']|e]; [|reflexivity].
    specialize (IH s'). unfold bind, ret in IH. rewrite IH.
    destruct (repeat_st n c s') as [[l1 s1]|e]; [|reflexivity].
    destruct (repeat_st m c s1) as [[l2 s2]|e]; reflexivity.
Qed.

Lemma rbind_assoc {A B C : Type} (r : result A) (f : A -> result B) (g : B -> result C) :
  rbind (rbind r f) g = rbind r (fun a => rbind (f a) g).
Proof. destruct r; reflexivity. Qed.

(** ** Generic list lemmas *)

Lemma combine_app {A B : Type} (a1 a2 : list A) (b1 b2 : list B) :
  length a1 = length b1 -> combine (a1 ++ a2) (b1 ++ b2) = combine a1 b1 ++ combine a2 b2.
Proof.
  revert b1. induction a1 as [|x a1 IH]; intros [|y b1] H; cbn in *; try discriminate; auto.
  f_equal. apply IH. congruence.
Qed.

Lemma firstn_add {A : Type} (n m : nat) (l : list A) :
  (n <= length l)%nat -> firstn (n + m) l = firstn n l ++ firstn m (skipn n l).
Proof.
  intros H. rewrite <- (firstn_skipn n l) at 1.
  rewrite <- (firstn_length_le l H) at 1. apply firstn_app_2.
Qed.

Lemma Forall2_combine {A B : Type} (P : A -> B -> Prop) (la : list A) (lb : list B) :
  length la = length lb -> Forall (fun ab => P (fst ab) (snd ab)) (combine la lb) -> Forall2 P la lb.
Proof.
  revert lb. induction la as [|a la IH]; intros [|b lb] Hl H; cbn in *; try discriminate; auto.
  inversion H; subst. constructor; auto.
Qed.

Lemma Forall2_map_l {A A' B : Type} (f : A -> A') (P : A' -> B -> Prop) la lb :
  Forall2 (fun a b => P (f a) b) la lb -> Forall2 P (map f la) lb.
Proof. induction 1; constructor; auto. Qed.

Lemma repeat_st_S_inv {S A : Type} (n : nat) (c : st S A) s a l s' :
  repeat_st (Datatypes.S n) c s = Ok (a :: l, s') ->
  exists s1, c s = Ok (a, s1) /\ repeat_st n c s1 = Ok (l, s').
Proof.
  rewrite repeat_st_S. unfold bind, ret.
  destruct (c s) as [[a' s1]|e]; [|discriminate].
  destruct (repeat_st n c s1) as [[l' s2]|e] eqn:Er; [|discriminate].
  intros H. injection H as Ha Hl Hs. subst. exists s1. auto.
Qed.

Lemma Forall2_nth_error {A B : Type} (P : A -> B -> Prop) la lb k a b :
  Forall2 P la lb -> nth_error la k = Some a -> nth_error lb k = Some b -> P a b.
Proof.
  intros H. revert k. induction H as [|x y la lb Hxy _ IH]; intros [|k] Ha Hb; cbn in *;
    try discriminate.
  - injection Ha as <-. injection Hb as <-. exact Hxy.
  - eapply IH; eauto.
Qed.

(** Mapping a fallible function over a list, stopping at the first
    error (a C++ loop that may throw). *)
Fixpoint rmap {A B : Type} (f : A -> result B) (l : list A) : result (list B) :=
  match l with
  | [] => Ok []
  | x :: rest => let? y := f x in let? ys := rmap f rest in Ok (y :: ys)
  end.

Lemma rmap_ok {A B : Type} (f : A -> result B) (g : A -> B) l :
  (forall x, In x l -> f x = Ok (g x)) -> rmap f l = Ok (map g l).
Proof.
  induction l as [|x l IH]; intros H; cbn; [reflexivity|].
  rewrite H by (left; reflexivity). cbn. rewrite IH by (intros y Hy; apply H; right; exact Hy).
  reflexivity.
Qed.

(** Folding a fallible step over a list, stopping at the first error
    (a C++ loop over a range whose body may throw). *)
Fixpoint rfold {A B : Type} (f : A -> B -> result A) (l : list B) (a : A) : result A :=
  match l with
  | [] => Ok a
  | x :: rest => let? a' := f a x in rfold f rest a'
  end.

(** The counter values [0 .. n - 1] of a [for] loop. *)
Definition zseq (n : Z) : list Z := map Z.of_nat (seq 0 (Z.to_nat n)).

Lemma in_zseq n k : In k (zseq n) <-> 0 <= k < n.
Proof.
  unfold zseq. rewrite in_map_iff. split.
  - intros (j & <- & Hj). apply in_seq in Hj. lia.
  - intros Hk. exists (Z.to_nat k). rewrite in_seq. split; lia.
Qed.

(** An exhaustive test of a decidable property of [0 .. n - 1], run by
    computation. *)
Fixpoint all_below (n : nat) (f : Z -> bool) : bool :=
  match n with
  | O => true
  | S k => f (Z.of_nat k) && all_below k f
  end.

Lemma all_below_spec n f : all_below n f = true -> forall k, 0 <= k < Z.of_nat n -> f k = true.
Proof.
  induction n as [|n IH]; cbn [all_below]; intros H k Hk; [lia|].
  apply andb_true_iff in H as [H1 H2].
  destruct (Z.eq_dec k (Z.of_nat n)) as [->|Hne]; [exact H1|].
  apply IH; [exact H2|lia].
Qed.

(** The boolean test [r = Ok v] on integers. *)
Definition ok_eqb (r : result Z) (v : Z) : bool :=
  match r with Ok a => a =? v | Err _ => false end.

Lemma ok_eqb_spec r v : ok_eqb r v = true -> r = Ok v.
Proof. destruct r as [a|e]; cbn; [intros H; apply Z.eqb_eq in H; subst; reflexivity|discriminate]. Qed.

(** An invariant of every step of a fallible fold holds at its end. *)
Lemma rfold_invariant {A B : Type} (P : A -> Prop) (f : A -> B -> result A) l :
  (forall a x a', In x l -> P a -> f a x = Ok a' -> P a') ->
  forall a a', P a -> rfold f l a = Ok a' -> P a'.
Proof.
  induction l as [|x l IH]; cbn [rfold]; intros Hf a a' Ha H.
  - injection H as <-. exact Ha.
  - destruct (f a x) as [a1|e] eqn:E; cbn [rbind] in H; [|discriminate].
    apply (IH (fun b y b' Hy => Hf b y b' (or_intror Hy)) a1); [|exact H].
    exact (Hf a x a1 (or_introl eq_refl) Ha E).
Qed.

(** Inverts a successful [let?]: the first computation succeeded. *)
Ltac rbind_inv H :=
  match type of H with
  | rbind ?r ?k = Ok _ =>
      let E := fresh "E" in
      destruct r as [?a|?e] eqn:E; cbn [rbind] in H; [|discriminate H]
  end.

(** ** Vectors: [std::vector] and [std::array] as lists *)

Fixpoint list_set {A : Type} (v : list A) (i : nat) (x : A) : option (list A) :=
  match v, i with
  | [], _ => None
  | _ :: t, O => Some (x :: t)
  | h :: t, S i' => option_map (cons h) (list_set t i' x)
  end.

(** [v.at(i)]. *)
Definition vec_at {A : Type} (v : list A) (i : Z) : result A :=
  if i <? 0 then Err OutOfRange
  else match nth_error v (Z.to_nat i) with Some x => Ok x | None => Err OutOfRange end.

(** [v[i]] read. *)
Definition vec_get {A : Type} (v : list A) (i : Z) : result A :=
  if i <? 0 then Err (Undefined OutOfBoundsAccess)
  else match nth_error v (Z.to_nat i) with
       | Some x => Ok x
       | None => Err (Undefined OutOfBoundsAccess)
       end.

(** [v[i] = x]. *)
Definition vec_set {A : Type} (v : list A) (i : Z) (x : A) : result (list A) :=
  if i <? 0 then Err (Undefined OutOfBoundsAccess)
  else match list_set v (Z.to_nat i) x with
       | Some v' => Ok v'
       | None => Err (Undefined OutOfBoundsAccess)
       end.


Lemma list_set_length {A : Type} (v : list A) i x v' :
  list_set v i x = Some v' -> List.length v' = List.length v.
Proof.
  revert i v'. induction v as [|h t IH]; intros [|i] v' H; cbn in H; try discriminate.
  - injection H as <-. reflexivity.
  - destruct (list_set t i x) eqn:E; cbn in H; [|discriminate].
    injection H as <-. cbn. f_equal. eapply IH. exact E.
Qed.

Lemma list_set_some {A : Type} (v : list A) n x :
  (n < List.length v)%nat -> exists v', list_set v n x = Some v'.
Proof.
  revert n. induction v as [|h t IH]; intros [|n] Hn; cbn [List.length list_set] in *; try lia.
  - exists (x :: t). reflexivity.
  - destruct (IH n) as [v' E]; [lia|]. rewrite E. exists (h :: v'). reflexivity.
Qed.

Lemma list_set_nth {A : Type} (v v' : list A) n x j :
  list_set v n x = Some v' -> nth_error v' j = if Nat.eqb j n then Some x else nth_error v j.
Proof.
  revert n v' j. induction v as [|h t IH]; intros [|n] v' j H; cbn in H; try discriminate.
  - injection H as <-. destruct j; reflexivity.
  - destruct (list_set t n x) as [t'|] eqn:E; cbn in H; [|discriminate]. injection H as <-.
    destruct j; [reflexivity|]. cbn [nth_error]. rewrite (IH _ _ _ E). reflexivity.
Qed.

Lemma list_set_Forall {A : Type} (P : A -> Prop) v i x v' :
  Forall P v -> P x -> list_set v i x = Some v' -> Forall P v'.
Proof.
  intros Hv Hx. revert i v'. induction Hv as [|h t Hh Ht IH]; intros [|i] v' H; cbn in H; try discriminate.
  - injection H as <-. constructor; assumption.
  - destruct (list_set t i x) eqn:E; cbn in H; [|discriminate].
    injection H as <-. constructor; [exact Hh|eapply IH; exact E].
Qed.

Lemma vec_set_inv {A : Type} (v : list A) i x v' :
  vec_set v i x = Ok v' -> list_set v (Z.to_nat i) x = Some v'.
Proof.
  unfold vec_set. destruct (i <? 0); [discriminate|].
  destruct (list_set v (Z.to_nat i) x); intros H; [injection H as <-; reflexivity|discriminate].
Qed.

(** [vec_set] succeeds exactly inside the vector, and fails only with
    an out-of-bounds access. *)
Lemma vec_set_ok_range {A : Type} (v : list A) i x v' :
  vec_set v i x = Ok v' -> 0 <= i < Z.of_nat (List.length v) /\ List.length v' = List.length v.
Proof.
  intros H. pose proof (vec_set_inv _ _ _ _ H) as E. unfold vec_set in H.
  destruct (Z.ltb_spec i 0); [discriminate|]. split; [|exact (list_set_length _ _ _ _ E)].
  split; [lia|]. destruct (Nat.ltb_spec (Z.to_nat i) (List.length v)) as [|Hge]; [lia|].
  assert (Hn : nth_error v' (Z.to_nat i) = None) by (apply nth_error_None; rewrite (list_set_length _ _ _ _ E); lia).
  rewrite (list_set_nth _ _ _ _ (Z.to_nat i) E), Nat.eqb_refl in Hn. discriminate.
Qed.

Lemma vec_set_err {A : Type} (v : list A) i x e : vec_set v i x = Err e -> e = Undefined OutOfBoundsAccess.
Proof.
  unfold vec_set. destruct (i <? 0); [congruence|]. destruct (list_set _ _ _); congruence.
Qed.

Lemma vec_get_In {A : Type} (v : list A) i x : vec_get v i = Ok x -> In x v.
Proof.
  unfold vec_get. destruct (i <? 0); [discriminate|].
  destruct (nth_error v (Z.to_nat i)) eqn:E; intros H; [|discriminate].
  injection H as <-. eapply nth_error_In. exact E.
Qed.

Lemma list_set_map_seq {A : Type} (f g : nat -> A) n k i :
  (k <= i < k + n)%nat -> (forall j, (k <= j < k + n)%nat -> j <> i -> f j = g j) ->
  list_set (map f (seq k n)) (i - k) (g i) = Some (map g (seq k n)).
Proof.
  revert k. induction n as [|n IH]; intros k Hi Hfg; [lia|].
  cbn [seq map]. destruct (Nat.eq_dec i k) as [->|Hne].
  - rewrite Nat.sub_diag. cbn. f_equal. f_equal. apply map_ext_in.
    intros j Hj. apply in_seq in Hj. apply Hfg; lia.
  - replace (i - k)%nat with (S (i - S k)) by lia. cbn [list_set].
    rewrite IH; [| lia | intros; apply Hfg; lia]. cbn. rewrite Hfg by lia. reflexivity.
Qed.

Lemma nth_error_map_seq {A : Type} (f : nat -> A) n i :
  (i < n)%nat -> nth_error (map f (seq 0 n)) i = Some (f i).
Proof. intros Hi. rewrite nth_error_map, nth_error_seq. destruct (Nat.ltb_spec i n); [reflexivity | lia]. Qed.

Lemma nth_error_map_seq_none {A : Type} (f : nat -> A) n i :
  (n <= i)%nat -> nth_error (map f (seq 0 n)) i = None.
Proof. intros Hi. apply nth_error_None. rewrite length_map, length_seq. exact Hi. Qed.

Lemma zseq_length n : List.length (zseq n) = Z.to_nat n.
Proof. unfold zseq. rewrite length_map, length_seq. reflexivity. Qed.

Lemma vec_get_zseq {A : Type} (f : Z -> A) n k : 0 <= k < n -> vec_get (map f (zseq n)) k = Ok (f k).
Proof.
  intros Hk. unfold vec_get, zseq. destruct (Z.ltb_spec k 0); [lia|].
  rewrite map_map, nth_error_map_seq by lia. rewrite Z2Nat.id by lia. reflexivity.
Qed.

Lemma vec_set_zseq {A : Type} (f : Z -> A) n k x :
  0 <= k < n -> vec_set (map f (zseq n)) k x = Ok (map (fun j => if j =? k then x else f j) (zseq n)).
Proof.
  intros Hk. unfold vec_set, zseq. destruct (Z.ltb_spec k 0); [lia|]. rewrite !map_map.
  pose proof (list_set_map_seq (fun j => f (Z.of_nat j))
                (fun j => if Z.of_nat j =? k then x else f (Z.of_nat j)) (Z.to_nat n) 0 (Z.to_nat k)) as Hset.
  cbv beta in Hset. rewrite Z2Nat.id, Z.eqb_refl, Nat.sub_0_r in Hset by lia.
  rewrite Hset; [reflexivity|lia|]. intros j Hj Hne. destruct (Z.eqb_spec (Z.of_nat j) k); [lia|reflexivity].
Qed.

Lemma rfold_app {A B : Type} (f : A -> B -> result A) l1 l2 a :
  rfold f (l1 ++ l2) a = rbind (rfold f l1 a) (rfold f l2).
Proof.
  revert a. induction l1 as [|x l1 IH]; intros a; cbn [rfold app]; [reflexivity|].
  destruct (f a x); cbn [rbind]; [apply IH|reflexivity].
Qed.
