(* ===== verification/Bytes.v ===== *)
(** * Byte sources: the shared [std::istream], [ByteStream], [SplitByte],
      [ComposeBytes]

    Models [components/include/byte-streams.h] and the byte-level half of
    [components/src/byte-streams.cpp].  The [istream] record is the one
    input that every reader of the decoder shares; [read_byte] is
    [stream.read(&c, 1)] and [seekg_back] is [stream.seekg(-2, cur)]. *)

From Stdlib Require Import String ZArith Bool List Lia.
From S2P Require Import Prelude.
Import ListNotations.
Open Scope Z_scope.
Open Scope jpeg_scope.

(** ** The input stream

    [failed] is the stream's [eofbit] together with [failbit]: the only
    operation of the program that sets them is a read past the end, which
    sets both.  A read on a failed stream extracts nothing (its sentry
    fails); so does a seek. *)
Record istream : Type := mk_istream {
  data : list Z;
  pos : nat;
  failed : bool
}.

Definition open_istream (bytes : list Z) : istream := mk_istream bytes 0 false.

(** [stream.read(reinterpret_cast<char*>(&c), 1)]: [Some b] when a byte
    was extracted, [None] when the destination was left unwritten. *)
Definition read_byte (s : istream) : option Z * istream :=
  if failed s then (None, s)
  else match nth_error (data s) (pos s) with
       | Some b => (Some b, mk_istream (data s) (S (pos s)) false)
       | None => (None, mk_istream (data s) (pos s) true)
       end.

(** [stream.seekg(-2, std::ios_base::cur)].  Seeking before the start
    fails and sets [failbit]. *)
Definition seekg_back (s : istream) : istream :=
  if failed s then s
  else match pos s with
       | S (S p) => mk_istream (data s) p false
       | _ => mk_istream (data s) (pos s) true
       end.

(** The bytes the stream still holds. *)
Definition remaining (s : istream) : list Z := skipn (pos s) (data s).

(** A good stream whose unread bytes are [l]. *)
Definition at_input (s : istream) (l : list Z) : Prop := failed s = false /\ remaining s = l.

Definition well_formed_input (s : istream) : Prop := Forall is_byte (data s).

(** ** [ByteStream] *)

Record byte_stream : Type := mk_byte_stream { bs_finished : bool }.

(** [ByteStream(std::istream&)]: [finished_(stream.eof())]. *)
Definition ByteStream_new (s : istream) : byte_stream := mk_byte_stream (failed s).

(** [ByteStream::Yield]: throws on a closed stream; otherwise reads one
    byte and records [eof()].  A read past the end returns the
    uninitialised local [read]; every caller of [Yield] compares or
    stores that value, so the model stops there with
    [Undefined UninitialisedRead]. *)
Definition Yield (bs : byte_stream) : st istream (Z * byte_stream) :=
  fun s =>
    if bs_finished bs then Err (RuntimeError "yielding from closed stream")
    else match read_byte s with
         | (Some b, s') => Ok ((b, mk_byte_stream (failed s')), s')
         | (None, _) => Err (Undefined UninitialisedRead)
         end.

(** ** [SplitByte] *)

Definition SplitByte (to_split : Z) : Z * Z :=
  (Z.shiftr (Z.land to_split 240) 4, Z.land to_split 15).

(** ** [ComposeBytes<T>]

    [returned |= byte << 8 * (bytes left - 1)], each store truncated to
    the [w] bits of [T]. *)
Fixpoint compose_loop (w : Z) (returned : Z) (bytes : list Z) : Z :=
  match bytes with
  | [] => returned
  | b :: rest =>
      compose_loop w
        (Z.land (Z.lor returned (Z.shiftl b (8 * Z.of_nat (List.length rest)))) (Z.ones w))
        rest
  end.

Definition ComposeBytes (w : Z) (bytes : list Z) : Z := compose_loop w 0 bytes.

(** The big-endian value of a byte list, the reference [ComposeBytes] is
    checked against. *)
Fixpoint be_value (bytes : list Z) : Z :=
  match bytes with
  | [] => 0
  | b :: rest => b * 2 ^ (8 * Z.of_nat (List.length rest)) + be_value rest
  end.

(** ** Lemmas *)

Lemma testbit_low_bound b k n :
  0 <= b < 2 ^ k -> k <= n -> Z.testbit b n = false.
Proof.
  intros Hb Hn. destruct (Z.eq_dec b 0) as [->|Hb0]; [apply Z.bits_0|].
  apply Z.bits_above_log2; [lia|].
  assert (2 ^ k <= 2 ^ n) by (apply Z.pow_le_mono_r; lia).
  apply Z.log2_lt_pow2; lia.
Qed.

Lemma land_shiftl_low a b k :
  0 <= k -> 0 <= b < 2 ^ k -> Z.land (Z.shiftl a k) b = 0.
Proof.
  intros Hk Hb. apply Z.bits_inj'. intros n Hn. rewrite Z.land_spec, Z.bits_0.
  destruct (Z.lt_ge_cases n k).
  - rewrite Z.shiftl_spec_low by lia. reflexivity.
  - rewrite (testbit_low_bound b k n) by lia. apply andb_false_r.
Qed.

Lemma lor_shiftl_low a b k :
  0 <= k -> 0 <= b < 2 ^ k -> Z.lor (Z.shiftl a k) b = Z.shiftl a k + b.
Proof.
  intros Hk Hb. pose proof (land_shiftl_low a b k Hk Hb) as H0.
  rewrite <- Z.lxor_lor by exact H0. symmetry. apply Z.add_nocarry_lxor. exact H0.
Qed.

Lemma pow_len_succ (n : nat) :
  2 ^ (8 * Z.of_nat (S n)) = 256 * 2 ^ (8 * Z.of_nat n).
Proof.
  rewrite Nat2Z.inj_succ, <- Z.add_1_r, Z.mul_add_distr_l, Z.pow_add_r by lia.
  change (2 ^ (8 * 1)) with 256. lia.
Qed.

Lemma pow_len_pos (n : nat) : 0 < 2 ^ (8 * Z.of_nat n).
Proof. apply Z.pow_pos_nonneg; lia. Qed.

Lemma be_value_range bytes :
  Forall is_byte bytes -> 0 <= be_value bytes < 2 ^ (8 * Z.of_nat (List.length bytes)).
Proof.
  induction 1 as [|b rest Hb _ IH]; cbn [be_value List.length]; [simpl; lia|].
  unfold is_byte in Hb. rewrite pow_len_succ.
  pose proof (pow_len_pos (List.length rest)). nia.
Qed.

Lemma compose_loop_be w x bytes :
  0 <= x -> Forall is_byte bytes ->
  x * 2 ^ (8 * Z.of_nat (List.length bytes)) + be_value bytes < 2 ^ w ->
  compose_loop w (x * 2 ^ (8 * Z.of_nat (List.length bytes))) bytes
  = x * 2 ^ (8 * Z.of_nat (List.length bytes)) + be_value bytes.
Proof.
  intros Hx Hall. revert x Hx.
  induction Hall as [|b rest Hb Hrest IH]; intros x Hx Hw;
    cbn [compose_loop be_value List.length] in *; [lia|].
  unfold is_byte in Hb. rewrite pow_len_succ in *.
  pose proof (be_value_range rest Hrest) as Hr.
  pose proof (pow_len_pos (List.length rest)) as Hp.
  set (n := 8 * Z.of_nat (List.length rest)) in *.
  assert (Hn : 0 <= n) by lia.
  replace (x * (256 * 2 ^ n)) with (Z.shiftl (Z.shiftl x 8) n)
    by (rewrite !Z.shiftl_mul_pow2 by lia; change (2 ^ 8) with 256; lia).
  rewrite <- Z.shiftl_lor, lor_shiftl_low by (change (2 ^ 8) with 256; lia).
  rewrite !Z.shiftl_mul_pow2 by lia.
  change (2 ^ 8) with 256.
  assert (Hw' : 0 <= w).
  { destruct (Z.neg_nonneg_cases w) as [Hneg|]; [|lia].
    rewrite (Z.pow_neg_r 2 w Hneg) in Hw.
    assert (0 <= x * (256 * 2 ^ n)) by (apply Z.mul_nonneg_nonneg; lia).
    assert (0 <= b * 2 ^ n) by (apply Z.mul_nonneg_nonneg; lia). lia. }
  rewrite Z.land_ones by exact Hw'.
  assert (0 <= x * 256 * 2 ^ n) by (apply Z.mul_nonneg_nonneg; lia).
  assert (0 <= b * 2 ^ n) by (apply Z.mul_nonneg_nonneg; lia).
  rewrite Z.mod_small by lia.
  rewrite (IH (x * 256 + b)) by lia. lia.
Qed.
(** The value [ComposeBytes] computes, for the lemmas of the readers. *)
Lemma ComposeBytes_value w bytes :
  Forall is_byte bytes -> 8 * Z.of_nat (List.length bytes) <= w ->
  ComposeBytes w bytes = be_value bytes.
Proof.
  intros Hall Hw. unfold ComposeBytes.
  pose proof (be_value_range bytes Hall) as Hr.
  assert (2 ^ (8 * Z.of_nat (List.length bytes)) <= 2 ^ w) by (apply Z.pow_le_mono_r; lia).
  pose proof (compose_loop_be w 0 bytes ltac:(lia) Hall) as Hc.
  rewrite Z.mul_0_l, !Z.add_0_l in Hc. apply Hc. lia.
Qed.

(** [ComposeBytes] computes the big-endian value of the bytes, as long
    as it fits the target width. *)
Lemma ComposeBytes_be w bytes :
  Forall is_byte bytes -> 8 * Z.of_nat (List.length bytes) <= w ->
  ComposeBytes w bytes = be_value bytes.
Proof. apply ComposeBytes_value. Qed.

(** [SplitByte] returns the two nibbles of a byte, high first. *)
Lemma SplitByte_spec b :
  is_byte b ->
  fst (SplitByte b) = b / 16 /\ snd (SplitByte b) = b mod 16.
Proof.
  unfold is_byte, SplitByte; cbn [fst snd]. intros Hb. split.
  - change 16 with (2 ^ 4). rewrite <- Z.shiftr_div_pow2 by lia.
    apply Z.bits_inj'. intros n Hn.
    rewrite !Z.shiftr_spec, Z.land_spec by lia.
    destruct (Z.lt_ge_cases n 4) as [Hlt|Hge].
    + assert (Hn4 : n = 0 \/ n = 1 \/ n = 2 \/ n = 3) by lia.
      destruct Hn4 as [E|[E|[E|E]]]; subst n; cbn - [Z.testbit]; apply andb_true_r.
    + rewrite (testbit_low_bound b 8 (n + 4)) by (change (2 ^ 8) with 256; lia). reflexivity.
  - change 15 with (Z.ones 4). rewrite Z.land_ones by lia. reflexivity.
Qed.

(** [SplitByte] of a byte returns two nibbles from which the byte is
    recomposed as [16 * hi + lo]. *)
Corollary SplitByte_recompose b :
  is_byte b ->
  let '(hi, lo) := SplitByte b in 0 <= hi < 16 /\ 0 <= lo < 16 /\ b = 16 * hi + lo.
Proof.
  intros Hb. pose proof (SplitByte_spec b Hb) as [H1 H2].
  destruct (SplitByte b) as [hi lo]; cbn [fst snd] in *; subst.
  unfold is_byte in Hb.
  pose proof (Z.div_mod b 16 ltac:(lia)). pose proof (Z.mod_pos_bound b 16 ltac:(lia)).
  split; [|split]; [split; [apply Z.div_pos | apply Z.div_lt_upper_bound] | |]; lia.
Qed.

(** Both halves of [SplitByte], of any value, are nibbles. *)
Lemma SplitByte_range b :
  let '(hi, lo) := SplitByte b in 0 <= hi <= 15 /\ 0 <= lo <= 15.
Proof.
  unfold SplitByte. rewrite Z.shiftr_land. change (Z.shiftr 240 4) with (Z.ones 4).
  rewrite Z.land_ones by lia. replace (Z.land b 15) with (Z.land b (Z.ones 4)) by reflexivity.
  rewrite Z.land_ones by lia. change (2 ^ 4) with 16.
  pose proof (Z.mod_pos_bound (Z.shiftr b 4) 16 ltac:(lia)).
  pose proof (Z.mod_pos_bound b 16 ltac:(lia)). lia.
Qed.

(** The nibbles of [16 * hi + lo]. *)
Lemma SplitByte_nibbles hi lo :
  0 <= hi < 16 -> 0 <= lo < 16 -> SplitByte (16 * hi + lo) = (hi, lo).
Proof.
  intros Hh Hl. assert (Hb : is_byte (16 * hi + lo)) by (unfold is_byte; lia).
  destruct (SplitByte_spec _ Hb) as [H1 H2]. destruct (SplitByte (16 * hi + lo)) as [h l].
  cbn [fst snd] in H1, H2. subst. f_equal.
  - symmetry. apply Z.div_unique with lo; lia.
  - symmetry. apply Z.mod_unique with hi; lia.
Qed.

(** [Yield] on an open stream returns the byte at the read position. *)
Lemma Yield_ok bs s b :
  bs_finished bs = false -> failed s = false -> nth_error (data s) (pos s) = Some b ->
  Yield bs s = Ok ((b, mk_byte_stream false), mk_istream (data s) (S (pos s)) false).
Proof. intros Hbs Hf Hn. unfold Yield, read_byte. now rewrite Hbs, Hf, Hn. Qed.

(** Past the end of the data, [Yield] hands its caller an uninitialised
    byte. *)
Lemma Yield_past_end bs s :
  bs_finished bs = false -> failed s = false -> (List.length (data s) <= pos s)%nat ->
  Yield bs s = Err (Undefined UninitialisedRead).
Proof.
  intros Hbs Hf Hn. unfold Yield, read_byte. rewrite Hbs, Hf.
  now rewrite (proj2 (nth_error_None (data s) (pos s)) Hn).
Qed.


Lemma remaining_nth s c rest :
  remaining s = c :: rest -> nth_error (data s) (pos s) = Some c.
Proof.
  unfold remaining. revert s. intros [d p f]; cbn. revert d.
  induction p as [|p IH]; intros [|x d] H; cbn in *; try discriminate.
  - congruence.
  - apply IH. exact H.
Qed.

Lemma remaining_next s c rest :
  remaining s = c :: rest -> remaining (mk_istream (data s) (S (pos s)) false) = rest.
Proof.
  unfold remaining. revert s. intros [d p f]; cbn. revert d.
  induction p as [|p IH]; intros [|x d] H; cbn in *; try discriminate.
  - congruence.
  - apply IH. exact H.
Qed.

(** One byte read from a good stream that still holds [c]. *)
Lemma read_byte_ok s c rest :
  failed s = false -> remaining s = c :: rest ->
  read_byte s = (Some c, mk_istream (data s) (S (pos s)) false).
Proof.
  intros Hf Hr. unfold read_byte. rewrite Hf, (remaining_nth s c rest Hr). reflexivity.
Qed.

(** [Yield] on a good stream takes the next byte and leaves the rest. *)
Lemma Yield_at bs s c rest :
  bs_finished bs = false -> at_input s (c :: rest) ->
  exists s', Yield bs s = Ok ((c, mk_byte_stream false), s') /\ at_input s' rest.
Proof.
  intros Hbs [Hf Hr]. exists (mk_istream (data s) (S (pos s)) false).
  split; [apply Yield_ok; eauto using remaining_nth|].
  split; [reflexivity | exact (remaining_next s c rest Hr)].
Qed.

(** A successful [Yield] consumes exactly one byte. *)
Lemma Yield_consumes bs s b bs' s' :
  Yield bs s = Ok ((b, bs'), s') ->
  (List.length (remaining s') + 1 = List.length (remaining s))%nat /\ failed s' = false.
Proof.
  unfold Yield, read_byte, remaining. destruct (bs_finished bs); [discriminate|].
  destruct (failed s); [discriminate|].
  destruct (nth_error (data s) (pos s)) eqn:E; [|discriminate].
  intros H; injection H as <- <- <-.
  assert (pos s < List.length (data s))%nat by (apply nth_error_Some; congruence).
  cbn [data pos]. rewrite !length_skipn. split; [lia | reflexivity].
Qed.

(** Two bytes composed into a [uint16_t]. *)
Lemma ComposeBytes_u16 hi lo :
  is_byte hi -> is_byte lo -> ComposeBytes 16 [hi; lo] = 256 * hi + lo.
Proof.
  intros Hh Hl. rewrite ComposeBytes_value; [simpl be_value; change (2 ^ (8 * Z.of_nat 1)) with 256; change (2 ^ (8 * Z.of_nat 0)) with 1; lia | apply Forall_cons; [exact Hh|]; apply Forall_cons; [exact Hl|]; constructor | cbn; lia].
Qed.

Lemma ComposeBytes_be_witness :
  Forall is_byte [1; 255] /\ 8 * Z.of_nat (List.length [1; 255]) <= 16 /\
  ComposeBytes 16 [1; 255] = be_value [1; 255].
Proof.
  assert (H : Forall is_byte [1; 255]) by (repeat constructor; unfold is_byte; lia).
  split; [exact H|]. split; [cbn; lia|].
  apply (ComposeBytes_be 16 [1; 255] H). cbn; lia.
Defined.

Lemma SplitByte_recompose_witness :
  is_byte 171 /\ (let '(hi, lo) := SplitByte 171 in
                  0 <= hi < 16 /\ 0 <= lo < 16 /\ 171 = 16 * hi + lo).
Proof.
  split; [unfold is_byte; lia|]. apply SplitByte_recompose. unfold is_byte; lia.
Defined.

(** The test [ComposeBytes.Correcntess]. *)
Example ComposeBytes_tests :
  ComposeBytes 16 [1; 255] = 511 /\ ComposeBytes 32 [255; 0; 255; 0] = 4278255360
  /\ ComposeBytes 32 [4] = 4.
Proof. vm_compute. repeat split. Qed.
