(* ===== verification/BitStream.v ===== *)
(** * The bit reader: [BitStream] with byte un-stuffing

    Models [BitStream] of [components/src/byte-streams.cpp]: its
    constructor, [UpdateWord], [Yield], [YieldByte], and the two n-bit
    readers [ComposeNBitsLE] and [ComposeNBitsBE].  The bit reader and the
    [istream] it wraps form the state [reader] of the monad. *)

From Stdlib Require Import String ZArith Bool List Lia.
From S2P Require Import Prelude Bytes.
Import ListNotations.
Open Scope Z_scope.
Open Scope jpeg_scope.

(** [std::optional<std::uint8_t> current_word_]: empty, a byte, or the
    uninitialised local that a failed read assigned to it. *)
Inductive word : Type :=
| NoWord
| Word (b : Z)
| Junk.

Record bit_stream : Type := mk_bit_stream {
  current_word : word;
  read_mask : Z;
  bit_finished : bool;
  staffing : bool
}.

(** The bit reader together with the stream it reads. *)
Definition reader : Type := (bit_stream * istream)%type.

(** [BitStream(std::istream&, bool staffing = true)]. *)
Definition BitStream_new (s : istream) (staffing_on : bool) : bit_stream :=
  mk_bit_stream NoWord 128 (failed s) staffing_on.

Definition IsFinished (b : bit_stream) : bool := bit_finished b.

(** Runs a computation on the underlying stream only. *)
Definition on_input {A : Type} (c : st istream A) : st reader A :=
  fun '(b, s) => match c s with
                 | Ok (a, s') => Ok (a, (b, s'))
                 | Err e => Err e
                 end.

(** [BitStream::UpdateWord]. *)
Definition UpdateWord : st reader unit :=
  fun '(b, s) =>
    match read_byte s with
    | (None, s1) => Ok (tt, (mk_bit_stream Junk 128 (failed s1) (staffing b), s1))
    | (Some x, s1) =>
        let b1 := mk_bit_stream (Word x) 128 (failed s1) (staffing b) in
        if failed s1 then Ok (tt, (b1, s1))
        else if (x =? 255) && staffing b then
          match read_byte s1 with
          | (None, _) => Err (Undefined UninitialisedRead)
          | (Some y, s2) =>
              if negb (y =? 0) && negb (y =? 255)
              then Ok (tt, (mk_bit_stream (Word x) 128 true (staffing b), seekg_back s2))
              else Ok (tt, (b1, s2))
          end
        else Ok (tt, (b1, s1))
    end.

(** [BitStream::Yield], in its two steps: fill an empty word, then take
    the bit under [read_mask_], shift the mask, refill after bit 0. *)
Definition fill_word : st reader unit :=
  fun '(b, s) => match current_word b with
                 | NoWord => UpdateWord (b, s)
                 | _ => Ok (tt, (b, s))
                 end.

Definition take_bit : st reader bool :=
  fun '(b, s) =>
    match current_word b with
    | Word x =>
        let bit := negb (Z.land x (read_mask b) =? 0) in
        let b' := mk_bit_stream (Word x) (Z.shiftr (read_mask b) 1)
                    (bit_finished b) (staffing b) in
        if read_mask b' =? 0 then (UpdateWord ;; ret bit) (b', s)
        else Ok (bit, (b', s))
    | Junk => Err (Undefined UninitialisedRead)
    | NoWord => Err BadOptionalAccess
    end.

Definition Yield_bit : st reader bool := fill_word ;; take_bit.

(** [BitStream::YieldByte]: [returned |= y << bit] for [bit = 7 .. 0]. *)
Fixpoint yield_byte_loop (bit : nat) (returned : Z) : st reader Z :=
  let* y := Yield_bit in
  let returned' := to_uint8 (Z.lor returned (Z.shiftl (Z.b2z y) (Z.of_nat bit))) in
  match bit with
  | O => ret returned'
  | S bit' => yield_byte_loop bit' returned'
  end.

Definition YieldByte : st reader Z := yield_byte_loop 7 0.

(** [ComposeNBitsLE]: [returned <<= 1; returned += bit], in [uint16_t]. *)
Fixpoint compose_le_loop (n : nat) (returned : Z) : st reader Z :=
  match n with
  | O => ret returned
  | S n' =>
      let* bit := Yield_bit in
      compose_le_loop n' (to_uint16 (to_uint16 (Z.shiftl returned 1) + Z.b2z bit))
  end.

Definition ComposeNBitsLE (n : nat) : st reader Z := compose_le_loop n 0.

(** [ComposeNBitsBE]: [returned |= (bit << i)]; the shift is done in
    [int], so a count of 32 or more is undefined. *)
Fixpoint compose_be_loop (i : nat) (n : nat) (returned : Z) : st reader Z :=
  match n with
  | O => ret returned
  | S n' =>
      let* bit := Yield_bit in
      if (32 <=? Z.of_nat i) then raise (Undefined ShiftPastWidth)
      else compose_be_loop (S i) n'
             (to_uint16 (Z.lor returned (Z.shiftl (Z.b2z bit) (Z.of_nat i))))
  end.

Definition ComposeNBitsBE (n : nat) : st reader Z := compose_be_loop 0 n 0.

(** ** Specification: the bits of a byte and stuffed scan data *)

(** The bits of a byte, most significant first. *)
Definition bits_msb (b : Z) : list bool :=
  map (fun j => Z.testbit b j) [7; 6; 5; 4; 3; 2; 1; 0].

(** The encoder's byte stuffing: a [0x00] after every [0xFF]. *)
Definition stuff (ecs : list Z) : list Z :=
  flat_map (fun b => if b =? 255 then [255; 0] else [b]) ecs.

(** A marker that ends entropy-coded data: [0xFF] and a byte that is
    neither [0x00] nor [0xFF]. *)
Definition is_marker_byte (m : Z) : Prop := is_byte m /\ m <> 0 /\ m <> 255.

(** Running [Yield] on a fresh reader. *)
Definition read_bits (n : nat) (s : istream) : result (list bool * reader) :=
  repeat_st n Yield_bit (BitStream_new s true, s).

(** [map (Z.testbit b) (desc j)] lists bits [j], [j-1], ..., [0]. *)
Fixpoint desc (j : nat) : list Z :=
  Z.of_nat j :: match j with O => [] | S j' => desc j' end.

(** ** Lemmas: one bit, one byte, one [UpdateWord] *)

Lemma land_pow2_eqb x j :
  0 <= j -> (Z.land x (2 ^ j) =? 0) = negb (Z.testbit x j).
Proof.
  intros Hj.
  assert (E : Z.land x (2 ^ j) = if Z.testbit x j then 2 ^ j else 0).
  { apply Z.bits_inj'. intros n Hn. rewrite Z.land_spec, Z.pow2_bits_eqb by lia.
    destruct (Z.eqb_spec j n) as [<-|Hne].
    - destruct (Z.testbit x j); [rewrite Z.pow2_bits_true | rewrite Z.bits_0]; auto.
    - rewrite andb_false_r. destruct (Z.testbit x j); [|now rewrite Z.bits_0].
      rewrite Z.pow2_bits_eqb by lia. symmetry. apply Z.eqb_neq. exact Hne. }
  rewrite E. destruct (Z.testbit x j); [|reflexivity].
  apply Z.eqb_neq. apply Z.pow_nonzero; lia.
Qed.

Lemma shiftr_pow2_succ (j : nat) : Z.shiftr (2 ^ Z.of_nat (S j)) 1 = 2 ^ Z.of_nat j.
Proof.
  rewrite Z.shiftr_div_pow2 by lia. rewrite Nat2Z.inj_succ, Z.pow_succ_r by lia.
  change (2 ^ 1) with 2. rewrite Z.mul_comm. apply Z.div_mul. lia.
Qed.

(** Reading bits [j .. 0] of the current word, then refilling it. *)
Lemma yield_word_bits j x f st0 s :
  repeat_st (S j) Yield_bit (mk_bit_stream (Word x) (2 ^ Z.of_nat j) f st0, s)
  = match UpdateWord (mk_bit_stream (Word x) 0 f st0, s) with
    | Ok (_, r) => Ok (map (Z.testbit x) (desc j), r)
    | Err e => Err e
    end.
Proof.
  revert s. induction j as [|j IH]; intros s.
  - cbn [repeat_st]. unfold Yield_bit, fill_word, take_bit, bind, ret. cbn -[UpdateWord Z.land Z.testbit].
    change 1 with (2 ^ 0). rewrite (land_pow2_eqb x 0) by lia.
    rewrite negb_involutive. destruct (UpdateWord _) as [[[] r]|e]; reflexivity.
  - rewrite repeat_st_S. unfold bind at 1. unfold Yield_bit at 1, fill_word at 1, take_bit at 1, bind at 1.
    cbn [current_word read_mask bit_finished staffing].
    rewrite shiftr_pow2_succ.
    assert (Hnz : (2 ^ Z.of_nat j =? 0) = false) by (apply Z.eqb_neq, Z.pow_nonzero; lia).
    rewrite Hnz, land_pow2_eqb, negb_involutive by lia.
    unfold bind at 1. rewrite IH.
    destruct (UpdateWord _) as [[[] r]|e]; reflexivity.
Qed.

Lemma bits_msb_desc b : bits_msb b = map (Z.testbit b) (desc 7).
Proof. reflexivity. Qed.

Section UpdateWordOnGoodStream.
Variable b : bit_stream.
Variable s : istream.
Hypothesis Hgood : failed s = false.

Lemma UpdateWord_plain x rest :
  x <> 255 -> remaining s = x :: rest ->
  UpdateWord (b, s)
  = Ok (tt, (mk_bit_stream (Word x) 128 false (staffing b),
             mk_istream (data s) (S (pos s)) false)).
Proof.
  intros Hx Hr. unfold UpdateWord. rewrite (read_byte_ok s x rest Hgood Hr). cbn [failed].
  apply Z.eqb_neq in Hx. now rewrite Hx.
Qed.

Lemma UpdateWord_stuffed rest :
  staffing b = true -> remaining s = 255 :: 0 :: rest ->
  UpdateWord (b, s)
  = Ok (tt, (mk_bit_stream (Word 255) 128 false true,
             mk_istream (data s) (S (S (pos s))) false)).
Proof.
  intros Hst Hr. unfold UpdateWord. rewrite (read_byte_ok s 255 _ Hgood Hr). cbn [failed].
  rewrite Hst. cbn [Z.eqb andb].
  rewrite (read_byte_ok _ 0 rest) by (reflexivity || exact (remaining_next s _ _ Hr)).
  reflexivity.
Qed.

(** A marker: the reader keeps [0xFF] as its word, finishes, and puts
    both marker bytes back. *)
Lemma UpdateWord_marker m rest :
  staffing b = true -> m <> 0 -> m <> 255 -> remaining s = 255 :: m :: rest ->
  UpdateWord (b, s)
  = Ok (tt, (mk_bit_stream (Word 255) 128 true true, mk_istream (data s) (pos s) false)).
Proof.
  intros Hst Hm0 Hm1 Hr. unfold UpdateWord. rewrite (read_byte_ok s 255 _ Hgood Hr). cbn [failed].
  rewrite Hst. cbn [Z.eqb andb].
  rewrite (read_byte_ok _ m rest) by (reflexivity || exact (remaining_next s _ _ Hr)).
  apply Z.eqb_neq in Hm0, Hm1. rewrite Hm0, Hm1. reflexivity.
Qed.
End UpdateWordOnGoodStream.

Lemma UpdateWord_word b s b' s' :
  UpdateWord (b, s) = Ok (tt, (b', s')) -> current_word b' <> NoWord.
Proof.
  unfold UpdateWord. destruct (read_byte s) as [[x|] s1].
  - destruct (failed s1); [intros H; injection H as <- <-; discriminate|].
    destruct ((x =? 255) && staffing b); [|intros H; injection H as <- <-; discriminate].
    destruct (read_byte s1) as [[y|] s2]; [|discriminate].
    destruct (negb (y =? 0) && negb (y =? 255)); intros H; injection H as <- <-; discriminate.
  - intros H. injection H as <- <-. discriminate.
Qed.

(** The first [Yield] of a fresh reader fills the word first. *)
Lemma repeat_from_noword n b s :
  current_word b = NoWord ->
  repeat_st (S n) Yield_bit (b, s) = bind UpdateWord (fun _ => repeat_st (S n) Yield_bit) (b, s).
Proof.
  intros Hw. rewrite repeat_st_S. unfold Yield_bit at 1. rewrite bind_assoc.
  unfold bind at 1. unfold fill_word at 1. rewrite Hw.
  destruct (UpdateWord (b, s)) as [[[] [b' s']]|e] eqn:Hu.
  2: { symmetry. now apply bind_err. }
  rewrite (bind_ok _ _ _ _ _ Hu). pose proof (UpdateWord_word _ _ _ _ Hu) as Hw'.
  rewrite repeat_st_S. unfold Yield_bit. rewrite bind_assoc.
  rewrite (bind_ok fill_word _ (b', s') tt (b', s')); [reflexivity|].
  unfold fill_word. destruct (current_word b'); [congruence|reflexivity|reflexivity].
Qed.

(** Eight [Yield]s read a whole word, most significant bit first. *)
Lemma yield_word_byte x f st0 s r :
  UpdateWord (mk_bit_stream (Word x) 0 f st0, s) = Ok (tt, r) ->
  repeat_st 8 Yield_bit (mk_bit_stream (Word x) 128 f st0, s) = Ok (bits_msb x, r).
Proof.
  intros Hu. change 128 with (2 ^ Z.of_nat 7). rewrite yield_word_bits, Hu. reflexivity.
Qed.

(** The scan after the current word [x]: [8] bits per byte until the
    marker, which finishes the reader and is put back. *)
Lemma yield_stuffed_bytes ecs x f s m tail :
  failed s = false -> is_marker_byte m ->
  remaining s = stuff ecs ++ 255 :: m :: tail ->
  repeat_st (8 * S (List.length ecs)) Yield_bit (mk_bit_stream (Word x) 128 f true, s)
  = Ok (List.concat (map bits_msb (x :: ecs)),
        (mk_bit_stream (Word 255) 128 true true,
         mk_istream (data s) (pos s + List.length (stuff ecs)) false)).
Proof.
  intros Hf [_ [Hm0 Hm1]]. revert x f s Hf.
  induction ecs as [|y ecs IH]; intros x f s Hf Hr.
  - cbn [stuff flat_map app] in Hr. change (8 * S (List.length (@nil Z)))%nat with 8%nat.
    rewrite (yield_word_byte x f true s _ (UpdateWord_marker (mk_bit_stream (Word x) 0 f true) s Hf m tail eq_refl Hm0 Hm1 Hr)).
    cbn [List.concat map List.length stuff flat_map]. rewrite app_nil_r, Nat.add_0_r. reflexivity.
  - replace (8 * S (List.length (y :: ecs)))%nat with (8 + 8 * S (List.length ecs))%nat
      by (cbn [List.length]; lia).
    rewrite repeat_st_add.
    cbn [stuff flat_map] in Hr. fold (stuff ecs) in Hr.
    destruct (Z.eqb_spec y 255) as [->|Hy]; cbn [app] in Hr.
    + rewrite (bind_ok _ _ _ _ _ (yield_word_byte x f true s _
               (UpdateWord_stuffed (mk_bit_stream (Word x) 0 f true) s Hf _ eq_refl Hr))).
      rewrite (bind_ok _ _ _ _ _ (IH 255 false (mk_istream (data s) (S (S (pos s))) false) eq_refl
               (remaining_next _ _ _ (remaining_next s _ _ Hr)))).
      unfold ret. cbn [data pos stuff flat_map List.concat map Z.eqb app List.length].
      fold (stuff ecs). do 4 f_equal. cbn [Pos.eqb app List.length]. lia.
    + rewrite (bind_ok _ _ _ _ _ (yield_word_byte x f true s _
               (UpdateWord_plain (mk_bit_stream (Word x) 0 f true) s Hf y _ Hy Hr))).
      rewrite (bind_ok _ _ _ _ _ (IH y false (mk_istream (data s) (S (pos s)) false) eq_refl (remaining_next s _ _ Hr))).
      unfold ret. cbn [data pos stuff flat_map List.concat map app List.length].
      fold (stuff ecs). apply Z.eqb_neq in Hy. rewrite Hy. cbn [app List.length].
      do 4 f_equal. lia.
Qed.

(** ** Byte-stuffing transparency

    A fresh reader over stuffed entropy-coded data [stuff ecs] followed by
    a marker yields exactly the bits of [ecs], most significant bit first;
    after the last of them it reports [IsFinished], and the stream stands
    at the marker's [0xFF], which the reader has put back. *)

(** C3 Byte-stuffing transparency: a fresh [BitStream] over stuffed
    entropy-coded bytes followed by a marker yields the bits of the
    unstuffed bytes, most significant first, and ends finished with the
    stream put back on the marker's 0xFF. *)
Theorem read_bits_stuffed ecs m tail :
  ecs <> [] -> is_marker_byte m ->
  read_bits (8 * List.length ecs) (open_istream (stuff ecs ++ 255 :: m :: tail))
  = Ok (List.concat (map bits_msb ecs),
        (mk_bit_stream (Word 255) 128 true true,
         mk_istream (stuff ecs ++ 255 :: m :: tail) (List.length (stuff ecs)) false)).
Proof.
  intros Hne Hm. destruct ecs as [|x ecs]; [congruence|].
  unfold read_bits. set (inp := open_istream _).
  replace (8 * List.length (x :: ecs))%nat with (S (7 + 8 * List.length ecs))
    by (cbn [List.length]; lia).
  rewrite repeat_from_noword by reflexivity.
  replace (S (7 + 8 * List.length ecs)) with (8 * S (List.length ecs))%nat by lia.
  assert (Hr : remaining inp = stuff (x :: ecs) ++ 255 :: m :: tail) by reflexivity.
  cbn [stuff flat_map] in Hr. fold (stuff ecs) in Hr.
  destruct (Z.eqb_spec x 255) as [->|Hx]; cbn [app] in Hr.
  - rewrite (bind_ok _ _ _ _ _ (UpdateWord_stuffed (BitStream_new inp true) inp eq_refl _ eq_refl Hr)).
    rewrite (yield_stuffed_bytes ecs 255 false (mk_istream (data inp) (S (S (pos inp))) false) m tail eq_refl Hm
               (remaining_next _ _ _ (remaining_next inp _ _ Hr))).
    reflexivity.
  - rewrite (bind_ok _ _ _ _ _ (UpdateWord_plain (BitStream_new inp true) inp eq_refl x _ Hx Hr)).
    cbn [staffing BitStream_new].
    rewrite (yield_stuffed_bytes ecs x false (mk_istream (data inp) (S (pos inp)) false) m tail eq_refl Hm (remaining_next inp _ _ Hr)).
    cbn [data pos inp open_istream stuff flat_map List.length app].
    apply Z.eqb_neq in Hx. rewrite Hx. reflexivity.
Qed.

(** The test [BitReader.LittleEndiannes]: [0x01 0x80] gives
    [0000 0001 1000 0000], and the reader is finished after the 16th
    bit. *)
Example bit_order_01_80 :
  match read_bits 16 (open_istream [1; 128]) with
  | Ok (bits, (b, _)) => Some (bits, IsFinished b)
  | Err _ => None
  end
  = Some ([false; false; false; false; false; false; false; true;
           true; false; false; false; false; false; false; false], true).
Proof. vm_compute. reflexivity. Qed.

Lemma read_bits_stuffed_witness :
  [255; 7] <> [] /\ is_marker_byte 217 /\
  read_bits 16 (open_istream [255; 0; 7; 255; 217])
  = Ok (List.concat (map bits_msb [255; 7]),
        (mk_bit_stream (Word 255) 128 true true,
         mk_istream [255; 0; 7; 255; 217] 3 false)).
Proof.
  split; [discriminate|]. split; [unfold is_marker_byte, is_byte; lia|].
  exact (read_bits_stuffed [255; 7] 217 [] ltac:(discriminate)
           ltac:(unfold is_marker_byte, is_byte; lia)).
Defined.
