(* ===== verification/Huffman.v ===== *)
(** * The Huffman tree: construction by a cursor walk, and decoding

    Models [components/include/huffman.h] ([HuffmanNode], [AddNode],
    [HuffmanTree::FromSequence]) and [DecodeByte] of
    [jpeg-decoder/src/decoder.cpp].

    A [HuffmanNode*] is a [tree], with [Nil] for [nullptr].  The parent
    pointers are only used to move the cursor [current] up, so the cursor
    is a zipper: the focused node and the frames of its ancestors,
    innermost first.  Plugging the focus back into its frames ([zip])
    gives the tree that [root] owns. *)

From Stdlib Require Import String ZArith Bool List Lia.
From S2P Require Import Prelude Bytes BitStream.
Import ListNotations.
Open Scope Z_scope.
Open Scope jpeg_scope.

(** ** Nodes and the cursor *)

(** [HuffmanNode]: [left], [right], [value], [level]. *)
Inductive tree : Type :=
| Nil
| Node (left right : tree) (value : option Z) (level : nat).

(** The node a cursor came from: [InLeft r v lvl] when the cursor is the
    left child of a node with right child [r], value [v] and level
    [lvl]; [InRight] symmetrically. *)
Inductive frame : Type :=
| InLeft (right : tree) (value : option Z) (level : nat)
| InRight (left : tree) (value : option Z) (level : nat).

Definition cursor : Type := (tree * list frame)%type.

Definition plug (t : tree) (fr : frame) : tree :=
  match fr with
  | InLeft r v lvl => Node t r v lvl
  | InRight l v lvl => Node l t v lvl
  end.

Fixpoint zip_up (t : tree) (ctx : list frame) : tree :=
  match ctx with
  | [] => t
  | fr :: ctx' => zip_up (plug t fr) ctx'
  end.

Definition zip (c : cursor) : tree := zip_up (fst c) (snd c).

(** [current = current->parent]. *)
Definition parent (c : cursor) : result cursor :=
  match snd c with
  | [] => Err (Undefined NullDereference)
  | fr :: ctx => Ok (plug (fst c) fr, ctx)
  end.

Definition new_node (level : nat) : tree := Node Nil Nil None level.

(** The loop of [HuffmanNode::AddNode]: while the level differs, create
    the left child, else the right child, else go up.  Going up from the
    root makes [current] null, and the loop condition then reads
    [current->level]: undefined behaviour (the [nullptr] test inside the
    loop comes too late to catch it). *)
Fixpoint add_loop (fuel : nat) (new_value : Z) (new_level : nat) (c : cursor) : result cursor :=
  match fst c with
  | Nil => Err (Undefined NullDereference)
  | Node l r v lvl =>
      if Nat.eqb new_level lvl then Ok (Node l r (Some new_value) lvl, snd c)
      else match fuel with
           | O => Err OutOfFuel
           | S fuel' =>
               match l, r with
               | Nil, _ => add_loop fuel' new_value new_level
                             (new_node (S lvl), InLeft r v lvl :: snd c)
               | _, Nil => add_loop fuel' new_value new_level
                             (new_node (S lvl), InRight l v lvl :: snd c)
               | _, _ =>
                   match snd c with
                   | [] => Err (Undefined NullDereference)
                   | fr :: ctx => add_loop fuel' new_value new_level (plug (fst c) fr, ctx)
                   end
               end
           end
  end.

(** [HuffmanNode::AddNode]: the walk climbs at most to the root and then
    descends at most to [new_level], which the fuel covers. *)
Definition AddNode (c : cursor) (new_value : Z) (new_level : nat) : result cursor :=
  add_loop (List.length (snd c) + new_level + 1) new_value new_level c.

(** [HuffmanTree]: the [root] it owns ([Nil] for a null [root]). *)
Record huffman_tree : Type := mk_huffman_tree { root : tree }.

(** The inner loop of [FromSequence]: [card] symbols of one level; each
    is added from [current], and [current] moves to the new leaf's parent.
    [*value_it] past the end of [values] is undefined. *)
Fixpoint insert_level (card : nat) (level : nat) (c : cursor) (values : list Z)
  : result (cursor * list Z) :=
  match card with
  | O => Ok (c, values)
  | S card' =>
      match values with
      | [] => Err (Undefined OutOfBoundsAccess)
      | v :: vs =>
          let? inserted := AddNode c v level in
          let? c' := parent inserted in
          insert_level card' level c' vs
      end
  end.

(** The outer loop, over [per_level[level_idx]] for levels [1 .. 16]. *)
Fixpoint from_levels (per_level : list Z) (level_idx : nat) (c : cursor) (values : list Z)
  : result (cursor * list Z) :=
  match per_level with
  | [] => Ok (c, values)
  | card :: rest =>
      let? (c', values') := insert_level (Z.to_nat card) (S level_idx) c values in
      from_levels rest (S level_idx) c' values'
  end.

(** [HuffmanTree::FromSequence]. *)
Definition FromSequence (per_level : list Z) (values : list Z) : result huffman_tree :=
  match values with
  | [] => Ok (mk_huffman_tree Nil)
  | _ =>
      let? (c, _) := from_levels per_level 0 (new_node 0, []) values in
      Ok (mk_huffman_tree (zip c))
  end.

(** [HuffmanNode::IsTerminal]. *)
Definition IsTerminal (t : tree) : bool :=
  match t with
  | Node Nil Nil _ _ => true
  | _ => false
  end.

(** [DecodeByte] of [decoder.cpp]: from the root, one [Yield] per
    non-terminal node, [right] on 1 and [left] on 0; a null child throws;
    at a terminal node [value.value()].  The recursion follows the tree,
    so it needs no fuel. *)
Fixpoint decode_from (t : tree) : st reader Z :=
  match t with
  | Nil => raise (Undefined NullDereference)
  | Node l r v _ =>
      if IsTerminal t then
        match v with Some x => ret x | None => raise BadOptionalAccess end
      else
        let* bit := Yield_bit in
        if bit then
          match r with
          | Nil => raise (RuntimeError "error getting huffman code")
          | Node _ _ _ _ => decode_from r
          end
        else
          match l with
          | Nil => raise (RuntimeError "error getting huffman code")
          | Node _ _ _ _ => decode_from l
          end
  end.

Definition DecodeByte (t : huffman_tree) : st reader Z := decode_from (root t).

(** ** Specification: canonical codes as bit paths

    A code is a path of bits from the root ([false] = left).  The
    construction is easiest to follow on reversed paths ([rp]: the last
    bit first), where the canonical successor of a code is a binary
    increment followed by zero padding (JPEG, Annex C). *)

(** The node at a path (root first); [Nil] where there is none. *)
Fixpoint subtree_at (t : tree) (p : list bool) {struct p} : tree :=
  match p with
  | [] => t
  | b :: p' =>
      match t with
      | Nil => Nil
      | Node l r _ _ => subtree_at (if b then r else l) p'
      end
  end.

Definition leaf (v : Z) (lvl : nat) : tree := Node Nil Nil (Some v) lvl.

(** Binary increment of a reversed path, keeping its length; [None] when
    every bit is 1. *)
Fixpoint incr (rp : list bool) : option (list bool) :=
  match rp with
  | [] => None
  | false :: t => Some (true :: t)
  | true :: t => option_map (cons false) (incr t)
  end.

(** The code after [rp], for a symbol of length [s]. *)
Definition next_code (rp : list bool) (s : nat) : option (list bool) :=
  option_map (fun r => repeat false (s - List.length rp) ++ r) (incr rp).

(** The code of a symbol of length [s] after the code [prev] (none for
    the first symbol, whose code is all zeros). *)
Definition next_of (prev : option (list bool)) (s : nat) : option (list bool) :=
  match prev with
  | None => Some (repeat false s)
  | Some rp => next_code rp s
  end.

(** The codes of symbols of lengths [sizes], after the code [prev]. *)
Fixpoint canon_from (prev : option (list bool)) (sizes : list nat)
  : option (list (list bool)) :=
  match sizes with
  | [] => Some []
  | s :: rest =>
      match next_of prev s with
      | None => None
      | Some rp' => option_map (cons rp') (canon_from (Some rp') rest)
      end
  end.

(** The code lengths that [per_level] lists: [per_level[i]] symbols of
    length [i + 1]. *)
Fixpoint sizes_from (level_idx : nat) (per_level : list Z) : list nat :=
  match per_level with
  | [] => []
  | card :: rest => repeat (S level_idx) (Z.to_nat card) ++ sizes_from (S level_idx) rest
  end.

(** The canonical codes of a DHT table, as root-first paths; [None] when
    the lengths overflow the binary tree. *)
Definition canonical_codes (per_level : list Z) : option (list (list bool)) :=
  option_map (map (@rev bool)) (canon_from None (sizes_from 0 per_level)).

(** ** Zipper lemmas *)

Definition dir (fr : frame) : bool :=
  match fr with InLeft _ _ _ => false | InRight _ _ _ => true end.

Definition frame_value (fr : frame) : option Z :=
  match fr with InLeft _ v _ | InRight _ v _ => v end.

Lemma subtree_at_app t p q : subtree_at t (p ++ q) = subtree_at (subtree_at t p) q.
Proof.
  revert t. induction p as [|b p IH]; intros t; [cbn; reflexivity|].
  destruct t as [|l r v lvl]; cbn [app subtree_at].
  - destruct q; reflexivity.
  - apply IH.
Qed.

Lemma subtree_at_nil p : subtree_at Nil p = Nil.
Proof. destruct p; reflexivity. Qed.

Lemma zip_up_app t c1 c2 : zip_up t (c1 ++ c2) = zip_up (zip_up t c1) c2.
Proof. revert t. induction c1; intros t; cbn; auto. Qed.

(** The focus of a cursor sits at the path of its frames. *)
Lemma subtree_zip_up t ctx :
  subtree_at (zip_up t ctx) (rev (map dir ctx)) = t.
Proof.
  revert t. induction ctx as [|fr ctx IH]; intros t; [reflexivity|].
  cbn [zip_up map rev]. rewrite subtree_at_app, IH.
  destruct fr; reflexivity.
Qed.

(** ** Growth: the tree only gains nodes where it had [nullptr], and a
    node holding a value never changes. *)
Inductive grows : tree -> tree -> Prop :=
| grows_nil t : grows Nil t
| grows_leaf l r x lvl : grows (Node l r (Some x) lvl) (Node l r (Some x) lvl)
| grows_node l r l' r' lvl : grows l l' -> grows r r' -> grows (Node l r None lvl) (Node l' r' None lvl).

Lemma grows_refl t : grows t t.
Proof.
  induction t as [|l IHl r IHr [x|] lvl]; constructor; auto.
Qed.

Lemma grows_trans t1 t2 t3 : grows t1 t2 -> grows t2 t3 -> grows t1 t3.
Proof.
  intros H12. revert t3. induction H12; intros t3 H23; [constructor|exact H23|].
  inversion H23; subst; constructor; auto.
Qed.

(** A leaf reachable before growth is still there after it. *)
Lemma grows_leaf_at t t' p v lvl :
  grows t t' -> subtree_at t p = leaf v lvl -> subtree_at t' p = leaf v lvl.
Proof.
  revert t t'. induction p as [|b p IH]; intros t t' Hg Hs.
  - cbn in *. subst. inversion Hg; reflexivity.
  - destruct t as [|l r x lvl']; [destruct p; discriminate|].
    cbn in Hs. inversion Hg; subst; cbn; [exact Hs|].
    destruct b; eapply IH; eauto.
Qed.

(** Growth under frames whose nodes hold no value. *)
Lemma grows_zip_up t t' ctx :
  Forall (fun fr => frame_value fr = None) ctx -> grows t t' -> grows (zip_up t ctx) (zip_up t' ctx).
Proof.
  intros Hctx. revert t t'. induction Hctx as [|fr ctx Hfr _ IH]; intros t t' Hg; [exact Hg|].
  cbn. apply IH. destruct fr; cbn in Hfr; subst; constructor; auto using grows_refl.
Qed.

#[export] Hint Resolve grows_refl grows_nil : jpeg.

(** ** The cursor after an insertion

    [right_open ctx rq]: the frames [ctx] lead along the reversed path
    [rq]; every node on the way holds no value and sits at the depth of
    its path; a node left through its left child has no right child yet;
    a node left through its right child has a left child. *)
Inductive right_open : list frame -> list bool -> Prop :=
| right_open_nil : right_open [] []
| right_open_left ctx rq :
    right_open ctx rq -> right_open (InLeft Nil None (List.length rq) :: ctx) (false :: rq)
| right_open_right ctx rq l :
    right_open ctx rq -> l <> Nil ->
    right_open (InRight l None (List.length rq) :: ctx) (true :: rq).

(** After inserting the code [rp], [current] is the new leaf's parent:
    it has a left child, and a right child exactly when the leaf went
    right. *)
Definition after_insert (c : cursor) (rp : list bool) : Prop :=
  exists b rq l r,
    rp = b :: rq /\ right_open (snd c) rq /\ fst c = Node l r None (List.length rq) /\
    l <> Nil /\ (if b then r <> Nil else r = Nil).

(** [k] frames of fresh nodes left through their left child, at levels
    [lvl + k - 1] (innermost) down to [lvl]. *)
Fixpoint lefts (lvl : nat) (k : nat) : list frame :=
  match k with
  | O => []
  | S k' => InLeft Nil None (lvl + k') :: lefts lvl k'
  end.

Lemma right_open_path ctx rq : right_open ctx rq -> map dir ctx = rq.
Proof. induction 1; cbn; congruence. Qed.

Lemma right_open_values ctx rq :
  right_open ctx rq -> Forall (fun fr => frame_value fr = None) ctx.
Proof. induction 1; constructor; auto. Qed.

Lemma right_open_length ctx rq : right_open ctx rq -> List.length ctx = List.length rq.
Proof. induction 1; cbn; congruence. Qed.

Lemma lefts_snoc lvl k : lefts lvl (S k) = lefts (S lvl) k ++ [InLeft Nil None lvl].
Proof.
  revert lvl. induction k as [|k IH]; intros lvl; [cbn; now rewrite Nat.add_0_r|].
  change (lefts lvl (S (S k))) with (InLeft Nil None (lvl + S k) :: lefts lvl (S k)).
  rewrite IH. cbn. do 3 f_equal. lia.
Qed.

Lemma right_open_lefts k ctx rq :
  right_open ctx rq -> right_open (lefts (List.length rq) k ++ ctx) (repeat false k ++ rq).
Proof.
  intros H. induction k as [|k IH]; [exact H|].
  cbn [lefts repeat app]. replace (List.length rq + k)%nat with (List.length (repeat false k ++ rq))
    by (rewrite length_app, repeat_length; lia).
  constructor. exact IH.
Qed.

Lemma lefts_length lvl k : List.length (lefts lvl k) = k.
Proof. induction k; cbn; auto. Qed.

(** Descending from a fresh node: left children down to [s]. *)
Lemma add_loop_descend k fuel v s lvl ctx :
  (lvl + k = s)%nat -> (k <= fuel)%nat ->
  add_loop fuel v s (new_node lvl, ctx) = Ok (leaf v s, lefts lvl k ++ ctx).
Proof.
  revert fuel lvl ctx. induction k as [|k IH]; intros fuel lvl ctx Hs Hf.
  - rewrite Nat.add_0_r in Hs. subst. destruct fuel; cbn [add_loop fst snd new_node]; now rewrite Nat.eqb_refl.
  - destruct fuel as [|fuel]; [lia|].
    cbn [add_loop fst snd new_node].
    destruct (Nat.eqb_spec s lvl) as [E|_]; [lia|].
    rewrite (IH fuel (S lvl)) by lia.
    rewrite lefts_snoc, <- app_assoc. reflexivity.
Qed.

(** Where a walk ends: a fresh leaf at level [s], reached through the
    right child of a node [Node L Nil None |rq0|] (which the walk found
    in the tree [start]) and then left children only; [rp'] is its
    reversed path. *)
Definition lands (start : tree) (s : nat) (v : Z) (res : result cursor) (rp' : list bool) : Prop :=
  exists L rq0 ctx0,
    right_open ctx0 rq0 /\ L <> Nil /\ (List.length rq0 < s)%nat /\
    res = Ok (leaf v s, lefts (S (List.length rq0)) (s - S (List.length rq0))
                          ++ InRight L None (List.length rq0) :: ctx0) /\
    rp' = repeat false (s - S (List.length rq0)) ++ true :: rq0 /\
    start = zip_up (Node L Nil None (List.length rq0)) ctx0.

(** A node with a left child and no right child: the walk creates the
    right child and descends left from it. *)
Lemma add_loop_right fuel v s l ctx rq :
  right_open ctx rq -> l <> Nil -> (List.length rq < s)%nat -> (s - List.length rq <= fuel)%nat ->
  lands (zip_up (Node l Nil None (List.length rq)) ctx) s v
        (add_loop fuel v s (Node l Nil None (List.length rq), ctx))
        (repeat false (s - S (List.length rq)) ++ true :: rq).
Proof.
  intros Hro Hl Hs Hf. exists l, rq, ctx. repeat split; auto.
  destruct fuel as [|fuel]; [lia|].
  cbn [add_loop fst snd]. destruct (Nat.eqb_spec s (List.length rq)) as [E|_]; [lia|].
  destruct l as [|ll lr lv llvl]; [congruence|].
  rewrite (add_loop_descend (s - S (List.length rq))) by lia. reflexivity.
Qed.

Lemma repeat_false_app n (x : list bool) :
  repeat false n ++ false :: x = repeat false (S n) ++ x.
Proof. induction n as [|n IH]; [reflexivity|]. cbn [repeat app]. rewrite IH. reflexivity. Qed.

Ltac level_test :=
  match goal with
  | |- context [Nat.eqb ?a ?b] => destruct (Nat.eqb_spec a b); [lia|]
  end.

(** A node with both children: the walk climbs while it comes from right
    children, which is the carry of the binary increment; past the root
    it dereferences [nullptr]. *)
Lemma add_loop_up ctx rq :
  right_open ctx rq ->
  forall l r fuel v s, l <> Nil -> r <> Nil -> (List.length rq < s)%nat ->
  (List.length ctx + s <= fuel)%nat ->
  match incr (true :: rq) with
  | None => add_loop fuel v s (Node l r None (List.length rq), ctx) = Err (Undefined NullDereference)
  | Some rp'' => lands (zip_up (Node l r None (List.length rq)) ctx) s v
                   (add_loop fuel v s (Node l r None (List.length rq), ctx))
                   (repeat false (s - S (List.length rq)) ++ rp'')
  end.
Proof.
  induction 1 as [|ctx rq Hro IH|ctx rq l0 Hro IH Hl0];
    intros l r fuel v s Hl Hr Hs Hf; destruct fuel as [|fuel]; cbn [List.length] in *; try lia;
    cbn [add_loop fst snd]; level_test;
    (destruct l as [|ll lr lv llvl]; [congruence|]);
    (destruct r as [|rl rr rv rlvl]; [congruence|]).
  - reflexivity.
  - cbn [plug incr option_map zip_up].
    pose proof (add_loop_right fuel v s
                  (Node (Node ll lr lv llvl) (Node rl rr rv rlvl) None (S (List.length rq)))
                  ctx rq Hro ltac:(discriminate) ltac:(lia) ltac:(lia)) as H.
    rewrite repeat_false_app. replace (S (s - S (S (List.length rq)))) with (s - S (List.length rq))%nat
      by lia. exact H.
  - cbn [plug zip_up].
    change (incr (true :: true :: rq)) with (option_map (cons false) (incr (true :: rq))).
    specialize (IH l0 (Node (Node ll lr lv llvl) (Node rl rr rv rlvl) None (S (List.length rq)))
                   fuel v s Hl0 ltac:(discriminate) ltac:(lia) ltac:(lia)).
    destruct (incr (true :: rq)) as [rp''|]; cbn [option_map]; [|exact IH].
    rewrite repeat_false_app. replace (S (s - S (S (List.length rq)))) with (s - S (List.length rq))%nat
      by lia. exact IH.
Qed.

Lemma parent_zip c c' : parent c = Ok c' -> zip c' = zip c.
Proof.
  destruct c as [t [|fr ctx]]; cbn; [discriminate|]. intros H. injection H as <-. reflexivity.
Qed.

Lemma map_dir_lefts lvl k : map dir (lefts lvl k) = repeat false k.
Proof. induction k; cbn; congruence. Qed.

(** A landing gives the next state: the new leaf is at its code, the
    tree has only grown, and [current] is the leaf's parent. *)
Lemma lands_parent start s v res rp' :
  lands start s v res rp' ->
  exists c', rbind res parent = Ok c' /\ after_insert c' rp' /\ grows start (zip c') /\
             subtree_at (zip c') (rev rp') = leaf v s /\ List.length rp' = s.
Proof.
  intros (L & rq0 & ctx0 & Hro & HL & Hs & -> & -> & ->).
  set (k := (s - S (List.length rq0))%nat).
  set (ctx := lefts (S (List.length rq0)) k ++ InRight L None (List.length rq0) :: ctx0).
  assert (Hpath : map dir ctx = repeat false k ++ true :: rq0).
  { unfold ctx. rewrite map_app, map_dir_lefts. cbn. now rewrite (right_open_path _ _ Hro). }
  assert (Hlen : List.length (repeat false k ++ true :: rq0) = s).
  { rewrite length_app, repeat_length. cbn. lia. }
  assert (Hgrow : grows (zip_up (Node L Nil None (List.length rq0)) ctx0) (zip_up (leaf v s) ctx)).
  { unfold ctx. rewrite zip_up_app. cbn [zip_up plug].
    apply grows_zip_up; [exact (right_open_values _ _ Hro)|]. constructor; auto with jpeg. }
  assert (Hleaf : subtree_at (zip_up (leaf v s) ctx) (rev (repeat false k ++ true :: rq0)) = leaf v s).
  { rewrite <- Hpath. apply subtree_zip_up. }
  destruct k as [|k'] eqn:Ek; cbn [rbind].
  - exists (Node L (leaf v s) None (List.length rq0), ctx0). cbn [lefts app] in ctx.
    split; [reflexivity|]. split; [|split; [exact Hgrow|split; [exact Hleaf|exact Hlen]]].
    exists true, rq0, L, (leaf v s). repeat split; auto. discriminate.
  - exists (Node (leaf v s) Nil None (S (List.length rq0) + k'),
            lefts (S (List.length rq0)) k' ++ InRight L None (List.length rq0) :: ctx0).
    split; [reflexivity|]. split; [|split; [exact Hgrow|split; [exact Hleaf|exact Hlen]]].
    exists false, (repeat false k' ++ true :: rq0), (leaf v s), Nil. cbn [repeat app].
    repeat split; auto; [| |discriminate].
    + apply (right_open_lefts k' (InRight L None (List.length rq0) :: ctx0) (true :: rq0)).
      constructor; auto.
    + rewrite length_app, repeat_length. cbn. f_equal. lia.
Qed.

(** ** One insertion *)

Definition prev_len (prev : option (list bool)) : nat :=
  match prev with None => 0 | Some rp => List.length rp end.

(** The state of [FromSequence] between symbols: the cursor, the last
    code inserted, and the leaves placed so far at their codes. *)
Definition state_ok (c : cursor) (prev : option (list bool)) (placed : list (list bool * Z)) : Prop :=
  match prev with
  | None => c = (new_node 0, [])
  | Some rp => after_insert c rp
  end /\
  Forall (fun pv => subtree_at (zip c) (rev (fst pv)) = leaf (snd pv) (List.length (fst pv))) placed.

(** [AddNode] from a state after an insertion walks to the canonical
    successor code, or dereferences [nullptr] when there is none. *)
Lemma AddNode_next c rp v s :
  after_insert c rp -> (List.length rp <= s)%nat ->
  match next_code rp s with
  | None => AddNode c v s = Err (Undefined NullDereference)
  | Some rp' => lands (zip c) s v (AddNode c v s) rp'
  end.
Proof.
  intros (b & rq & l & r & -> & Hro & Hfocus & Hl & Hr) Hs.
  destruct c as [t ctx]; cbn [fst snd] in *; subst t. cbn [List.length] in Hs.
  unfold AddNode, next_code, zip; cbn [fst snd List.length].
  pose proof (right_open_length _ _ Hro) as Hlen.
  destruct b.
  - pose proof (add_loop_up ctx rq Hro l r (List.length ctx + s + 1) v s Hl Hr ltac:(lia) ltac:(lia)) as H.
    destruct (incr (true :: rq)); exact H.
  - subst r. cbn [incr option_map].
    apply add_loop_right; auto; lia.
Qed.

Lemma incr_length rp rp' : incr rp = Some rp' -> List.length rp' = List.length rp.
Proof.
  revert rp'. induction rp as [|[] rp IH]; intros rp' H; cbn in H; try discriminate.
  - destruct (incr rp) as [x|] eqn:E; cbn in H; [|discriminate].
    injection H as <-. cbn. f_equal. now apply IH.
  - injection H as <-. reflexivity.
Qed.

Lemma next_of_length prev s rp' :
  next_of prev s = Some rp' -> (prev_len prev <= s)%nat -> List.length rp' = s.
Proof.
  destruct prev as [rp|]; cbn.
  - unfold next_code. destruct (incr rp) as [x|] eqn:E; cbn; [|discriminate].
    intros H Hs. injection H as <-. rewrite length_app, repeat_length, (incr_length _ _ E). lia.
  - intros H _. injection H as <-. apply repeat_length.
Qed.

(** The first symbol descends from the fresh root to all-zero code. *)
Lemma AddNode_first v s :
  (1 <= s)%nat ->
  exists c', rbind (AddNode (new_node 0, []) v s) parent = Ok c' /\
             after_insert c' (repeat false s) /\
             subtree_at (zip c') (rev (repeat false s)) = leaf v s.
Proof.
  intros Hs. unfold AddNode. cbn [snd List.length].
  rewrite (add_loop_descend s) by lia. rewrite app_nil_r.
  destruct s as [|k]; [lia|]. cbn [lefts rbind parent snd fst].
  eexists. split; [reflexivity|]. split.
  - exists false, (repeat false k), (leaf v (S k)), Nil. cbn [repeat fst snd].
    repeat split; auto; [|rewrite repeat_length; reflexivity|discriminate].
    pose proof (right_open_lefts k [] [] right_open_nil) as H. rewrite !app_nil_r in H. exact H.
  - change (zip _) with (zip_up (leaf v (S k)) (lefts 0 (S k))).
    rewrite <- (map_dir_lefts 0 (S k)). apply subtree_zip_up.
Qed.

(** One symbol of [FromSequence]: [AddNode], then [current = parent]. *)
Lemma insert_one c prev placed v s :
  state_ok c prev placed -> (1 <= s)%nat -> (prev_len prev <= s)%nat ->
  match next_of prev s with
  | None => rbind (AddNode c v s) parent = Err (Undefined NullDereference)
  | Some rp' => exists c', rbind (AddNode c v s) parent = Ok c' /\
                           state_ok c' (Some rp') (placed ++ [(rp', v)])
  end.
Proof.
  intros [Hc Hplaced] Hs1 Hs. destruct prev as [rp|]; cbn [next_of prev_len] in *.
  - pose proof (AddNode_next c rp v s Hc Hs) as H.
    destruct (next_code rp s) as [rp'|]; [|now rewrite H].
    destruct (lands_parent _ _ _ _ _ H) as (c' & Hp & Hafter & Hgrow & Hleaf & Hlen).
    exists c'. split; [exact Hp|]. split; [exact Hafter|].
    apply Forall_app. split.
    + eapply Forall_impl; [|exact Hplaced]. intros [p x] Hpx. cbn in *.
      eapply grows_leaf_at; eauto.
    + constructor; [|constructor]. cbn [fst snd]. now rewrite Hlen.
  - subst c. destruct (AddNode_first v s Hs1) as (c' & Hp & Hafter & Hleaf).
    exists c'. split; [exact Hp|]. split; [exact Hafter|].
    inversion Hplaced as [|x l Hx]; subst; cbn [app].
    + constructor; [|constructor]. cbn [fst snd]. now rewrite repeat_length.
    + exfalso. cbn in Hx. destruct (rev (fst x)) as [|b q]; [discriminate|].
      cbn in Hx. destruct b; rewrite subtree_at_nil in Hx; discriminate.
Qed.

(** ** The loops of [FromSequence] *)

Fixpoint last_code (prev : option (list bool)) (codes : list (list bool)) : option (list bool) :=
  match codes with
  | [] => prev
  | c :: rest => last_code (Some c) rest
  end.

Lemma canon_from_app prev xs ys :
  canon_from prev (xs ++ ys)
  = match canon_from prev xs with
    | None => None
    | Some c1 => option_map (app c1) (canon_from (last_code prev c1) ys)
    end.
Proof.
  revert prev. induction xs as [|s xs IH]; intros prev; cbn [app canon_from].
  - cbn [last_code]. destruct (canon_from prev ys); reflexivity.
  - destruct (next_of prev s) as [rp'|]; [|reflexivity].
    rewrite IH. destruct (canon_from (Some rp') xs) as [c1|]; cbn; [|reflexivity].
    destruct (canon_from (last_code (Some rp') c1) ys); reflexivity.
Qed.

Lemma canon_from_length prev sizes codes :
  canon_from prev sizes = Some codes -> List.length codes = List.length sizes.
Proof.
  revert prev codes. induction sizes as [|s sizes IH]; intros prev codes H; cbn in H.
  - now injection H as <-.
  - destruct (next_of prev s); [|discriminate].
    destruct (canon_from _ sizes) eqn:E; cbn in H; [|discriminate].
    injection H as <-. cbn. f_equal. eapply IH; eauto.
Qed.

Lemma last_code_len prev level codes :
  Forall (fun c => List.length c = level) codes -> (prev_len prev <= level)%nat ->
  (prev_len (last_code prev codes) <= level)%nat.
Proof.
  revert prev. induction codes as [|c codes IH]; intros prev Hall Hp; [exact Hp|].
  inversion Hall; subst. apply IH; auto.
Qed.

Lemma insert_level_spec card level c prev placed values :
  state_ok c prev placed -> (1 <= level)%nat -> (prev_len prev <= level)%nat ->
  (card <= List.length values)%nat ->
  match canon_from prev (repeat level card) with
  | None => insert_level card level c values = Err (Undefined NullDereference)
  | Some codes =>
      exists c', insert_level card level c values = Ok (c', skipn card values) /\
                 state_ok c' (last_code prev codes) (placed ++ combine codes (firstn card values)) /\
                 Forall (fun code => List.length code = level) codes
  end.
Proof.
  revert c prev placed values.
  induction card as [|card IH]; intros c prev placed values Hst H1 Hp Hv.
  - cbn. exists c. rewrite app_nil_r. auto.
  - destruct values as [|v vs]; cbn in Hv; [lia|].
    cbn [repeat canon_from insert_level].
    pose proof (insert_one c prev placed v level Hst H1 Hp) as Hone.
    destruct (next_of prev level) as [rp'|] eqn:En.
    + destruct Hone as (c' & Hc' & Hst').
      assert (Hlen' : List.length rp' = level) by exact (next_of_length _ _ _ En Hp).
      specialize (IH c' (Some rp') (placed ++ [(rp', v)]) vs Hst' H1 ltac:(cbn; lia) ltac:(lia)).
      rewrite <- rbind_assoc, Hc'. cbn [rbind].
      destruct (canon_from (Some rp') (repeat level card)) as [codes|]; cbn [option_map]; [|exact IH].
      destruct IH as (c'' & Hins & Hst'' & Hall). exists c''.
      split; [exact Hins|]. split; [|constructor; auto].
      cbn [last_code firstn combine]. rewrite <- app_assoc in Hst''. exact Hst''.
    + rewrite <- rbind_assoc, Hone. reflexivity.
Qed.

Lemma from_levels_spec per_level idx c prev placed values :
  state_ok c prev placed -> (prev_len prev <= S idx)%nat ->
  (List.length (sizes_from idx per_level) <= List.length values)%nat ->
  match canon_from prev (sizes_from idx per_level) with
  | None => from_levels per_level idx c values = Err (Undefined NullDereference)
  | Some codes =>
      exists c', from_levels per_level idx c values = Ok (c', skipn (List.length codes) values) /\
                 state_ok c' (last_code prev codes)
                   (placed ++ combine codes (firstn (List.length codes) values))
  end.
Proof.
  revert idx c prev placed values.
  induction per_level as [|card rest IH]; intros idx c prev placed values Hst Hp Hv.
  - cbn. exists c. rewrite app_nil_r. auto.
  - cbn [sizes_from] in *. rewrite canon_from_app. rewrite length_app, repeat_length in Hv.
    cbn [from_levels].
    pose proof (insert_level_spec (Z.to_nat card) (S idx) c prev placed values Hst
                  ltac:(lia) Hp ltac:(lia)) as Hlev.
    destruct (canon_from prev (repeat (S idx) (Z.to_nat card))) as [c1|] eqn:E1; [|now rewrite Hlev].
    destruct Hlev as (c' & Hins & Hst' & Hall). rewrite Hins. cbn [rbind].
    pose proof (canon_from_length _ _ _ E1) as Hl1. rewrite repeat_length in Hl1.
    specialize (IH (S idx) c' (last_code prev c1) _ (skipn (Z.to_nat card) values) Hst'
                  ltac:(pose proof (last_code_len prev _ c1 Hall ltac:(lia)); lia)
                  ltac:(rewrite length_skipn; lia)).
    destruct (canon_from (last_code prev c1) (sizes_from (S idx) rest)) as [c2|] eqn:E2;
      cbn [option_map]; [|exact IH].
    destruct IH as (c'' & Hfl & Hst''). exists c''.
    rewrite length_app, Hl1. rewrite skipn_skipn, Nat.add_comm in Hfl. split; [exact Hfl|].
    rewrite (firstn_add (Z.to_nat card)) by lia.
    rewrite combine_app by (rewrite firstn_length_le; lia).
    assert (Hlc : last_code prev (c1 ++ c2) = last_code (last_code prev c1) c2).
    { clear. revert prev. induction c1; intros prev; cbn; auto. }
    rewrite Hlc, app_assoc. exact Hst''.
Qed.

(** The construction of [FromSequence] against the canonical codes, the
    form the decoding lemma uses; the contract below states it again. *)
Lemma FromSequence_spec per_level values :
  values <> [] -> List.length values = List.length (sizes_from 0 per_level) ->
  match canonical_codes per_level with
  | Some codes =>
      exists t, FromSequence per_level values = Ok t /\
                Forall2 (fun p v => subtree_at (root t) p = leaf v (List.length p)) codes values
  | None => FromSequence per_level values = Err (Undefined NullDereference)
  end.
Proof.
  intros Hne Hlen. unfold canonical_codes.
  pose proof (from_levels_spec per_level 0 (new_node 0, []) None [] values
                (conj eq_refl (Forall_nil _)) ltac:(cbn; lia) ltac:(lia)) as H.
  unfold FromSequence. destruct values as [|v0 vs]; [congruence|].
  destruct (canon_from None (sizes_from 0 per_level)) as [codes|] eqn:E; cbn [option_map].
  - destruct H as (c' & Hfl & _ & Hplaced). rewrite Hfl. cbn [rbind].
    eexists. split; [reflexivity|]. cbn [root].
    pose proof (canon_from_length _ _ _ E) as Hl.
    rewrite Hl, <- Hlen, firstn_all in Hplaced. cbn [app] in Hplaced.
    apply Forall2_map_l. apply Forall2_combine; [congruence|].
    eapply Forall_impl; [|exact Hplaced]. intros [p v] Hp. cbn in *.
    now rewrite length_rev.
  - rewrite H. reflexivity.
Qed.

(** ** The refinement theorem of [FromSequence]

    For a DHT table ([per_level[i]] symbols of length [i + 1], and as many
    symbol values as the counts add up to), [FromSequence] builds a tree in
    which the [k]-th value is a leaf exactly at the [k]-th canonical code,
    at the depth of its length; when the lengths overflow the binary tree
    (there is no canonical code for some symbol), the cursor climbs past
    the root and the C++ code dereferences [nullptr] instead of reaching
    its "huffman tree build failed" exception. *)

(** C1 [FromSequence] refines the canonical codes: for a count table and
    as many symbol values, the [k]-th value is a terminal leaf exactly at
    the [k]-th canonical code, at the depth of its length; when the
    lengths overflow the tree, the construction dereferences [nullptr]. *)
Theorem FromSequence_canonical per_level values :
  values <> [] -> List.length values = List.length (sizes_from 0 per_level) ->
  match canonical_codes per_level with
  | Some codes =>
      exists t, FromSequence per_level values = Ok t /\
                Forall2 (fun p v => subtree_at (root t) p = leaf v (List.length p)) codes values
  | None => FromSequence per_level values = Err (Undefined NullDereference)
  end.
Proof. apply FromSequence_spec. Qed.

(** ** Decoding *)

(** Walking a path to a leaf: [decode_from] reads exactly the bits of
    the path and returns the leaf's value. *)
Lemma decode_from_path p t v lvl rd rd' :
  subtree_at t p = leaf v lvl ->
  repeat_st (List.length p) Yield_bit rd = Ok (p, rd') ->
  decode_from t rd = Ok (v, rd').
Proof.
  revert t rd. induction p as [|b p IH]; intros t rd Ht Hbits.
  - cbn in Ht, Hbits. subst t. injection Hbits as <-. reflexivity.
  - destruct (repeat_st_S_inv _ _ _ _ _ _ Hbits) as (rd1 & Hy & Hrest).
    destruct t as [|l r x n]; [cbn in Ht; discriminate|].
    cbn [subtree_at] in Ht.
    assert (Hchild : (if b then r else l) <> Nil)
      by (intros E; rewrite E, subtree_at_nil in Ht; discriminate).
    assert (Hterm : IsTerminal (Node l r x n) = false)
      by (destruct b, l, r; cbn in *; congruence).
    cbn [decode_from]. rewrite Hterm. rewrite (bind_ok _ _ _ _ _ Hy).
    destruct b.
    + destruct r as [|rl rr rx rn]; [congruence|]. apply IH; assumption.
    + destruct l as [|ll lr lx ln]; [congruence|]. apply IH; assumption.
Qed.

(** C2 Decoding after construction: when the reader delivers the [k]-th
    canonical code, [DecodeByte] returns the [k]-th symbol value and
    leaves the reader just after the code. *)
Theorem DecodeByte_canonical per_level values t codes k p v rd rd' :
  values <> [] -> List.length values = List.length (sizes_from 0 per_level) ->
  canonical_codes per_level = Some codes -> FromSequence per_level values = Ok t ->
  nth_error codes k = Some p -> nth_error values k = Some v ->
  repeat_st (List.length p) Yield_bit rd = Ok (p, rd') ->
  DecodeByte t rd = Ok (v, rd').
Proof.
  intros Hne Hlen Hc Ht Hp Hv Hbits.
  pose proof (FromSequence_spec per_level values Hne Hlen) as H. rewrite Hc in H.
  destruct H as (t' & Ht' & Hall). rewrite Ht in Ht'. injection Ht' as <-.
  eapply decode_from_path; [|exact Hbits].
  exact (Forall2_nth_error _ _ _ k p v Hall Hp Hv).
Qed.

(** ** Witnesses on the standard DC luminance table (JPEG, Table K.3) *)

Definition dc_luma_counts : list Z := [0; 1; 5; 1; 1; 1; 1; 1; 1; 0; 0; 0; 0; 0; 0; 0].
Definition dc_luma_values : list Z := [0; 1; 2; 3; 4; 5; 6; 7; 8; 9; 10; 11].

Lemma FromSequence_canonical_witness :
  dc_luma_values <> [] /\
  List.length dc_luma_values = List.length (sizes_from 0 dc_luma_counts) /\
  match canonical_codes dc_luma_counts with
  | Some codes =>
      exists t, FromSequence dc_luma_counts dc_luma_values = Ok t /\
                Forall2 (fun p v => subtree_at (root t) p = leaf v (List.length p)) codes dc_luma_values
  | None => FromSequence dc_luma_counts dc_luma_values = Err (Undefined NullDereference)
  end.
Proof.
  split; [discriminate|]. split; [reflexivity|].
  apply FromSequence_canonical; [discriminate|reflexivity].
Defined.

(** The byte [0xD8] starts with [110], the code of the symbol [5]. *)
Lemma DecodeByte_canonical_witness :
  exists t codes,
    FromSequence dc_luma_counts dc_luma_values = Ok t /\
    canonical_codes dc_luma_counts = Some codes /\
    nth_error codes 5 = Some [true; true; false] /\
    DecodeByte t (BitStream_new (open_istream [216]) true, open_istream [216])
    = Ok (5, (mk_bit_stream (Word 216) 16 false true, mk_istream [216] 1 false)).
Proof.
  destruct (FromSequence dc_luma_counts dc_luma_values) as [t|e] eqn:Ht;
    [|vm_compute in Ht; discriminate].
  destruct (canonical_codes dc_luma_counts) as [codes|] eqn:Hc; [|vm_compute in Hc; discriminate].
  assert (Hp : nth_error codes 5 = Some [true; true; false])
    by (vm_compute in Hc; injection Hc as <-; reflexivity).
  exists t, codes. split; [reflexivity|]. split; [reflexivity|]. split; [exact Hp|].
  apply (DecodeByte_canonical dc_luma_counts dc_luma_values t codes 5 [true; true; false] 5);
    [discriminate|vm_compute; reflexivity|exact Hc|exact Ht|exact Hp|vm_compute; reflexivity|vm_compute; reflexivity].
Defined.

(** ** The integer code table of JPEG Annex C

    The standard generates codes as integers: the first is [0]; each next
    code of length [s] is [(code + 1) << (s - previous length)]; a code
    must fit its length.  The bit paths above are these integers written
    on [s] bits. *)

Fixpoint huffcode_from (prev : option (Z * nat)) (sizes : list nat) : list (Z * nat) :=
  match sizes with
  | [] => []
  | s :: rest =>
      let code := match prev with
                  | None => 0
                  | Some (c, len) => Z.shiftl (c + 1) (Z.of_nat (s - len))
                  end in
      (code, s) :: huffcode_from (Some (code, s)) rest
  end.

(** The value of a reversed path, the last bit being the least
    significant. *)
Fixpoint rvalue (rp : list bool) : Z :=
  match rp with
  | [] => 0
  | b :: t => Z.b2z b + 2 * rvalue t
  end.

(** Code lengths that never decrease, starting at least at [m]. *)
Fixpoint nondecr_from (m : nat) (sizes : list nat) : Prop :=
  match sizes with
  | [] => True
  | s :: rest => (m <= s)%nat /\ nondecr_from s rest
  end.

Lemma rvalue_range rp : 0 <= rvalue rp < 2 ^ Z.of_nat (List.length rp).
Proof.
  induction rp as [|b rp IH]; cbn [rvalue List.length]; [cbn; lia|].
  rewrite Nat2Z.inj_succ, Z.pow_succ_r by lia. destruct b; cbn [Z.b2z]; lia.
Qed.

Lemma rvalue_pad n r : rvalue (repeat false n ++ r) = rvalue r * 2 ^ Z.of_nat n.
Proof.
  induction n as [|n IH]; cbn [repeat app rvalue]; [cbn; lia|].
  rewrite IH, Nat2Z.inj_succ, Z.pow_succ_r by lia. cbn [Z.b2z]. lia.
Qed.

Lemma incr_spec rp :
  match incr rp with
  | Some rp' => rvalue rp' = rvalue rp + 1
  | None => rvalue rp + 1 = 2 ^ Z.of_nat (List.length rp)
  end.
Proof.
  induction rp as [|[] rp IH]; cbn [incr rvalue List.length]; [reflexivity| |cbn [Z.b2z]; lia].
  destruct (incr rp) as [r|]; cbn [option_map rvalue Z.b2z].
  - rewrite IH. lia.
  - rewrite Nat2Z.inj_succ, Z.pow_succ_r by lia. cbn [Z.b2z]. lia.
Qed.

(** The bit-path codes are the integer codes of Annex C, each on as many
    bits as its length; and a code fails to exist exactly when the
    integer code of some symbol does not fit its length. *)
Lemma canon_from_huffcode prev sizes :
  nondecr_from (prev_len prev) sizes ->
  let prevz := option_map (fun rp => (rvalue rp, List.length rp)) prev in
  match canon_from prev sizes with
  | Some codes =>
      map (fun rp => (rvalue rp, List.length rp)) codes = huffcode_from prevz sizes
  | None => Exists (fun cs => 2 ^ Z.of_nat (snd cs) <= fst cs) (huffcode_from prevz sizes)
  end.
Proof.
  revert prev. induction sizes as [|s rest IH]; intros prev Hnd; cbn zeta; [reflexivity|].
  destruct Hnd as [Hs Hnd]. cbn [canon_from huffcode_from].
  assert (Hnext : match next_of prev s with
                  | Some rp' => List.length rp' = s /\
                      rvalue rp' = match option_map (fun rp => (rvalue rp, List.length rp)) prev with
                                   | None => 0
                                   | Some (c, len) => Z.shiftl (c + 1) (Z.of_nat (s - len))
                                   end
                  | None => 2 ^ Z.of_nat s <= match option_map (fun rp => (rvalue rp, List.length rp)) prev with
                                   | None => 0
                                   | Some (c, len) => Z.shiftl (c + 1) (Z.of_nat (s - len))
                                   end
                  end).
  { destruct prev as [rp|]; cbn [next_of option_map].
    - unfold next_code. pose proof (incr_spec rp) as Hi. cbn [prev_len] in Hs.
      rewrite Z.shiftl_mul_pow2 by lia.
      destruct (incr rp) as [r|] eqn:Ei; cbn [option_map].
      + split; [rewrite length_app, repeat_length, (incr_length _ _ Ei); lia|].
        rewrite rvalue_pad, Hi. reflexivity.
      + rewrite Hi, <- Z.pow_add_r by lia. apply Z.pow_le_mono_r; lia.
    - split; [apply repeat_length|]. rewrite <- (app_nil_r (repeat false s)), (rvalue_pad s []). reflexivity. }
  destruct (next_of prev s) as [rp'|] eqn:En.
  - destruct Hnext as [Hl Hv].
    specialize (IH (Some rp') ltac:(cbn [prev_len]; rewrite Hl; exact Hnd)).
    cbn zeta in IH. cbn [option_map] in IH. rewrite Hl, Hv in IH.
    destruct (canon_from (Some rp') rest) as [codes|]; cbn [option_map map].
    + rewrite Hl, Hv, IH. reflexivity.
    + apply Exists_cons_tl. exact IH.
  - apply Exists_cons_hd. exact Hnext.
Qed.

Lemma nondecr_repeat m k n l :
  (m <= k)%nat -> nondecr_from k l -> nondecr_from m (repeat k n ++ l).
Proof.
  revert m. induction n as [|n IH]; intros m Hm Hl; cbn [repeat app].
  - destruct l as [|s l]; cbn in *; [exact I|]. split; [lia|]. apply Hl.
  - split; [exact Hm|]. apply IH; auto.
Qed.

Lemma nondecr_sizes_from m idx per_level :
  (m <= S idx)%nat -> nondecr_from m (sizes_from idx per_level).
Proof.
  revert m idx. induction per_level as [|c rest IH]; intros m idx Hm; cbn [sizes_from]; [exact I|].
  apply nondecr_repeat; [exact Hm|]. apply IH. lia.
Qed.

(** The value of a root-first code, the first bit most significant. *)
Definition code_value (p : list bool) : Z := rvalue (rev p).

(** The bit-path codes are the integer codes that JPEG Annex C
    generates from the same counts, each written on its length; and there
    are no bit-path codes exactly when some integer code does not fit its
    length. *)
Lemma canonical_codes_huffcode per_level :
  match canonical_codes per_level with
  | Some codes =>
      map (fun p => (code_value p, List.length p)) codes = huffcode_from None (sizes_from 0 per_level)
  | None => Exists (fun cs => 2 ^ Z.of_nat (snd cs) <= fst cs) (huffcode_from None (sizes_from 0 per_level))
  end.
Proof.
  pose proof (canon_from_huffcode None (sizes_from 0 per_level)
                (nondecr_sizes_from 0 0 per_level ltac:(lia))) as H.
  cbn zeta in H. cbn [option_map] in H. unfold canonical_codes.
  destruct (canon_from None (sizes_from 0 per_level)) as [codes|]; cbn [option_map]; [|exact H].
  rewrite map_map, <- H. apply map_ext. intros rp. unfold code_value.
  now rewrite rev_involutive, length_rev.
Qed.

Lemma code_value_fits codes :
  forallb (fun cs => fst cs <? 2 ^ Z.of_nat (snd cs)) (map (fun p => (code_value p, List.length p)) codes) = true.
Proof.
  apply forallb_forall. intros cs Hin. apply in_map_iff in Hin as (p & <- & _). cbn [fst snd].
  apply Z.ltb_lt. unfold code_value. pose proof (rvalue_range (rev p)) as H. rewrite length_rev in H. lia.
Qed.

Lemma Exists_forallb_false {A : Type} (P : A -> Prop) (f : A -> bool) l :
  (forall x, P x -> f x = false) -> Exists P l -> forallb f l = false.
Proof.
  intros Hf Hex. induction Hex as [x l Hx|x l _ IH]; cbn [forallb].
  - rewrite (Hf x Hx). reflexivity.
  - rewrite IH. apply andb_false_r.
Qed.

(** C25 [HuffmanTree::FromSequence] implements the code assignment of
    JPEG Annex C: when every integer code that Annex C generates from the
    counts (the first 0, each next [(code + 1) << (length increase)]) fits
    its length, the tree has the k-th value as a leaf at the path that
    spells the k-th integer code on its length, most significant bit
    first; when one does not fit, the construction dereferences
    [nullptr]. *)
Theorem FromSequence_annex_c per_level values :
  values <> [] -> List.length values = List.length (sizes_from 0 per_level) ->
  if forallb (fun cs => fst cs <? 2 ^ Z.of_nat (snd cs)) (huffcode_from None (sizes_from 0 per_level)) then
    exists t, FromSequence per_level values = Ok t /\
      Forall2 (fun cs v => exists p, List.length p = snd cs /\ code_value p = fst cs /\
                                     subtree_at (root t) p = leaf v (snd cs))
              (huffcode_from None (sizes_from 0 per_level)) values
  else FromSequence per_level values = Err (Undefined NullDereference).
Proof.
  intros Hne Hlen. pose proof (FromSequence_spec per_level values Hne Hlen) as Hs.
  pose proof (canonical_codes_huffcode per_level) as Hc.
  destruct (canonical_codes per_level) as [codes|].
  - rewrite <- Hc, code_value_fits. destruct Hs as (t & Ht & Hall). exists t. split; [exact Ht|].
    clear -Hall. induction Hall as [|p v codes values Hp _ IH]; constructor; [|exact IH].
    exists p. auto.
  - rewrite (Exists_forallb_false _ _ _ (fun cs H => proj2 (Z.ltb_ge _ _) H) Hc). exact Hs.
Qed.

Lemma FromSequence_annex_c_witness :
  dc_luma_values <> [] /\ List.length dc_luma_values = List.length (sizes_from 0 dc_luma_counts) /\
  exists t, FromSequence dc_luma_counts dc_luma_values = Ok t /\
    Forall2 (fun cs v => exists p, List.length p = snd cs /\ code_value p = fst cs /\
                                   subtree_at (root t) p = leaf v (snd cs))
            (huffcode_from None (sizes_from 0 dc_luma_counts)) dc_luma_values.
Proof.
  split; [discriminate|]. split; [vm_compute; reflexivity|].
  exact (FromSequence_annex_c dc_luma_counts dc_luma_values ltac:(discriminate) ltac:(vm_compute; reflexivity)).
Defined.

Example dc_luma_codes :
  huffcode_from None (sizes_from 0 dc_luma_counts)
  = [(0, 2%nat); (2, 3%nat); (3, 3%nat); (4, 3%nat); (5, 3%nat); (6, 3%nat); (14, 4%nat);
     (30, 5%nat); (62, 6%nat); (126, 7%nat); (254, 8%nat); (510, 9%nat)].
Proof. reflexivity. Qed.
