(* ===== verification/Blocks.v ===== *)
(** * 8x8 blocks: zig-zag addressing and the point-wise operators

    Models [jpeg-decoder/include/primitives.h]: [Block<T, 8>] (64 values
    in zig-zag order, a [list Z] of length 64), [Cartesian<T, 8>] (8 rows
    of 8 values), [Block::AtZZ], [ToCartesianZZ], [Clip] and the block
    operators [Block + Block], [Block * Block], [Cartesian + scalar] and
    [Cartesian - Cartesian], each store truncated to [int16_t]. *)

From Stdlib Require Import String ZArith Bool List Lia.
From S2P Require Import Prelude.
Import ListNotations.
Open Scope Z_scope.
Open Scope jpeg_scope.

Definition Size : Z := 8.

(** The buffer position that [Block::AtZZ(row, col)] reads. *)
Definition zz_index (row col : Z) : Z :=
  if row + col <? Size then
    let diag_id := row + col in
    let offset := (diag_id + 1) * diag_id / 2 in
    offset + (if Z.odd diag_id then col else row)
  else
    let col' := Size - 1 - col in
    let row' := Size - 1 - row in
    let diag_id := row' + col' in
    let offset := (diag_id + 1) * diag_id / 2 in
    let index := offset + (if Z.odd diag_id then col' else row') in
    Size * Size - 1 - index.

(** [std::array::operator[]] : a read past the end is undefined. *)
Definition array_at (buffer : list Z) (i : Z) : result Z :=
  if i <? 0 then Err (Undefined OutOfBoundsAccess)
  else match nth_error buffer (Z.to_nat i) with
       | Some x => Ok x
       | None => Err (Undefined OutOfBoundsAccess)
       end.

(** [Block::AtZZ]. *)
Definition AtZZ (buffer : list Z) (row col : Z) : result Z := array_at buffer (zz_index row col).

Definition range8 : list Z := [0; 1; 2; 3; 4; 5; 6; 7].

(** [ToCartesianZZ]: [cartesian.buffer[i][j] = from.AtZZ(i, j)]. *)
Definition ToCartesianZZ (block : list Z) : result (list (list Z)) :=
  rmap (fun i => rmap (fun j => AtZZ block i j) range8) range8.

(** [Clip]: [std::max(min, std::min(max, x))] on every sample. *)
Definition Clip (cart : list (list Z)) (lo hi : Z) : list (list Z) :=
  map (map (fun x => Z.max lo (Z.min hi x))) cart.

(** [operator*(Block, Block)]: [result.buffer[count] *= rhs.buffer[count]]
    in [int16_t]. *)
Definition block_mul (lhs rhs : list Z) : list Z :=
  map (fun '(a, b) => to_int16 (a * b)) (combine lhs rhs).

(** [operator+(Cartesian, T scalar)] in [int16_t]. *)
Definition cart_add_scalar (cart : list (list Z)) (scalar : Z) : list (list Z) :=
  map (map (fun x => to_int16 (x + scalar))) cart.

(** [As(const Block&)]: [static_cast<To>] of every entry, the cast a
    parameter (it may fail, as a [double] out of the target's range). *)
Definition block_As {A B : Type} (cast : A -> result B) (block : list A) : result (list B) :=
  rmap cast block.

(** [operator+(Block, Block)]: [result.buffer[count] += rhs.buffer[count]]
    in [int16_t]. *)
Definition block_add (lhs rhs : list Z) : list Z :=
  map (fun '(a, b) => to_int16 (a + b)) (combine lhs rhs).

(** [operator-(Cartesian, Cartesian)]:
    [cartesian.buffer[i][j] = l.buffer[i][j] - r.buffer[i][j]] in
    [int16_t]. *)
Definition cart_sub (l r : list (list Z)) : list (list Z) :=
  map (fun '(lrow, rrow) => map (fun '(x, y) => to_int16 (x - y)) (combine lrow rrow)) (combine l r).

(** ** The zig-zag order of the JPEG standard (Figure A.6): the natural
    (row-major) position of the [k]-th coefficient. *)
Definition zigzag_natural : list Z :=
  [ 0;  1;  8; 16;  9;  2;  3; 10; 17; 24; 32; 25; 18; 11;  4;  5;
   12; 19; 26; 33; 40; 48; 41; 34; 27; 20; 13;  6;  7; 14; 21; 28;
   35; 42; 49; 56; 57; 50; 43; 36; 29; 22; 15; 23; 30; 37; 44; 51;
   58; 59; 52; 45; 38; 31; 39; 46; 53; 60; 61; 54; 47; 55; 62; 63].

(** The encoder's side: a cartesian block listed in zig-zag order.  A
    [Cartesian] buffer is indexed [buffer[x][y]] (column first, as
    [MCU::GetValue] reads it), so natural position [8 * row + col] is
    [buffer[col][row]]. *)
Definition to_zigzag (cart : list (list Z)) : list Z :=
  map (fun n => nth (Z.to_nat (n / 8)) (nth (Z.to_nat (n mod 8)) cart []) 0) zigzag_natural.

(** ** Lemmas: the zig-zag index against the standard's table *)

Lemma range8_spec i : In i range8 <-> 0 <= i < 8.
Proof.
  split.
  - intros H. repeat (destruct H as [<-|H]; [lia|]). destruct H.
  - intros H. assert (i = 0 \/ i = 1 \/ i = 2 \/ i = 3 \/ i = 4 \/ i = 5 \/ i = 6 \/ i = 7) by lia.
    cbn. lia.
Qed.

Definition zz_index_checks : bool :=
  forallb (fun r => forallb (fun c =>
    (0 <=? zz_index r c) && (zz_index r c <? 64) &&
    (nth (Z.to_nat (zz_index r c)) zigzag_natural (-1) =? 8 * c + r)) range8) range8.

Definition zz_table_checks : bool :=
  forallb (fun k =>
    let n := nth (Z.to_nat k) zigzag_natural (-1) in
    (0 <=? n) && (n <? 64) && (zz_index (n mod 8) (n / 8) =? k))
    (map Z.of_nat (seq 0 64)).

Lemma zz_checks : zz_index_checks = true /\ zz_table_checks = true.
Proof. split; vm_compute; reflexivity. Qed.

(** [AtZZ(x, y)] reads the position that the standard's zig-zag order
    gives the coefficient of row [y], column [x]: its first index is the
    column. *)
Lemma zz_index_spec r c :
  0 <= r < 8 -> 0 <= c < 8 ->
  0 <= zz_index r c < 64 /\ nth (Z.to_nat (zz_index r c)) zigzag_natural (-1) = 8 * c + r.
Proof.
  intros Hr Hc. pose proof (proj1 zz_checks) as H. unfold zz_index_checks in H.
  rewrite forallb_forall in H. specialize (H r (proj2 (range8_spec r) Hr)).
  rewrite forallb_forall in H. specialize (H c (proj2 (range8_spec c) Hc)).
  rewrite !andb_true_iff, Z.leb_le, Z.ltb_lt, Z.eqb_eq in H. lia.
Qed.

Lemma zz_table_spec k :
  0 <= k < 64 ->
  let n := nth (Z.to_nat k) zigzag_natural (-1) in 0 <= n < 64 /\ zz_index (n mod 8) (n / 8) = k.
Proof.
  intros Hk. pose proof (proj2 zz_checks) as H. unfold zz_table_checks in H.
  rewrite forallb_forall in H.
  assert (Hin : In k (map Z.of_nat (seq 0 64))).
  { apply in_map_iff. exists (Z.to_nat k). split; [apply Z2Nat.id; lia|].
    apply in_seq. split; [lia|]. change (0 + 64)%nat with 64%nat.
    apply Nat2Z.inj_lt. rewrite Z2Nat.id by lia. lia. }
  specialize (H k Hin).
  cbn zeta in *. rewrite !andb_true_iff, Z.leb_le, Z.ltb_lt, Z.eqb_eq in H. lia.
Qed.

Lemma zigzag_natural_length : List.length zigzag_natural = 64%nat.
Proof. reflexivity. Qed.

(** An 8x8 matrix, as [Cartesian<T, 8>] stores it. *)
Definition is_8x8 (cart : list (list Z)) : Prop :=
  List.length cart = 8%nat /\ Forall (fun row => List.length row = 8%nat) cart.

Lemma map_nth_range8 (l : list Z) :
  List.length l = 8%nat -> map (fun j => nth (Z.to_nat j) l 0) range8 = l.
Proof.
  intros H. do 8 (destruct l as [|? l]; [discriminate|]). destruct l; [reflexivity|discriminate].
Qed.

Lemma map_nth_range8_rows (cart : list (list Z)) :
  List.length cart = 8%nat -> map (fun i => nth (Z.to_nat i) cart []) range8 = cart.
Proof.
  intros H. do 8 (destruct cart as [|? cart]; [discriminate|]). destruct cart; [reflexivity|discriminate].
Qed.

Lemma div8_mod8 i j :
  0 <= i < 8 -> 0 <= j < 8 -> (8 * j + i) / 8 = j /\ (8 * j + i) mod 8 = i.
Proof.
  intros Hi Hj. rewrite Z.add_comm, Z.mul_comm. split.
  - rewrite Z.div_add by lia. rewrite Z.div_small by lia. lia.
  - rewrite Z.mod_add by lia. apply Z.mod_small. lia.
Qed.

Lemma nth_map_range8 {A : Type} (G : Z -> A) d m :
  0 <= m < 8 -> nth (Z.to_nat m) (map G range8) d = G m.
Proof.
  intros Hm. assert (m = 0 \/ m = 1 \/ m = 2 \/ m = 3 \/ m = 4 \/ m = 5 \/ m = 6 \/ m = 7) as Hc by lia.
  repeat (destruct Hc as [->|Hc]; [reflexivity|]). subst. reflexivity.
Qed.

(** ** Zig-zag round trips (spec, property 1) *)

(** C24 [ToCartesianZZ] undoes the encoder's zig-zag listing. *)
Theorem ToCartesianZZ_to_zigzag cart :
  is_8x8 cart -> ToCartesianZZ (to_zigzag cart) = Ok cart.
Proof.
  intros [Hrows Hcols]. unfold ToCartesianZZ.
  rewrite (rmap_ok _ (fun i => nth (Z.to_nat i) cart [])).
  - f_equal. apply map_nth_range8_rows. exact Hrows.
  - intros i Hi. apply range8_spec in Hi.
    rewrite (rmap_ok _ (fun j => nth (Z.to_nat j) (nth (Z.to_nat i) cart []) 0)).
    + f_equal. apply map_nth_range8.
      rewrite Forall_forall in Hcols. apply Hcols, nth_In. lia.
    + intros j Hj. apply range8_spec in Hj.
      destruct (zz_index_spec i j Hi Hj) as [Hb Hn].
      unfold AtZZ, array_at. destruct (Z.ltb_spec (zz_index i j) 0) as [|_]; [lia|].
      unfold to_zigzag. rewrite nth_error_map.
      rewrite (nth_error_nth' zigzag_natural (-1)) by (rewrite zigzag_natural_length; lia).
      cbn [option_map]. rewrite Hn. f_equal.
      destruct (div8_mod8 i j Hi Hj) as [-> ->]. reflexivity.
Qed.

(** Listing the cartesian block that [ToCartesianZZ] builds in zig-zag
    order gives back the block. *)
Theorem to_zigzag_ToCartesianZZ block cart :
  List.length block = 64%nat -> ToCartesianZZ block = Ok cart -> to_zigzag cart = block.
Proof.
  intros Hlen Hc.
  assert (Hcart : cart = map (fun i => map (fun j => nth (Z.to_nat (zz_index i j)) block 0) range8) range8).
  { unfold ToCartesianZZ in Hc.
    rewrite (rmap_ok _ (fun i => map (fun j => nth (Z.to_nat (zz_index i j)) block 0) range8)) in Hc.
    - now injection Hc as <-.
    - intros i Hi. apply range8_spec in Hi. apply rmap_ok. intros j Hj. apply range8_spec in Hj.
      destruct (zz_index_spec i j Hi Hj) as [Hb _].
      unfold AtZZ, array_at. destruct (Z.ltb_spec (zz_index i j) 0) as [|_]; [lia|].
      rewrite (nth_error_nth' block 0) by lia. reflexivity. }
  subst cart. unfold to_zigzag.
  apply (nth_ext _ _ 0 0); [rewrite length_map, zigzag_natural_length; congruence|].
  intros k Hk. rewrite length_map, zigzag_natural_length in Hk.
  match goal with
  | |- nth _ (map ?F _) _ = _ =>
      replace (nth k (map F zigzag_natural) 0) with (F (nth k zigzag_natural (-1)));
        [cbv beta|rewrite <- (map_nth F zigzag_natural (-1) k); apply nth_indep; rewrite length_map, zigzag_natural_length; exact Hk]
  end.
  destruct (zz_table_spec (Z.of_nat k) ltac:(lia)) as [Hn Hzz].
  rewrite Nat2Z.id in Hn, Hzz.
  set (n := nth k zigzag_natural (-1)) in *.
  assert (Hq : 0 <= n / 8 < 8) by (split; [apply Z.div_pos|apply Z.div_lt_upper_bound]; lia).
  assert (Hr : 0 <= n mod 8 < 8) by (apply Z.mod_pos_bound; lia).
  rewrite !nth_map_range8 by assumption. rewrite Hzz, Nat2Z.id. reflexivity.
Qed.

(** [Clip] keeps every sample within [[lo, hi]]. *)
Lemma Clip_bounds cart lo hi :
  lo <= hi -> Forall (Forall (fun x => lo <= x <= hi)) (Clip cart lo hi).
Proof.
  intros H. unfold Clip. apply Forall_forall. intros row Hrow.
  apply in_map_iff in Hrow as (r & <- & _). apply Forall_forall. intros x Hx.
  apply in_map_iff in Hx as (y & <- & _). lia.
Qed.

(** ** Witnesses *)

Definition sample_block : list Z := map Z.of_nat (seq 0 64).

Definition sample_cart : list (list Z) :=
  map (fun i => map (fun j => 8 * i + j) range8) range8.

Lemma ToCartesianZZ_to_zigzag_witness :
  is_8x8 sample_cart /\ ToCartesianZZ (to_zigzag sample_cart) = Ok sample_cart.
Proof.
  assert (H : is_8x8 sample_cart) by (split; [reflexivity|repeat constructor]).
  split; [exact H|]. exact (ToCartesianZZ_to_zigzag sample_cart H).
Defined.

Lemma to_zigzag_ToCartesianZZ_witness :
  exists cart, List.length sample_block = 64%nat /\ ToCartesianZZ sample_block = Ok cart /\
               to_zigzag cart = sample_block.
Proof.
  destruct (ToCartesianZZ sample_block) as [cart|e] eqn:Hc; [|vm_compute in Hc; discriminate].
  exists cart. split; [reflexivity|]. split; [reflexivity|].
  exact (to_zigzag_ToCartesianZZ sample_block cart eq_refl Hc).
Defined.

(** The top-left corner of [ToCartesianZZ]: [buffer[1][0]] is the first
    horizontal frequency (zig-zag position 1), [buffer[0][1]] the first
    vertical one (zig-zag position 2). *)
Example ToCartesianZZ_corner :
  AtZZ sample_block 1 0 = Ok 1 /\ AtZZ sample_block 0 1 = Ok 2.
Proof. split; reflexivity. Qed.

(** Subtracting a block from itself shifted by a scalar gives the scalar
    back, as long as no [int16_t] store wraps. *)
Lemma cart_sub_add_scalar c s :
  Forall (Forall (fun x => -32768 <= x < 32768 /\ -32768 <= x + s < 32768)) c ->
  -32768 <= s < 32768 ->
  cart_sub (cart_add_scalar c s) c = map (map (fun _ => s)) c.
Proof.
  intros Hc Hs. unfold cart_sub, cart_add_scalar. induction Hc as [|row c Hrow Hc IH]; [reflexivity|].
  cbn [map combine]. rewrite IH. f_equal.
  induction Hrow as [|x row Hx Hrow IHr]; [reflexivity|]. cbn [map combine]. rewrite IHr. f_equal.
  rewrite (to_int16_id (x + s)) by lia. rewrite Z.add_simpl_l. apply to_int16_id. exact Hs.
Qed.
