(* ===== verification/Segments.v ===== *)
(** * The segment readers of [commands.cpp]

    Models [jpeg-decoder/src/commands.cpp] and the payload types of
    [jpeg-decoder/include/commands.h]: [GetContentLength], the readers of
    COM, APPn, SOF0 ([DCT::Read]), DQT, DHT and SOS, and [CheckToken].
    Every reader builds its own [ByteStream] over the shared [istream];
    the [byte_stream] value is threaded explicitly. *)

From Stdlib Require Import String ZArith Bool List Lia.
From S2P Require Import Prelude Bytes BitStream Huffman Blocks.
Import ListNotations.
Open Scope Z_scope.
Open Scope jpeg_scope.

(** ** Payloads *)

Record channel_props : Type := mk_channel_props {
  cp_id : Z; horizontal_sp : Z; vertical_sp : Z; dqt_table_id : Z
}.

Record dct_payload : Type := mk_dct_payload {
  precision : Z; height : Z; width : Z; channels : list channel_props
}.

Record dqt_payload : Type := mk_dqt_payload {
  dqt_block : list Z; dqt_content_length : Z; dqt_precision : Z; dqt_id : Z
}.

Record dht_payload : Type := mk_dht_payload {
  dht_tree : huffman_tree; dht_is_ac : Z; dht_id : Z; dht_content_length : Z
}.

Record sos_channel : Type := mk_sos_channel { sc_id : Z; dc_ht_id : Z; ac_ht_id : Z }.

Record sos_payload : Type := mk_sos_payload {
  sos_channels : list sos_channel; sos_start : Z; sos_end : Z; sos_abp : Z
}.

(** ** Helpers *)

(** [n] calls of [bytes.Yield()]. *)
Fixpoint yield_n (n : nat) (bs : byte_stream) : st istream (list Z * byte_stream) :=
  match n with
  | O => ret ([], bs)
  | S n' => let* (b, bs1) := Yield bs in
            let* (rest, bs2) := yield_n n' bs1 in
            ret (b :: rest, bs2)
  end.

(** [ComposeBytes<uint16_t>({bytes.Yield(), bytes.Yield()})]: the
    elements of a braced list are evaluated left to right. *)
Definition yield_u16 (bs : byte_stream) : st istream (Z * byte_stream) :=
  let* (hi, bs1) := Yield bs in
  let* (lo, bs2) := Yield bs1 in
  ret (ComposeBytes 16 [hi; lo], bs2).

(** [std::array::operator[]] as an lvalue: a write past the end is
    undefined. *)
Definition array_set (buffer : list Z) (i v : Z) : result (list Z) :=
  if (i <? 0) || (Z.of_nat (List.length buffer) <=? i) then Err (Undefined OutOfBoundsAccess)
  else Ok (firstn (Z.to_nat i) buffer ++ v :: skipn (S (Z.to_nat i)) buffer).

(** [static_cast<int16_t>] of a [uint16_t]. *)
Definition cast_int16 (z : Z) : Z := to_int16 z.

(** [byte_streams::ByteStream bytes(stream);] followed by the reader's
    body over [bytes]. *)
Definition with_byte_stream {A : Type} (body : byte_stream -> st istream A) : st istream A :=
  fun s => body (ByteStream_new s) s.

(** ** [GetContentLength] *)

Definition GetContentLength (bs : byte_stream) : st istream (Z * byte_stream) :=
  let* (length, bs1) := yield_u16 bs in
  if length <? 2 then raise (RuntimeError "block length is less than 2")
  else ret (length - 2, bs1).

(** ** COM and APPn: the payload bytes *)

Definition Comment_Read : st istream (list Z) :=
  with_byte_stream (fun bytes =>
    let* (content_length, bs1) := GetContentLength bytes in
    let* (content, _) := yield_n (Z.to_nat content_length) bs1 in
    ret content).

Definition App_Read : st istream (list Z) :=
  with_byte_stream (fun bytes =>
    let* (content_length, bs1) := GetContentLength bytes in
    let* (content, _) := yield_n (Z.to_nat content_length) bs1 in
    ret content).

(** ** SOF0: [DCT::Read] *)

Definition read_channel_props (bs : byte_stream) : st istream (channel_props * byte_stream) :=
  let* (id, bs1) := Yield bs in
  let* (sparsity, bs2) := Yield bs1 in
  let* (dqt, bs3) := Yield bs2 in
  let '(h, v) := SplitByte sparsity in
  ret (mk_channel_props id h v dqt, bs3).

Fixpoint read_n {A : Type} (n : nat) (f : byte_stream -> st istream (A * byte_stream))
  (bs : byte_stream) : st istream (list A * byte_stream) :=
  match n with
  | O => ret ([], bs)
  | S n' => let* (a, bs1) := f bs in
            let* (rest, bs2) := read_n n' f bs1 in
            ret (a :: rest, bs2)
  end.

(** The declared length is checked against 2 and otherwise ignored. *)
Definition DCT_Read : st istream dct_payload :=
  with_byte_stream (fun bytes =>
    let* (_, bs1) := GetContentLength bytes in
    let* (prec, bs2) := Yield bs1 in
    let* (h, bs3) := yield_u16 bs2 in
    let* (w, bs4) := yield_u16 bs3 in
    let* (n, bs5) := Yield bs4 in
    let* (chans, _) := read_n (Z.to_nat n) read_channel_props bs5 in
    ret (mk_dct_payload prec h w chans)).

(** ** DQT *)

(** The entry loop of [DQT::ReadStripped]: [byte_count] runs to
    [expected_length = 64 * precision]; each entry is written at
    [block.At(byte_count)], one byte (precision 1) or two (precision 2)
    per entry.  [Block::At] takes a [uint8_t] and indexes the 64-entry
    [std::array] unchecked.  The block starts uninitialised; it is
    modelled by zeros, every entry of it being written on the paths that
    do not fail. *)
Fixpoint dqt_entries (n : nat) (byte_count : Z) (prec : Z) (block : list Z) (bs : byte_stream)
  : st istream (list Z * byte_stream) :=
  match n with
  | O => ret (block, bs)
  | S n' =>
      if prec =? 1 then
        let* (b, bs1) := Yield bs in
        let* block' := lift (array_set block (to_uint8 byte_count) (cast_int16 (ComposeBytes 16 [b]))) in
        dqt_entries n' (byte_count + 1) prec block' bs1
      else if prec =? 2 then
        let* (w, bs1) := yield_u16 bs in
        let* block' := lift (array_set block (to_uint8 byte_count) (cast_int16 w)) in
        dqt_entries n' (byte_count + 1) prec block' bs1
      else raise (RuntimeError "unexpected precision value")
  end.

Definition DQT_ReadStripped (bs : byte_stream) (content_length : Z)
  : st istream (dqt_payload * byte_stream) :=
  let* (precision_and_id, bs1) := Yield bs in
  let '(prec_nibble, id) := SplitByte precision_and_id in
  let prec := if prec_nibble =? 1 then 2 else 1 in
  let expected_length := 64 * prec in
  if content_length <? expected_length + 1 then raise (RuntimeError "dqt read failed")
  else
    let* (block, bs2) := dqt_entries (Z.to_nat expected_length) 0 prec (repeat 0 64) bs1 in
    ret (mk_dqt_payload block (1 + expected_length) prec id, bs2).

(** [while (content_left > 0)], [content_left] a [uint16_t]; each table
    takes [1 + 64 * precision] bytes, checked against what is left, so
    the loop ends within [content_length] iterations. *)
(** [DQT::ReadSingle]. *)
Definition DQT_ReadSingle : st istream dqt_payload :=
  with_byte_stream (fun bytes =>
    let* (content_length, bs1) := GetContentLength bytes in
    let* (p, _) := DQT_ReadStripped bs1 content_length in
    ret p).

Fixpoint dqt_multiple (fuel : nat) (content_left : Z) (bs : byte_stream)
  : st istream (list dqt_payload) :=
  if content_left <=? 0 then ret []
  else match fuel with
       | O => raise OutOfFuel
       | S fuel' =>
           let* (p, bs1) := DQT_ReadStripped bs content_left in
           let* rest := dqt_multiple fuel' (to_uint16 (content_left - dqt_content_length p)) bs1 in
           ret (p :: rest)
       end.

Definition DQT_ReadMultiple : st istream (list dqt_payload) :=
  with_byte_stream (fun bytes =>
    let* (content_length, bs1) := GetContentLength bytes in
    dqt_multiple (Z.to_nat content_length) content_length bs1).

(** ** DHT *)

Definition kNumEntries : Z := 16.

Definition DHT_ReadStripped (bs : byte_stream) : st istream (dht_payload * byte_stream) :=
  let* (meta, bs1) := Yield bs in
  let '(is_ac, id) := SplitByte meta in
  if 1 <? is_ac then raise (RuntimeError "invalid ac/dc flag in huffman table")
  else
    let* (num_values, bs2) := yield_n (Z.to_nat kNumEntries) bs1 in
    let num_values_accumulated := fold_left (fun acc c => to_uint16 (acc + c)) num_values 0 in
    let* (values, bs3) := yield_n (Z.to_nat num_values_accumulated) bs2 in
    let* tree := lift (FromSequence num_values values) in
    ret (mk_dht_payload tree is_ac id
           (Z.of_nat (List.length values) + Z.of_nat (List.length num_values) + 1), bs3).

(** [DHT::ReadSingle]: the table without its segment length. *)
Definition DHT_ReadSingle : st istream dht_payload :=
  with_byte_stream (fun bytes => let* (p, _) := DHT_ReadStripped bytes in ret p).

(** [while (content_left > kNumEntries)] with [content_left -=
    content_length] in [uint16_t]: a table longer than what is left wraps
    [content_left] around instead of stopping the loop, so the loop is
    not bounded by [content_length].  Each iteration reads at least 17
    bytes of the input, which bounds it: the fuel is the length of the
    unread input plus one, and the termination theorem below shows that
    more fuel never changes the result. *)
Fixpoint dht_multiple (fuel : nat) (content_left : Z) (bs : byte_stream)
  : st istream (list dht_payload * Z) :=
  if content_left <=? kNumEntries then ret ([], content_left)
  else match fuel with
       | O => raise OutOfFuel
       | S fuel' =>
           let* (p, bs1) := DHT_ReadStripped bs in
           let* (rest, remaining_) :=
             dht_multiple fuel' (to_uint16 (content_left - dht_content_length p)) bs1 in
           ret (p :: rest, remaining_)
       end.

Definition DHT_ReadMultiple : st istream (list dht_payload) :=
  with_byte_stream (fun bytes =>
    let* (content_length, bs1) := GetContentLength bytes in
    let* s := get in
    let* (tables, content_left) := dht_multiple (List.length (remaining s) + 1) content_length bs1 in
    if negb (content_left =? 0) then raise (RuntimeError "huffman tree section not fully consumed")
    else ret tables).

(** ** SOS *)

Definition read_sos_channel (bs : byte_stream) : st istream (sos_channel * byte_stream) :=
  let* (id, bs1) := Yield bs in
  let* (ht_info, bs2) := Yield bs1 in
  let '(dc, ac) := SplitByte ht_info in
  ret (mk_sos_channel id dc ac, bs2).

Definition SOS_Read : st istream sos_payload :=
  with_byte_stream (fun bytes =>
    let* (_, bs1) := GetContentLength bytes in
    let* (nr_channels, bs2) := Yield bs1 in
    let* (chans, bs3) := read_n (Z.to_nat nr_channels) read_sos_channel bs2 in
    let* (ss, bs4) := Yield bs3 in
    let* (se, bs5) := Yield bs4 in
    let* (abp, _) := Yield bs5 in
    if negb (ss =? 0) then raise (RuntimeError "invalid sos parameter")
    else if negb (se =? 63) then raise (RuntimeError "invalid eos parameter")
    else if negb (abp =? 0) then raise (RuntimeError "invalid abp parameter")
    else ret (mk_sos_payload chans ss se abp)).

(** ** Markers: [CheckToken<Command>] is membership in [kStart]. *)

Definition CheckToken (kStart : list Z) (token : Z) : bool :=
  existsb (fun key => key =? token) kStart.

Definition kStart_Start : list Z := [255; 216].
Definition kStart_Comment : list Z := [254].
Definition kStart_DCT : list Z := [192].
Definition kStart_DQT : list Z := [219].
Definition kStart_DHT : list Z := [196].
Definition kStart_SOS : list Z := [218].
Definition kStart_App : list Z := map (fun k => 224 + Z.of_nat k) (seq 0 16).

(** ** Encoders of the segments, the reference the readers are checked against *)

Definition u16_bytes (v : Z) : list Z := [v / 256; v mod 256].

Definition dqt8_encode (prec_nibble id : Z) (block : list Z) : list Z :=
  (16 * prec_nibble + id) :: block.

Definition dht_encode (is_ac id : Z) (counts values : list Z) : list Z :=
  (16 * is_ac + id) :: counts ++ values.

Definition sos_channel_bytes (c : sos_channel) : list Z := [sc_id c; 16 * dc_ht_id c + ac_ht_id c].

Definition sos_encode (len : Z) (p : sos_payload) : list Z :=
  u16_bytes len ++ Z.of_nat (List.length (sos_channels p))
  :: concat (map sos_channel_bytes (sos_channels p)) ++ [sos_start p; sos_end p; sos_abp p].

Definition sos_channel_ok (c : sos_channel) : Prop :=
  0 <= dc_ht_id c < 16 /\ 0 <= ac_ht_id c < 16.

(** A Huffman table as the segment carries it. *)
Record dht_table : Type := mk_dht_table {
  t_class : Z; t_id : Z; t_counts : list Z; t_values : list Z
}.

Definition dht_table_bytes (tb : dht_table) : list Z :=
  dht_encode (t_class tb) (t_id tb) (t_counts tb) (t_values tb).

Definition dht_table_ok (tb : dht_table) : Prop :=
  0 <= t_class tb <= 1 /\ 0 <= t_id tb < 16 /\ List.length (t_counts tb) = 16%nat /\
  Forall is_byte (t_counts tb) /\ fold_left Z.add (t_counts tb) 0 = Z.of_nat (List.length (t_values tb)).

Definition dht_table_size (tb : dht_table) : Z := Z.of_nat (List.length (t_values tb)) + 17.

(** The payload a table is expected to give. *)
Definition dht_table_payload (tb : dht_table) : result dht_payload :=
  let? t := FromSequence (t_counts tb) (t_values tb) in
  Ok (mk_dht_payload t (t_class tb) (t_id tb) (dht_table_size tb)).

Definition dht_segment_bytes (tables : list dht_table) : list Z :=
  u16_bytes (2 + fold_right Z.add 0 (map dht_table_size tables)) ++ concat (map dht_table_bytes tables).

(** A computation that never gives input back: the readers only
    extract bytes, none of them seeks. *)
Definition consuming {A : Type} (c : st istream A) : Prop :=
  forall s a s', c s = Ok (a, s') -> (List.length (remaining s') <= List.length (remaining s))%nat.

(** ** Reading lemmas *)

Lemma u16_bytes_spec v :
  0 <= v < 65536 -> Forall is_byte (u16_bytes v) /\ 256 * (v / 256) + v mod 256 = v.
Proof.
  intros Hv. pose proof (Z.div_mod v 256 ltac:(lia)). pose proof (Z.mod_pos_bound v 256 ltac:(lia)).
  assert (0 <= v / 256 < 256) by (split; [apply Z.div_pos | apply Z.div_lt_upper_bound]; lia).
  split; [repeat constructor; unfold is_byte; lia | lia].
Qed.

Lemma yield_n_at n s l rest :
  List.length l = n -> at_input s (l ++ rest) ->
  exists s', yield_n n (mk_byte_stream false) s = Ok ((l, mk_byte_stream false), s')
             /\ at_input s' rest.
Proof.
  intros <-. revert s. induction l as [|c l IH]; intros s Hs.
  - exists s. split; [reflexivity | exact Hs].
  - destruct (Yield_at (mk_byte_stream false) s c (l ++ rest) eq_refl Hs) as [s1 [Hy Hs1]].
    destruct (IH s1 Hs1) as [s2 [Hn Hs2]]. exists s2. split; [|exact Hs2].
    cbn [yield_n List.length]. rewrite (bind_ok _ _ _ _ _ Hy). cbn.
    rewrite (bind_ok _ _ _ _ _ Hn). reflexivity.
Qed.

Lemma yield_u16_at s hi lo rest :
  at_input s (hi :: lo :: rest) ->
  exists s', yield_u16 (mk_byte_stream false) s
             = Ok ((ComposeBytes 16 [hi; lo], mk_byte_stream false), s') /\ at_input s' rest.
Proof.
  intros Hs. destruct (Yield_at (mk_byte_stream false) s hi _ eq_refl Hs) as [s1 [H1 Hs1]].
  destruct (Yield_at (mk_byte_stream false) s1 lo _ eq_refl Hs1) as [s2 [H2 Hs2]].
  exists s2. split; [|exact Hs2]. unfold yield_u16.
  rewrite (bind_ok _ _ _ _ _ H1). cbn. rewrite (bind_ok _ _ _ _ _ H2). reflexivity.
Qed.

(** The length field of a segment. *)
Lemma GetContentLength_at s v rest :
  0 <= v < 65536 -> at_input s (u16_bytes v ++ rest) ->
  if v <? 2 then GetContentLength (mk_byte_stream false) s
                 = Err (RuntimeError "block length is less than 2")
  else exists s', GetContentLength (mk_byte_stream false) s
                  = Ok ((v - 2, mk_byte_stream false), s') /\ at_input s' rest.
Proof.
  intros Hv Hs. destruct (u16_bytes_spec v Hv) as [Hb Hval].
  inversion Hb as [|? ? Hhi Hb']; subst. inversion Hb' as [|? ? Hlo _]; subst.
  destruct (yield_u16_at s _ _ rest Hs) as [s1 [H1 Hs1]].
  unfold GetContentLength. rewrite (bind_ok _ _ _ _ _ H1). cbn -[ComposeBytes Z.ltb Z.sub].
  rewrite ComposeBytes_u16, Hval by assumption.
  destruct (v <? 2); [reflexivity | exists s1; split; [reflexivity | exact Hs1]].
Qed.

Lemma array_set_ok buffer i v :
  0 <= i < Z.of_nat (List.length buffer) ->
  array_set buffer i v = Ok (firstn (Z.to_nat i) buffer ++ v :: skipn (S (Z.to_nat i)) buffer).
Proof.
  intros Hi. unfold array_set.
  replace ((i <? 0) || (Z.of_nat (List.length buffer) <=? i)) with false
    by (symmetry; apply orb_false_iff; split; [apply Z.ltb_ge | apply Z.leb_gt]; lia).
  reflexivity.
Qed.

Lemma array_set_oob buffer i v :
  Z.of_nat (List.length buffer) <= i -> array_set buffer i v = Err (Undefined OutOfBoundsAccess).
Proof.
  intros Hi. unfold array_set. rewrite (proj2 (Z.leb_le _ _) Hi), orb_true_r. reflexivity.
Qed.

Lemma set_length {A : Type} (buffer : list A) i (v : A) :
  (i < List.length buffer)%nat ->
  List.length (firstn i buffer ++ v :: skipn (S i) buffer) = List.length buffer.
Proof. intros Hi. rewrite length_app, length_firstn, Nat.min_l by lia. cbn [List.length]. rewrite length_skipn. lia. Qed.

Lemma firstn_set {A : Type} (buffer : list A) i (v : A) :
  (i < List.length buffer)%nat ->
  firstn (S i) (firstn i buffer ++ v :: skipn (S i) buffer) = firstn i buffer ++ [v].
Proof.
  intros Hi. rewrite firstn_app, length_firstn, Nat.min_l by lia.
  rewrite firstn_all2 by (rewrite length_firstn; lia).
  replace (S i - i)%nat with 1%nat by lia. reflexivity.
Qed.

(** A byte read into a 16-bit entry keeps its value. *)
Lemma cast_int16_byte b : is_byte b -> cast_int16 (ComposeBytes 16 [b]) = b.
Proof.
  intros Hb. unfold is_byte in Hb.
  rewrite ComposeBytes_value by (repeat constructor; cbn; unfold is_byte; lia).
  cbn. unfold cast_int16. rewrite to_int16_id; lia.
Qed.

(** The 8-bit entry loop writes the bytes it reads, in order, from
    [byte_count] to the end of the block. *)
Lemma dqt_entries_8bit l bc block s rest :
  List.length block = 64%nat -> 0 <= bc -> bc + Z.of_nat (List.length l) = 64 ->
  Forall is_byte l -> at_input s (l ++ rest) ->
  exists s', dqt_entries (List.length l) bc 1 block (mk_byte_stream false) s
             = Ok ((firstn (Z.to_nat bc) block ++ l, mk_byte_stream false), s') /\ at_input s' rest.
Proof.
  revert bc block s. induction l as [|b l IH]; intros bc block s Hlen Hbc Hn Hl Hs.
  - exists s. split; [|exact Hs]. cbn [List.length] in Hn.
    rewrite app_nil_r, firstn_all2 by lia. reflexivity.
  - inversion Hl as [|? ? Hb Hl']; subst. cbn [List.length] in Hn.
    destruct (Yield_at (mk_byte_stream false) s b _ eq_refl Hs) as [s1 [H1 Hs1]].
    set (block' := firstn (Z.to_nat bc) block ++ b :: skipn (S (Z.to_nat bc)) block).
    assert (Hset : array_set block (to_uint8 bc) (cast_int16 (ComposeBytes 16 [b])) = Ok block').
    { rewrite cast_int16_byte, to_uint8_id by (auto; lia). apply array_set_ok. lia. }
    assert (Hlen' : List.length block' = 64%nat) by (unfold block'; rewrite set_length; lia).
    destruct (IH (bc + 1) block' s1 Hlen' ltac:(lia) ltac:(lia) Hl' Hs1) as [s2 [H2 Hs2]].
    exists s2. split; [|exact Hs2]. cbn [dqt_entries List.length Z.eqb Pos.eqb].
    rewrite (bind_ok _ _ _ _ _ H1). cbn beta iota.
    rewrite (bind_ok _ _ _ _ _ (lift_ok _ _ s1 Hset)). rewrite H2.
    replace (Z.to_nat (bc + 1)) with (S (Z.to_nat bc)) by lia.
    unfold block'. rewrite firstn_set by lia. rewrite <- app_assoc. reflexivity.
Qed.

(** The 16-bit entry loop: once [byte_count] reaches 64, the next entry is
    written past the end of the block. *)
Lemma dqt_entries_16bit_oob k m l bc block s rest :
  List.length block = 64%nat -> 0 <= bc -> bc + Z.of_nat k = 64 ->
  List.length l = (2 * (k + 1))%nat -> at_input s (l ++ rest) ->
  dqt_entries (k + S m) bc 2 block (mk_byte_stream false) s = Err (Undefined OutOfBoundsAccess).
Proof.
  revert l bc block s. induction k as [|k IH]; intros l bc block s Hlen Hbc Hk Hl Hs;
    (destruct l as [|hi [|lo l]]; [cbn in Hl; lia | cbn in Hl; lia |]);
    destruct (yield_u16_at s hi lo (l ++ rest) Hs) as [s1 [H1 Hs1]];
    cbn [Nat.add dqt_entries Z.eqb Pos.eqb]; rewrite (bind_ok _ _ _ _ _ H1); cbn beta iota.
  - unfold lift at 1. rewrite array_set_oob; [reflexivity|].
    rewrite to_uint8_id; lia.
  - set (block' := firstn (Z.to_nat bc) block ++ cast_int16 (ComposeBytes 16 [hi; lo])
                   :: skipn (S (Z.to_nat bc)) block).
    assert (Hset : array_set block (to_uint8 bc) (cast_int16 (ComposeBytes 16 [hi; lo]))
                   = Ok block') by (rewrite to_uint8_id by lia; apply array_set_ok; lia).
    assert (Hlen' : List.length block' = 64%nat) by (unfold block'; rewrite set_length; lia).
    rewrite (bind_ok _ _ _ _ _ (lift_ok _ _ s1 Hset)).
    apply (IH l); [exact Hlen' | lia | lia | cbn in Hl; lia | exact Hs1].
Qed.

(** ** The properties of the readers *)

(** C26 A DQT table of precision nibble [p <> 1] is read as 64 one-byte
    entries, whatever the nibble: the table comes back unchanged with its
    id, or the reader fails with "dqt read failed" when the segment has
    less than 65 bytes left.  A nibble other than 0 and 1 is accepted as
    8-bit. *)
Theorem DQT_ReadStripped_8bit cl s p id block rest :
  0 <= p < 16 -> p <> 1 -> 0 <= id < 16 -> List.length block = 64%nat -> Forall is_byte block ->
  at_input s (dqt8_encode p id block ++ rest) ->
  if cl <? 65 then DQT_ReadStripped (mk_byte_stream false) cl s = Err (RuntimeError "dqt read failed")
  else exists s', DQT_ReadStripped (mk_byte_stream false) cl s
                  = Ok ((mk_dqt_payload block 65 1 id, mk_byte_stream false), s') /\ at_input s' rest.
Proof.
  intros Hp Hp1 Hid Hlen Hb Hs.
  destruct (Yield_at (mk_byte_stream false) s _ _ eq_refl Hs) as [s1 [H1 Hs1]].
  unfold DQT_ReadStripped. rewrite (bind_ok _ _ _ _ _ H1). cbv beta iota.
  rewrite SplitByte_nibbles by lia. rewrite (proj2 (Z.eqb_neq p 1) Hp1).
  change (64 * 1 + 1) with 65. destruct (cl <? 65); [reflexivity|].
  change (at_input s1 (block ++ rest)) in Hs1.
  destruct (dqt_entries_8bit block 0 (repeat 0 64) s1 rest) as [s2 [H2 Hs2]];
    [reflexivity | lia | rewrite Hlen; reflexivity | exact Hb | exact Hs1 |].
  exists s2. split; [|exact Hs2].
  change (Z.to_nat (64 * 1)) with 64%nat. rewrite Hlen in H2. rewrite (bind_ok _ _ _ _ _ H2). reflexivity.
Qed.

(** C36 A 16-bit DQT table (precision nibble 1) makes the reader write
    entry 64 of the 64-entry block: with 130 bytes of entries available,
    [DQT::ReadStripped] reaches undefined behaviour instead of returning a
    table. *)
Theorem DQT_ReadStripped_16bit_oob cl s id l rest :
  0 <= id < 16 -> 129 <= cl -> List.length l = 130%nat ->
  at_input s ((16 + id) :: l ++ rest) ->
  DQT_ReadStripped (mk_byte_stream false) cl s = Err (Undefined OutOfBoundsAccess).
Proof.
  intros Hid Hcl Hl Hs.
  destruct (Yield_at (mk_byte_stream false) s _ _ eq_refl Hs) as [s1 [H1 Hs1]].
  unfold DQT_ReadStripped. rewrite (bind_ok _ _ _ _ _ H1). cbv beta iota.
  rewrite <- (Z.mul_1_r 16), SplitByte_nibbles by lia. cbn [Z.eqb Pos.eqb].
  change (64 * 2 + 1) with 129. rewrite (proj2 (Z.ltb_ge cl 129) Hcl).
  change (Z.to_nat (64 * 2)) with (64 + S 63)%nat.
  rewrite (bind_err _ _ _ _ (dqt_entries_16bit_oob 64 63 l 0 (repeat 0 64) s1 rest
                                eq_refl ltac:(lia) eq_refl Hl Hs1)).
  reflexivity.
Qed.

Lemma fold_uint16_small l acc :
  Forall is_byte l -> 0 <= acc -> acc + 255 * Z.of_nat (List.length l) < 65536 ->
  fold_left (fun acc c => to_uint16 (acc + c)) l acc = fold_left Z.add l acc.
Proof.
  revert acc. induction l as [|c l IH]; intros acc Hl Hacc Hn; [reflexivity|].
  inversion Hl as [|? ? Hc Hl']; subst. unfold is_byte in Hc. cbn [fold_left].
  cbn [List.length] in Hn. rewrite to_uint16_id by lia. apply IH; [exact Hl' | lia | lia].
Qed.

(** A DHT table is read back from its encoding: the flag and id
    nibbles, the 16 code counts and as many symbol values as the counts
    add up to; the tree is the one [FromSequence] builds from them (its
    error, if it has one, is the reader's) and the table's length is
    [17 + number of values].  A class nibble above 1 is rejected. *)
Theorem DHT_ReadStripped_encode s is_ac id counts values rest :
  0 <= is_ac < 16 -> 0 <= id < 16 -> List.length counts = 16%nat -> Forall is_byte counts ->
  fold_left Z.add counts 0 = Z.of_nat (List.length values) ->
  at_input s (dht_encode is_ac id counts values ++ rest) ->
  if 1 <? is_ac
  then DHT_ReadStripped (mk_byte_stream false) s
       = Err (RuntimeError "invalid ac/dc flag in huffman table")
  else exists s', at_input s' rest /\
    DHT_ReadStripped (mk_byte_stream false) s
    = (let? t := FromSequence counts values in
       Ok ((mk_dht_payload t is_ac id (Z.of_nat (List.length values) + 17), mk_byte_stream false), s')).
Proof.
  intros Hac Hid Hlen Hb Hsum Hs.
  destruct (Yield_at (mk_byte_stream false) s _ _ eq_refl Hs) as [s1 [H1 Hs1]].
  unfold DHT_ReadStripped. rewrite (bind_ok _ _ _ _ _ H1). cbv beta iota.
  rewrite SplitByte_nibbles by lia. destruct (1 <? is_ac); [reflexivity|].
  change (at_input s1 ((counts ++ values) ++ rest)) in Hs1. rewrite <- app_assoc in Hs1.
  destruct (yield_n_at 16 s1 counts _ Hlen Hs1) as [s2 [H2 Hs2]].
  destruct (yield_n_at (List.length values) s2 values rest eq_refl Hs2) as [s3 [H3 Hs3]].
  exists s3. split; [exact Hs3|].
  change (Z.to_nat kNumEntries) with 16%nat. rewrite (bind_ok _ _ _ _ _ H2). cbv beta iota.
  rewrite fold_uint16_small, Hsum, Nat2Z.id by (auto; lia).
  rewrite (bind_ok _ _ _ _ _ H3). cbv beta iota.
  unfold bind, lift. destruct (FromSequence counts values) as [t|e]; [|reflexivity].
  unfold ret. rewrite Hlen.
  replace (Z.of_nat (List.length values) + Z.of_nat 16 + 1) with (Z.of_nat (List.length values) + 17) by lia.
  reflexivity.
Qed.

Lemma DHT_ReadStripped_table s tb p rest :
  dht_table_ok tb -> dht_table_payload tb = Ok p -> at_input s (dht_table_bytes tb ++ rest) ->
  exists s', DHT_ReadStripped (mk_byte_stream false) s = Ok ((p, mk_byte_stream false), s')
             /\ at_input s' rest.
Proof.
  intros (Hc & Hid & Hlen & Hb & Hsum) Hp Hs.
  pose proof (DHT_ReadStripped_encode s (t_class tb) (t_id tb) (t_counts tb) (t_values tb) rest
                ltac:(lia) Hid Hlen Hb Hsum Hs) as H.
  rewrite (proj2 (Z.ltb_ge 1 (t_class tb)) ltac:(lia)) in H. destruct H as [s' [Hs' H]].
  exists s'. split; [|exact Hs']. rewrite H. unfold dht_table_payload, dht_table_size in Hp.
  destruct (FromSequence (t_counts tb) (t_values tb)); cbn in *; congruence.
Qed.

Lemma yield_n_consumes n bs s r s' :
  yield_n n bs s = Ok (r, s') -> (List.length (remaining s') + n <= List.length (remaining s))%nat.
Proof.
  revert bs s r s'. induction n as [|n IH]; intros bs s r s' H.
  - injection H as _ <-. lia.
  - cbn [yield_n] in H. bind_inv H. destruct a as [b bs1]. cbv beta iota in H.
    apply Yield_consumes in E. bind_inv H. destruct a as [l bs2]. cbv beta iota in H.
    apply IH in E0. injection H as _ <-. lia.
Qed.

(** A table takes at least its 17 header bytes out of the input. *)
Lemma DHT_ReadStripped_consumes bs s p bs' s' :
  DHT_ReadStripped bs s = Ok ((p, bs'), s') ->
  (List.length (remaining s') + 17 <= List.length (remaining s))%nat.
Proof.
  intros H. unfold DHT_ReadStripped in H. bind_inv H. destruct a as [b bs1].
  cbv beta iota in H. apply Yield_consumes in E.
  destruct (SplitByte b) as [is_ac id]. destruct (1 <? is_ac); [discriminate H|].
  bind_inv H. destruct a as [counts bs2]. cbv beta iota in H. apply yield_n_consumes in E0.
  bind_inv H. destruct a as [values bs3]. cbv beta iota in H. apply yield_n_consumes in E1.
  bind_inv H. unfold lift in E2. destruct (FromSequence counts values); [|discriminate E2].
  injection E2 as _ <-. injection H as _ _ <-. change (Z.to_nat kNumEntries) with 16%nat in E0. lia.
Qed.

(** [DHT::ReadMultiple] terminates: every table it reads takes at least
    17 bytes of the input, so a fuel above a seventeenth of the unread
    input is enough, and more fuel gives the same result. *)
Theorem dht_multiple_fuel fuel k content_left bs s :
  (List.length (remaining s) < 17 * fuel)%nat ->
  dht_multiple (fuel + k) content_left bs s = dht_multiple fuel content_left bs s.
Proof.
  revert content_left bs s. induction fuel as [|fuel IH]; intros cl bs s Hf; [lia|].
  cbn [Nat.add dht_multiple]. destruct (cl <=? kNumEntries); [reflexivity|].
  destruct (DHT_ReadStripped bs s) as [[[p bs1] s1]|e] eqn:E;
    [|rewrite !(bind_err _ _ _ _ E); reflexivity].
  rewrite !(bind_ok _ _ _ _ _ E). cbv beta iota. unfold bind.
  rewrite IH by (apply DHT_ReadStripped_consumes in E; lia). reflexivity.
Qed.

Lemma dht_sizes_nonneg tables : 0 <= fold_right Z.add 0 (map dht_table_size tables).
Proof.
  induction tables as [|tb tables IH]; [cbn; lia|]. cbn [map fold_right].
  unfold dht_table_size at 1. lia.
Qed.

Lemma dht_tables_length tables :
  (List.length tables <= List.length (concat (map dht_table_bytes tables)))%nat.
Proof.
  induction tables as [|tb tables IH]; [cbn; lia|]. cbn [map concat List.length].
  rewrite length_app. unfold dht_table_bytes at 1, dht_encode. cbn [List.length]. lia.
Qed.

Lemma dht_table_payload_length tb p :
  dht_table_payload tb = Ok p -> dht_content_length p = dht_table_size tb.
Proof.
  unfold dht_table_payload. destruct (FromSequence _ _); cbn; [|discriminate].
  intros H. injection H as <-. reflexivity.
Qed.

(** The loop of [DHT::ReadMultiple] over a segment made of whole tables
    reads each of them and stops with nothing left. *)
Lemma dht_multiple_encode tables payloads fuel s rest :
  Forall dht_table_ok tables -> rmap dht_table_payload tables = Ok payloads ->
  fold_right Z.add 0 (map dht_table_size tables) < 65536 -> (List.length tables < fuel)%nat ->
  at_input s (concat (map dht_table_bytes tables) ++ rest) ->
  exists s', dht_multiple fuel (fold_right Z.add 0 (map dht_table_size tables)) (mk_byte_stream false) s
             = Ok ((payloads, 0), s') /\ at_input s' rest.
Proof.
  revert payloads fuel s. induction tables as [|tb tables IH]; intros payloads fuel s Hok Hp Hsum Hf Hs.
  - injection Hp as <-. exists s. split; [|exact Hs]. destruct fuel; reflexivity.
  - inversion Hok as [|? ? Htb Hok']; subst. cbn in Hp.
    destruct (dht_table_payload tb) as [p|e] eqn:Ep; [|discriminate]. cbn in Hp.
    destruct (rmap dht_table_payload tables) as [ps|e] eqn:Eps; [|discriminate].
    injection Hp as <-. destruct fuel as [|fuel]; [cbn in Hf; lia|].
    cbn [concat map] in Hs. rewrite <- app_assoc in Hs.
    destruct (DHT_ReadStripped_table s tb p _ Htb Ep Hs) as [s1 [H1 Hs1]].
    pose proof (dht_sizes_nonneg tables). pose proof (dht_table_payload_length tb p Ep) as Hl.
    cbn [map fold_right] in *.
    assert (0 <= dht_table_size tb) by (unfold dht_table_size; lia).
    destruct (IH ps fuel s1 Hok' eq_refl ltac:(lia) ltac:(cbn in Hf; lia) Hs1) as [s2 [H2 Hs2]].
    exists s2. split; [|exact Hs2]. cbn [dht_multiple].
    rewrite (proj2 (Z.leb_gt _ kNumEntries)) by (unfold kNumEntries, dht_table_size in *; lia).
    rewrite (bind_ok _ _ _ _ _ H1). cbv beta iota. rewrite Hl.
    replace (to_uint16 (dht_table_size tb + fold_right Z.add 0 (map dht_table_size tables)
                        - dht_table_size tb))
      with (fold_right Z.add 0 (map dht_table_size tables)) by (rewrite to_uint16_id; lia).
    rewrite (bind_ok _ _ _ _ _ H2). reflexivity.
Qed.

(** C6 A DHT segment made of whole tables, its length field counting
    them, is read back by [DHT::ReadMultiple] as the payloads of its
    tables, in order, and the stream is left after the segment. *)
Theorem DHT_ReadMultiple_encode tables payloads s rest :
  Forall dht_table_ok tables -> rmap dht_table_payload tables = Ok payloads ->
  2 + fold_right Z.add 0 (map dht_table_size tables) < 65536 ->
  at_input s (dht_segment_bytes tables ++ rest) ->
  exists s', DHT_ReadMultiple s = Ok (payloads, s') /\ at_input s' rest.
Proof.
  intros Hok Hp Hsum Hs. pose proof (dht_sizes_nonneg tables) as Hnn.
  set (total := fold_right Z.add 0 (map dht_table_size tables)) in *.
  unfold dht_segment_bytes in Hs. rewrite <- app_assoc in Hs.
  pose proof (GetContentLength_at s (2 + total) _ ltac:(lia) Hs) as H.
  rewrite (proj2 (Z.ltb_ge _ 2)) in H by lia. destruct H as [s1 [H1 Hs1]].
  replace (2 + total - 2) with total in H1 by lia.
  assert (Hrem : (List.length tables < List.length (remaining s1) + 1)%nat).
  { destruct Hs1 as [_ ->]. rewrite length_app. pose proof (dht_tables_length tables). lia. }
  destruct (dht_multiple_encode tables payloads _ s1 rest Hok Hp ltac:(lia) Hrem Hs1) as [s2 [H2 Hs2]].
  exists s2. split; [|exact Hs2]. unfold DHT_ReadMultiple, with_byte_stream, ByteStream_new.
  rewrite (proj1 Hs). rewrite (bind_ok _ _ _ _ _ H1). cbv beta iota.
  rewrite (bind_ok get _ s1 s1 s1 eq_refl). rewrite (bind_ok _ _ _ _ _ H2). reflexivity.
Qed.

Lemma dht_table_size_bound tb : dht_table_ok tb -> dht_table_size tb <= 17 + 255 * 16.
Proof.
  intros (_ & _ & Hlen & Hb & Hsum). unfold dht_table_size.
  pose proof (fold_left_add_bytes _ 0 Hb) as H. rewrite Hlen in H. cbn in H. lia.
Qed.

(** C38 A DHT table longer than what is left of its segment makes the
    [uint16_t] counter [content_left] wrap around: for every well-formed
    table and every count [content_left] above 16 and below the table's
    size, the loop reads the table, then goes on with [content_left]
    wrapped to [content_left - size + 65536], still above 16, so it reads
    the bytes after the table as a further table, past the segment,
    instead of stopping and reporting the segment as not fully
    consumed. *)
Theorem DHT_ReadMultiple_overrun tb p cl fuel s rest :
  dht_table_ok tb -> dht_table_payload tb = Ok p -> at_input s (dht_table_bytes tb ++ rest) ->
  kNumEntries < cl < dht_table_size tb ->
  kNumEntries < cl - dht_table_size tb + 65536 /\
  exists s', at_input s' rest /\
    dht_multiple (S fuel) cl (mk_byte_stream false) s =
      (let* (tables, remaining_) := dht_multiple fuel (cl - dht_table_size tb + 65536) (mk_byte_stream false) in
       ret (p :: tables, remaining_)) s'.
Proof.
  intros Hok Hp Hs Hcl. pose proof (dht_table_size_bound tb Hok) as Hb.
  split; [unfold kNumEntries in *; lia|].
  destruct (DHT_ReadStripped_table s tb p rest Hok Hp Hs) as [s1 [H1 Hs1]].
  exists s1. split; [exact Hs1|]. cbn [dht_multiple].
  rewrite (proj2 (Z.leb_gt _ kNumEntries)) by lia.
  rewrite (bind_ok _ _ _ _ _ H1). cbv beta iota. rewrite (dht_table_payload_length tb p Hp).
  unfold kNumEntries in Hcl. rewrite to_uint16_neg by lia. reflexivity.
Qed.

Lemma read_sos_channels_at chans s rest :
  Forall sos_channel_ok chans -> at_input s (concat (map sos_channel_bytes chans) ++ rest) ->
  exists s', read_n (List.length chans) read_sos_channel (mk_byte_stream false) s
             = Ok ((chans, mk_byte_stream false), s') /\ at_input s' rest.
Proof.
  revert s. induction chans as [|c chans IH]; intros s Hok Hs.
  - exists s. split; [reflexivity | exact Hs].
  - inversion Hok as [|? ? [Hdc Hac] Hok']; subst.
    destruct (Yield_at (mk_byte_stream false) s (sc_id c) _ eq_refl Hs) as [s1 [H1 Hs1]].
    destruct (Yield_at (mk_byte_stream false) s1 (16 * dc_ht_id c + ac_ht_id c) _ eq_refl Hs1)
      as [s2 [H2 Hs2]].
    destruct (IH s2 Hok' Hs2) as [s3 [H3 Hs3]]. exists s3. split; [|exact Hs3].
    cbn [read_n List.length]. unfold read_sos_channel at 1.
    rewrite bind_assoc, (bind_ok _ _ _ _ _ H1). cbv beta iota.
    rewrite bind_assoc, (bind_ok _ _ _ _ _ H2). cbv beta iota.
    rewrite SplitByte_nibbles by assumption. unfold bind at 1. cbn [ret]. cbv beta iota. rewrite (bind_ok _ _ _ _ _ H3).
    destruct c; reflexivity.
Qed.

(** C27 [SOS::Read] on a scan header: the channel selectors come back as
    written, and the header is accepted exactly when the spectral start
    is 0, the spectral end 63 and the approximation byte 0, each other
    case failing with its own message, checked in this order. *)
Theorem SOS_Read_encode s len p rest :
  2 <= len < 65536 -> Forall sos_channel_ok (sos_channels p) ->
  at_input s (sos_encode len p ++ rest) ->
  exists s', at_input s' rest /\
    SOS_Read s = if negb (sos_start p =? 0) then Err (RuntimeError "invalid sos parameter")
                 else if negb (sos_end p =? 63) then Err (RuntimeError "invalid eos parameter")
                 else if negb (sos_abp p =? 0) then Err (RuntimeError "invalid abp parameter")
                 else Ok (p, s').
Proof.
  intros Hlen Hok Hs. unfold sos_encode in Hs. rewrite <- app_assoc in Hs.
  pose proof (GetContentLength_at s len _ ltac:(lia) Hs) as H.
  rewrite (proj2 (Z.ltb_ge _ 2)) in H by lia. destruct H as [s1 [H1 Hs1]].
  destruct (Yield_at (mk_byte_stream false) s1 _ _ eq_refl Hs1) as [s2 [H2 Hs2]].
  change (at_input s2 ((concat (map sos_channel_bytes (sos_channels p))
                        ++ [sos_start p; sos_end p; sos_abp p]) ++ rest)) in Hs2.
  rewrite <- app_assoc in Hs2.
  destruct (read_sos_channels_at _ s2 _ Hok Hs2) as [s3 [H3 Hs3]].
  destruct (Yield_at (mk_byte_stream false) s3 _ _ eq_refl Hs3) as [s4 [H4 Hs4]].
  destruct (Yield_at (mk_byte_stream false) s4 _ _ eq_refl Hs4) as [s5 [H5 Hs5]].
  destruct (Yield_at (mk_byte_stream false) s5 _ _ eq_refl Hs5) as [s6 [H6 Hs6]].
  exists s6. split; [exact Hs6|]. unfold SOS_Read, with_byte_stream, ByteStream_new. rewrite (proj1 Hs).
  rewrite (bind_ok _ _ _ _ _ H1). cbv beta iota. rewrite (bind_ok _ _ _ _ _ H2). cbv beta iota.
  rewrite Nat2Z.id, (bind_ok _ _ _ _ _ H3). cbv beta iota.
  rewrite (bind_ok _ _ _ _ _ H4). cbv beta iota. rewrite (bind_ok _ _ _ _ _ H5). cbv beta iota.
  rewrite (bind_ok _ _ _ _ _ H6). cbv beta iota.
  destruct p as [chans ss se abp]; cbn [sos_start sos_end sos_abp].
  destruct (negb (ss =? 0)), (negb (se =? 63)), (negb (abp =? 0)); reflexivity.
Qed.

(** ** Input consumption *)

Create HintDb consuming.

Lemma consuming_ret {A : Type} (a : A) : consuming (ret a).
Proof. intros s x s' H. injection H as _ <-. lia. Qed.

Lemma consuming_raise {A : Type} e : consuming (A := A) (raise e).
Proof. intros s x s' H. discriminate H. Qed.

Lemma consuming_lift {A : Type} (r : result A) : consuming (lift r).
Proof. intros s x s' H. unfold lift in H. destruct r; [injection H as _ <-; lia | discriminate]. Qed.

Lemma consuming_bind {A B : Type} (c : st istream A) (k : A -> st istream B) :
  consuming c -> (forall a, consuming (k a)) -> consuming (bind c k).
Proof.
  intros Hc Hk s x s' H. unfold bind in H. destruct (c s) as [[a s1]|e] eqn:E; [|discriminate].
  apply Hc in E. apply Hk in H. lia.
Qed.

Lemma consuming_get : consuming get.
Proof. intros s x s' H. injection H as _ <-. lia. Qed.

Lemma consuming_with_byte_stream {A : Type} (body : byte_stream -> st istream A) :
  (forall bs, consuming (body bs)) -> consuming (with_byte_stream body).
Proof. intros Hc s x s' H. exact (Hc _ s x s' H). Qed.

Lemma consuming_Yield bs : consuming (Yield bs).
Proof. intros s [b bs'] s' H. apply Yield_consumes in H. lia. Qed.

#[export] Hint Resolve consuming_ret consuming_raise consuming_lift consuming_get consuming_Yield : consuming.

(** Splits a computation into its steps down to the readers the hint
    database knows. *)
Ltac consuming_tac :=
  repeat match goal with
  | |- consuming (fun y => bind ?c ?k y) => change (consuming (bind c k))
  | |- consuming (with_byte_stream _) => apply consuming_with_byte_stream; intros ?
  | |- consuming (bind _ _) => apply consuming_bind; [|intros [? ?] || intros ?]
  | |- consuming (if ?b then _ else _) => destruct b
  | |- consuming (match ?x with _ => _ end) => destruct x
  | |- _ => solve [eauto with consuming]
  end.

Lemma consuming_yield_n n bs : consuming (yield_n n bs).
Proof. revert bs. induction n as [|n IH]; intros bs; cbn [yield_n]; consuming_tac. Qed.

Lemma consuming_yield_u16 bs : consuming (yield_u16 bs).
Proof. unfold yield_u16. consuming_tac. Qed.

#[export] Hint Resolve consuming_yield_n consuming_yield_u16 : consuming.

Lemma consuming_GetContentLength bs : consuming (GetContentLength bs).
Proof. unfold GetContentLength. consuming_tac. Qed.

#[export] Hint Resolve consuming_GetContentLength : consuming.

Lemma consuming_read_n {A : Type} n (f : byte_stream -> st istream (A * byte_stream)) bs :
  (forall bs, consuming (f bs)) -> consuming (read_n n f bs).
Proof. intros Hf. revert bs. induction n as [|n IH]; intros bs; cbn [read_n]; consuming_tac. Qed.

Lemma consuming_read_channel_props bs : consuming (read_channel_props bs).
Proof. unfold read_channel_props. consuming_tac. Qed.

Lemma consuming_read_sos_channel bs : consuming (read_sos_channel bs).
Proof. unfold read_sos_channel. consuming_tac. Qed.

Lemma consuming_dqt_entries n bc prec block bs : consuming (dqt_entries n bc prec block bs).
Proof. revert bc block bs. induction n as [|n IH]; intros bc block bs; cbn [dqt_entries]; consuming_tac. Qed.

#[export] Hint Resolve consuming_read_n consuming_read_channel_props consuming_read_sos_channel
  consuming_dqt_entries : consuming.

Lemma consuming_DQT_ReadStripped bs cl : consuming (DQT_ReadStripped bs cl).
Proof. unfold DQT_ReadStripped. consuming_tac. Qed.

Lemma consuming_DHT_ReadStripped bs : consuming (DHT_ReadStripped bs).
Proof. unfold DHT_ReadStripped. consuming_tac. Qed.

#[export] Hint Resolve consuming_DQT_ReadStripped consuming_DHT_ReadStripped : consuming.

Lemma consuming_dqt_multiple fuel cl bs : consuming (dqt_multiple fuel cl bs).
Proof. revert cl bs. induction fuel as [|fuel IH]; intros cl bs; cbn [dqt_multiple]; consuming_tac. Qed.

Lemma consuming_dht_multiple fuel cl bs : consuming (dht_multiple fuel cl bs).
Proof. revert cl bs. induction fuel as [|fuel IH]; intros cl bs; cbn [dht_multiple]; consuming_tac. Qed.

#[export] Hint Resolve consuming_dqt_multiple consuming_dht_multiple : consuming.

(** Every segment reader only takes bytes out of the input. *)
Lemma consuming_readers :
  consuming Comment_Read /\ consuming App_Read /\ consuming DCT_Read /\
  consuming DQT_ReadMultiple /\ consuming DHT_ReadMultiple /\ consuming SOS_Read.
Proof.
  repeat split; unfold Comment_Read, App_Read, DCT_Read, DQT_ReadMultiple, DHT_ReadMultiple, SOS_Read;
    consuming_tac.
Qed.

(** ** Witnesses *)

Lemma DQT_ReadStripped_8bit_witness :
  0 <= 0 < 16 /\ 0 <> 1 /\ 0 <= 3 < 16 /\ List.length (repeat 7 64) = 64%nat /\
  Forall is_byte (repeat 7 64) /\
  at_input (open_istream (dqt8_encode 0 3 (repeat 7 64))) (dqt8_encode 0 3 (repeat 7 64) ++ []) /\
  if 65 <? 65
  then DQT_ReadStripped (mk_byte_stream false) 65 (open_istream (dqt8_encode 0 3 (repeat 7 64)))
       = Err (RuntimeError "dqt read failed")
  else exists s', DQT_ReadStripped (mk_byte_stream false) 65 (open_istream (dqt8_encode 0 3 (repeat 7 64)))
                  = Ok ((mk_dqt_payload (repeat 7 64) 65 1 3, mk_byte_stream false), s') /\ at_input s' [].
Proof.
  assert (Hb : Forall is_byte (repeat 7 64)) by (apply Forall_forall; intros x Hx;
    apply repeat_spec in Hx; subst; unfold is_byte; lia).
  assert (Hs : at_input (open_istream (dqt8_encode 0 3 (repeat 7 64))) (dqt8_encode 0 3 (repeat 7 64) ++ []))
    by (split; reflexivity).
  split; [lia|]. split; [lia|]. split; [lia|]. split; [reflexivity|]. split; [exact Hb|].
  split; [exact Hs|]. apply (DQT_ReadStripped_8bit 65 _ 0 3 (repeat 7 64) []); [lia | lia | lia | reflexivity | exact Hb | exact Hs].
Defined.

Lemma DQT_ReadStripped_16bit_oob_witness :
  0 <= 0 < 16 /\ 129 <= 129 /\ List.length (repeat 1 130) = 130%nat /\
  at_input (open_istream ((16 + 0) :: repeat 1 130 ++ [])) ((16 + 0) :: repeat 1 130 ++ []) /\
  DQT_ReadStripped (mk_byte_stream false) 129 (open_istream ((16 + 0) :: repeat 1 130 ++ []))
  = Err (Undefined OutOfBoundsAccess).
Proof.
  split; [lia|]. split; [lia|]. split; [reflexivity|]. split; [split; reflexivity|].
  apply (DQT_ReadStripped_16bit_oob 129 _ 0 (repeat 1 130) []); [lia | lia | reflexivity | split; reflexivity].
Defined.

Lemma dht_multiple_fuel_witness :
  (List.length (remaining (open_istream [1; 2; 3]%Z)) < 17 * 1)%nat /\
  dht_multiple (1 + 5) 20 (mk_byte_stream false) (open_istream [1; 2; 3])
  = dht_multiple 1 20 (mk_byte_stream false) (open_istream [1; 2; 3]).
Proof. split; [cbn; lia | apply dht_multiple_fuel; cbn; lia]. Defined.

Definition dc_luma_table : dht_table := mk_dht_table 0 0 dc_luma_counts dc_luma_values.

Definition dc_luma_payloads : list dht_payload :=
  match rmap dht_table_payload [dc_luma_table] with Ok ps => ps | Err _ => [] end.

Lemma DHT_ReadMultiple_encode_witness :
  Forall dht_table_ok [dc_luma_table] /\
  rmap dht_table_payload [dc_luma_table] = Ok dc_luma_payloads /\
  2 + fold_right Z.add 0 (map dht_table_size [dc_luma_table]) < 65536 /\
  at_input (open_istream (dht_segment_bytes [dc_luma_table] ++ []))
           (dht_segment_bytes [dc_luma_table] ++ []) /\
  exists s', DHT_ReadMultiple (open_istream (dht_segment_bytes [dc_luma_table] ++ []))
             = Ok (dc_luma_payloads, s') /\ at_input s' [].
Proof.
  assert (Hok : Forall dht_table_ok [dc_luma_table]).
  { constructor; [|constructor]. unfold dht_table_ok; cbn.
    split; [lia|]. split; [lia|]. split; [reflexivity|].
    split; [repeat constructor; unfold is_byte; lia | reflexivity]. }
  assert (Hp : rmap dht_table_payload [dc_luma_table] = Ok dc_luma_payloads) by (vm_compute; reflexivity).
  assert (Hs : at_input (open_istream (dht_segment_bytes [dc_luma_table] ++ []))
                        (dht_segment_bytes [dc_luma_table] ++ [])) by (split; reflexivity).
  split; [exact Hok|]. split; [exact Hp|]. split; [cbn; lia|]. split; [exact Hs|].
  apply (DHT_ReadMultiple_encode [dc_luma_table] dc_luma_payloads _ []); [exact Hok | exact Hp | cbn; lia | exact Hs].
Defined.

Definition sample_sos : sos_payload :=
  mk_sos_payload [mk_sos_channel 1 0 0; mk_sos_channel 2 1 1; mk_sos_channel 3 1 1] 0 63 0.

Lemma SOS_Read_encode_witness :
  2 <= 12 < 65536 /\ Forall sos_channel_ok (sos_channels sample_sos) /\
  at_input (open_istream (sos_encode 12 sample_sos ++ [])) (sos_encode 12 sample_sos ++ []) /\
  exists s', at_input s' [] /\
    SOS_Read (open_istream (sos_encode 12 sample_sos ++ []))
    = if negb (sos_start sample_sos =? 0) then Err (RuntimeError "invalid sos parameter")
      else if negb (sos_end sample_sos =? 63) then Err (RuntimeError "invalid eos parameter")
      else if negb (sos_abp sample_sos =? 0) then Err (RuntimeError "invalid abp parameter")
      else Ok (sample_sos, s').
Proof.
  assert (Hok : Forall sos_channel_ok (sos_channels sample_sos))
    by (repeat constructor; cbn; lia).
  split; [lia|]. split; [exact Hok|]. split; [split; reflexivity|].
  apply (SOS_Read_encode _ 12 sample_sos []); [lia | exact Hok | split; reflexivity].
Defined.

Lemma DHT_ReadMultiple_overrun_witness :
  let tb := mk_dht_table 0 0 (repeat 1 10 ++ repeat 0 6) (map Z.of_nat (seq 0 10)) in
  dht_table_ok tb /\
  kNumEntries < 20 < dht_table_size tb /\
  exists p, dht_table_payload tb = Ok p /\
    (kNumEntries < 20 - dht_table_size tb + 65536 /\
     exists s', at_input s' [255; 217] /\
       dht_multiple 30 20 (mk_byte_stream false) (open_istream (dht_table_bytes tb ++ [255; 217])) =
         (let* (tables, remaining_) := dht_multiple 29 (20 - dht_table_size tb + 65536) (mk_byte_stream false) in
          ret (p :: tables, remaining_)) s').
Proof.
  cbv zeta.
  assert (Hok : dht_table_ok (mk_dht_table 0 0 (repeat 1 10 ++ repeat 0 6) (map Z.of_nat (seq 0 10))))
    by (split; [cbn; lia|]; split; [cbn; lia|]; split; [reflexivity|]; split; [repeat constructor; unfold is_byte; lia|reflexivity]).
  split; [exact Hok|]. split; [unfold kNumEntries, dht_table_size; cbn; lia|].
  destruct (dht_table_payload (mk_dht_table 0 0 (repeat 1 10 ++ repeat 0 6) (map Z.of_nat (seq 0 10)))) as [p|e] eqn:Ep;
    [|vm_compute in Ep; discriminate].
  exists p. split; [reflexivity|].
  apply (DHT_ReadMultiple_overrun _ p 20 29 _ [255; 217] Hok Ep); [split; reflexivity|unfold kNumEntries, dht_table_size; cbn; lia].
Defined.
