(* ===== verification/Meta.v ===== *)
(** * The metadata pass of [decoder.cpp]

    Models [HuffmanStorage::FromPayload], [HuffmanStorage::Get] and the
    constructor [JPEGMeta::JPEGMeta] of
    [jpeg-decoder/src/decoder.cpp]: the marker loop that dispatches the
    segments before the first SOS to the readers of [Segments.v], the
    checks after it, and the tables it builds.  [std::vector] is a list;
    [at] is [vec_at] ([OutOfRange] past the end), an unchecked
    [operator[]] is [vec_get] / [vec_set] (undefined past the end), both
    in [Prelude.v]. *)

From Stdlib Require Import String ZArith Bool List Lia.
From S2P Require Import Prelude Bytes Huffman Segments.
Import ListNotations.
Open Scope Z_scope.
Open Scope jpeg_scope.

(** ** Vectors *)

(** [v.resize(n)] with value-initialised new elements. *)
Definition resize {A : Type} (v : list A) (n : nat) (d : A) : list A :=
  firstn n v ++ repeat d (n - List.length v).

(** ** [HuffmanStorage] *)

Definition huffman_storage : Type := list (list dht_payload).

(** A default [DHT::Payload]: its tree's root is [nullptr]. *)
Definition default_dht : dht_payload := mk_dht_payload (mk_huffman_tree Nil) 0 0 0.

Definition is_null (t : tree) : bool := match t with Nil => true | Node _ _ _ _ => false end.

(** The second loop of [FromPayload]. *)
Fixpoint store_trees (parsed : list dht_payload) (built : huffman_storage) : result huffman_storage :=
  match parsed with
  | [] => Ok built
  | p :: rest =>
      if is_null (root (dht_tree p)) then Err (RuntimeError "huffman tree not found")
      else
        let? slot := vec_get built (dht_id p) in
        let slot := match slot with [] => resize slot 2 default_dht | _ => slot end in
        let? slot' := vec_set slot (dht_is_ac p) p in
        let? built' := vec_set built (dht_id p) slot' in
        store_trees rest built'
  end.

Definition FromPayload (parsed_trees : list dht_payload) : result huffman_storage :=
  let max_id := fold_left (fun m p => Z.max m (dht_id p)) parsed_trees 0 in
  store_trees parsed_trees (resize [] (Z.to_nat (max_id + 1)) []).

Definition Get (trees : huffman_storage) (id is_ac : Z) : result dht_payload :=
  let? slots := vec_at trees id in
  let? tree := vec_at slots is_ac in
  if is_null (root (dht_tree tree)) then Err (RuntimeError "huffman tree not found")
  else Ok tree.

(** The table a sequence of DHT payloads defines for [(id, is_ac)]: the
    last one with that id and class, the reference [Get] is checked
    against. *)
Definition lookup_table (parsed : list dht_payload) (id is_ac : Z) : option dht_payload :=
  fold_left (fun acc p => if (dht_id p =? id) && (dht_is_ac p =? is_ac) then Some p else acc)
    parsed None.

Definition get_spec (parsed : list dht_payload) (id is_ac : Z) : result dht_payload :=
  match lookup_table parsed id is_ac with
  | Some p => Ok p
  | None =>
      if existsb (fun p => dht_id p =? id) parsed && (is_ac <=? 1)
      then Err (RuntimeError "huffman tree not found")
      else Err OutOfRange
  end.

(** ** [JPEGMeta] *)

Module JPEGMeta.
Record t : Type := mk {
  width : Z; height : Z; precision : Z;
  mcu_x_step : Z; mcu_y_step : Z;
  max_granularity_h : Z; max_granularity_v : Z;
  comments : list (list Z); app_info : list (list Z);
  q_tables : list dqt_payload; channels : list channel_props;
  huffman_trees : huffman_storage
}.
End JPEGMeta.

(** The locals of the constructor that the marker loop fills. *)
Record meta_acc : Type := mk_meta_acc {
  acc_comments : list (list Z); acc_app_info : list (list Z);
  q_tables_tmp : list dqt_payload; trees_tmp : list dht_payload;
  dct : option dct_payload
}.

Definition empty_acc : meta_acc := mk_meta_acc [] [] [] [] None.

(** The [if]/[else if] chain of the loop body: one segment, read by its
    own reader from the shared stream; a code no reader claims is
    skipped without reading anything. *)
Definition meta_segment (code : Z) (acc : meta_acc) : st istream meta_acc :=
  if CheckToken kStart_Comment code then
    let* c := Comment_Read in
    ret (mk_meta_acc (acc_comments acc ++ [c]) (acc_app_info acc) (q_tables_tmp acc) (trees_tmp acc) (dct acc))
  else if CheckToken kStart_App code then
    let* a := App_Read in
    ret (mk_meta_acc (acc_comments acc) (acc_app_info acc ++ [a]) (q_tables_tmp acc) (trees_tmp acc) (dct acc))
  else if CheckToken kStart_DQT code then
    let* ps := DQT_ReadMultiple in
    ret (mk_meta_acc (acc_comments acc) (acc_app_info acc) (q_tables_tmp acc ++ ps) (trees_tmp acc) (dct acc))
  else if CheckToken kStart_DHT code then
    let* ps := DHT_ReadMultiple in
    ret (mk_meta_acc (acc_comments acc) (acc_app_info acc) (q_tables_tmp acc) (trees_tmp acc ++ ps) (dct acc))
  else if CheckToken kStart_DCT code then
    match dct acc with
    | Some _ => raise (RuntimeError "jpeg meta read failed: duplicated DCT field")
    | None =>
        let* d := DCT_Read in
        ret (mk_meta_acc (acc_comments acc) (acc_app_info acc) (q_tables_tmp acc) (trees_tmp acc) (Some d))
    end
  else ret acc.

(** The [do { ... } while (!stop && !bytes.IsFinished())] loop.  Every
    iteration takes the two marker bytes out of the input, so the
    constructor's fuel, the length of the input plus one, is enough
    (see the termination theorem below). *)
Fixpoint meta_loop (fuel : nat) (bytes : byte_stream) (acc : meta_acc)
  : st istream (meta_acc * byte_stream) :=
  match fuel with
  | O => raise OutOfFuel
  | S fuel' =>
      let* (b, bytes1) := Yield bytes in
      if negb (b =? 255) then raise (RuntimeError "jpeg meta read failed: unexpected token")
      else
        let* (code, bytes2) := Yield bytes1 in
        let stop := CheckToken kStart_SOS code in
        let* acc' := meta_segment code acc in
        if negb stop && negb (bs_finished bytes2) then meta_loop fuel' bytes2 acc'
        else ret (acc', bytes2)
  end.

(** [q_tables[q_table.id] = q_table] for every table read. *)
Fixpoint place_q_tables (tables : list dqt_payload) (q_tables : list dqt_payload)
  : result (list dqt_payload) :=
  match tables with
  | [] => Ok q_tables
  | q :: rest => let? q_tables' := vec_set q_tables (dqt_id q) q in place_q_tables rest q_tables'
  end.

Definition default_channel : channel_props := mk_channel_props 0 0 0 0.

Definition default_dqt : dqt_payload := mk_dqt_payload (repeat 0 64) 0 0 0.

(** The loop over [dct_value.channels]: the q-table check, the maximal
    sampling factors ([uint8_t], no wrap: they are nibbles) and
    [channels[props.id] = props]. *)
Fixpoint place_channels (props_list : list channel_props) (nr_q_tables : Z)
  (max_h max_v : Z) (channels : list channel_props) : result (Z * Z * list channel_props) :=
  match props_list with
  | [] => Ok (max_h, max_v, channels)
  | props :: rest =>
      if nr_q_tables <=? dqt_table_id props then Err (RuntimeError "q table is not defined")
      else
        let? channels' := vec_set channels (cp_id props) props in
        place_channels rest nr_q_tables (Z.max max_h (horizontal_sp props))
          (Z.max max_v (vertical_sp props)) channels'
  end.

(** [width * height] is computed in [int]. *)
Definition int_max : Z := 2147483647.

(** What the constructor does after the marker loop, from
    [if (bytes.IsFinished())] on. *)
Definition meta_finish (acc : meta_acc) (bytes : byte_stream) : st istream JPEGMeta.t :=
  if bs_finished bytes then raise (RuntimeError "jpeg meta read failed: unexpected input stop")
  else
    fun s =>
      let s' := seekg_back s in
      (match dct acc with
       | None => raise (RuntimeError "jpeg meta read failed: no dct image info provided")
       | Some dct_value =>
           if match trees_tmp acc with [] => true | _ => false end
           then raise (RuntimeError "jpeg meta read failed: no huffman trees provided")
           else if match q_tables_tmp acc with [] => true | _ => false end
           then raise (RuntimeError "jpeg meta read failed: no q tables provided")
           else
             let* huffman_trees := lift (FromPayload (trees_tmp acc)) in
             let* q_tables := lift (place_q_tables (q_tables_tmp acc)
                                      (repeat default_dqt (List.length (q_tables_tmp acc)))) in
             let w := Segments.width dct_value in
             let h := Segments.height dct_value in
             if int_max <? w * h then raise (Undefined SignedOverflow)
             else if w * h =? 0 then raise (RuntimeError "empty images not supported")
             else
               let* (max_h, max_v, channels) :=
                 lift (place_channels (Segments.channels dct_value) (Z.of_nat (List.length q_tables))
                         0 0 (repeat default_channel (S (List.length (Segments.channels dct_value))))) in
               ret (JPEGMeta.mk w h (Segments.precision dct_value)
                      (to_uint8 (8 * max_h)) (to_uint8 (8 * max_v)) max_h max_v
                      (acc_comments acc) (acc_app_info acc) q_tables channels huffman_trees)
       end) s'.

(** [JPEGMeta::JPEGMeta(std::istream&)]. *)
Definition JPEGMeta_new : st istream JPEGMeta.t :=
  fun s =>
    (let bytes := ByteStream_new s in
     let* (code, bytes1) := Yield bytes in
     if negb (code =? 255) then raise (RuntimeError "jpeg meta read failed: unexpected token")
     else
       let* (start, bytes2) := Yield bytes1 in
       if negb (CheckToken kStart_Start start) then raise (RuntimeError "start token not found")
       else
         let* (acc, bytes3) := meta_loop (List.length (remaining s) + 1) bytes2 empty_acc in
         meta_finish acc bytes3) s.

(** ** [HuffmanStorage] refines a lookup of the last table per (id, class) *)

(** The slot [trees[id]] after the payloads [done] were stored. *)
Definition slot_of (done : list dht_payload) (id : Z) : list dht_payload :=
  if existsb (fun p => dht_id p =? id) done
  then [match lookup_table done id 0 with Some p => p | None => default_dht end;
        match lookup_table done id 1 with Some p => p | None => default_dht end]
  else [].

Definition storage_of (n : nat) (done : list dht_payload) : huffman_storage :=
  map (fun i => slot_of done (Z.of_nat i)) (seq 0 n).

Definition dht_payload_ok (p : dht_payload) : Prop :=
  0 <= dht_id p < 256 /\ 0 <= dht_is_ac p <= 1 /\ root (dht_tree p) <> Nil.

Lemma lookup_table_snoc done p id c :
  lookup_table (done ++ [p]) id c
  = if (dht_id p =? id) && (dht_is_ac p =? c) then Some p else lookup_table done id c.
Proof. unfold lookup_table. rewrite fold_left_app. reflexivity. Qed.

Lemma lookup_table_none done id c :
  existsb (fun p => dht_id p =? id) done = false -> lookup_table done id c = None.
Proof.
  intros H. induction done as [|p done IH] using rev_ind; [reflexivity|].
  rewrite existsb_app in H. apply orb_false_iff in H as [H1 H2].
  rewrite lookup_table_snoc, IH by exact H1. cbn in H2. rewrite orb_false_r in H2. rewrite H2. reflexivity.
Qed.

Lemma lookup_table_some done id c p :
  Forall dht_payload_ok done -> lookup_table done id c = Some p ->
  dht_payload_ok p /\ dht_id p = id /\ dht_is_ac p = c.
Proof.
  intros Hok. induction done as [|q done IH] using rev_ind; [discriminate|].
  apply Forall_app in Hok as [Hok Hq]. inversion Hq; subst.
  rewrite lookup_table_snoc. destruct ((dht_id q =? id) && (dht_is_ac q =? c)) eqn:E; [|auto].
  apply andb_true_iff in E as [E1 E2]. apply Z.eqb_eq in E1, E2. intros [= <-]. auto.
Qed.

Definition table_or_default (o : option dht_payload) : dht_payload :=
  match o with Some p => p | None => default_dht end.

Lemma slot_full done id :
  match slot_of done id with [] => resize (slot_of done id) 2 default_dht | _ => slot_of done id end
  = [table_or_default (lookup_table done id 0); table_or_default (lookup_table done id 1)].
Proof.
  unfold slot_of. destruct (existsb _ done) eqn:E; [reflexivity|].
  rewrite !lookup_table_none by exact E. reflexivity.
Qed.

Lemma slot_set done p :
  0 <= dht_is_ac p <= 1 ->
  vec_set [table_or_default (lookup_table done (dht_id p) 0);
           table_or_default (lookup_table done (dht_id p) 1)] (dht_is_ac p) p
  = Ok (slot_of (done ++ [p]) (dht_id p)).
Proof.
  intros Hac. unfold slot_of. rewrite existsb_app. cbn [existsb]. rewrite Z.eqb_refl, orb_true_r.
  cbn [orb]. rewrite !lookup_table_snoc, Z.eqb_refl. cbn [andb].
  assert (Hc : dht_is_ac p = 0 \/ dht_is_ac p = 1) by lia.
  destruct Hc as [Hc|Hc]; rewrite Hc; reflexivity.
Qed.

Lemma slot_of_other done p j :
  dht_id p <> j -> slot_of (done ++ [p]) j = slot_of done j.
Proof.
  intros Hj. apply Z.eqb_neq in Hj. unfold slot_of.
  rewrite existsb_app, !lookup_table_snoc. cbn [existsb]. rewrite Hj, orb_false_r. reflexivity.
Qed.

Lemma store_trees_storage rest done n :
  Forall dht_payload_ok rest -> Forall (fun p => dht_id p < Z.of_nat n) rest ->
  store_trees rest (storage_of n done) = Ok (storage_of n (done ++ rest)).
Proof.
  revert done. induction rest as [|p rest IH]; intros done Hok Hlt.
  - rewrite app_nil_r. reflexivity.
  - inversion Hok as [|? ? (Hid & Hac & Hroot) Hok']; inversion Hlt as [|? ? Hp Hlt']; subst.
    cbn [store_trees]. destruct (root (dht_tree p)) eqn:Er; [congruence|]. cbn [is_null].
    assert (Hget : vec_get (storage_of n done) (dht_id p) = Ok (slot_of done (dht_id p))).
    { unfold vec_get, storage_of. rewrite (proj2 (Z.ltb_ge _ 0)) by lia.
      rewrite nth_error_map_seq by lia. rewrite Z2Nat.id by lia. reflexivity. }
    rewrite Hget. cbn [rbind]. rewrite slot_full, slot_set by exact Hac. cbn [rbind].
    assert (Hset : vec_set (storage_of n done) (dht_id p) (slot_of (done ++ [p]) (dht_id p))
                   = Ok (storage_of n (done ++ [p]))).
    { unfold vec_set, storage_of. rewrite (proj2 (Z.ltb_ge _ 0)) by lia.
      pose proof (list_set_map_seq (fun i => slot_of done (Z.of_nat i))
                    (fun i => slot_of (done ++ [p]) (Z.of_nat i)) n 0 (Z.to_nat (dht_id p))) as H.
      rewrite Nat.sub_0_r, Z2Nat.id in H by lia. rewrite H; [reflexivity | lia |].
      intros j _ Hj. symmetry. apply slot_of_other. lia. }
    rewrite Hset. cbn [rbind]. rewrite IH by assumption. rewrite <- app_assoc. reflexivity.
Qed.

Lemma fold_max_bound (l : list dht_payload) m :
  m <= fold_left (fun m p => Z.max m (dht_id p)) l m /\
  Forall (fun p => dht_id p <= fold_left (fun m p => Z.max m (dht_id p)) l m) l.
Proof.
  revert m. induction l as [|p l IH]; intros m; [cbn; split; [lia | constructor]|].
  cbn [fold_left]. destruct (IH (Z.max m (dht_id p))) as [H1 H2].
  split; [lia | constructor; [lia | exact H2]].
Qed.

Lemma Get_storage parsed n id is_ac :
  Forall dht_payload_ok parsed -> Forall (fun p => dht_id p < Z.of_nat n) parsed ->
  0 <= id -> 0 <= is_ac ->
  Get (storage_of n parsed) id is_ac = get_spec parsed id is_ac.
Proof.
  intros Hok Hlt Hid Hac. unfold Get, get_spec, vec_at, storage_of.
  rewrite (proj2 (Z.ltb_ge id 0)) by lia. rewrite (proj2 (Z.ltb_ge is_ac 0)) by lia.
  destruct (Nat.lt_ge_cases (Z.to_nat id) n) as [Hn|Hn].
  - rewrite nth_error_map_seq, Z2Nat.id by lia. cbn [rbind]. unfold slot_of.
    destruct (existsb (fun p => dht_id p =? id) parsed) eqn:E.
    + assert (Hc : is_ac = 0 \/ is_ac = 1 \/ 2 <= is_ac) by lia.
      destruct Hc as [->|[->|Hc]];
        [change (Z.to_nat 0) with 0%nat | change (Z.to_nat 1) with 1%nat |]; cbn [nth_error rbind].
      * destruct (lookup_table parsed id 0) as [p|] eqn:L; [|reflexivity].
        destruct (lookup_table_some _ _ _ _ Hok L) as [(_ & _ & Hr) _]. cbn.
        destruct (root (dht_tree p)); [congruence | reflexivity].
      * destruct (lookup_table parsed id 1) as [p|] eqn:L; [|reflexivity].
        destruct (lookup_table_some _ _ _ _ Hok L) as [(_ & _ & Hr) _]. cbn.
        destruct (root (dht_tree p)); [congruence | reflexivity].
      * replace (Z.to_nat is_ac) with (S (S (Z.to_nat is_ac - 2))) by lia. cbn [nth_error rbind].
        rewrite nth_error_nil. cbn [rbind].
        destruct (lookup_table parsed id is_ac) as [p|] eqn:L.
        -- destruct (lookup_table_some _ _ _ _ Hok L) as [(_ & Hac' & _) [_ <-]]. lia.
        -- rewrite (proj2 (Z.leb_gt is_ac 1)) by lia. reflexivity.
    + rewrite nth_error_nil, lookup_table_none by exact E. reflexivity.
  - rewrite nth_error_map_seq_none by lia. cbn [rbind].
    assert (E : existsb (fun p => dht_id p =? id) parsed = false).
    { apply not_true_iff_false. intros E. apply existsb_exists in E as [p [Hp Ep]].
      apply Z.eqb_eq in Ep. rewrite Forall_forall in Hlt. specialize (Hlt p Hp). lia. }
    rewrite lookup_table_none, E by exact E. reflexivity.
Qed.

(** C5 [HuffmanStorage]: from DHT payloads with ids and classes in range
    and non-empty trees, [FromPayload] builds a storage in which
    [Get(id, is_ac)] returns the last table read with that id and class;
    for a pair no table defines, it throws [std::out_of_range] when no
    table has that id (or the class is not 0 or 1), and "huffman tree not
    found" when only the other class of that id was defined. *)
Theorem FromPayload_Get parsed :
  Forall dht_payload_ok parsed ->
  exists trees, FromPayload parsed = Ok trees /\
    forall id is_ac, 0 <= id -> 0 <= is_ac -> Get trees id is_ac = get_spec parsed id is_ac.
Proof.
  intros Hok. unfold FromPayload.
  set (max_id := fold_left (fun m p => Z.max m (dht_id p)) parsed 0).
  destruct (fold_max_bound parsed 0) as [H0 Hall]. fold max_id in H0, Hall.
  set (n := Z.to_nat (max_id + 1)).
  assert (Hlt : Forall (fun p => dht_id p < Z.of_nat n) parsed).
  { eapply Forall_impl; [|exact Hall]. intros p Hp. cbv beta in Hp. unfold n. lia. }
  assert (Hinit : resize [] n [] = storage_of n []).
  { unfold resize, storage_of, slot_of. cbn. rewrite Nat.sub_0_r.
    rewrite firstn_nil, map_const, length_seq. reflexivity. }
  exists (storage_of n parsed). rewrite Hinit, store_trees_storage by assumption.
  split; [reflexivity|]. intros id is_ac Hid Hac. apply Get_storage; assumption.
Qed.

(** ** The marker loop *)

Lemma consuming_meta_segment code acc : consuming (meta_segment code acc).
Proof.
  destruct consuming_readers as (Hc & Ha & Hd & Hq & Hh & _).
  unfold meta_segment. consuming_tac.
Qed.

Lemma Yield_inv bs s b bs' s' :
  Yield bs s = Ok ((b, bs'), s') ->
  s' = mk_istream (data s) (S (pos s)) false /\ nth_error (data s) (pos s) = Some b /\
  bs' = mk_byte_stream false.
Proof.
  unfold Yield, read_byte. destruct (bs_finished bs); [discriminate|].
  destruct (failed s); [discriminate|].
  destruct (nth_error (data s) (pos s)) eqn:E; [|discriminate].
  intros H. injection H as <- <- <-. auto.
Qed.

(** C29 The marker loop of [JPEGMeta::JPEGMeta] terminates: each
    iteration takes at least the two marker bytes out of the input, so a
    fuel above half the unread input is enough, and more fuel gives the
    same result. *)
Theorem meta_loop_fuel fuel k bytes acc s :
  (List.length (remaining s) < 2 * fuel)%nat ->
  meta_loop (fuel + k) bytes acc s = meta_loop fuel bytes acc s.
Proof.
  revert bytes acc s. induction fuel as [|fuel IH]; intros bytes acc s Hf; [lia|].
  cbn [Nat.add meta_loop].
  destruct (Yield bytes s) as [[[b b1] s1]|e] eqn:E1; [|rewrite !(bind_err _ _ _ _ E1); reflexivity].
  rewrite !(bind_ok _ _ _ _ _ E1). cbv beta iota. destruct (negb (b =? 255)); [reflexivity|].
  destruct (Yield b1 s1) as [[[code b2] s2]|e] eqn:E2; [|rewrite !(bind_err _ _ _ _ E2); reflexivity].
  rewrite !(bind_ok _ _ _ _ _ E2). cbv beta iota zeta.
  destruct (meta_segment code acc s2) as [[acc' s3]|e] eqn:E3;
    [|rewrite !(bind_err _ _ _ _ E3); reflexivity].
  rewrite !(bind_ok _ _ _ _ _ E3).
  destruct (negb (CheckToken kStart_SOS code) && negb (bs_finished b2)); [|reflexivity].
  apply IH. apply Yield_consumes in E1, E2. apply consuming_meta_segment in E3. lia.
Qed.

Lemma CheckToken_SOS code : CheckToken kStart_SOS code = true -> code = 218.
Proof. unfold CheckToken, kStart_SOS. cbn [existsb]. rewrite orb_false_r. intros H. apply Z.eqb_eq in H. lia. Qed.

(** A loop that ends with its [ByteStream] still open ended on the SOS
    marker: the last two bytes it took are [0xFF 0xDA]. *)
Lemma meta_loop_marker fuel bytes acc s acc' b' s' :
  meta_loop fuel bytes acc s = Ok ((acc', b'), s') -> bs_finished b' = false ->
  (2 <= pos s')%nat /\ nth_error (data s') (pos s' - 2) = Some 255 /\
  nth_error (data s') (pos s' - 1) = Some 218 /\ failed s' = false.
Proof.
  revert bytes acc s. induction fuel as [|fuel IH]; intros bytes acc s H Hb; [discriminate|].
  cbn [meta_loop] in H. bind_inv H. destruct a as [b b1]. cbv beta iota in H.
  destruct (negb (b =? 255)) eqn:Eb; [discriminate|].
  bind_inv H. destruct a as [code b2]. cbv beta iota zeta in H. bind_inv H.
  destruct (negb (CheckToken kStart_SOS code) && negb (bs_finished b2)) eqn:Ec.
  - exact (IH _ _ _ H Hb).
  - injection H as <- <- <-.
    destruct (Yield_inv _ _ _ _ _ E) as (-> & Hn1 & _).
    destruct (Yield_inv _ _ _ _ _ E0) as (-> & Hn2 & ->).
    assert (Hc : code = 218).
    { apply CheckToken_SOS. destruct (CheckToken kStart_SOS code); [reflexivity|].
      cbn in Ec. discriminate. }
    subst code. replace (meta_segment 218 acc) with (@ret istream _ acc) in E1 by reflexivity.
    injection E1 as _ <-. cbn [pos data failed] in *.
    apply Z.eqb_eq in Hb' || (apply negb_false_iff, Z.eqb_eq in Eb).
    subst b. replace (S (S (pos s)) - 2)%nat with (pos s) by lia.
    replace (S (S (pos s)) - 1)%nat with (S (pos s)) by lia. auto with arith.
Qed.

(** What follows the loop only reads the tables it built, after
    seeking back two bytes. *)
Lemma meta_finish_state acc b s m s' :
  meta_finish acc b s = Ok (m, s') -> s' = seekg_back s.
Proof.
  unfold meta_finish. destruct (bs_finished b); [discriminate|].
  destruct (dct acc) as [d|]; [|discriminate]. destruct (trees_tmp acc); [discriminate|].
  destruct (q_tables_tmp acc); [discriminate|].
  unfold bind, lift. destruct (FromPayload _); [|discriminate]. destruct (place_q_tables _ _); [|discriminate].
  destruct (int_max <? _); [discriminate|]. destruct (_ =? 0); [discriminate|].
  destruct (place_channels _ _ _ _ _) as [[[mh mv] chs]|]; [|discriminate].
  intros H. injection H as _ <-. reflexivity.
Qed.

Lemma skipn_nth_error {A : Type} (l : list A) n x :
  nth_error l n = Some x -> skipn n l = x :: skipn (S n) l.
Proof.
  revert l. induction n as [|n IH]; intros [|y l] H; cbn in *; try discriminate.
  - congruence.
  - apply IH. exact H.
Qed.

(** C7 The hand-over between the two passes: when [JPEGMeta::JPEGMeta]
    succeeds, it leaves the stream on the [0xFF 0xDA] marker of the
    first scan, which is what [Decode] reads first. *)
Theorem JPEGMeta_new_at_sos s m s' :
  JPEGMeta_new s = Ok (m, s') ->
  exists rest, remaining s' = 255 :: 218 :: rest /\ failed s' = false.
Proof.
  unfold JPEGMeta_new. intros H. bind_inv H. destruct a as [code b1]. cbv beta iota in H.
  destruct (negb (code =? 255)); [discriminate|]. bind_inv H. destruct a as [start b2].
  cbv beta iota in H. destruct (negb (CheckToken kStart_Start start)); [discriminate|].
  bind_inv H. destruct a as [acc b3]. cbv beta iota in H.
  assert (Hb3 : bs_finished b3 = false)
    by (unfold meta_finish in H; destruct (bs_finished b3); [discriminate | reflexivity]).
  destruct (meta_loop_marker _ _ _ _ _ _ _ E1 Hb3) as (Hp & H1 & H2 & Hf).
  apply meta_finish_state in H. subst s'. unfold seekg_back. rewrite Hf.
  destruct (pos s2) as [|[|p]] eqn:Ep; [lia | lia |].
  replace (S (S p) - 2)%nat with p in H1 by lia. replace (S (S p) - 1)%nat with (S p) in H2 by lia.
  exists (skipn (S (S p)) (data s2)). split; [|reflexivity].
  unfold remaining. cbn [pos data]. rewrite (skipn_nth_error _ _ _ H1), (skipn_nth_error _ _ _ H2).
  reflexivity.
Qed.

(** ** A sample file: one 8x8 grey block

    SOI; a DQT with the all-ones table 0; SOF0 for an 8x8 picture with
    one component (id 1, sampling 1x1, table 0); a DC and an AC Huffman
    table 0, each with the single one-bit code [0] (DC category 0, AC
    end of block); SOS; the entropy-coded bits [0 0] padded with ones;
    EOI. *)
Definition sample_jpeg : list Z :=
  [255; 216] ++
  [255; 219; 0; 67; 0] ++ repeat 1 64 ++
  [255; 192; 0; 11; 8; 0; 8; 0; 8; 1; 1; 17; 0] ++
  [255; 196; 0; 20; 0] ++ [1] ++ repeat 0 15 ++ [0] ++
  [255; 196; 0; 20; 16] ++ [1] ++ repeat 0 15 ++ [0] ++
  [255; 218; 0; 8; 1; 1; 0; 0; 63; 0] ++
  [63] ++
  [255; 217].

Definition sample_meta : JPEGMeta.t :=
  match JPEGMeta_new (open_istream sample_jpeg) with
  | Ok (m, _) => m
  | Err _ => JPEGMeta.mk 0 0 0 0 0 0 0 [] [] [] [] []
  end.

(** The metadata pass on the sample: its geometry, its MCU size, and the
    stream left on the SOS marker. *)
Example JPEGMeta_new_sample :
  exists s', JPEGMeta_new (open_istream sample_jpeg) = Ok (sample_meta, s') /\
  JPEGMeta.width sample_meta = 8 /\ JPEGMeta.height sample_meta = 8 /\
  JPEGMeta.mcu_x_step sample_meta = 8 /\ JPEGMeta.mcu_y_step sample_meta = 8 /\
  List.length (JPEGMeta.channels sample_meta) = 2%nat /\
  firstn 2 (remaining s') = [255; 218].
Proof. eexists. split; [vm_compute; reflexivity|]. vm_compute. repeat split. Qed.

Lemma meta_loop_fuel_witness :
  (List.length (remaining (open_istream sample_jpeg)) < 2 * 100)%nat /\
  meta_loop (100 + 7) (mk_byte_stream false) empty_acc (open_istream sample_jpeg)
  = meta_loop 100 (mk_byte_stream false) empty_acc (open_istream sample_jpeg).
Proof. split; [vm_compute; lia | apply meta_loop_fuel; vm_compute; lia]. Defined.

Definition sample_after_meta : istream :=
  match JPEGMeta_new (open_istream sample_jpeg) with Ok (_, s') => s' | Err _ => open_istream [] end.

Lemma JPEGMeta_new_at_sos_witness :
  JPEGMeta_new (open_istream sample_jpeg) = Ok (sample_meta, sample_after_meta) /\
  exists rest, remaining sample_after_meta = 255 :: 218 :: rest /\ failed sample_after_meta = false.
Proof.
  assert (H : JPEGMeta_new (open_istream sample_jpeg) = Ok (sample_meta, sample_after_meta))
    by (vm_compute; reflexivity).
  split; [exact H | exact (JPEGMeta_new_at_sos _ _ _ H)].
Defined.

(** The DHT payloads of the sample file. *)
Definition sample_trees : list dht_payload :=
  match DHT_ReadMultiple (mk_istream sample_jpeg 86 false) with Ok (p, _) => p | Err _ => [] end
  ++ match DHT_ReadMultiple (mk_istream sample_jpeg 108 false) with Ok (p, _) => p | Err _ => [] end.

Lemma FromPayload_Get_witness :
  Forall dht_payload_ok sample_trees /\
  exists trees, FromPayload sample_trees = Ok trees /\
    forall id is_ac, 0 <= id -> 0 <= is_ac -> Get trees id is_ac = get_spec sample_trees id is_ac.
Proof.
  assert (H : Forall dht_payload_ok sample_trees).
  { vm_compute. repeat constructor; try lia; discriminate. }
  split; [exact H | exact (FromPayload_Get _ H)].
Defined.

Example sample_trees_two : List.length sample_trees = 2%nat.
Proof. vm_compute. reflexivity. Qed.

(** The markers the constructor's if-chain recognises. *)
Definition known_marker (code : Z) : bool :=
  existsb (fun k => CheckToken k code) [kStart_Comment; kStart_App; kStart_DQT; kStart_DHT; kStart_DCT; kStart_SOS].

Lemma meta_segment_unknown code acc s :
  known_marker code = false -> meta_segment code acc s = Ok (acc, s).
Proof.
  unfold known_marker. cbn [existsb]. rewrite !orb_false_iff. intros (H1 & H2 & H3 & H4 & H5 & _ & _).
  unfold meta_segment. rewrite H1, H2, H3, H4, H5. reflexivity.
Qed.

(** C39 Segments the constructor does not know are not skipped: for every
    marker [0xFF code] outside the if-chain (DRI, DNL, APP markers it
    misses, ...) whose segment length does not start with the byte 0xFF
    (every length below 0xFF00), the marker loop reads the marker and
    nothing else, then finds the length where it expects 0xFF and fails
    with "unexpected token", where the specification skips unknown
    segments by their declared length. *)
Theorem JPEGMeta_unknown_segment fuel bytes acc s code len_hi rest :
  bs_finished bytes = false -> at_input s (255 :: code :: len_hi :: rest) ->
  known_marker code = false -> len_hi <> 255 ->
  meta_loop (S (S fuel)) bytes acc s = Err (RuntimeError "jpeg meta read failed: unexpected token").
Proof.
  intros Hb Hs Hk Hl.
  destruct (Yield_at bytes s 255 _ Hb Hs) as (s1 & Y1 & Hs1).
  destruct (Yield_at (mk_byte_stream false) s1 code _ eq_refl Hs1) as (s2 & Y2 & Hs2).
  destruct (Yield_at (mk_byte_stream false) s2 len_hi rest eq_refl Hs2) as (s3 & Y3 & _).
  assert (Hsos : CheckToken kStart_SOS code = false).
  { unfold known_marker in Hk. cbn [existsb] in Hk. rewrite !orb_false_iff in Hk. tauto. }
  cbn [meta_loop]. rewrite (bind_ok _ _ _ _ _ Y1). cbv beta iota. rewrite Z.eqb_refl. cbn [negb].
  rewrite (bind_ok _ _ _ _ _ Y2). cbv beta iota zeta. rewrite Hsos.
  rewrite (bind_ok _ _ _ _ _ (meta_segment_unknown code acc s2 Hk)). cbn [negb andb bs_finished].
  rewrite (bind_ok _ _ _ _ _ Y3). cbv beta iota.
  rewrite (proj2 (Z.eqb_neq len_hi 255) Hl). reflexivity.
Qed.

(** The header checks the specification requires are not made: a
    file starting 0xFF 0xFF is taken for one starting with SOI
    ([CheckToken<Start>] accepts either byte of [{0xff, 0xd8}]), and a
    frame of precision 12 with its component list is accepted. *)
Example JPEGMeta_lenient_header :
  is_ok (JPEGMeta_new (open_istream ([255; 255] ++ skipn 2 sample_jpeg))) = true /\
  match JPEGMeta_new (open_istream (firstn 75 sample_jpeg ++ [12] ++ skipn 76 sample_jpeg)) with
  | Ok (m, _) => JPEGMeta.precision m = 12
  | Err _ => False
  end.
Proof. vm_compute. split; reflexivity. Qed.

(** [q_tables[q_table.id] = q_table] with an id outside the vector is
    an out-of-bounds write, whatever the other tables. *)
Lemma place_q_tables_oob tables : forall q_tables,
  Exists (fun t => dqt_id t < 0 \/ Z.of_nat (List.length q_tables) <= dqt_id t) tables ->
  place_q_tables tables q_tables = Err (Undefined OutOfBoundsAccess).
Proof.
  induction tables as [|t rest IH]; intros q_tables Hex; [inversion Hex|]. cbn [place_q_tables].
  destruct (vec_set q_tables (dqt_id t) t) as [q'|e] eqn:E; cbn [rbind].
  - destruct (vec_set_ok_range _ _ _ _ E) as [Hr Hl]. inversion Hex as [? ? Ht|? ? Hrest]; subst; [lia|].
    apply IH. rewrite Hl. exact Hrest.
  - rewrite (vec_set_err _ _ _ _ E). reflexivity.
Qed.

(** C40 The quantisation-table ids read from the file index the
    constructor's vector unchecked: [q_tables] has one slot per table
    read, and whenever the checks before it pass (a frame, Huffman
    tables, quantisation tables, [FromPayload] succeeding), a table whose
    id is not below the number of tables read is stored out of bounds,
    undefined behaviour, where the specification rejects the file. *)
Theorem JPEGMeta_index_ub acc bytes s d trees :
  bs_finished bytes = false -> dct acc = Some d -> trees_tmp acc <> [] -> q_tables_tmp acc <> [] ->
  FromPayload (trees_tmp acc) = Ok trees ->
  Exists (fun t => Z.of_nat (List.length (q_tables_tmp acc)) <= dqt_id t) (q_tables_tmp acc) ->
  meta_finish acc bytes s = Err (Undefined OutOfBoundsAccess).
Proof.
  intros Hb Hd Ht Hq Hp Hex. unfold meta_finish. rewrite Hb, Hd.
  destruct (trees_tmp acc) as [|t0 ts]; [congruence|]. destruct (q_tables_tmp acc) as [|q0 qs] eqn:Eq; [congruence|].
  rewrite (bind_ok _ _ _ _ _ (lift_ok _ _ _ Hp)).
  rewrite (place_q_tables_oob (q0 :: qs)); [reflexivity|].
  rewrite repeat_length. refine (Exists_impl _ _ Hex). intros t Ht'. right. exact Ht'.
Qed.

Lemma JPEGMeta_unknown_segment_witness :
  bs_finished (mk_byte_stream false) = false /\ at_input (open_istream [255; 221; 0; 4; 0; 0]) [255; 221; 0; 4; 0; 0] /\
  known_marker 221 = false /\ 0 <> 255 /\
  meta_loop 2 (mk_byte_stream false) empty_acc (open_istream [255; 221; 0; 4; 0; 0])
    = Err (RuntimeError "jpeg meta read failed: unexpected token").
Proof.
  split; [reflexivity|]. split; [split; reflexivity|]. split; [reflexivity|]. split; [discriminate|].
  apply (JPEGMeta_unknown_segment 0 _ empty_acc _ 221 0 [4; 0; 0]);
    [reflexivity|split; reflexivity|reflexivity|discriminate].
Defined.

Lemma JPEGMeta_index_ub_witness :
  let tree := match FromSequence (1 :: repeat 0 15) [0] with Ok t => t | Err _ => mk_huffman_tree Nil end in
  let acc := mk_meta_acc [] [] [mk_dqt_payload (repeat 1 64) 65 0 1]
               [mk_dht_payload tree 0 0 18] (Some (mk_dct_payload 8 8 8 [])) in
  bs_finished (mk_byte_stream false) = false /\ dct acc = Some (mk_dct_payload 8 8 8 []) /\
  trees_tmp acc <> [] /\ q_tables_tmp acc <> [] /\ is_ok (FromPayload (trees_tmp acc)) = true /\
  Exists (fun t => Z.of_nat (List.length (q_tables_tmp acc)) <= dqt_id t) (q_tables_tmp acc) /\
  meta_finish acc (mk_byte_stream false) (open_istream []) = Err (Undefined OutOfBoundsAccess).
Proof.
  cbv zeta. split; [reflexivity|]. split; [reflexivity|]. split; [discriminate|]. split; [discriminate|].
  split; [vm_compute; reflexivity|].
  assert (Hex : Exists (fun t => Z.of_nat (List.length [mk_dqt_payload (repeat 1 64) 65 0 1]) <= dqt_id t)
                  [mk_dqt_payload (repeat 1 64) 65 0 1]) by (apply Exists_cons_hd; cbn; lia).
  split; [exact Hex|].
  destruct (FromPayload [mk_dht_payload (match FromSequence (1 :: repeat 0 15) [0] with
                                         Ok t => t | Err _ => mk_huffman_tree Nil end) 0 0 18])
    as [trees|e] eqn:Ep; [|vm_compute in Ep; discriminate].
  apply (JPEGMeta_index_ub _ _ _ (mk_dct_payload 8 8 8 []) trees);
    [reflexivity|reflexivity|discriminate|discriminate|exact Ep|exact Hex].
Defined.
