(* ===== verification/Entropy.v ===== *)
(** * The entropy decoder of [decoder.cpp]

    Models [MaybeNegate], [DecodeBlock] and [DecodeMCU] of
    [jpeg-decoder/src/decoder.cpp], with the per-channel state
    [ChannelProps] of [jpeg-decoder/include/decoder.h] (the SOS selector
    and the DC predictor [last_dc]).  The inverse DCT with its conversion
    back to [int16_t] ([idct.Transform] and [blocks::As], floating point,
    undefined when a value does not fit [int16_t]) is a parameter of the
    section: every theorem holds for any transform; [Idct.v] defines the
    one [Decode] uses. *)

From Stdlib Require Import String ZArith Bool List Lia.
From S2P Require Import Prelude Bytes BitStream Huffman Blocks Segments Meta.
Import ListNotations.
Open Scope Z_scope.
Open Scope jpeg_scope.

(** [MaybeNegate(uint8_t num_bits, int16_t raw)]: both operands are
    promoted to [int]; [num_bits - 1] is a negative shift count when
    [num_bits = 0]; the result is stored back in [int16_t]. *)
Definition MaybeNegate (num_bits raw : Z) : result Z :=
  if num_bits - 1 <? 0 then Err (Undefined NegativeShift)
  else if Z.shiftr raw (num_bits - 1) =? 0 then Ok (to_int16 (raw - Z.shiftl 1 num_bits + 1))
  else Ok raw.

(** The JPEG decoding of a coefficient from its category and extra bits
    (ITU T.81, Figure F.12, EXTEND), the reference for [MaybeNegate]. *)
Definition extend (t v : Z) : Z :=
  if v <? 2 ^ (t - 1) then v - 2 ^ t + 1 else v.

(** [decode::ChannelProps]. *)
Record channel_state : Type := mk_channel_state { ch_props : sos_channel; last_dc : Z }.

(** [decode::CBlock]: the decoded samples and the component id. *)
Record cblock : Type := mk_cblock { cb_block : list (list Z); cb_channel_id : Z }.

(** The DC part of [DecodeBlock]: the category byte, then [num_bits]
    extra bits, sign-extended. *)
Definition decode_dc (dc_tree : huffman_tree) : st reader Z :=
  let* dc_byte := DecodeByte dc_tree in
  if dc_byte =? 0 then ret dc_byte
  else
    let '(_, num_bits) := SplitByte dc_byte in
    let* abs_c := ComposeNBitsLE (Z.to_nat num_bits) in
    lift (MaybeNegate num_bits (to_int16 abs_c)).

(** The AC loop of [DecodeBlock]: [k] is the position of [decoded_it] in
    the 64 coefficients.  The loop test [decoded_it != end &&
    !bits.IsFinished()] comes first; an iterator moved beyond [end] by
    [std::next] is undefined, and so is the write [*decoded_it] at
    [end].  Every iteration moves [k] forward or leaves the loop, so 63
    rounds of fuel are enough (see the termination theorem below). *)
Fixpoint ac_loop (fuel : nat) (ac_tree : huffman_tree) (k : Z) (coeffs : list Z)
  : st reader (list Z) :=
  let* r := get in
  if (k =? 64) || IsFinished (fst r) then ret coeffs
  else
    match fuel with
    | O => raise OutOfFuel
    | S fuel' =>
        let* ac_byte := DecodeByte ac_tree in
        if ac_byte =? 0 then ret coeffs
        else if ac_byte =? 240 then
          if 64 <? k + 16 then raise (Undefined OutOfBoundsAccess)
          else ac_loop fuel' ac_tree (k + 16) coeffs
        else
          let '(num_zeros, num_bits) := SplitByte ac_byte in
          let k1 := k + num_zeros in
          if 64 <? k1 then raise (Undefined OutOfBoundsAccess)
          else
            let* abs_c := ComposeNBitsLE (Z.to_nat num_bits) in
            let* v := lift (MaybeNegate num_bits (to_int16 abs_c)) in
            let* coeffs' := lift (array_set coeffs k1 v) in
            ac_loop fuel' ac_tree (k1 + 1) coeffs'
    end.

(** The coefficients of one block in zig-zag order, with the DC
    prediction: [decoded.block.buffer[0] += channel.last_dc;
    channel.last_dc = decoded.block.buffer[0]]. *)
Definition decode_coeffs (dc_tree ac_tree : huffman_tree) (channel : channel_state)
  : st reader (list Z * channel_state) :=
  let* dc := decode_dc dc_tree in
  let buffer0 := to_int16 (dc + last_dc channel) in
  let* coeffs := ac_loop 63 ac_tree 1 (buffer0 :: repeat 0 63) in
  ret (coeffs, mk_channel_state (ch_props channel) buffer0).

(** The specification's reading of [n] ZRL symbols in a row: before each
    one the bit stream is not finished and the AC table decodes 0xF0. *)
Fixpoint zrl_run (ac_tree : huffman_tree) (n : nat) (r : reader) : option reader :=
  match n with
  | O => Some r
  | S n' =>
      if IsFinished (fst r) then None
      else match DecodeByte ac_tree r with
           | Ok (b, r1) => if b =? 240 then zrl_run ac_tree n' r1 else None
           | Err _ => None
           end
  end.

(** Inverts a pure step [lift r] of a computation that succeeded, naming
    the equation on [r]. *)
Ltac lift_step H R :=
  bind_inv H; cbv beta iota in H;
  match goal with
  | E : lift ?r _ = Ok _ |- _ =>
      unfold lift in E; destruct r eqn:R; [injection E as <- <- | discriminate E]
  end.

(** Runs the same first step on both sides of an equation between two
    computations. *)
Ltac bind_both c E :=
  destruct c as [[? ?]|?] eqn:E;
  [rewrite !(bind_ok _ _ _ _ _ E) | rewrite !(bind_err _ _ _ _ E); reflexivity].

(** ** [MaybeNegate] is the sign recovery of the standard *)

(** C23 For a category [t] of at most 15 bits and a magnitude [v] of [t]
    bits, [MaybeNegate] is the EXTEND procedure of ITU T.81 (Figure
    F.12): a magnitude whose top bit is 0 stands for [v - 2^t + 1].  For
    category 0, the shift [raw >> (num_bits - 1)] has a negative count,
    which is undefined; [DecodeBlock] guards it for the DC symbol 0 only. *)
Theorem MaybeNegate_extend t v :
  0 <= t <= 15 -> 0 <= v < 2 ^ t ->
  MaybeNegate t v = if t =? 0 then Err (Undefined NegativeShift) else Ok (extend t v).
Proof.
  intros Ht Hv. unfold MaybeNegate, extend.
  destruct (Z.eqb_spec t 0) as [->|Ht0]; [reflexivity|].
  rewrite (proj2 (Z.ltb_ge (t - 1) 0)) by lia.
  assert (Hp : 2 ^ t = 2 * 2 ^ (t - 1)) by (rewrite <- Z.pow_succ_r by lia; f_equal; lia).
  assert (H15 : 2 ^ t <= 2 ^ 15) by (apply Z.pow_le_mono_r; lia).
  assert (Hpos : 0 < 2 ^ (t - 1)) by (apply Z.pow_pos_nonneg; lia).
  rewrite Z.shiftr_div_pow2, Z.shiftl_1_l by lia.
  destruct (Z.ltb_spec v (2 ^ (t - 1))) as [Hlt|Hge].
  - rewrite Z.div_small by lia. cbn [Z.eqb]. f_equal. apply to_int16_id. lia.
  - assert (Hq : v / 2 ^ (t - 1) = 1).
    { symmetry. apply Z.div_unique with (v - 2 ^ (t - 1)); lia. }
    rewrite Hq. reflexivity.
Qed.

(** ** The AC loop terminates *)

(** C30 Each round of the AC loop moves the coefficient position forward
    or leaves the loop, so fuel for the positions left is enough: more
    fuel gives the same result, and [DecodeBlock]'s 63 rounds from
    position 1 never run out. *)
Theorem ac_loop_fuel fuel j ac_tree k coeffs r :
  0 <= k <= 64 -> List.length coeffs = 64%nat -> (Z.to_nat (64 - k) <= fuel)%nat ->
  ac_loop (fuel + j) ac_tree k coeffs r = ac_loop fuel ac_tree k coeffs r.
Proof.
  revert k coeffs r. induction fuel as [|fuel IH]; intros k coeffs r Hk Hlen Hf.
  - assert (k = 64) as -> by lia. destruct j; reflexivity.
  - cbn [Nat.add ac_loop]. rewrite !(bind_ok get _ r r r eq_refl).
    destruct ((k =? 64) || IsFinished (fst r)) eqn:Ek; [reflexivity|].
    apply orb_false_iff in Ek as [Ek _]. apply Z.eqb_neq in Ek.
    bind_both (DecodeByte ac_tree r) E1. cbv beta.
    destruct (_ =? 0); [reflexivity|]. destruct (_ =? 240).
    + destruct (64 <? k + 16) eqn:E16; [reflexivity|]. apply Z.ltb_ge in E16.
      apply IH; lia.
    + match goal with |- context [SplitByte ?b] => pose proof (SplitByte_range b) as Hsb;
        destruct (SplitByte b) as [zeros nb] end.
      destruct (64 <? k + zeros) eqn:Ez; [reflexivity|]. apply Z.ltb_ge in Ez.
      bind_both (ComposeNBitsLE (Z.to_nat nb) r0) E2. cbv beta.
      bind_both (lift (S := reader) (MaybeNegate nb (to_int16 z0)) r1) E3.
      cbv beta. destruct (Z.eqb_spec (k + zeros) 64) as [E64|E64].
      * rewrite E64, array_set_oob by lia. reflexivity.
      * rewrite array_set_ok by lia. rewrite !(bind_ok _ _ _ _ _ (lift_ok _ _ _ eq_refl)).
        apply IH; [lia | rewrite set_length; lia | lia].
Qed.

(** ** The DC predictor *)

Lemma array_set_head c0 rest k v l :
  1 <= k -> array_set (c0 :: rest) k v = Ok l -> exists rest', l = c0 :: rest'.
Proof.
  intros Hk. unfold array_set. destruct (_ || _); [discriminate|].
  intros H. injection H as <-. replace (Z.to_nat k) with (S (Z.to_nat k - 1)) by lia.
  cbn. eauto.
Qed.

(** The AC loop never writes position 0. *)
Lemma ac_loop_head fuel t k c0 rest r coeffs r' :
  1 <= k -> ac_loop fuel t k (c0 :: rest) r = Ok (coeffs, r') -> exists rest', coeffs = c0 :: rest'.
Proof.
  revert k rest r. induction fuel as [|fuel IH]; intros k rest r Hk H;
    cbn [ac_loop] in H; rewrite (bind_ok get _ r r r eq_refl) in H;
    (destruct ((k =? 64) || IsFinished (fst r)); [injection H as <- _; eauto|]); [discriminate|].
  bind_inv H. cbv beta in H. destruct (a =? 0); [injection H as <- _; eauto|].
  destruct (a =? 240).
  - destruct (64 <? k + 16); [discriminate|]. eapply IH; [|exact H]; lia.
  - pose proof (SplitByte_range a) as Hsb. destruct (SplitByte a) as [zeros nb].
    destruct (64 <? k + zeros); [discriminate|].
    bind_inv H. cbv beta in H. bind_inv H. cbv beta in H. bind_inv H. cbv beta in H.
    unfold lift in E2. destruct (array_set _ _ _) as [l|] eqn:Ea; [|discriminate].
    injection E2 as <- <-. destruct (array_set_head c0 rest (k + zeros) _ _ ltac:(lia) Ea) as [rest' ->].
    eapply IH; [|exact H]; lia.
Qed.

(** One block's coefficients: position 0 holds the new predictor, the
    sum in [int16_t] of the decoded DC differential and the old one. *)
Lemma decode_coeffs_dc dc ac ch r coeffs ch' r' :
  decode_coeffs dc ac ch r = Ok ((coeffs, ch'), r') ->
  exists d r1, decode_dc dc r = Ok (d, r1) /\
    ch' = mk_channel_state (ch_props ch) (to_int16 (d + last_dc ch)) /\
    nth_error coeffs 0 = Some (to_int16 (d + last_dc ch)).
Proof.
  unfold decode_coeffs. intros H. bind_inv H. cbv beta in H. bind_inv H. cbv beta in H.
  injection H as <- <-. exists a, s1. split; [reflexivity|]. split; [reflexivity|].
  destruct (ac_loop_head 63 ac 1 _ _ _ _ _ ltac:(lia) E0) as [rest ->]. reflexivity.
Qed.

Section Decoding.

(** [ToCartesianZZ<int16_t, double>], [idct.Transform] and
    [blocks::As<double, std::int16_t>], on the coefficients in [Z]. *)
Variable idct : list (list Z) -> result (list (list Z)).

(** [DecodeBlock]. *)
Definition DecodeBlock (channel : channel_state) (meta : JPEGMeta.t)
  : st reader (cblock * channel_state) :=
  let* dc_tree := lift (Get (JPEGMeta.huffman_trees meta) (dc_ht_id (ch_props channel)) 0) in
  let* ac_tree := lift (Get (JPEGMeta.huffman_trees meta) (ac_ht_id (ch_props channel)) 1) in
  let* (coeffs, channel') := decode_coeffs (dht_tree dc_tree) (dht_tree ac_tree) channel in
  let* props := lift (vec_get (JPEGMeta.channels meta) (sc_id (ch_props channel))) in
  let* rescaler := lift (vec_get (JPEGMeta.q_tables meta) (dqt_table_id props)) in
  let decoded := block_mul coeffs (dqt_block rescaler) in
  let* cartesian := lift (ToCartesianZZ decoded) in
  let* fft16 := lift (idct cartesian) in
  ret (mk_cblock (Clip (cart_add_scalar fft16 128) 0 255) (sc_id (ch_props channel)), channel').

(** [num_blocks] calls of [DecodeBlock] for one channel. *)
Fixpoint decode_blocks (n : nat) (channel : channel_state) (meta : JPEGMeta.t)
  : st reader (list cblock * channel_state) :=
  match n with
  | O => ret ([], channel)
  | S n' =>
      let* (block, channel1) := DecodeBlock channel meta in
      let* (blocks, channel2) := decode_blocks n' channel1 meta in
      ret (block :: blocks, channel2)
  end.

(** [DecodeMCU]: for each channel of the scan, in order,
    [horizontal_sp * vertical_sp] blocks (a [uint8_t] product). *)
Fixpoint DecodeMCU (props : list channel_state) (meta : JPEGMeta.t)
  : st reader (list (list cblock) * list channel_state) :=
  match props with
  | [] => ret ([], [])
  | channel :: rest =>
      let* card := lift (vec_get (JPEGMeta.channels meta) (sc_id (ch_props channel))) in
      let num_blocks := to_uint8 (horizontal_sp card * vertical_sp card) in
      let* (blocks, channel') := decode_blocks (Z.to_nat num_blocks) channel meta in
      let* (per_channel, rest') := DecodeMCU rest meta in
      ret (blocks :: per_channel, channel' :: rest')
  end.

(** The DC differentials a run of [DecodeBlock] calls decodes: [ds] is
    the list of values [decode_dc] returns, block after block, on the
    channel's DC table. *)
Inductive dc_run (meta : JPEGMeta.t)
  : channel_state -> reader -> list Z -> channel_state -> reader -> Prop :=
| dc_run_nil ch r : dc_run meta ch r [] ch r
| dc_run_cons ch r dc_tree d r1 cb ch1 r2 ds ch2 r3 :
    Get (JPEGMeta.huffman_trees meta) (dc_ht_id (ch_props ch)) 0 = Ok dc_tree ->
    decode_dc (dht_tree dc_tree) r = Ok (d, r1) ->
    DecodeBlock ch meta r = Ok ((cb, ch1), r2) ->
    dc_run meta ch1 r2 ds ch2 r3 -> dc_run meta ch r (d :: ds) ch2 r3.

(** [DecodeBlock] reads the input only through [decode_coeffs]: the
    dequantisation, the reordering and the transform are pure. *)
Lemma DecodeBlock_coeffs ch meta r cb ch' r' :
  DecodeBlock ch meta r = Ok ((cb, ch'), r') ->
  exists dc_tree ac_tree coeffs,
    Get (JPEGMeta.huffman_trees meta) (dc_ht_id (ch_props ch)) 0 = Ok dc_tree /\
    Get (JPEGMeta.huffman_trees meta) (ac_ht_id (ch_props ch)) 1 = Ok ac_tree /\
    decode_coeffs (dht_tree dc_tree) (dht_tree ac_tree) ch r = Ok ((coeffs, ch'), r').
Proof.
  unfold DecodeBlock. intros H.
  lift_step H Edc. lift_step H Eac.
  bind_inv H. destruct a as [coeffs ch1]. cbv beta iota in H.
  lift_step H E1. lift_step H E2. lift_step H E3. lift_step H E4.
  injection H as _ <- <-. eauto 6.
Qed.

(** C4 DC continuity (property 7 of the specification), in [int16_t]:
    over the blocks of one channel, the predictor [last_dc], which is
    also the DC coefficient of the last block decoded, is the sum of the
    DC differentials decoded, added to its initial value and wrapped to
    16 bits.  The differentials are those [decode_dc] returns, block
    after block ([dc_run]). *)
Theorem decode_blocks_dc n ch meta r bs ch' r' :
  -32768 <= last_dc ch < 32768 ->
  decode_blocks n ch meta r = Ok ((bs, ch'), r') ->
  exists ds, dc_run meta ch r ds ch' r' /\ List.length ds = n /\
    last_dc ch' = to_int16 (last_dc ch + fold_right Z.add 0 ds) /\ ch_props ch' = ch_props ch.
Proof.
  revert ch r bs. induction n as [|n IH]; intros ch r bs Hrange H.
  - injection H as _ <- <-. exists []. split; [constructor|].
    split; [reflexivity|]. split; [|reflexivity]. cbn. rewrite Z.add_0_r, to_int16_id by lia. reflexivity.
  - cbn [decode_blocks] in H. bind_inv H. destruct a as [cb ch1]. cbv beta iota in H.
    bind_inv H. destruct a as [bs1 ch2]. cbv beta iota in H. injection H as _ <- <-.
    destruct (DecodeBlock_coeffs _ _ _ _ _ _ E) as (dc_tree & ac_tree & coeffs & Hdc & Hac & Hco).
    destruct (decode_coeffs_dc _ _ _ _ _ _ _ Hco) as (d & r1 & Hd & -> & _).
    destruct (IH (mk_channel_state (ch_props ch) (to_int16 (d + last_dc ch))) _ _ (to_int16_range _) E0) as (ds & Hrun & Hlen & Hlast & Hprops).
    exists (d :: ds). split; [econstructor; eauto|]. split; [cbn; lia|].
    split; [|exact Hprops]. rewrite Hlast. cbn [last_dc fold_right].
    rewrite to_int16_add_l. f_equal. lia.
Qed.

End Decoding.

(** ** Runs past the end of the block *)

(** A run of [n] ZRL symbols from position [k] whose last one jumps past
    position 64, the others staying inside: [std::next(decoded_it, 16)]
    leaves the array, undefined behaviour. *)
Lemma ac_loop_zrl_run ac_tree n : forall fuel k coeffs r r',
  (n <= fuel)%nat -> (1 <= n)%nat -> k + 16 * (Z.of_nat n - 1) < 64 < k + 16 * Z.of_nat n ->
  zrl_run ac_tree n r = Some r' -> ac_loop fuel ac_tree k coeffs r = Err (Undefined OutOfBoundsAccess).
Proof.
  induction n as [|n IH]; intros fuel k coeffs r r' Hf Hn Hk Hz; [lia|].
  destruct fuel as [|fuel]; [lia|]. cbn [zrl_run] in Hz.
  destruct (IsFinished (fst r)) eqn:Efin; [discriminate|].
  destruct (DecodeByte ac_tree r) as [[b r1]|] eqn:Eb; [|discriminate].
  destruct (Z.eqb_spec b 240) as [->|]; [|discriminate].
  cbn [ac_loop]. rewrite (bind_ok get _ r r r eq_refl).
  replace (k =? 64) with false by (symmetry; apply Z.eqb_neq; lia). rewrite Efin. cbn [orb].
  rewrite (bind_ok _ _ _ _ _ Eb). cbv beta. cbn [Z.eqb Pos.eqb].
  destruct n as [|n].
  - replace (64 <? k + 16) with true by (symmetry; apply Z.ltb_lt; lia). reflexivity.
  - replace (64 <? k + 16) with false by (symmetry; apply Z.ltb_ge; lia).
    apply (IH fuel (k + 16) coeffs r1 r'); [lia|lia|lia|exact Hz].
Qed.

(** C37 An AC run that leaves the block is not caught: whatever the
    tables, the channel and the scan, when the AC symbols after the DC
    coefficient are four ZRLs (each skipping 16 positions), the fourth
    moves [decoded_it] from position 49 past the end of the block, which
    is undefined behaviour where the specification asks for a
    [CorruptScan] error. *)
Theorem decode_coeffs_zrl_overrun dc_tree ac_tree channel r0 dc r1 r5 :
  decode_dc dc_tree r0 = Ok (dc, r1) -> zrl_run ac_tree 4 r1 = Some r5 ->
  decode_coeffs dc_tree ac_tree channel r0 = Err (Undefined OutOfBoundsAccess).
Proof.
  intros Hdc Hz. unfold decode_coeffs. rewrite (bind_ok _ _ _ _ _ Hdc). cbv beta.
  apply bind_err. apply (ac_loop_zrl_run ac_tree 4 63 1 _ r1 r5); [lia|lia|cbn; lia|exact Hz].
Qed.

(** ** Samples and witnesses *)

(** The one-code tables of [Meta.sample_jpeg]: the code [0] for the
    symbol 0, and the code [0] for the symbol 0xF0 (ZRL). *)
Definition one_code_tree (symbol : Z) : huffman_tree :=
  match FromSequence (1 :: repeat 0 15) [symbol] with Ok t => t | Err _ => mk_huffman_tree Nil end.

(** A reader over the scan data of [sample_jpeg]: its last three bytes
    are the entropy-coded byte and the EOI marker. *)
Definition scan_reader (file : list Z) : reader :=
  let s := mk_istream file (List.length file - 3) false in (BitStream_new s true, s).

Definition sample_channel : channel_state := mk_channel_state (mk_sos_channel 1 0 0) 0.


Lemma MaybeNegate_extend_witness :
  0 <= 3 <= 15 /\ 0 <= 2 < 2 ^ 3 /\
  MaybeNegate 3 2 = (if 3 =? 0 then Err (Undefined NegativeShift) else Ok (extend 3 2)).
Proof. split; [lia|]. split; [cbn; lia|]. apply MaybeNegate_extend; cbn; lia. Defined.

Lemma ac_loop_fuel_witness :
  0 <= 1 <= 64 /\ List.length (repeat 0 64) = 64%nat /\ (Z.to_nat (64 - 1) <= 63)%nat /\
  ac_loop (63 + 10) (one_code_tree 0) 1 (repeat 0 64) (scan_reader sample_jpeg)
  = ac_loop 63 (one_code_tree 0) 1 (repeat 0 64) (scan_reader sample_jpeg).
Proof.
  split; [lia|]. split; [reflexivity|]. split; [cbn; lia|].
  apply ac_loop_fuel; [lia | reflexivity | cbn; lia].
Defined.

Definition sample_decoded : result (list cblock * channel_state * reader) :=
  decode_blocks (fun c => Ok c) 1 sample_channel sample_meta (scan_reader sample_jpeg).

Definition sample_blocks : list cblock :=
  match sample_decoded with Ok (bs, _, _) => bs | Err _ => [] end.

Definition sample_channel_after : channel_state :=
  match sample_decoded with Ok (_, ch, _) => ch | Err _ => sample_channel end.

Definition sample_reader_after : reader :=
  match sample_decoded with Ok (_, _, r) => r | Err _ => scan_reader [] end.

Lemma decode_blocks_dc_witness :
  -32768 <= last_dc sample_channel < 32768 /\
  decode_blocks (fun c => Ok c) 1 sample_channel sample_meta (scan_reader sample_jpeg)
    = Ok ((sample_blocks, sample_channel_after), sample_reader_after) /\
  exists ds, dc_run (fun c => Ok c) sample_meta sample_channel (scan_reader sample_jpeg) ds
               sample_channel_after sample_reader_after /\ List.length ds = 1%nat /\
    last_dc sample_channel_after = to_int16 (last_dc sample_channel + fold_right Z.add 0 ds) /\
    ch_props sample_channel_after = ch_props sample_channel.
Proof.
  assert (H : decode_blocks (fun c => Ok c) 1 sample_channel sample_meta (scan_reader sample_jpeg)
              = Ok ((sample_blocks, sample_channel_after), sample_reader_after))
    by (vm_compute; reflexivity).
  split; [cbn; lia|]. split; [exact H|].
  apply (decode_blocks_dc (fun c => Ok c) 1 sample_channel sample_meta _ sample_blocks); [cbn; lia | exact H].
Defined.

Lemma decode_coeffs_zrl_overrun_witness :
  exists dc r1 r5,
    decode_dc (one_code_tree 0) (scan_reader [0; 255; 217]) = Ok (dc, r1) /\
    zrl_run (one_code_tree 240) 4 r1 = Some r5 /\
    decode_coeffs (one_code_tree 0) (one_code_tree 240) sample_channel (scan_reader [0; 255; 217])
      = Err (Undefined OutOfBoundsAccess).
Proof.
  do 3 eexists. split; [reflexivity|]. split; [reflexivity|].
  eapply decode_coeffs_zrl_overrun; reflexivity.
Defined.
