(* ===== verification/Mcu.v ===== *)
(** * MCU assembly: [MCU::GetValue] and [MCU::GetRGB]

    Models [MCU::GetValue] of [jpeg-decoder/src/decoder.cpp]: the sample
    of one component at an offset of the MCU, read from the component's
    decoded blocks according to the maximal sampling factors of the
    frame.  The offsets are [int8_t]; [/] and [%] are C++'s, truncating
    ([Z.quot], [Z.rem]); [blocks[i]] and [buffer[x][y]] are unchecked.

    Then [MCU::GetRGB], the colour conversion, in IEEE binary64: the
    constants are the doubles nearest to the decimal literals of the
    source, every operation is the primitive [float] operation of the
    kernel (round to nearest even, as on the targets the project builds
    for, without contraction into fused multiply-adds), and [std::round]
    followed by the conversion to [int] is computed exactly from the
    double's mantissa and exponent. *)

From Stdlib Require Import String ZArith Bool List Lia Floats.
From S2P Require Import Prelude Bytes BitStream Huffman Blocks Segments Meta Entropy.
Import ListNotations.
Open Scope Z_scope.
Open Scope jpeg_scope.

(** [block.buffer[x][y]] of a [Cartesian<int16_t, 8>]. *)
Definition cart_at {A : Type} (cart : list (list A)) (x y : Z) : result A :=
  let? column := vec_get cart x in vec_get column y.

(** [blocks[index].block.buffer[x][y]]. *)
Definition sample_at (blocks : list cblock) (index x y : Z) : result Z :=
  let? b := vec_get blocks index in cart_at (cb_block b) x y.

Definition upper (offset : Z) : Z := if 7 <? offset then 1 else 0.

(** [MCU::GetValue]. *)
Definition GetValue (blocks : list cblock) (x_offset y_offset : Z) (meta : JPEGMeta.t) : result Z :=
  let? b0 := vec_get blocks 0 in
  let? props := vec_get (JPEGMeta.channels meta) (cb_channel_id b0) in
  let mv := JPEGMeta.max_granularity_v meta in
  let mh := JPEGMeta.max_granularity_h meta in
  if (mv =? 1) && (mh =? 1) then sample_at blocks 0 x_offset y_offset
  else if (mv =? 2) && (mh =? 1) then
    if vertical_sp props =? 1 then sample_at blocks 0 x_offset (Z.quot y_offset 2)
    else sample_at blocks (upper y_offset) x_offset (Z.rem y_offset 8)
  else if (mv =? 1) && (mh =? 2) then
    if horizontal_sp props =? 1 then sample_at blocks 0 (Z.quot x_offset 2) y_offset
    else sample_at blocks (upper x_offset) (Z.rem x_offset 8) y_offset
  else
    if (vertical_sp props =? 1) && (horizontal_sp props =? 1) then
      sample_at blocks 0 (Z.quot x_offset 2) (Z.quot y_offset 2)
    else if (vertical_sp props =? 2) && (horizontal_sp props =? 1) then
      sample_at blocks (upper x_offset) (Z.rem x_offset 8) (Z.quot y_offset 8)
    else if (vertical_sp props =? 1) && (horizontal_sp props =? 2) then
      sample_at blocks (upper y_offset) (Z.quot x_offset 2) (Z.rem y_offset 8)
    else
      sample_at blocks (2 * upper y_offset + upper x_offset) (Z.rem x_offset 8) (Z.rem y_offset 8).

(** The sample lookup of the specification (section 4.6): the pixel is
    scaled down by the ratio of the maximal to the component's sampling
    factors, then found in the component's blocks, laid out row-major
    over its [h x v] grid. *)
Definition sample_spec (blocks : list cblock) (h v hmax vmax x y : Z) : result Z :=
  let px := x / (hmax / h) in
  let py := y / (vmax / v) in
  sample_at blocks ((py / 8) * h + px / 8) (px mod 8) (py mod 8).

(** Sample blocks: the sample at [(x, y)] of block [k] is [100 k + 8 x + y]. *)
Definition sample_cart (k : Z) : list (list Z) :=
  map (fun x => map (fun y => 100 * k + 8 * x + y) range8) range8.

(** A frame with maximal sampling factors [hmax x vmax] and the given
    component table. *)
Definition frame_meta (hmax vmax : Z) (channels : list channel_props) : JPEGMeta.t :=
  JPEGMeta.mk (8 * hmax) (8 * vmax) 8 (8 * hmax) (8 * vmax) hmax vmax [] [] [] channels [].

(** ** [GetValue] against the specification *)

Lemma quot_rem_nonneg a b :
  0 <= a -> 0 < b -> Z.quot a b = a / b /\ Z.rem a b = a mod b.
Proof. intros Ha Hb. split; [apply Z.quot_div_nonneg | apply Z.rem_mod_nonneg]; lia. Qed.

Lemma upper_div8 o : 0 <= o < 16 -> upper o = o / 8.
Proof.
  intros Ho. unfold upper. destruct (Z.ltb_spec 7 o).
  - apply Z.div_unique with (o - 8); lia.
  - symmetry. apply Z.div_small. lia.
Qed.

Lemma half_div8 o : 0 <= o < 16 -> o / 2 / 8 = 0.
Proof. intros Ho. apply Z.div_small. split; [apply Z.div_pos|apply Z.div_lt_upper_bound]; lia. Qed.

Lemma half_mod8 o : 0 <= o < 16 -> (o / 2) mod 8 = o / 2.
Proof. intros Ho. apply Z.mod_small. split; [apply Z.div_pos|apply Z.div_lt_upper_bound]; lia. Qed.

(** Rewrites the block index and the coordinates of a lookup with
    offsets below 16 into a normal form. *)
Ltac lookup_coords :=
  rewrite ?Z.div_1_r;
  repeat match goal with
  | |- context [upper ?o] => rewrite (upper_div8 o) by lia
  | |- context [?o / 2 / 8] => rewrite (half_div8 o) by lia
  | |- context [(?o / 2) mod 8] => rewrite (half_mod8 o) by lia
  | |- context [?o / 8] => rewrite (Z.div_small o 8) by lia
  | |- context [?o mod 8] => rewrite (Z.mod_small o 8) by lia
  end.

(** C11 [MCU::GetValue] is the nearest-neighbour lookup of the
    specification for every sampling layout of a baseline frame (maximal
    factors 1 or 2, component factors at most the maximal ones), except
    the two layouts of a 2x2 MCU with a component sampled 1x2 or 2x1,
    where the code differs (see the example below). *)
Theorem GetValue_spec blocks b0 props meta x y :
  vec_get blocks 0 = Ok b0 ->
  vec_get (JPEGMeta.channels meta) (cb_channel_id b0) = Ok props ->
  let h := horizontal_sp props in let v := vertical_sp props in
  let hmax := JPEGMeta.max_granularity_h meta in let vmax := JPEGMeta.max_granularity_v meta in
  1 <= hmax <= 2 -> 1 <= vmax <= 2 -> 1 <= h <= hmax -> 1 <= v <= vmax ->
  ~ (hmax = 2 /\ vmax = 2 /\ h <> v) ->
  0 <= x < 8 * hmax -> 0 <= y < 8 * vmax ->
  GetValue blocks x y meta = sample_spec blocks h v hmax vmax x y.
Proof.
  intros Hb0 Hp h v hmax vmax Hh Hv Hhc Hvc Hex Hx Hy.
  unfold GetValue, sample_spec. rewrite Hb0. cbn [rbind]. rewrite Hp. cbn [rbind].
  fold hmax vmax h v.
  destruct (quot_rem_nonneg x 2 ltac:(lia) ltac:(lia)) as [Qx2 _].
  destruct (quot_rem_nonneg y 2 ltac:(lia) ltac:(lia)) as [Qy2 _].
  destruct (quot_rem_nonneg x 8 ltac:(lia) ltac:(lia)) as [_ Rx8].
  destruct (quot_rem_nonneg y 8 ltac:(lia) ltac:(lia)) as [Qy8 Ry8].
  rewrite Qx2, Qy2, Rx8, Qy8, Ry8.
  assert (Hhv : (hmax = 1 \/ hmax = 2) /\ (vmax = 1 \/ vmax = 2)) by lia.
  assert (Hhv' : (h = 1 \/ h = 2) /\ (v = 1 \/ v = 2)) by lia.
  destruct Hhv as [[Eh|Eh] [Ev|Ev]]; destruct Hhv' as [[Ec|Ec] [Ed|Ed]];
    rewrite ?Eh, ?Ev, ?Ec, ?Ed in *; try lia; cbn [Z.eqb andb Pos.eqb];
    change (1 / 1) with 1; change (2 / 1) with 2; change (2 / 2) with 1;
    lookup_coords; f_equal; lia.
Qed.

(** In a 2x2 MCU, a component sampled 1x2 (one block wide, two
    high) is read with the block chosen by [x] and the row [y / 8], where
    the specification takes the block by [y] and the column [x / 2]: at
    offset (0, 8) the code reads block 0 at (0, 1), the specification
    block 1 at (0, 0). *)
Example GetValue_subsampling_mismatch :
  let blocks := [mk_cblock (sample_cart 0) 1; mk_cblock (sample_cart 1) 1] in
  let meta := frame_meta 2 2 [default_channel; mk_channel_props 1 1 2 0] in
  GetValue blocks 0 8 meta = Ok 1 /\ sample_spec blocks 1 2 2 2 0 8 = Ok 100.
Proof. vm_compute. split; reflexivity. Qed.

(** ** Colour conversion: [MCU::GetRGB] *)

(** The [RGB] triple of [rgb-image.h]. *)
Record rgb : Type := mk_rgb { red : Z; green : Z; blue : Z }.

(** The conversion of an [int] to [double], exact for every [int]. *)
Definition double_of_Z (z : Z) : float :=
  if z <? 0 then (- of_uint63 (Uint63.of_Z (- z)))%float else of_uint63 (Uint63.of_Z z).

(** [int r = std::round(x)]: rounding half away from zero, then the
    conversion to [int], undefined outside its range (and on an infinity
    or a NaN). *)
Definition lround (x : float) : result Z :=
  match Prim2SF x with
  | S754_zero _ => Ok 0
  | S754_finite s m e =>
      let a := if 0 <=? e then Z.shiftl (Zpos m) e
               else Z.shiftr (Zpos m + Z.shiftl 1 (- e - 1)) (- e) in
      let v := if s then - a else a in
      if (v <? - int_max - 1) || (int_max <? v) then Err (Undefined FloatConversion) else Ok v
  | _ => Err (Undefined FloatConversion)
  end.

Definition clamp255 (v : Z) : Z := Z.max 0 (Z.min 255 v).

Local Set Warnings "-inexact-float".

(** [std::round(y + 1.402 * (cr - 128))]. *)
Definition red_of (y cr : Z) : result Z :=
  lround (double_of_Z y + 1.402 * double_of_Z (cr - 128))%float.

(** [std::round(y - 0.34414 * (cb - 128) - 0.71414 * (cr - 128))]. *)
Definition green_of (y cb cr : Z) : result Z :=
  lround (double_of_Z y - 0.34414 * double_of_Z (cb - 128) - 0.71414 * double_of_Z (cr - 128))%float.

(** [std::round(y + 1.772 * (cb - 128))]. *)
Definition blue_of (y cb : Z) : result Z :=
  lround (double_of_Z y + 1.772 * double_of_Z (cb - 128))%float.

Local Set Warnings "inexact-float".

(** [MCU::GetRGB]: [cb] and [cr] default to 128 unless the MCU has
    exactly three components. *)
Definition GetRGB (per_channel_blocks : list (list cblock)) (x_offset y_offset : Z)
  (meta : JPEGMeta.t) : result rgb :=
  let? blocks0 := vec_get per_channel_blocks 0 in
  let? y := GetValue blocks0 x_offset y_offset meta in
  let? cbcr := if Nat.eqb (List.length per_channel_blocks) 3 then
                 let? blocks1 := vec_get per_channel_blocks 1 in
                 let? cb := GetValue blocks1 x_offset y_offset meta in
                 let? blocks2 := vec_get per_channel_blocks 2 in
                 let? cr := GetValue blocks2 x_offset y_offset meta in
                 Ok (cb, cr)
               else Ok (128, 128) in
  let (cb, cr) := cbcr in
  let? r := red_of y cr in
  let? g := green_of y cb cr in
  let? b := blue_of y cb in
  Ok (mk_rgb (clamp255 r) (clamp255 g) (clamp255 b)).

(** ** The colour conversion against its exact decimal formula *)

(** [n / d] rounded half away from zero, for [d > 0]: the specification's
    [round] of a rational. *)
Definition round_div (n d : Z) : Z :=
  let a := (2 * Z.abs n + d) / (2 * d) in if n <? 0 then - a else a.

Definition red_blue_exact_test (y c : Z) : bool :=
  ok_eqb (red_of y c) (round_div (1000 * y + 1402 * (c - 128)) 1000) &&
  ok_eqb (blue_of y c) (round_div (1000 * y + 1772 * (c - 128)) 1000).

Definition neutral_test (y : Z) : bool :=
  ok_eqb (red_of y 128) y && ok_eqb (green_of y 128 128) y && ok_eqb (blue_of y 128) y.

(** A sample with neutral chroma converts to grey, for every byte. *)
Lemma neutral_grey y :
  0 <= y < 256 -> red_of y 128 = Ok y /\ green_of y 128 128 = Ok y /\ blue_of y 128 = Ok y.
Proof.
  intros Hy.
  pose proof (all_below_spec 256 neutral_test ltac:(vm_compute; reflexivity) y ltac:(lia)) as H.
  unfold neutral_test in H. apply andb_true_iff in H as [H H3]. apply andb_true_iff in H as [H1 H2].
  auto using ok_eqb_spec.
Qed.

Lemma clamp255_byte v : 0 <= v < 256 -> clamp255 v = v.
Proof. unfold clamp255. lia. Qed.

(** C15 Red and blue are computed exactly: for every luminance and
    chrominance byte, the double-precision expression of [GetRGB],
    rounded by [std::round], is the exact value of the specification's
    formula [Y + 1.402 (Cr - 128)] (resp. [Y + 1.772 (Cb - 128)]) rounded
    half away from zero: the binary64 constants and the rounding of each
    operation never move the result across a half-integer. *)
Theorem red_blue_exact y c :
  0 <= y < 256 -> 0 <= c < 256 ->
  red_of y c = Ok (round_div (1000 * y + 1402 * (c - 128)) 1000) /\
  blue_of y c = Ok (round_div (1000 * y + 1772 * (c - 128)) 1000).
Proof.
  intros Hy Hc.
  pose proof (all_below_spec 256 (fun y => all_below 256 (red_blue_exact_test y))
                ltac:(vm_compute; reflexivity) y ltac:(lia)) as H.
  cbv beta in H. pose proof (all_below_spec 256 _ H c ltac:(lia)) as H'.
  apply andb_true_iff in H' as [H1 H2]. auto using ok_eqb_spec.
Qed.

(** Green is not: with [Y = 47], [Cb = 78], [Cr = 178] the exact
    value [47 - 0.34414 * (-50) - 0.71414 * 50] is [28.5], which the
    specification rounds to 29, but the double-precision expression
    falls just below the half and [GetRGB] yields 28. *)
Example green_of_tie :
  green_of 47 78 178 = Ok 28 /\
  round_div (100000 * 47 - 34414 * (78 - 128) - 71414 * (178 - 128)) 100000 = 29.
Proof. vm_compute. split; reflexivity. Qed.

(** C28 Monochrome output (the 4:2:0 scenario of the specification):
    when the MCU has one component, or three whose chroma samples at the
    offset are both 128, [GetRGB] replicates the luminance sample, for
    every sample in [0, 255]. *)
Theorem GetRGB_monochrome mcu x y meta b0 v :
  vec_get mcu 0 = Ok b0 -> GetValue b0 x y meta = Ok v -> 0 <= v < 256 ->
  (List.length mcu <> 3%nat \/
   exists b1 b2, vec_get mcu 1 = Ok b1 /\ GetValue b1 x y meta = Ok 128 /\
                 vec_get mcu 2 = Ok b2 /\ GetValue b2 x y meta = Ok 128) ->
  GetRGB mcu x y meta = Ok (mk_rgb v v v).
Proof.
  intros H0 Hv Hr Hc. destruct (neutral_grey v Hr) as (Er & Eg & Eb).
  unfold GetRGB. rewrite H0. cbn [rbind]. rewrite Hv. cbn [rbind].
  destruct Hc as [Hn | (b1 & b2 & H1 & V1 & H2 & V2)];
    [apply Nat.eqb_neq in Hn; rewrite Hn
    |destruct (Nat.eqb (List.length mcu) 3);
     [rewrite H1; cbn [rbind]; rewrite V1; cbn [rbind]; rewrite H2; cbn [rbind]; rewrite V2|]];
    cbn [rbind]; rewrite Er, Eg, Eb; cbn [rbind]; rewrite clamp255_byte by lia; reflexivity.
Qed.

(** ** Witnesses *)

Definition sample_quad : list cblock := map (fun k => mk_cblock (sample_cart k) 1) [0; 1; 2; 3].

Lemma GetValue_spec_witness :
  GetValue sample_quad 9 10 (frame_meta 2 2 [default_channel; mk_channel_props 1 2 2 0]) =
  sample_spec sample_quad 2 2 2 2 9 10.
Proof.
  apply (GetValue_spec _ (mk_cblock (sample_cart 0) 1) (mk_channel_props 1 2 2 0)); cbn; try reflexivity; lia.
Defined.

Lemma red_blue_exact_witness :
  red_of 200 30 = Ok (round_div (1000 * 200 + 1402 * (30 - 128)) 1000) /\
  blue_of 200 30 = Ok (round_div (1000 * 200 + 1772 * (30 - 128)) 1000).
Proof. apply red_blue_exact; lia. Defined.

Lemma GetRGB_monochrome_witness :
  GetRGB [[mk_cblock (sample_cart 0) 1]] 3 4 (frame_meta 1 1 [default_channel; mk_channel_props 1 1 1 0])
  = Ok (mk_rgb 28 28 28).
Proof.
  apply (GetRGB_monochrome _ _ _ _ [mk_cblock (sample_cart 0) 1]); try reflexivity; [lia|].
  left. discriminate.
Defined.
