(* ===== verification/Idct.v ===== *)
(** * The inverse DCT of [fourier.cpp] and the conversions of [primitives.h]

    [fft::IDCT88V2::Transform], the transform [Decode] uses: the input
    normalisation into the member block [input_] (divide by 8, and by
    [sqrt 2] on a row or column of index at least 1), the FFTW plan
    [REDFT01 x REDFT01] on 8 x 8, which is the library's and a parameter
    here, and [ToCartesianIJ] of the member [output_].  [fft::IDCT88V1]
    (the direct cosine formulation, not called by the decoder) with
    [std::cos] and [std::atan] as parameters.  [blocks::As<double,
    int16_t>]: a truncating conversion, undefined out of range.

    Doubles are the kernel's primitive binary64 floats, as in [Mcu.v]. *)

From Stdlib Require Import String ZArith Bool List Lia Floats.
From S2P Require Import Prelude Bytes BitStream Huffman Blocks Segments Meta Entropy Mcu.
Import ListNotations.
Open Scope Z_scope.
Open Scope jpeg_scope.

(** ** Blocks of doubles *)

(** [Block<double, 8>::AtIJ(row, col)]: [buffer[row * Size + col]]. *)
Definition AtIJ (b : list float) (row col : Z) : result float := vec_get b (row * 8 + col).

(** [Block<double, 8>::AtIJ(row, col)] as an lvalue. *)
Definition AtIJ_set (b : list float) (row col : Z) (x : float) : result (list float) :=
  vec_set b (row * 8 + col) x.

(** [ToCartesianIJ<double, double, 8>]. *)
Definition ToCartesianIJ (b : list float) : result (list (list float)) :=
  rmap (fun i => rmap (fun j => AtIJ b i j) range8) range8.

(** [static_cast<int16_t>] of a [double]: truncation toward zero,
    undefined when the result does not fit. *)
Definition trunc_int16 (x : float) : result Z :=
  match Prim2SF x with
  | S754_zero _ => Ok 0
  | S754_finite s m e =>
      let a := if 0 <=? e then Z.shiftl (Zpos m) e else Z.shiftr (Zpos m) (- e) in
      let v := if s then - a else a in
      if (v <? -32768) || (32767 <? v) then Err (Undefined FloatConversion) else Ok v
  | _ => Err (Undefined FloatConversion)
  end.

(** [blocks::As<double, std::int16_t, 8>] on a [Cartesian]. *)
Definition As (c : list (list float)) : result (list (list Z)) := rmap (rmap trunc_int16) c.

(** The [static_cast<double>] of [ToCartesianZZ<int16_t, double, 8>]. *)
Definition to_double_cart (c : list (list Z)) : list (list float) := map (map double_of_Z) c.

(** ** [IDCT88V2] *)

(** One round of the normalisation loop of [IDCT88V2::Transform]. *)
Definition normalise_entry (f : list (list float)) (input : list float) (i j : Z) : result (list float) :=
  let? v := cart_at f i j in
  let? input1 := AtIJ_set input i j (v / 8)%float in
  let? input2 := if 0 <? i then let? x := AtIJ input1 i j in AtIJ_set input1 i j (x / sqrt 2)%float
                 else Ok input1 in
  if 0 <? j then let? x := AtIJ input2 i j in AtIJ_set input2 i j (x / sqrt 2)%float
  else Ok input2.

(** The two loops over [i] and [j]. *)
Definition normalise (f : list (list float)) (input : list float) : result (list float) :=
  rfold (fun input i => rfold (fun input j => normalise_entry f input i j) range8 input) range8 input.

Section IDCT88V2.

(** [fftw_execute(plan_)] for [fftw_plan_r2r_2d(8, 8, input_, output_,
    FFTW_REDFT01, FFTW_REDFT01, FFTW_ESTIMATE)]: from the 64 doubles of
    [input_], row-major, the 64 of [output_]. *)
Variable redft01_2d : list float -> list float.

(** [IDCT88V2::Transform] on the members [input_] and [output_], which
    it leaves changed. *)
Definition Transform (members : list float * list float) (f : list (list float))
  : result (list (list float) * (list float * list float)) :=
  let (input, _) := members in
  let? input' := normalise f input in
  let output' := redft01_2d input' in
  let? returned := ToCartesianIJ output' in
  Ok (returned, (input', output')).

(** What [DecodeBlock] does between [ToCartesianZZ] and [Clip]:
    [ToCartesianZZ<int16_t, double>], [idct.Transform], [As<double,
    int16_t>].  The members start as 64 zeros: theorem
    [Transform_members] shows their contents never matter. *)
Definition decoder_idct (c : list (list Z)) : result (list (list Z)) :=
  let? (fft, _) := Transform (repeat 0%float 64, repeat 0%float 64) (to_double_cart c) in
  As fft.

End IDCT88V2.

(** ** [IDCT88V1] *)

Section IDCT88V1.

(** [std::cos] and [std::atan] of the C library. *)
Variables cos atan : float -> float.

(** [pi_ = std::atan(1.0) * 4]. *)
Definition pi_ : float := (atan 1 * 4)%float.

(** [cu_.fill(1); cu_[0] = 1.0 / std::sqrt(2)]. *)
Definition cu_ : list float := (1 / sqrt 2)%float :: repeat 1%float 7.

(** [cos_xu_[outer][inner] = std::cos((2 * outer + 1) * pi_ * inner / 16.0)]. *)
Definition cos_xu_ : list (list float) :=
  map (fun outer => map (fun inner =>
         cos (double_of_Z (2 * outer + 1) * pi_ * double_of_Z inner / 16)%float) range8) range8.

(** [returned.buffer[i][j] = x]. *)
Definition cart_set {A : Type} (c : list (list A)) (i j : Z) (x : A) : result (list (list A)) :=
  let? row := vec_get c i in
  let? row' := vec_set row j x in
  vec_set c i row'.

(** The innermost round of [IDCT88V1::Transform]. *)
Definition v1_step (f returned : list (list float)) (i j outer inner : Z) : result (list (list float)) :=
  let? cu_o := vec_get cu_ outer in
  let? cu_i := vec_get cu_ inner in
  let? f_oi := cart_at f outer inner in
  let pre := (cu_o * cu_i * f_oi)%float in
  let? c_io := cart_at cos_xu_ i outer in
  let? c_ji := cart_at cos_xu_ j inner in
  let addition := (c_io * c_ji * pre)%float in
  let? r := cart_at returned i j in
  cart_set returned i j (r + 1 / 4 * addition)%float.

(** [IDCT88V1::Transform]: the four loops over [i], [j], [outer] and
    [inner] on a zero-filled result. *)
Definition Transform_V1 (f : list (list float)) : result (list (list float)) :=
  rfold (fun returned i =>
    rfold (fun returned j =>
      rfold (fun returned outer =>
        rfold (fun returned inner => v1_step f returned i j outer inner) range8 returned)
        range8 returned) range8 returned) range8 (repeat (repeat 0%float 8) 8).

End IDCT88V1.

(** ** The normalisation of [IDCT88V2] is the specification's *)

(** The entry [(i, j)] of the specification's normalised block (section
    4.5): [F / 8], divided by [sqrt 2] when [i >= 1] and again when
    [j >= 1], in the order the code divides. *)
Definition scale (i j : Z) (v : float) : float :=
  let v1 := (v / 8)%float in
  let v2 := if 0 <? i then (v1 / sqrt 2)%float else v1 in
  if 0 <? j then (v2 / sqrt 2)%float else v2.

(** The normalised block in natural (row-major) order. *)
Definition spec_input (f : list (list float)) : list float :=
  concat (map (fun i => map (fun j => scale i j (nth (Z.to_nat j) (nth (Z.to_nat i) f []) 0%float)) range8) range8).

(** An 8 x 8 [Cartesian]. *)
Definition cart8 {A : Type} (c : list (list A)) : Prop :=
  List.length c = 8%nat /\ Forall (fun row => List.length row = 8%nat) c.

(** Splits a list of known length into its elements. *)
Ltac explode_list l H :=
  repeat (let x := fresh "x" in destruct l as [|x l]; cbn [List.length] in H;
          [discriminate H|injection H as H]);
  destruct l; [|discriminate H].

Ltac explode_cart8 f Hf :=
  destruct Hf as [Hlen Hrows]; explode_list f Hlen;
  repeat match goal with
  | H : Forall _ (?r :: _) |- _ =>
      let Hr := fresh "Hr" in apply Forall_cons_iff in H as [Hr H]; explode_list r Hr
  | H : Forall _ [] |- _ => clear H
  end.

Lemma normalise_ok f input :
  cart8 f -> List.length input = 64%nat -> normalise f input = Ok (spec_input f).
Proof.
  intros Hf Hi. explode_cart8 f Hf. explode_list input Hi. vm_compute. reflexivity.
Qed.

(** C21 [IDCT88V2::Transform] hands FFTW the specification's normalised
    block in natural order (section 4.5), whatever the member [input_]
    held before: every one of its 64 entries is written, once, from the
    entry of the same row and column.  So the transform is a function of
    its argument alone, and reads FFTW's output in natural order. *)
Theorem Transform_spec redft01_2d members f :
  cart8 f -> List.length (fst members) = 64%nat ->
  Transform redft01_2d members f =
    (let? returned := ToCartesianIJ (redft01_2d (spec_input f)) in
     Ok (returned, (spec_input f, redft01_2d (spec_input f)))).
Proof.
  intros Hf Hi. destruct members as [input output]. unfold Transform.
  rewrite (normalise_ok f input Hf Hi). reflexivity.
Qed.

Definition zero64 : list float := repeat 0%float 64.

(** With an FFTW that maps the zero block to zero, as the linear
    [REDFT01] does, the decoder's transform maps the zero block to zero. *)
Lemma decoder_idct_zero redft01_2d :
  redft01_2d zero64 = zero64 -> decoder_idct redft01_2d (repeat (repeat 0 8) 8) = Ok (repeat (repeat 0 8) 8).
Proof.
  intros H. unfold decoder_idct, Transform. cbv beta iota zeta.
  rewrite (normalise_ok (to_double_cart (repeat (repeat 0 8) 8)) (repeat 0%float 64));
    [|split; [reflexivity|repeat constructor]|reflexivity].
  cbn [rbind]. replace (spec_input (to_double_cart (repeat (repeat 0 8) 8))) with zero64 by (vm_compute; reflexivity).
  rewrite H. vm_compute. reflexivity.
Qed.

(** [blocks::As<double, int16_t>] truncates toward zero where the
    specification rounds to the nearest integer (step 6 of section 4.4):
    an IDCT output of 127.9 becomes 127 and -127.9 becomes -127; an
    output beyond the range of [int16_t] is undefined behaviour. *)
Local Set Warnings "-inexact-float".

Example As_truncates :
  As [[127.9; -127.9; 0.5; 32767.5]%float] = Ok [[127; -127; 0; 32767]] /\
  trunc_int16 32768%float = Err (Undefined FloatConversion).
Proof. split; vm_compute; reflexivity. Qed.

Local Set Warnings "inexact-float".

(** ** [IDCT88V1] computes the formula of the specification *)

Section V1Formula.

Variables cos atan : float -> float.

(** The double nearest to [pi], and the normalisation constants [C_u]
    of section 4.5: [1 / sqrt 2] for [u = 0], [1] otherwise. *)
Definition pi_double : float := 0x1.921fb54442d18p+1. (* 3.141592653589793 *)

Definition C_spec (u : Z) : float := if u =? 0 then (1 / sqrt 2)%float else 1%float.

(** The entry [(x, y)] of the IDCT of section 4.5,
    [1/4 sum_u sum_v C_u C_v F_uv cos((2x+1) u pi / 16) cos((2y+1) v pi / 16)],
    summed over [u] then [v] in increasing order, in doubles, with its
    own constants [C_spec] and [pi_double]. *)
Definition idct_formula (f : list (list float)) (x y : Z) : float :=
  let cs x u := cos (double_of_Z (2 * x + 1) * pi_double * double_of_Z u / 16)%float in
  let F u v := nth (Z.to_nat v) (nth (Z.to_nat u) f []) 0%float in
  fold_left (fun acc u => fold_left (fun acc v =>
      (acc + 1 / 4 * (cs x u * cs y v * (C_spec u * C_spec v * F u v)))%float) range8 acc) range8 0%float.

(** [pi_] is [pi_double] when [std::atan(1.0)] is correctly rounded,
    as the C libraries the project builds with return it. *)
Lemma pi_correct : atan 1 = 0x1.921fb54442d18p-1%float -> pi_ atan = pi_double.
Proof. intros Ha. unfold pi_. rewrite Ha. vm_compute. reflexivity. Qed.

(** C22 [IDCT88V1::Transform] computes the specification's IDCT formula:
    its four loops, accumulating into the zero-filled result in place,
    with the constructor's tables [cu_] and [cos_xu_], give every entry
    the sum of section 4.5 over [u] then [v] with [C_0 = 1 / sqrt 2],
    the other [C_u = 1] and the double nearest [pi], for every 8 x 8
    input, whatever [std::cos] returns, as long as [std::atan(1.0)] is
    the double nearest [pi / 4]. *)
Theorem Transform_V1_spec f :
  cart8 f -> atan 1 = 0x1.921fb54442d18p-1%float ->
  Transform_V1 cos atan f = Ok (map (fun x => map (fun y => idct_formula f x y) range8) range8).
Proof.
  intros Hf Ha. unfold Transform_V1, v1_step, cos_xu_. rewrite (pi_correct Ha).
  explode_cart8 f Hf. vm_compute. reflexivity.
Qed.

End V1Formula.

(** ** Witnesses *)

Lemma Transform_spec_witness :
  Transform (fun l => l) (zero64, zero64) (to_double_cart (repeat (repeat 1 8) 8)) =
    (let? returned := ToCartesianIJ (spec_input (to_double_cart (repeat (repeat 1 8) 8))) in
     Ok (returned, (spec_input (to_double_cart (repeat (repeat 1 8) 8)),
                    spec_input (to_double_cart (repeat (repeat 1 8) 8))))).
Proof. apply (Transform_spec (fun l => l)); [split; [reflexivity|repeat constructor]|reflexivity]. Defined.

Lemma Transform_V1_spec_witness :
  cart8 (to_double_cart (repeat (repeat 1 8) 8)) /\
  (fun _ : float => 0x1.921fb54442d18p-1%float) 1%float = 0x1.921fb54442d18p-1%float /\
  Transform_V1 (fun x => x) (fun _ => 0x1.921fb54442d18p-1%float) (to_double_cart (repeat (repeat 1 8) 8)) =
  Ok (map (fun x => map (fun y => idct_formula (fun x => x)
                                    (to_double_cart (repeat (repeat 1 8) 8)) x y) range8) range8).
Proof.
  split; [split; [reflexivity|repeat constructor]|]. split; [reflexivity|].
  apply Transform_V1_spec; [split; [reflexivity|repeat constructor]|reflexivity].
Defined.
