(* ===== verification/FftwPlan.v ===== *)
(** * The FFTW plan an [fft::IDCT88V2] owns ([fourier.h], [fourier.cpp])

    An [IDCT88V2] object holds two member blocks, [input_] and
    [output_], and a plan its constructor makes with
    [fftw_plan_r2r_2d(8, 8, input_.Data(), output_.Data(), ...)]: the
    plan keeps the addresses of the object's own members.  [Transform]
    writes [input_], runs [fftw_execute(plan_)] and reads [output_]; the
    destructor calls [fftw_destroy_plan(plan_)] and [fftw_cleanup()].
    The class declares no copy operations, so the implicit ones copy
    [plan_] as a pointer.

    The model is a heap: a table of plans (live or destroyed, with the
    addresses they read and write) and a table of objects (alive or
    ended, with their plan handle and members).  The FFTW calls follow
    the library's documented contract: executing or destroying a
    destroyed plan is undefined, and after [fftw_cleanup] every existing
    plan is.  [FFTW] itself, the transform [redft01_2d] a live plan
    computes, is a section parameter as in [Idct.v].

    [Decode] makes one object, transforms every block with it and
    destroys it: [dstep] is that discipline as a step relation, and
    [own_inv] (every live object's plan is live and bound to its own
    members, every live plan has its object, at most one object lives)
    holds of every heap it reaches ([dstep_reachable_inv], by rule
    induction).  Under it [IDCT88V2_Transform] refines the
    member-passing [Transform] of [Idct.v], and a whole session gives
    each block what [decoder_idct] computes with fresh members and leaves
    no live plan.  A copied object, or two live objects, reach undefined
    behaviour. *)

From Stdlib Require Import String ZArith Bool List Lia Floats Relations.
From S2P Require Import Prelude Bytes BitStream Huffman Blocks Segments Meta Entropy Mcu Idct.
Import ListNotations.
Open Scope Z_scope.
Open Scope jpeg_scope.

(** ** The heap *)

(** The members of an object a plan may point into. *)
Inductive member : Type := Input | Output.

(** An address: an object of the object table and one of its members. *)
Definition addr : Type := nat * member.

(** A plan of FFTW's: live or destroyed, with the arrays it reads and
    writes. *)
Record plan := mk_plan { plan_live : bool; plan_in : addr; plan_out : addr }.

(** An [IDCT88V2] object: [plan_], [input_], [output_], and whether its
    lifetime has begun and not ended. *)
Record idct_obj := mk_obj { obj_plan : nat; obj_input : list float; obj_output : list float; obj_alive : bool }.

Record heap := mk_heap { plans : list plan; objs : list idct_obj }.

Definition empty_heap : heap := mk_heap [] [].

Definition obj_at (h : heap) (o : nat) : result idct_obj :=
  match nth_error (objs h) o with
  | Some ob => if obj_alive ob then Ok ob else Err (Undefined UseAfterFree)
  | None => Err (Undefined OutOfBoundsAccess)
  end.

Definition set_obj (h : heap) (o : nat) (ob : idct_obj) : result heap :=
  match list_set (objs h) o ob with
  | Some os => Ok (mk_heap (plans h) os)
  | None => Err (Undefined OutOfBoundsAccess)
  end.

Definition read_buf (h : heap) (a : addr) : result (list float) :=
  let? ob := obj_at h (fst a) in
  Ok (match snd a with Input => obj_input ob | Output => obj_output ob end).

Definition write_buf (h : heap) (a : addr) (v : list float) : result heap :=
  let? ob := obj_at h (fst a) in
  set_obj h (fst a)
    (match snd a with
     | Input => mk_obj (obj_plan ob) v (obj_output ob) (obj_alive ob)
     | Output => mk_obj (obj_plan ob) (obj_input ob) v (obj_alive ob)
     end).

Definition plan_at (h : heap) (p : nat) : result plan :=
  match nth_error (plans h) p with
  | Some pl => if plan_live pl then Ok pl else Err (Undefined UseAfterFree)
  | None => Err (Undefined OutOfBoundsAccess)
  end.

(** ** The FFTW calls *)

(** [fftw_plan_r2r_2d(8, 8, in, out, FFTW_REDFT01, FFTW_REDFT01,
    FFTW_ESTIMATE)]: a new live plan (estimating does not touch the
    arrays). *)
Definition fftw_plan_r2r_2d (h : heap) (i o : addr) : nat * heap :=
  (List.length (plans h), mk_heap (plans h ++ [mk_plan true i o]) (objs h)).

(** [fftw_destroy_plan(p)]. *)
Definition fftw_destroy_plan (h : heap) (p : nat) : result heap :=
  let? pl := plan_at h p in
  match list_set (plans h) p (mk_plan false (plan_in pl) (plan_out pl)) with
  | Some ps => Ok (mk_heap ps (objs h))
  | None => Err (Undefined OutOfBoundsAccess)
  end.

(** [fftw_cleanup()]: every existing plan becomes undefined. *)
Definition fftw_cleanup (h : heap) : heap :=
  mk_heap (map (fun pl => mk_plan false (plan_in pl) (plan_out pl)) (plans h)) (objs h).

Section Lifecycle.

(** What [fftw_execute] computes from the array a [REDFT01 x REDFT01]
    plan reads, as in [Idct.v]. *)
Variable redft01_2d : list float -> list float.

(** [fftw_execute(p)]: reads the plan's input array, writes its output
    array. *)
Definition fftw_execute (h : heap) (p : nat) : result heap :=
  let? pl := plan_at h p in
  let? x := read_buf h (plan_in pl) in
  write_buf h (plan_out pl) (redft01_2d x).

(** [IDCT88V2::IDCT88V2()]: the members (their 64 doubles indeterminate,
    here [init_in] and [init_out]), then the plan over their addresses. *)
Definition IDCT88V2_new (init_in init_out : list float) (h : heap) : nat * heap :=
  let o := List.length (objs h) in
  let (p, h1) := fftw_plan_r2r_2d h (o, Input) (o, Output) in
  (o, mk_heap (plans h1) (objs h ++ [mk_obj p init_in init_out true])).

(** [IDCT88V2::Transform(f)] on object [o]: normalise into [input_],
    [fftw_execute(plan_)], [ToCartesianIJ(output_)]. *)
Definition IDCT88V2_Transform (h : heap) (o : nat) (f : list (list float))
  : result (list (list float) * heap) :=
  let? ob := obj_at h o in
  let? input' := normalise f (obj_input ob) in
  let? h1 := write_buf h (o, Input) input' in
  let? h2 := fftw_execute h1 (obj_plan ob) in
  let? out := read_buf h2 (o, Output) in
  let? returned := ToCartesianIJ out in
  Ok (returned, h2).

(** [IDCT88V2::~IDCT88V2()]: destroy the plan, clean FFTW up, end the
    object's lifetime. *)
Definition IDCT88V2_delete (h : heap) (o : nat) : result heap :=
  let? ob := obj_at h o in
  let? h1 := fftw_destroy_plan h (obj_plan ob) in
  set_obj (fftw_cleanup h1) o (mk_obj (obj_plan ob) (obj_input ob) (obj_output ob) false).

(** The implicit copy constructor: [plan_] copied as a pointer, the
    members as arrays. *)
Definition IDCT88V2_copy (h : heap) (o : nat) : result (nat * heap) :=
  let? ob := obj_at h o in
  Ok (List.length (objs h), mk_heap (plans h) (objs h ++ [ob])).

(** One block of [Decode] with the object [o]: [DecodeBlock]'s
    [idct.Transform] and [As<double, int16_t>]. *)
Definition session_block (o : nat) (acc : list (list (list Z)) * heap) (c : list (list Z))
  : result (list (list (list Z)) * heap) :=
  let '(zs, h) := acc in
  let? r := IDCT88V2_Transform h o (to_double_cart c) in
  let '(fft, h') := r in
  let? z := As fft in
  Ok (zs ++ [z], h').

(** The transform [Decode] gets from one object over its blocks:
    [auto idct = fft::IDCT88V2()], then [session_block] for each block,
    then the destructor at the end of [Decode]. *)
Definition session (init_in init_out : list float) (h : heap) (cs : list (list (list Z)))
  : result (list (list (list Z)) * heap) :=
  let (o, h1) := IDCT88V2_new init_in init_out h in
  let? res := rfold (session_block o) cs ([], h1) in
  let '(zs, h2) := res in
  let? h3 := IDCT88V2_delete h2 o in
  Ok (zs, h3).

(** The steps of [Decode]'s discipline: construct when no object lives,
    transform, destroy. *)
Inductive dstep : heap -> heap -> Prop :=
| dstep_new init_in init_out h :
    (forall o ob, nth_error (objs h) o = Some ob -> obj_alive ob = false) ->
    dstep h (snd (IDCT88V2_new init_in init_out h))
| dstep_transform h o f r h' :
    IDCT88V2_Transform h o f = Ok (r, h') -> dstep h h'
| dstep_delete h o h' :
    IDCT88V2_delete h o = Ok h' -> dstep h h'.

End Lifecycle.

(** ** The ownership invariant *)

Definition no_alive (h : heap) : Prop :=
  forall o ob, nth_error (objs h) o = Some ob -> obj_alive ob = false.

Definition no_live_plan (h : heap) : Prop :=
  forall p pl, nth_error (plans h) p = Some pl -> plan_live pl = false.

Record own_inv (h : heap) : Prop := {
  oi_own : forall o ob, nth_error (objs h) o = Some ob -> obj_alive ob = true ->
    exists pl, nth_error (plans h) (obj_plan ob) = Some pl /\ plan_live pl = true /\
      plan_in pl = (o, Input) /\ plan_out pl = (o, Output);
  oi_noleak : forall p pl, nth_error (plans h) p = Some pl -> plan_live pl = true ->
    exists o ob, nth_error (objs h) o = Some ob /\ obj_alive ob = true /\ obj_plan ob = p;
  oi_single : forall o1 o2 ob1 ob2, nth_error (objs h) o1 = Some ob1 -> nth_error (objs h) o2 = Some ob2 ->
    obj_alive ob1 = true -> obj_alive ob2 = true -> o1 = o2
}.

(** What [own_inv] looks at of an object: its plan handle and whether it
    lives. *)
Definition shape (h : heap) (j : nat) : option (nat * bool) :=
  option_map (fun ob => (obj_plan ob, obj_alive ob)) (nth_error (objs h) j).

Definition member_eq_dec (a b : member) : {a = b} + {a <> b}.
Proof. decide equality. Defined.

Definition addr_eq_dec (a b : addr) : {a = b} + {a <> b}.
Proof. decide equality; [apply member_eq_dec|apply Nat.eq_dec]. Defined.

(** The entries of a table with their indices from [n]. *)
Fixpoint enum_from {A : Type} (n : nat) (l : list A) : list (nat * A) :=
  match l with
  | [] => []
  | x :: rest => (n, x) :: enum_from (S n) rest
  end.

(** [own_inv] as a check. *)
Definition own_invb (h : heap) : bool :=
  let os := enum_from 0 (objs h) in
  forallb (fun '(o, ob) =>
    negb (obj_alive ob) ||
    match nth_error (plans h) (obj_plan ob) with
    | Some pl => plan_live pl && (if addr_eq_dec (plan_in pl) (o, Input) then true else false)
                             && (if addr_eq_dec (plan_out pl) (o, Output) then true else false)
    | None => false
    end) os &&
  forallb (fun '(p, pl) =>
    negb (plan_live pl) || existsb (fun '(_, ob) => obj_alive ob && Nat.eqb (obj_plan ob) p) os)
    (enum_from 0 (plans h)) &&
  forallb (fun '(o1, ob1) => forallb (fun '(o2, ob2) =>
    negb (obj_alive ob1 && obj_alive ob2) || Nat.eqb o1 o2) os) os.

(** ** Lemmas on the heap *)

Lemma heap_ext h1 h2 :
  plans h1 = plans h2 -> (forall j, nth_error (objs h1) j = nth_error (objs h2) j) -> h1 = h2.
Proof.
  destruct h1 as [p1 o1], h2 as [p2 o2]. cbn. intros -> Ho. f_equal. apply nth_error_ext, Ho.
Qed.

Lemma nth_error_snoc {A : Type} (l : list A) x n :
  nth_error (l ++ [x]) n =
    if (n <? List.length l)%nat then nth_error l n else if Nat.eqb n (List.length l) then Some x else None.
Proof.
  destruct (Nat.ltb_spec n (List.length l)) as [Hn|Hn]; [apply nth_error_app1, Hn|].
  rewrite nth_error_app2 by exact Hn. destruct (Nat.eqb_spec n (List.length l)) as [->|Hne].
  - rewrite Nat.sub_diag. reflexivity.
  - apply nth_error_None. cbn. lia.
Qed.

Lemma obj_at_inv h o ob :
  obj_at h o = Ok ob -> nth_error (objs h) o = Some ob /\ obj_alive ob = true.
Proof.
  unfold obj_at. destruct (nth_error (objs h) o) as [x|]; [|discriminate].
  destruct (obj_alive x) eqn:E; [|discriminate]. intros H. injection H as <-. auto.
Qed.

Lemma obj_at_intro h o ob :
  nth_error (objs h) o = Some ob -> obj_alive ob = true -> obj_at h o = Ok ob.
Proof. intros Hn Ha. unfold obj_at. rewrite Hn, Ha. reflexivity. Qed.

(** Writing object [o]: the plans as they were, the other objects too. *)
Lemma set_obj_spec h o ob :
  (o < List.length (objs h))%nat ->
  exists h', set_obj h o ob = Ok h' /\ plans h' = plans h /\
    forall j, nth_error (objs h') j = if Nat.eqb j o then Some ob else nth_error (objs h) j.
Proof.
  intros Ho. destruct (list_set_some (objs h) o ob Ho) as [os E]. unfold set_obj. rewrite E.
  exists (mk_heap (plans h) os). split; [reflexivity|]. split; [reflexivity|]. intros j. exact (list_set_nth _ _ _ _ j E).
Qed.

Lemma set_obj_inv h o ob h' :
  set_obj h o ob = Ok h' ->
  (o < List.length (objs h))%nat /\ plans h' = plans h /\
    forall j, nth_error (objs h') j = if Nat.eqb j o then Some ob else nth_error (objs h) j.
Proof.
  unfold set_obj. destruct (list_set (objs h) o ob) as [os|] eqn:E; [|discriminate].
  intros H. injection H as <-. split; [|split; [reflexivity|intros j; exact (list_set_nth _ _ _ _ j E)]].
  pose proof (list_set_nth _ _ _ _ o E) as Hn. rewrite Nat.eqb_refl in Hn.
  destruct (Nat.ltb_spec o (List.length (objs h))) as [|Hge]; [assumption|].
  assert (nth_error os o = None) by (apply nth_error_None; rewrite (list_set_length _ _ _ _ E); lia).
  congruence.
Qed.

(** A second write to the same object overrides the first. *)
Lemma set_obj_twice h o a b h1 : set_obj h o a = Ok h1 -> set_obj h1 o b = set_obj h o b.
Proof.
  intros E1. destruct (set_obj_inv _ _ _ _ E1) as (Ho & P1 & N1).
  assert (Ho1 : (o < List.length (objs h1))%nat).
  { apply nth_error_Some. rewrite N1, Nat.eqb_refl. discriminate. }
  destruct (set_obj_spec h1 o b Ho1) as (h2 & E2 & P2 & N2). destruct (set_obj_spec h o b Ho) as (h3 & E3 & P3 & N3).
  rewrite E2, E3. f_equal. apply heap_ext; [congruence|]. intros j. rewrite N2, N3, N1.
  destruct (Nat.eqb j o); reflexivity.
Qed.

Lemma shape_some h h' j x :
  (forall j, shape h' j = shape h j) -> nth_error (objs h') j = Some x ->
  exists y, nth_error (objs h) j = Some y /\ obj_plan y = obj_plan x /\ obj_alive y = obj_alive x.
Proof.
  intros Hs Hx. specialize (Hs j). unfold shape in Hs. rewrite Hx in Hs.
  destruct (nth_error (objs h) j) as [y|]; cbn in Hs; [|discriminate].
  injection Hs as Hp Ha. exists y. auto.
Qed.

(** [own_inv] holds of a heap with the same plans and the same shape. *)
Lemma own_inv_shape h h' :
  plans h' = plans h -> (forall j, shape h' j = shape h j) -> own_inv h -> own_inv h'.
Proof.
  intros P Hs [Own Leak Single]. assert (Hs' : forall j, shape h j = shape h' j) by (intros; auto).
  split; rewrite ?P.
  - intros o x Hx Ha. destruct (shape_some _ _ _ _ Hs Hx) as (y & Hy & <- & Hya).
    apply (Own o y Hy). congruence.
  - intros p pl Hp Hl. destruct (Leak p pl Hp Hl) as (o & y & Hy & Ha & <-).
    destruct (shape_some _ _ _ _ Hs' Hy) as (x & Hx & Hxp & Hxa). exists o, x. repeat split; congruence.
  - intros o1 o2 x1 x2 H1 H2 A1 A2.
    destruct (shape_some _ _ _ _ Hs H1) as (y1 & Hy1 & _ & E1). destruct (shape_some _ _ _ _ Hs H2) as (y2 & Hy2 & _ & E2).
    apply (Single o1 o2 y1 y2); congruence.
Qed.

(** Overwriting an object's members keeps the invariant. *)
Lemma own_inv_set_members h o ob ob' h' :
  own_inv h -> nth_error (objs h) o = Some ob -> obj_plan ob' = obj_plan ob -> obj_alive ob' = obj_alive ob ->
  set_obj h o ob' = Ok h' -> own_inv h'.
Proof.
  intros I Ho Hp Ha E. destruct (set_obj_inv _ _ _ _ E) as (_ & P & N). apply (own_inv_shape h); auto.
  intros j. unfold shape. rewrite N. destruct (Nat.eqb_spec j o) as [->|]; [|reflexivity].
  rewrite Ho. cbn. congruence.
Qed.

Lemma enum_from_In {A : Type} (n : nat) (l : list A) (k : nat) x :
  nth_error l k = Some x -> In ((n + k)%nat, x) (enum_from n l).
Proof.
  revert n k. induction l as [|y l IH]; intros n [|k] H; cbn in H; try discriminate.
  - injection H as ->. left. f_equal. lia.
  - right. replace (n + S k)%nat with (S n + k)%nat by lia. apply IH, H.
Qed.

Lemma enum_from_In_inv {A : Type} (n : nat) (l : list A) (k : nat) x :
  In (k, x) (enum_from n l) -> nth_error l (k - n) = Some x.
Proof.
  revert n. induction l as [|y l IH]; intros n H; cbn in H; [contradiction|].
  destruct H as [H|H].
  - injection H as <- <-. rewrite Nat.sub_diag. reflexivity.
  - pose proof (IH (S n) H) as Hk. destruct (k - n)%nat as [|m] eqn:E.
    + assert (Hlt : (n < k)%nat).
      { clear -H. revert n H. induction l as [|z l IH]; intros n H; cbn in H; [contradiction|].
        destruct H as [H|H]; [injection H as <- _; lia|]. specialize (IH (S n) H). lia. }
      lia.
    + replace (k - S n)%nat with m in Hk by lia. exact Hk.
Qed.

(** The check decides the invariant. *)
Lemma own_invb_sound h : own_invb h = true -> own_inv h.
Proof.
  unfold own_invb. rewrite !andb_true_iff, !forallb_forall. intros [[H1 H2] H3]. split.
  - intros o ob Ho Ha. specialize (H1 _ (enum_from_In 0 _ o ob Ho)). cbv beta iota in H1.
    rewrite Ha in H1. cbn [negb orb] in H1.
    destruct (nth_error (plans h) (obj_plan ob)) as [pl|]; [|discriminate].
    destruct (plan_live pl) eqn:Hl; [|discriminate]. revert H1.
    destruct (addr_eq_dec _ _); destruct (addr_eq_dec _ _); cbn; try discriminate. eauto.
  - intros p pl Hp Hl. specialize (H2 _ (enum_from_In 0 _ p pl Hp)). cbv beta iota in H2.
    rewrite Hl in H2. cbn [negb orb] in H2. apply existsb_exists in H2.
    destruct H2 as [[o ob] [Hin Hb]]. apply enum_from_In_inv in Hin. rewrite Nat.sub_0_r in Hin.
    rewrite andb_true_iff, Nat.eqb_eq in Hb. exists o, ob. tauto.
  - intros o1 o2 ob1 ob2 Ho1 Ho2 A1 A2. specialize (H3 _ (enum_from_In 0 _ _ _ Ho1)). cbv beta iota in H3.
    rewrite forallb_forall in H3. specialize (H3 _ (enum_from_In 0 _ _ _ Ho2)). cbv beta iota in H3.
    rewrite A1, A2 in H3. apply Nat.eqb_eq, H3.
Qed.

Lemma own_inv_empty : own_inv empty_heap.
Proof. split; cbn; intros [|] ? ?; discriminate. Qed.

(** A heap where nothing lives and no plan is live satisfies the invariant. *)
Lemma own_inv_quiescent h : no_alive h -> no_live_plan h -> own_inv h.
Proof.
  intros NA NL. split.
  - intros o ob Ho Ha. rewrite (NA o ob Ho) in Ha. discriminate.
  - intros p pl Hp Hl. rewrite (NL p pl Hp) in Hl. discriminate.
  - intros o1 o2 ob1 ob2 H1 _ A1 _. rewrite (NA o1 ob1 H1) in A1. discriminate.
Qed.

Lemma nth_error_snoc_cases {A : Type} (l : list A) x n y :
  nth_error (l ++ [x]) n = Some y -> nth_error l n = Some y \/ (n = List.length l /\ y = x).
Proof.
  rewrite nth_error_snoc. destruct (n <? List.length l)%nat; [auto|].
  destruct (Nat.eqb_spec n (List.length l)); [|discriminate]. intros H; injection H. auto.
Qed.

Lemma nth_error_snoc_last {A : Type} (l : list A) x : nth_error (l ++ [x]) (List.length l) = Some x.
Proof. rewrite nth_error_app2, Nat.sub_diag by lia. reflexivity. Qed.

Lemma no_alive_no_live_plan h : own_inv h -> no_alive h -> no_live_plan h.
Proof.
  intros I NA p pl Hp. destruct (plan_live pl) eqn:Hl; [|reflexivity].
  destruct (oi_noleak h I p pl Hp Hl) as (o & ob & Ho & Ha & _). rewrite (NA o ob Ho) in Ha. discriminate.
Qed.

Section Construct.
Variables (init_in init_out : list float) (h : heap).
Hypotheses (I : own_inv h) (NA : no_alive h).

(** The constructor, from a heap where no object lives, keeps the
    invariant and gives a live object over a new plan. *)
Lemma IDCT88V2_new_inv : own_inv (snd (IDCT88V2_new init_in init_out h)).
Proof.
  pose proof (no_alive_no_live_plan h I NA) as NL. unfold IDCT88V2_new. cbn. split; cbn.
  - intros o ob Ho Ha. destruct (nth_error_snoc_cases _ _ _ _ Ho) as [Ho'|[-> ->]].
    + rewrite (NA o ob Ho') in Ha. discriminate.
    + eexists. split; [apply nth_error_snoc_last|]. auto.
  - intros p pl Hp Hl. destruct (nth_error_snoc_cases _ _ _ _ Hp) as [Hp'|[-> ->]].
    + rewrite (NL p pl Hp') in Hl. discriminate.
    + do 2 eexists. split; [apply nth_error_snoc_last|]. auto.
  - intros o1 o2 ob1 ob2 H1 H2 A1 A2.
    destruct (nth_error_snoc_cases _ _ _ _ H1) as [H1'|[-> _]]; [rewrite (NA _ _ H1') in A1; discriminate|].
    destruct (nth_error_snoc_cases _ _ _ _ H2) as [H2'|[-> _]]; [rewrite (NA _ _ H2') in A2; discriminate|].
    reflexivity.
Qed.

Lemma IDCT88V2_new_obj :
  obj_at (snd (IDCT88V2_new init_in init_out h)) (fst (IDCT88V2_new init_in init_out h))
  = Ok (mk_obj (List.length (plans h)) init_in init_out true).
Proof. unfold IDCT88V2_new. cbn. apply obj_at_intro; [apply nth_error_snoc_last|reflexivity]. Qed.

End Construct.

Section Refinement.
Variable redft01_2d : list float -> list float.

(** C13 Under the ownership invariant, [IDCT88V2::Transform] on a live
    object computes what the member-passing [Transform] of [Idct.v]
    computes from the object's members, and the only change to the heap
    is the object's new [input_] and [output_]: the plan reads and writes
    the object's own members and no other state. *)
Theorem IDCT88V2_Transform_refines h o ob f :
  own_inv h -> obj_at h o = Ok ob ->
  IDCT88V2_Transform redft01_2d h o f =
    let? r := Transform redft01_2d (obj_input ob, obj_output ob) f in
    let '(returned, (input', output')) := r in
    let? h' := set_obj h o (mk_obj (obj_plan ob) input' output' true) in
    Ok (returned, h').
Proof.
  intros I Hob. destruct (obj_at_inv _ _ _ Hob) as [Hn Ha].
  destruct ob as [p inp outp al]; cbn in Ha; subst al.
  assert (Ho : (o < List.length (objs h))%nat) by (apply nth_error_Some; congruence).
  destruct (oi_own h I o _ Hn eq_refl) as (pl & Hpl & Hl & Hi & Hout); cbn in Hpl.
  unfold IDCT88V2_Transform, Transform. rewrite Hob. cbn [rbind obj_input obj_output obj_plan].
  destruct (normalise f inp) as [i'|e]; cbn [rbind]; [|reflexivity].
  destruct (set_obj_spec h o (mk_obj p i' outp true) Ho) as (h1 & E1 & P1 & N1).
  unfold write_buf at 1. cbn [fst snd]. rewrite Hob. cbn [rbind obj_plan obj_input obj_output obj_alive].
  rewrite E1. cbn [rbind].
  assert (Hob1 : obj_at h1 o = Ok (mk_obj p i' outp true))
    by (apply obj_at_intro; [rewrite N1, Nat.eqb_refl|]; reflexivity).
  unfold fftw_execute, plan_at. rewrite P1, Hpl, Hl. cbn [rbind].
  unfold read_buf, write_buf. rewrite Hi, Hout. cbn [fst snd]. rewrite Hob1.
  cbn [rbind obj_plan obj_input obj_output obj_alive]. rewrite (set_obj_twice _ _ _ _ _ E1).
  destruct (set_obj_spec h o (mk_obj p i' (redft01_2d i') true) Ho) as (h2 & E2 & P2 & N2).
  rewrite E2. cbn [rbind].
  rewrite (obj_at_intro h2 o (mk_obj p i' (redft01_2d i') true)) by (rewrite ?N2, ?Nat.eqb_refl; reflexivity).
  cbn [rbind obj_output]. destruct (ToCartesianIJ (redft01_2d i')); cbn [rbind]; [|reflexivity].
  rewrite E2. reflexivity.
Qed.

End Refinement.

(** ** The invariant along [Decode]'s discipline *)

Lemma fftw_destroy_plan_objs h p h1 : fftw_destroy_plan h p = Ok h1 -> objs h1 = objs h.
Proof.
  unfold fftw_destroy_plan. destruct (plan_at h p) as [pl|]; cbn [rbind]; [|discriminate].
  destruct (list_set _ _ _); [|discriminate]. intros H. injection H as <-. reflexivity.
Qed.

Lemma fftw_cleanup_no_live_plan h : no_live_plan (fftw_cleanup h).
Proof.
  intros p pl Hp. cbn in Hp. rewrite nth_error_map in Hp.
  destruct (nth_error (plans h) p); cbn in Hp; [|discriminate]. injection Hp as <-. reflexivity.
Qed.

Section Steps.
Variable redft01_2d : list float -> list float.

Lemma IDCT88V2_Transform_inv h o f r h' :
  own_inv h -> IDCT88V2_Transform redft01_2d h o f = Ok (r, h') -> own_inv h'.
Proof.
  intros I H. destruct (obj_at h o) as [ob|e] eqn:Hob;
    [|unfold IDCT88V2_Transform in H; rewrite Hob in H; discriminate].
  rewrite (IDCT88V2_Transform_refines redft01_2d h o ob f I Hob) in H.
  destruct (Transform _ _ _) as [[ret [i' out']]|]; cbn in H; [|discriminate].
  destruct (set_obj _ _ _) as [h2|] eqn:E; cbn in H; [|discriminate]. injection H as _ <-.
  destruct (obj_at_inv _ _ _ Hob) as [Hn Ha]. refine (own_inv_set_members h o ob _ _ I Hn _ _ E); cbn; auto.
Qed.

(** The destructor leaves no live object and no live plan. *)
Lemma IDCT88V2_delete_quiescent h o h' :
  own_inv h -> IDCT88V2_delete h o = Ok h' -> no_alive h' /\ no_live_plan h'.
Proof.
  intros I H. unfold IDCT88V2_delete in H. destruct (obj_at h o) as [ob|] eqn:Hob; cbn [rbind] in H; [|discriminate].
  destruct (fftw_destroy_plan h (obj_plan ob)) as [h1|] eqn:Hd; cbn [rbind] in H; [|discriminate].
  destruct (set_obj_inv _ _ _ _ H) as (_ & P & N). split.
  - intros j x Hx. rewrite N in Hx. destruct (Nat.eqb_spec j o) as [->|Hne].
    + injection Hx as <-. reflexivity.
    + cbn in Hx. rewrite (fftw_destroy_plan_objs _ _ _ Hd) in Hx. destruct (obj_alive x) eqn:Ha; [|reflexivity].
      destruct (obj_at_inv _ _ _ Hob) as [Hn Hao]. destruct Hne. exact (oi_single h I j o x ob Hx Hn Ha Hao).
  - intros p pl Hp. rewrite P in Hp. exact (fftw_cleanup_no_live_plan h1 p pl Hp).
Qed.

(** [fftw_cleanup] leaves every plan destroyed. *)
Lemma plan_at_cleanup h p :
  (p < List.length (plans h))%nat -> plan_at (fftw_cleanup h) p = Err (Undefined UseAfterFree).
Proof.
  intros Hp. unfold plan_at. cbn. rewrite nth_error_map.
  destruct (nth_error (plans h) p) eqn:E; [reflexivity|]. apply nth_error_None in E. lia.
Qed.

(** The destructor of a live object over a live plan: it succeeds, ends
    only that object's lifetime, and leaves every plan destroyed. *)
Lemma IDCT88V2_delete_spec h o ob pl :
  obj_at h o = Ok ob -> nth_error (plans h) (obj_plan ob) = Some pl -> plan_live pl = true ->
  exists h', IDCT88V2_delete h o = Ok h' /\
    (forall j, j <> o -> nth_error (objs h') j = nth_error (objs h) j) /\
    List.length (plans h') = List.length (plans h) /\
    forall p, (p < List.length (plans h'))%nat -> plan_at h' p = Err (Undefined UseAfterFree).
Proof.
  intros Hob Hpl Hl. destruct (obj_at_inv _ _ _ Hob) as [Hn Ha].
  destruct (list_set_some (plans h) (obj_plan ob) (mk_plan false (plan_in pl) (plan_out pl))) as [ps E].
  { apply nth_error_Some. congruence. }
  destruct (set_obj_spec (fftw_cleanup (mk_heap ps (objs h))) o (mk_obj (obj_plan ob) (obj_input ob) (obj_output ob) false))
    as (h' & E' & P & N).
  { apply nth_error_Some. cbn. congruence. }
  exists h'. split.
  { unfold IDCT88V2_delete, fftw_destroy_plan, plan_at. rewrite Hob. cbn [rbind]. rewrite Hpl, Hl. cbn [rbind].
    rewrite E. exact E'. }
  assert (Lp : List.length (plans h') = List.length (plans h))
    by (rewrite P; cbn; rewrite length_map; exact (list_set_length _ _ _ _ E)).
  split; [|split; [exact Lp|]].
  - intros j Hj. rewrite N. apply Nat.eqb_neq in Hj. rewrite Hj. reflexivity.
  - intros p Hp. unfold plan_at. rewrite P. apply plan_at_cleanup. cbn. rewrite (list_set_length _ _ _ _ E). lia.
Qed.

(** The destructor of a live object succeeds under the invariant. *)
Lemma IDCT88V2_delete_ok h o ob :
  own_inv h -> obj_at h o = Ok ob -> exists h', IDCT88V2_delete h o = Ok h'.
Proof.
  intros I Hob. destruct (obj_at_inv _ _ _ Hob) as [Hn Ha].
  destruct (oi_own h I o ob Hn Ha) as (pl & Hpl & Hl & _).
  destruct (IDCT88V2_delete_spec h o ob pl Hob Hpl Hl) as (h' & E & _). eauto.
Qed.

Lemma dstep_inv h h' : own_inv h -> dstep redft01_2d h h' -> own_inv h'.
Proof.
  intros I S. destruct S as [init_in init_out h0 NA|h0 o f r h1 E|h0 o h1 E].
  - exact (IDCT88V2_new_inv init_in init_out h0 I NA).
  - exact (IDCT88V2_Transform_inv h0 o f r h1 I E).
  - destruct (IDCT88V2_delete_quiescent h0 o h1 I E). apply own_inv_quiescent; assumption.
Qed.

(** C12 Every heap [Decode]'s discipline reaches from the empty heap
    (construct an [IDCT88V2] when none lives, transform with it, destroy
    it) satisfies the ownership invariant: every live object's plan is
    live and reads and writes that object's own [input_] and [output_],
    every live plan belongs to a live object (no plan leaks), and at most
    one object lives. *)
Theorem dstep_reachable_inv h :
  clos_refl_trans heap (dstep redft01_2d) empty_heap h -> own_inv h.
Proof.
  intros R. assert (G : forall x y, clos_refl_trans heap (dstep redft01_2d) x y -> own_inv x -> own_inv y).
  { intros x y Rxy. induction Rxy; eauto using dstep_inv. }
  exact (G _ _ R own_inv_empty).
Qed.

End Steps.

(** ** A session of [Decode] *)

Lemma cart8_to_double_cart c : cart8 c -> cart8 (to_double_cart c).
Proof.
  intros [Hl Hr]. split; unfold to_double_cart; [rewrite length_map; exact Hl|].
  apply Forall_map. refine (Forall_impl _ _ Hr). intros row Hrow. rewrite length_map. exact Hrow.
Qed.

Lemma spec_input_length f : List.length (spec_input f) = 64%nat.
Proof. reflexivity. Qed.

Section Session.
Variable redft01_2d : list float -> list float.

(** One block through a live object whose [input_] holds 64 doubles:
    [decoder_idct]'s result, the object still live over the same plan. *)
Lemma session_block_spec o zs h ob c :
  own_inv h -> obj_at h o = Ok ob -> List.length (obj_input ob) = 64%nat -> cart8 c ->
  (exists z h' ob', decoder_idct redft01_2d c = Ok z /\ session_block redft01_2d o (zs, h) c = Ok (zs ++ [z], h') /\
     own_inv h' /\ obj_at h' o = Ok ob' /\ List.length (obj_input ob') = 64%nat)
  \/ (exists e, decoder_idct redft01_2d c = Err e /\ session_block redft01_2d o (zs, h) c = Err e).
Proof.
  intros I Hob Hlen Hc. pose proof (cart8_to_double_cart c Hc) as Hc'.
  unfold session_block, decoder_idct. rewrite (IDCT88V2_Transform_refines redft01_2d h o ob _ I Hob).
  unfold Transform. rewrite (normalise_ok _ _ Hc' Hlen), (normalise_ok _ _ Hc' (repeat_length _ _)). cbn [rbind].
  destruct (ToCartesianIJ (redft01_2d (spec_input (to_double_cart c)))) as [fft|e]; cbn [rbind]; [|right; eauto].
  destruct (obj_at_inv _ _ _ Hob) as [Hn Ha].
  destruct (set_obj_spec h o (mk_obj (obj_plan ob) (spec_input (to_double_cart c)) (redft01_2d (spec_input (to_double_cart c))) true))
    as (h' & E & P & N); [apply nth_error_Some; congruence|].
  rewrite E. cbn [rbind]. destruct (As fft) as [z|e]; cbn [rbind]; [left|right; eauto].
  exists z, h', (mk_obj (obj_plan ob) (spec_input (to_double_cart c)) (redft01_2d (spec_input (to_double_cart c))) true).
  split; [reflexivity|]. split; [reflexivity|]. split; [refine (own_inv_set_members h o ob _ _ I Hn _ _ E); cbn; auto|].
  split; [apply obj_at_intro; [rewrite N, Nat.eqb_refl|]; reflexivity|apply spec_input_length].
Qed.

(** The loop over the blocks: what [rmap decoder_idct] computes, the
    object live at the end. *)
Lemma session_loop o cs : forall zs h ob,
  own_inv h -> obj_at h o = Ok ob -> List.length (obj_input ob) = 64%nat -> Forall cart8 cs ->
  exists hf obf, rfold (session_block redft01_2d o) cs (zs, h) =
      rbind (rmap (decoder_idct redft01_2d) cs) (fun zs' => Ok (zs ++ zs', hf)) /\
    own_inv hf /\ obj_at hf o = Ok obf.
Proof.
  induction cs as [|c cs IH]; intros zs h ob I Hob Hlen Hcs.
  - exists h, ob. cbn. rewrite app_nil_r. auto.
  - inversion Hcs as [|? ? Hc Hcs']; subst.
    destruct (session_block_spec o zs h ob c I Hob Hlen Hc) as [(z & h' & ob' & D & S & I' & Hob' & Hlen')|(e & D & S)].
    + destruct (IH (zs ++ [z]) h' ob' I' Hob' Hlen' Hcs') as (hf & obf & R & If & Hf).
      exists hf, obf. cbn [rfold rmap]. rewrite S, D. cbn [rbind]. rewrite R.
      destruct (rmap _ cs); cbn [rbind]; [rewrite <- app_assoc|]; auto.
    + exists h, ob. cbn [rfold rmap]. rewrite S, D. auto.
Qed.

(** C14 A session of [Decode] from a heap where no [IDCT88V2] lives,
    with 64 doubles in the new object's [input_] and 8 x 8 blocks:
    it transforms every block as [decoder_idct] does with fresh members
    (the shared object leaks nothing from one block into the next), it
    fails with the first block's error where that fails, and on success
    the destructor leaves no live object and no live plan. *)
Theorem session_decoder_idct init_in init_out h cs :
  own_inv h -> no_alive h -> List.length init_in = 64%nat -> Forall cart8 cs ->
  exists h', session redft01_2d init_in init_out h cs =
      rbind (rmap (decoder_idct redft01_2d) cs) (fun zs => Ok (zs, h')) /\
    no_alive h' /\ no_live_plan h'.
Proof.
  intros I NA Hlen Hcs. pose proof (IDCT88V2_new_inv init_in init_out h I NA) as I1.
  pose proof (IDCT88V2_new_obj init_in init_out h) as Hob1. unfold session.
  destruct (IDCT88V2_new init_in init_out h) as [o h1]. cbn [fst snd] in I1, Hob1.
  destruct (session_loop o cs [] h1 _ I1 Hob1 Hlen Hcs) as (hf & obf & R & If & Hf). rewrite R.
  destruct (rmap (decoder_idct redft01_2d) cs) as [zs|e]; cbn [rbind app].
  - destruct (IDCT88V2_delete_ok hf o obf If Hf) as [h3 E3]. rewrite E3. exists h3.
    split; [reflexivity|]. exact (IDCT88V2_delete_quiescent hf o h3 If E3).
  - exists h. split; [reflexivity|]. split; [exact NA|exact (no_alive_no_live_plan h I NA)].
Qed.

End Session.

(** ** Copies and second objects *)

Lemma IDCT88V2_new_eq init_in init_out h :
  IDCT88V2_new init_in init_out h =
    (List.length (objs h),
     mk_heap (plans h ++ [mk_plan true (List.length (objs h), Input) (List.length (objs h), Output)])
             (objs h ++ [mk_obj (List.length (plans h)) init_in init_out true])).
Proof. reflexivity. Qed.

Lemma nth_error_snoc_prefix {A : Type} (l : list A) x y :
  nth_error ((l ++ [x]) ++ [y]) (List.length l) = Some x.
Proof. rewrite nth_error_app1 by (rewrite length_app; cbn; lia). apply nth_error_snoc_last. Qed.

(** C32 [IDCT88V2] declares no copy operations, so a copy shares the
    original's [plan_]: destroying the copy destroys the plan, and the
    original's destructor then calls [fftw_destroy_plan] on a destroyed
    plan, undefined behaviour (a double destroy), whatever the heap. *)
Theorem copy_double_destroy init_in init_out h :
  let (o, h1) := IDCT88V2_new init_in init_out h in
  exists o2 h2 h3, IDCT88V2_copy h1 o = Ok (o2, h2) /\ IDCT88V2_delete h2 o2 = Ok h3 /\
    IDCT88V2_delete h3 o = Err (Undefined UseAfterFree).
Proof.
  rewrite IDCT88V2_new_eq. cbv beta iota zeta.
  remember (mk_obj (List.length (plans h)) init_in init_out true) as x eqn:Ex.
  remember (mk_plan true (List.length (objs h), Input) (List.length (objs h), Output)) as pl eqn:Epl.
  assert (Hx : obj_at (mk_heap (plans h ++ [pl]) (objs h ++ [x])) (List.length (objs h)) = Ok x)
    by (apply obj_at_intro; [apply nth_error_snoc_last|subst x; reflexivity]).
  exists (List.length (objs h ++ [x])), (mk_heap (plans h ++ [pl]) ((objs h ++ [x]) ++ [x])).
  assert (Hx2 : obj_at (mk_heap (plans h ++ [pl]) ((objs h ++ [x]) ++ [x])) (List.length (objs h ++ [x])) = Ok x)
    by (apply obj_at_intro; [apply nth_error_snoc_last|subst x; reflexivity]).
  assert (Hpl : nth_error (plans (mk_heap (plans h ++ [pl]) ((objs h ++ [x]) ++ [x]))) (obj_plan x) = Some pl)
    by (subst x; apply nth_error_snoc_last).
  destruct (IDCT88V2_delete_spec _ _ x pl Hx2 Hpl ltac:(subst pl; reflexivity)) as (h3 & E3 & N3 & L3 & U3).
  exists h3. split; [unfold IDCT88V2_copy; rewrite Hx; reflexivity|]. split; [exact E3|].
  unfold IDCT88V2_delete at 1, fftw_destroy_plan.
  rewrite (obj_at_intro h3 (List.length (objs h)) x); [|rewrite N3; [apply nth_error_snoc_prefix|rewrite length_app; cbn; lia]|subst x; reflexivity].
  cbn [rbind]. rewrite U3; [reflexivity|]. rewrite L3. subst x. cbn. rewrite length_app. cbn. lia.
Qed.

Section SecondObject.
Variable redft01_2d : list float -> list float.

(** C33 The destructor calls [fftw_cleanup], which invalidates every plan
    FFTW has made, not only the object's own: with two live [IDCT88V2]
    objects, destroying the first leaves the second with a destroyed
    plan, and its next [Transform] executes it, undefined behaviour. *)
Theorem second_object_after_cleanup init_in init_out init_in' init_out' h f :
  cart8 f -> List.length init_in' = 64%nat ->
  let (o1, h1) := IDCT88V2_new init_in init_out h in
  let (o2, h2) := IDCT88V2_new init_in' init_out' h1 in
  exists h3, IDCT88V2_delete h2 o1 = Ok h3 /\
    IDCT88V2_Transform redft01_2d h3 o2 f = Err (Undefined UseAfterFree).
Proof.
  intros Hf Hlen. rewrite IDCT88V2_new_eq. cbv beta iota zeta. rewrite IDCT88V2_new_eq. cbv beta iota zeta.
  cbn [plans objs].
  remember (mk_obj (List.length (plans h)) init_in init_out true) as x1 eqn:Ex1.
  remember (mk_obj (List.length (plans h ++ [mk_plan true (List.length (objs h), Input) (List.length (objs h), Output)]))
              init_in' init_out' true) as x2 eqn:Ex2.
  remember (mk_plan true (List.length (objs h), Input) (List.length (objs h), Output)) as pl1 eqn:Epl1.
  remember (mk_plan true (List.length (objs h ++ [x1]), Input) (List.length (objs h ++ [x1]), Output)) as pl2 eqn:Epl2.
  assert (Hob1 : obj_at (mk_heap ((plans h ++ [pl1]) ++ [pl2]) ((objs h ++ [x1]) ++ [x2])) (List.length (objs h)) = Ok x1)
    by (apply obj_at_intro; [apply nth_error_snoc_prefix|subst x1; reflexivity]).
  assert (Hpl1 : nth_error (plans (mk_heap ((plans h ++ [pl1]) ++ [pl2]) ((objs h ++ [x1]) ++ [x2]))) (obj_plan x1) = Some pl1)
    by (subst x1; apply nth_error_snoc_prefix).
  destruct (IDCT88V2_delete_spec _ _ x1 pl1 Hob1 Hpl1 ltac:(subst pl1; reflexivity)) as (h3 & E3 & N3 & L3 & U3).
  exists h3. split; [exact E3|].
  assert (Hn2 : nth_error (objs h3) (List.length (objs h ++ [x1])) = Some x2)
    by (rewrite N3; [apply nth_error_snoc_last|rewrite length_app; cbn; lia]).
  assert (Hob2 : obj_at h3 (List.length (objs h ++ [x1])) = Ok x2) by (apply obj_at_intro; [exact Hn2|subst x2; reflexivity]).
  unfold IDCT88V2_Transform. rewrite Hob2. cbn [rbind].
  replace (obj_input x2) with init_in' by (subst x2; reflexivity). rewrite (normalise_ok f init_in' Hf Hlen). cbn [rbind].
  unfold write_buf. cbn [fst snd]. rewrite Hob2. cbn [rbind].
  destruct (set_obj_spec h3 (List.length (objs h ++ [x1])) (mk_obj (obj_plan x2) (spec_input f) (obj_output x2) (obj_alive x2)))
    as (h4 & E4 & P4 & _); [apply nth_error_Some; congruence|].
  rewrite E4. cbn [rbind]. unfold fftw_execute.
  replace (plan_at h4 (obj_plan x2)) with (plan_at h3 (obj_plan x2)) by (unfold plan_at; rewrite P4; reflexivity).
  rewrite U3; [reflexivity|]. rewrite L3. subst x2. cbn. rewrite !length_app. cbn. lia.
Qed.

End SecondObject.

(** ** Witnesses *)

Lemma IDCT88V2_Transform_refines_witness :
  own_inv (snd (IDCT88V2_new zero64 zero64 empty_heap)) /\
  obj_at (snd (IDCT88V2_new zero64 zero64 empty_heap)) 0 = Ok (mk_obj 0 zero64 zero64 true) /\
  IDCT88V2_Transform (fun l => l) (snd (IDCT88V2_new zero64 zero64 empty_heap)) 0 (to_double_cart (repeat (repeat 1 8) 8)) =
    (let? r := Transform (fun l => l) (zero64, zero64) (to_double_cart (repeat (repeat 1 8) 8)) in
     let '(returned, (input', output')) := r in
     let? h' := set_obj (snd (IDCT88V2_new zero64 zero64 empty_heap)) 0 (mk_obj 0 input' output' true) in
     Ok (returned, h')).
Proof.
  assert (I : own_inv (snd (IDCT88V2_new zero64 zero64 empty_heap))) by (apply own_invb_sound; vm_compute; reflexivity).
  split; [exact I|]. split; [vm_compute; reflexivity|].
  apply (IDCT88V2_Transform_refines (fun l => l) _ 0 (mk_obj 0 zero64 zero64 true)); [exact I|vm_compute; reflexivity].
Defined.

Lemma dstep_reachable_inv_witness :
  clos_refl_trans heap (dstep (fun l => l)) empty_heap (snd (IDCT88V2_new zero64 zero64 empty_heap)) /\
  own_inv (snd (IDCT88V2_new zero64 zero64 empty_heap)).
Proof.
  assert (R : clos_refl_trans heap (dstep (fun l => l)) empty_heap (snd (IDCT88V2_new zero64 zero64 empty_heap))).
  { apply rt_step, dstep_new. intros [|] ob H; discriminate. }
  split; [exact R|exact (dstep_reachable_inv (fun l => l) _ R)].
Defined.

Lemma session_decoder_idct_witness :
  own_inv empty_heap /\ no_alive empty_heap /\ List.length zero64 = 64%nat /\ Forall cart8 [repeat (repeat 0 8) 8] /\
  exists h', session (fun l => l) zero64 zero64 empty_heap [repeat (repeat 0 8) 8] =
      rbind (rmap (decoder_idct (fun l => l)) [repeat (repeat 0 8) 8]) (fun zs => Ok (zs, h')) /\
    no_alive h' /\ no_live_plan h'.
Proof.
  assert (I : own_inv empty_heap) by (apply own_invb_sound; vm_compute; reflexivity).
  assert (NA : no_alive empty_heap) by (intros [|] ob H; discriminate).
  assert (Hc : Forall cart8 [repeat (repeat 0 8) 8]) by (repeat constructor).
  split; [exact I|]. split; [exact NA|]. split; [reflexivity|]. split; [exact Hc|].
  exact (session_decoder_idct (fun l => l) zero64 zero64 empty_heap _ I NA eq_refl Hc).
Defined.

Lemma second_object_after_cleanup_witness :
  cart8 (to_double_cart (repeat (repeat 0 8) 8)) /\ List.length zero64 = 64%nat /\
  let (o1, h1) := IDCT88V2_new zero64 zero64 empty_heap in
  let (o2, h2) := IDCT88V2_new zero64 zero64 h1 in
  exists h3, IDCT88V2_delete h2 o1 = Ok h3 /\
    IDCT88V2_Transform (fun l => l) h3 o2 (to_double_cart (repeat (repeat 0 8) 8)) = Err (Undefined UseAfterFree).
Proof.
  assert (Hc : cart8 (to_double_cart (repeat (repeat 0 8) 8))) by (split; [reflexivity|repeat constructor]).
  split; [exact Hc|]. split; [reflexivity|].
  exact (second_object_after_cleanup (fun l => l) zero64 zero64 zero64 zero64 empty_heap _ Hc eq_refl).
Defined.
