(* ===== verification/Raster.v ===== *)
(** * The raster loop: [Decode] of [jpeg-decoder/src/decoder.cpp]

    [Decode(std::istream&, const JPEGMeta&)] checks the SOS marker, reads
    the SOS header, opens the bit reader, checks the scan's component ids,
    then walks the MCU origins [(cur_x, cur_y)] ([uint16_t]): for each, it
    decodes one MCU ([DecodeMCU]), writes every pixel of the MCU that
    falls inside the image ([write_mcu], [MCU::GetRGB],
    [Image::SetPixel]) and moves the origin on ([advance]); it stops when
    the bit stream is finished or the origin leaves the image, then
    expects the EOI marker.  [Decode(const std::string&)] runs the
    metadata pass first and attaches the last comment.

    The raster [Image] of [rgb-image.h] is not among the sources; it is
    modelled from the specification (a [width x height] array of [RGB],
    addressed as [SetPixel(row, col)]).

    The loop runs on fuel: [raster_fuel] MCUs, the number of MCU origins
    of the image, which is enough whenever the origin cannot wrap around
    (theorem [raster_loop_tiling]). *)

From Stdlib Require Import String ZArith Bool List Lia FunctionalExtensionality.
From S2P Require Import Prelude Bytes BitStream Huffman Blocks Segments Meta Entropy Mcu Idct.
Import ListNotations.
Open Scope Z_scope.
Open Scope jpeg_scope.

(** ** The raster *)

(** [Image]: its dimensions, its rows of pixels and its comment. *)
Record image : Type := mk_image {
  img_width : Z;
  img_height : Z;
  pixels : list (list rgb);
  img_comment : option (list Z)
}.

Definition black : rgb := mk_rgb 0 0 0.

(** [Image(width, height)]. *)
Definition Image_new (width height : Z) : image :=
  mk_image width height (repeat (repeat black (Z.to_nat width)) (Z.to_nat height)) None.

(** [Image::SetPixel(row, col, rgb)]. *)
Definition SetPixel (img : image) (row col : Z) (px : rgb) : result image :=
  let? line := vec_get (pixels img) row in
  let? line' := vec_set line col px in
  let? rows := vec_set (pixels img) row line' in
  Ok (mk_image (img_width img) (img_height img) rows (img_comment img)).

(** [Image::SetComment]. *)
Definition SetComment (img : image) (comment : list Z) : image :=
  mk_image (img_width img) (img_height img) (pixels img) (Some comment).

(** ** One MCU into the raster *)

(** The body of the inner loop of [Decode]: [x_image] and [y_image] are
    [uint16_t] sums; the offsets are passed to [GetRGB] as [int8_t]. *)
Definition write_pixel (mcu : list (list cblock)) (meta : JPEGMeta.t) (cur_x cur_y : Z)
  (img : image) (x_offset y_offset : Z) : result image :=
  let x_image := to_uint16 (x_offset + cur_x) in
  let y_image := to_uint16 (y_offset + cur_y) in
  if (JPEGMeta.width meta <=? x_image) || (JPEGMeta.height meta <=? y_image) then Ok img
  else
    let? px := GetRGB mcu (to_int8 x_offset) (to_int8 y_offset) meta in
    SetPixel img y_image x_image px.

(** The two [uint8_t] loops over the offsets of the MCU, [x_offset]
    outside. *)
Definition write_mcu (mcu : list (list cblock)) (meta : JPEGMeta.t) (cur_x cur_y : Z)
  (img : image) : result image :=
  rfold (fun img x_offset =>
           rfold (fun img y_offset => write_pixel mcu meta cur_x cur_y img x_offset y_offset)
                 (zseq (JPEGMeta.mcu_y_step meta)) img)
        (zseq (JPEGMeta.mcu_x_step meta)) img.

(** [cur_x += mcu_x_step; if (cur_x >= width) { cur_x = 0; cur_y += mcu_y_step; }]
    in [uint16_t]. *)
Definition advance (meta : JPEGMeta.t) (cur_x cur_y : Z) : Z * Z :=
  let cur_x' := to_uint16 (cur_x + JPEGMeta.mcu_x_step meta) in
  if JPEGMeta.width meta <=? cur_x' then (0, to_uint16 (cur_y + JPEGMeta.mcu_y_step meta))
  else (cur_x', cur_y).

(** [a / b] rounded up. *)
Definition ceil_div (a b : Z) : Z := (a + b - 1) / b.

(** The number of MCU columns and rows of the image. *)
Definition mcu_cols (meta : JPEGMeta.t) : Z := ceil_div (JPEGMeta.width meta) (JPEGMeta.mcu_x_step meta).
Definition mcu_rows (meta : JPEGMeta.t) : Z := ceil_div (JPEGMeta.height meta) (JPEGMeta.mcu_y_step meta).

(** The fuel of the loop: one round per MCU origin. *)
Definition raster_fuel (meta : JPEGMeta.t) : nat := Z.to_nat (mcu_cols meta * mcu_rows meta).

(** [Decode] builds [ChannelProps] from the scan's components
    ([last_dc = 0]) and rejects an id outside [meta.channels]. *)
Fixpoint scan_channels (chans : list sos_channel) (nr_channels : Z) : result (list channel_state) :=
  match chans with
  | [] => Ok []
  | c :: rest =>
      if nr_channels <=? sc_id c then Err (RuntimeError "unexpected channel id in sos information")
      else let? states := scan_channels rest nr_channels in Ok (mk_channel_state c 0 :: states)
  end.

(** [BitStream bits(input, true)] over the stream, for the duration of
    [c]; the stream keeps the position the bit reader leaves. *)
Definition with_bit_stream {A : Type} (c : st reader A) : st istream A :=
  fun s => match c (BitStream_new s true, s) with
           | Ok (a, (_, s')) => Ok (a, s')
           | Err e => Err e
           end.

(** The start of [Decode]: the SOS marker, then [SOS::Read]. *)
Definition decode_header (bytes : byte_stream) : st istream (sos_payload * byte_stream) :=
  let* (m1, bytes1) := Yield bytes in
  if negb (m1 =? 255) then raise (RuntimeError "0xff expected") else
  let* (m2, bytes2) := Yield bytes1 in
  if negb (m2 =? 218) then raise (RuntimeError "0xda expected") else
  let* sos := SOS_Read in
  ret (sos, bytes2).

(** The end of [Decode]: the EOI marker, read with the [ByteStream] of
    the start. *)
Definition decode_trailer (bytes : byte_stream) : st istream unit :=
  let* (e1, bytes3) := Yield bytes in
  if negb (e1 =? 255) then raise (RuntimeError "0xff expected: premature end of image") else
  let* (e2, _) := Yield bytes3 in
  if negb (e2 =? 217) then raise (RuntimeError "0xd9 expected: premature end of image") else
  ret tt.

(** ** A file the loop never finishes

    A frame header with no component leaves both maximal sampling factors
    at 0, so [mcu_x_step = 0]; the scan's one component, id 0, passes the
    check against [meta.channels] (which has one default entry), and its
    default sampling factors give MCUs of no block. *)
Definition hang_jpeg : list Z :=
  [255; 216] ++ [255; 219; 0; 67; 0] ++ repeat 1 64 ++
  [255; 192; 0; 8; 8; 0; 1; 0; 1; 0] ++
  [255; 196; 0; 20; 0] ++ [1] ++ repeat 0 15 ++ [0] ++
  [255; 218; 0; 8; 1; 0; 0; 0; 63; 0] ++ [63] ++ [255; 217].

Definition hang_meta : JPEGMeta.t :=
  match JPEGMeta_new (open_istream hang_jpeg) with
  | Ok (m, _) => m
  | Err _ => JPEGMeta.mk 0 0 0 0 0 0 0 [] [] [] [] []
  end.

Definition hang_scan : istream := mk_istream hang_jpeg 113 false.

Lemma hang_prefix :
  JPEGMeta_new (open_istream hang_jpeg) = Ok (hang_meta, mk_istream hang_jpeg 103 false) /\
  decode_header (ByteStream_new (mk_istream hang_jpeg 103 false)) (mk_istream hang_jpeg 103 false) =
    Ok ((mk_sos_payload [mk_sos_channel 0 0 0] 0 63 0, mk_byte_stream false), hang_scan).
Proof. split; vm_compute; reflexivity. Qed.

Definition zero_block : list (list Z) := repeat (repeat 0 8) 8.

(** ** The raster invariant: its dimensions, and bytes in every pixel *)

Definition rgb_ok (px : rgb) : Prop :=
  0 <= red px <= 255 /\ 0 <= green px <= 255 /\ 0 <= blue px <= 255.

Definition image_ok (width height : Z) (img : image) : Prop :=
  img_width img = width /\ img_height img = height /\
  List.length (pixels img) = Z.to_nat height /\
  Forall (fun line => List.length line = Z.to_nat width /\ Forall rgb_ok line) (pixels img).

Lemma Image_new_ok w h : image_ok w h (Image_new w h).
Proof.
  unfold image_ok, Image_new; cbn. rewrite !repeat_length. repeat split; [].
  apply Forall_forall. intros line Hl. apply repeat_spec in Hl as ->.
  split; [apply repeat_length|]. apply Forall_forall. intros px Hp. apply repeat_spec in Hp as ->.
  unfold rgb_ok; cbn; lia.
Qed.

Lemma SetComment_ok w h img c : image_ok w h img -> image_ok w h (SetComment img c).
Proof. intros H. exact H. Qed.

Lemma SetPixel_ok w h img row col px img' :
  image_ok w h img -> rgb_ok px -> SetPixel img row col px = Ok img' -> image_ok w h img'.
Proof.
  unfold SetPixel. intros (Hw & Hh & Hl & Hrows) Hpx H.
  rbind_inv H. rbind_inv H. rbind_inv H. injection H as <-.
  apply vec_get_In in E. apply vec_set_inv in E0. apply vec_set_inv in E1.
  destruct (proj1 (Forall_forall _ _) Hrows _ E) as [Hll Hlok].
  unfold image_ok; cbn. repeat split; [exact Hw|exact Hh| |].
  - rewrite (list_set_length _ _ _ _ E1). exact Hl.
  - eapply list_set_Forall; [exact Hrows| |exact E1]. cbv beta. split.
    + rewrite (list_set_length _ _ _ _ E0). exact Hll.
    + eapply list_set_Forall; eauto.
Qed.

Lemma clamp255_range v : 0 <= clamp255 v <= 255.
Proof. unfold clamp255. lia. Qed.

Lemma GetRGB_ok mcu x y meta px : GetRGB mcu x y meta = Ok px -> rgb_ok px.
Proof.
  unfold GetRGB. intros H. rbind_inv H. rbind_inv H. rbind_inv H. destruct a1 as [cb cr].
  rbind_inv H. rbind_inv H. rbind_inv H. injection H as <-.
  unfold rgb_ok; cbn. auto using clamp255_range.
Qed.

Lemma write_pixel_ok mcu meta cx cy img x y img' :
  image_ok (JPEGMeta.width meta) (JPEGMeta.height meta) img ->
  write_pixel mcu meta cx cy img x y = Ok img' ->
  image_ok (JPEGMeta.width meta) (JPEGMeta.height meta) img'.
Proof.
  unfold write_pixel. intros Hi H.
  destruct (_ || _); [injection H as <-; exact Hi|].
  rbind_inv H. eapply SetPixel_ok; [exact Hi|eapply GetRGB_ok; eassumption|exact H].
Qed.

Lemma write_mcu_ok mcu meta cx cy img img' :
  image_ok (JPEGMeta.width meta) (JPEGMeta.height meta) img ->
  write_mcu mcu meta cx cy img = Ok img' ->
  image_ok (JPEGMeta.width meta) (JPEGMeta.height meta) img'.
Proof.
  unfold write_mcu. apply rfold_invariant. intros a x a' _ Ha.
  apply rfold_invariant; [|exact Ha]. intros b y b' _ Hb. apply write_pixel_ok. exact Hb.
Qed.

Section Raster.

Variable idct : list (list Z) -> result (list (list Z)).

(** The [while] loop of [Decode]. *)
Fixpoint raster_loop (fuel : nat) (meta : JPEGMeta.t) (props : list channel_state)
  (img : image) (cur_x cur_y : Z) : st reader image :=
  fun r =>
    if negb (IsFinished (fst r)) && (cur_x <? JPEGMeta.width meta) && (cur_y <? JPEGMeta.height meta)
    then
      match fuel with
      | O => Err OutOfFuel
      | S fuel' =>
          (let* (mcu, props') := DecodeMCU idct props meta in
           let* img' := lift (write_mcu mcu meta cur_x cur_y img) in
           let (cur_x', cur_y') := advance meta cur_x cur_y in
           raster_loop fuel' meta props' img' cur_x' cur_y') r
      end
    else Ok (img, r).

(** [Decode(std::istream&, const JPEGMeta&)], with the fuel of its loop. *)
Definition Decode_fuel (fuel : nat) (meta : JPEGMeta.t) : st istream image :=
  with_byte_stream (fun bytes =>
    let* (sos, bytes2) := decode_header bytes in
    let* img := with_bit_stream (
      let* props := lift (scan_channels (sos_channels sos) (Z.of_nat (List.length (JPEGMeta.channels meta)))) in
      raster_loop fuel meta props (Image_new (JPEGMeta.width meta) (JPEGMeta.height meta)) 0 0) in
    decode_trailer bytes2 ;;
    ret img).

Definition Decode (meta : JPEGMeta.t) : st istream image := Decode_fuel (raster_fuel meta) meta.

(** [Decode(const std::string&)] on the bytes of the file, with the
    fuel of the raster loop chosen from the metadata. *)
Definition Decode_file_with (fuel : JPEGMeta.t -> nat) (file : list Z) : result image :=
  match (let* meta := JPEGMeta_new in
         let* img := Decode_fuel (fuel meta) meta in
         ret (meta, img)) (open_istream file) with
  | Ok ((meta, img), _) =>
      match rev (JPEGMeta.comments meta) with
      | [] => Ok img
      | last :: _ => Ok (SetComment img last)
      end
  | Err e => Err e
  end.

Definition Decode_file (file : list Z) : result image := Decode_file_with raster_fuel file.

(** The inverse DCT made to return the zero block on the zero block
    and [idct] elsewhere: it is [idct] itself when [idct] maps zero to
    zero, and it computes on the zero block without [idct]. *)
Definition zero_patch (c : list (list Z)) : result (list (list Z)) :=
  if list_eq_dec (list_eq_dec Z.eq_dec) c zero_block then Ok zero_block else idct c.

Lemma zero_patch_id : idct zero_block = Ok zero_block -> zero_patch = idct.
Proof.
  intros H. apply functional_extensionality. intros c. unfold zero_patch.
  destruct (list_eq_dec (list_eq_dec Z.eq_dec) c zero_block) as [->|_]; [symmetry; exact H|reflexivity].
Qed.

(** ** The specification of the loop: the MCUs in row-major order *)

(** The origin of the [k]-th MCU of the image, row-major. *)
Definition origin (meta : JPEGMeta.t) (k : Z) : Z * Z :=
  ((k mod mcu_cols meta) * JPEGMeta.mcu_x_step meta, (k / mcu_cols meta) * JPEGMeta.mcu_y_step meta).

(** [n] MCUs from the [k]-th on, each decoded and written at its origin,
    until the bit stream is finished (section 4.6 of the specification). *)
Fixpoint raster_ref (n : nat) (k : Z) (meta : JPEGMeta.t) (props : list channel_state)
  (img : image) : st reader image :=
  fun r =>
    match n with
    | O => Ok (img, r)
    | S n' =>
        if IsFinished (fst r) then Ok (img, r)
        else (let* (mcu, props') := DecodeMCU idct props meta in
              let* img' := lift (write_mcu mcu meta (fst (origin meta k)) (snd (origin meta k)) img) in
              raster_ref n' (k + 1) meta props' img') r
    end.

(** ** The raster keeps its dimensions and holds bytes *)

Lemma raster_loop_ok fuel : forall meta props img cx cy r img' r',
  image_ok (JPEGMeta.width meta) (JPEGMeta.height meta) img ->
  raster_loop fuel meta props img cx cy r = Ok (img', r') ->
  image_ok (JPEGMeta.width meta) (JPEGMeta.height meta) img'.
Proof.
  induction fuel as [|fuel IH]; intros meta props img cx cy r img' r' Hi H; cbn [raster_loop] in H;
    (destruct (_ && _); [|injection H as <- _; exact Hi]); [discriminate|].
  bind_inv H. destruct a as [mcu props']. cbv beta iota in H.
  bind_inv H. unfold lift in E0. destruct (write_mcu mcu meta cx cy img) as [img1|e] eqn:Ew; [|discriminate].
  injection E0 as <- <-. destruct (advance meta cx cy) as [cx' cy'].
  eapply IH; [|exact H]. eapply write_mcu_ok; eassumption.
Qed.

(** C16 The raster [Decode(filename)] returns has the frame's dimensions,
    [height] rows of [width] pixels, and every pixel is a triple of bytes
    (section 6 of the specification), whatever the fuel of the loop. *)
Theorem Decode_file_raster fuel file img :
  Decode_file_with fuel file = Ok img ->
  exists meta s, JPEGMeta_new (open_istream file) = Ok (meta, s) /\
    image_ok (JPEGMeta.width meta) (JPEGMeta.height meta) img.
Proof.
  unfold Decode_file_with. intros H.
  destruct (JPEGMeta_new (open_istream file)) as [[meta s]|e] eqn:Em; [|unfold bind in H; rewrite Em in H; discriminate].
  rewrite (bind_ok _ _ _ _ _ Em) in H. exists meta, s. split; [reflexivity|].
  unfold bind at 1 in H. destruct (Decode_fuel (fuel meta) meta s) as [[img0 s1]|e] eqn:Ed; [|discriminate].
  cbn in H. unfold Decode_fuel, with_byte_stream in Ed.
  bind_inv Ed. destruct a as [sos bytes2]. cbv beta iota in Ed.
  bind_inv Ed. bind_inv Ed. injection Ed as <- _.
  unfold with_bit_stream in E0.
  destruct (bind _ _ _) as [[img2 [bits_end s_end]]|e] eqn:El in E0; [|discriminate]. injection E0 as <- <-.
  bind_inv El. unfold lift in E0. destruct (scan_channels _ _); [|discriminate]. injection E0 as <- <-.
  assert (Hok : image_ok (JPEGMeta.width meta) (JPEGMeta.height meta) img2)
    by (eapply raster_loop_ok; [apply Image_new_ok|exact El]).
  destruct (rev (JPEGMeta.comments meta)); injection H as <-; [exact Hok|apply SetComment_ok; exact Hok].
Qed.

(** ** A loop that makes no progress *)

(** With an MCU of width zero and an MCU that reads no bits, the loop
    comes back to the same state: it never ends. *)
Lemma raster_loop_stall meta props mcu img r fuel :
  JPEGMeta.mcu_x_step meta = 0 -> IsFinished (fst r) = false ->
  0 < JPEGMeta.width meta -> 0 < JPEGMeta.height meta ->
  DecodeMCU idct props meta r = Ok ((mcu, props), r) ->
  raster_loop fuel meta props img 0 0 r = Err OutOfFuel.
Proof.
  intros Hx Hf Hw Hh Hd. induction fuel as [|fuel IH]; cbn [raster_loop];
    rewrite Hf, (proj2 (Z.ltb_lt _ _) Hw), (proj2 (Z.ltb_lt _ _) Hh); cbn [negb andb]; [reflexivity|].
  unfold bind. rewrite Hd. cbv beta iota.
  unfold write_mcu, lift. rewrite Hx. cbn [zseq seq map Z.to_nat rfold].
  unfold advance. rewrite Hx, Z.add_0_r. change (to_uint16 0) with 0.
  destruct (Z.leb_spec (JPEGMeta.width meta) 0); [lia|]. exact IH.
Qed.

Lemma Decode_fuel_hang n : Decode_fuel n hang_meta (mk_istream hang_jpeg 103 false) = Err OutOfFuel.
Proof.
  unfold Decode_fuel, with_byte_stream. rewrite (bind_ok _ _ _ _ _ (proj2 hang_prefix)). cbv beta iota.
  apply bind_err. unfold with_bit_stream.
  rewrite (bind_ok _ _ _ _ _ (lift_ok _ [mk_channel_state (mk_sos_channel 0 0 0) 0] _ eq_refl)).
  erewrite raster_loop_stall; [reflexivity|reflexivity|reflexivity|vm_compute; reflexivity|vm_compute; reflexivity|].
  vm_compute. reflexivity.
Qed.

(** C31 The decoder does not terminate on a file whose frame header lists
    no component while its scan lists component 0: the raster loop runs
    out of any fuel, whatever fuel is chosen from the metadata. *)
Theorem Decode_file_hangs fuel : Decode_file_with fuel hang_jpeg = Err OutOfFuel.
Proof.
  unfold Decode_file_with. rewrite (bind_ok _ _ _ _ _ (proj1 hang_prefix)).
  rewrite (bind_err _ _ _ OutOfFuel (Decode_fuel_hang _)). reflexivity.
Qed.

(** ** The loop walks the MCU origins in row-major order *)

Lemma ceil_div_spec a b :
  0 < b -> 0 <= a -> forall i, 0 <= i -> (i < ceil_div a b <-> i * b < a).
Proof.
  intros Hb Ha i Hi. unfold ceil_div.
  pose proof (Z.div_mod (a + b - 1) b ltac:(lia)). pose proof (Z.mod_pos_bound (a + b - 1) b Hb).
  set (q := (a + b - 1) / b) in *. split; intros H1.
  - assert (i * b <= (q - 1) * b) by (apply Z.mul_le_mono_nonneg_r; lia). lia.
  - destruct (Z.lt_ge_cases i q) as [|Hq]; [assumption|].
    assert (q * b <= i * b) by (apply Z.mul_le_mono_nonneg_r; lia). lia.
Qed.

Lemma ceil_div_bound a b : 0 < b -> 0 <= a -> a <= ceil_div a b * b < a + b.
Proof.
  intros Hb Ha. unfold ceil_div.
  pose proof (Z.div_mod (a + b - 1) b ltac:(lia)). pose proof (Z.mod_pos_bound (a + b - 1) b Hb).
  nia.
Qed.

Section Tiling.

Context (meta : JPEGMeta.t).
Hypothesis Hsx : 0 < JPEGMeta.mcu_x_step meta.
Hypothesis Hsy : 0 < JPEGMeta.mcu_y_step meta.
Hypothesis Hw : 0 < JPEGMeta.width meta.
Hypothesis Hh : 0 < JPEGMeta.height meta.
Hypothesis Hwx : JPEGMeta.width meta + JPEGMeta.mcu_x_step meta <= 65536.
Hypothesis Hhy : JPEGMeta.height meta + JPEGMeta.mcu_y_step meta <= 65536.

Lemma cols_pos : 0 < mcu_cols meta.
Proof. apply ceil_div_spec; lia. Qed.

Lemma rows_pos : 0 < mcu_rows meta.
Proof. apply ceil_div_spec; lia. Qed.

Lemma origin_inside k :
  0 <= k < mcu_cols meta * mcu_rows meta ->
  fst (origin meta k) < JPEGMeta.width meta /\ snd (origin meta k) < JPEGMeta.height meta.
Proof.
  intros Hk. pose proof cols_pos. pose proof rows_pos. cbn [origin fst snd].
  pose proof (Z.mod_pos_bound k (mcu_cols meta) ltac:(lia)).
  assert (k / mcu_cols meta < mcu_rows meta) by (apply Z.div_lt_upper_bound; lia).
  assert (0 <= k / mcu_cols meta) by (apply Z.div_pos; lia).
  split; [apply (ceil_div_spec _ _ Hsx)|apply (ceil_div_spec _ _ Hsy)]; unfold mcu_cols, mcu_rows in *; lia.
Qed.

Lemma origin_end : JPEGMeta.height meta <= snd (origin meta (mcu_cols meta * mcu_rows meta)).
Proof.
  pose proof cols_pos. cbn [origin snd]. rewrite (Z.mul_comm (mcu_cols meta) (mcu_rows meta)), Z.div_mul by lia.
  apply ceil_div_bound; lia.
Qed.

Lemma advance_origin k :
  0 <= k < mcu_cols meta * mcu_rows meta ->
  advance meta (fst (origin meta k)) (snd (origin meta k)) = origin meta (k + 1).
Proof.
  intros Hk. pose proof cols_pos. pose proof rows_pos.
  pose proof (ceil_div_bound (JPEGMeta.width meta) _ Hsx ltac:(lia)).
  pose proof (ceil_div_bound (JPEGMeta.height meta) _ Hsy ltac:(lia)).
  fold (mcu_cols meta) in *. fold (mcu_rows meta) in *.
  unfold advance, origin; cbn [fst snd].
  set (c := mcu_cols meta) in *. set (i := k mod c). set (j := k / c).
  assert (Hk' : k = j * c + i) by (subst i j; rewrite Z.mul_comm; apply Z.div_mod; lia).
  assert (Hi : 0 <= i < c) by (apply Z.mod_pos_bound; lia).
  assert (Hj : 0 <= j < mcu_rows meta) by (subst j; split; [apply Z.div_pos|apply Z.div_lt_upper_bound]; lia).
  unfold to_uint16. rewrite (Z.mod_small (i * _ + _)) by nia.
  destruct (Z.eq_dec (i + 1) c) as [Ec|Ec].
  - assert (Hk1 : k + 1 = (j + 1) * c + 0) by lia.
    rewrite <- (Z.mod_unique (k + 1) c (j + 1) 0), <- (Z.div_unique (k + 1) c (j + 1) 0) by lia.
    assert (JPEGMeta.width meta <= i * JPEGMeta.mcu_x_step meta + JPEGMeta.mcu_x_step meta) by nia.
    destruct (Z.leb_spec (JPEGMeta.width meta) (i * JPEGMeta.mcu_x_step meta + JPEGMeta.mcu_x_step meta)); [|lia].
    f_equal. rewrite Z.mod_small by nia. ring.
  - rewrite <- (Z.mod_unique (k + 1) c j (i + 1)), <- (Z.div_unique (k + 1) c j (i + 1)) by lia.
    assert ((i + 1) * JPEGMeta.mcu_x_step meta < JPEGMeta.width meta)
      by (apply (ceil_div_spec _ _ Hsx); try lia; change (ceil_div _ _) with c; lia).
    destruct (Z.leb_spec (JPEGMeta.width meta) (i * JPEGMeta.mcu_x_step meta + JPEGMeta.mcu_x_step meta)); [lia|].
    f_equal. ring.
Qed.

(** The loop from the origin of the [k]-th MCU is the reference walk
    over the MCUs left. *)
Lemma raster_loop_from n : forall k fuel props img cur_x cur_y r,
  0 <= k -> k + Z.of_nat n = mcu_cols meta * mcu_rows meta -> (n <= fuel)%nat ->
  (cur_x, cur_y) = origin meta k ->
  raster_loop fuel meta props img cur_x cur_y r = raster_ref n k meta props img r.
Proof.
  induction n as [|n IH]; intros k fuel props img cur_x cur_y r Hk Hn Hf Ho.
  - rewrite Z.add_0_r in Hn. subst k. pose proof origin_end as He. rewrite <- Ho in He. cbn [snd] in He.
    destruct fuel; cbn [raster_loop raster_ref];
      destruct (Z.ltb_spec cur_y (JPEGMeta.height meta)); try lia; rewrite andb_false_r; reflexivity.
  - destruct fuel as [|fuel]; [lia|].
    destruct (origin_inside k ltac:(lia)) as [Hx Hy]. rewrite <- Ho in Hx, Hy. cbn [fst snd] in Hx, Hy.
    cbn [raster_loop raster_ref]. rewrite <- Ho. cbn [fst snd].
    rewrite (proj2 (Z.ltb_lt _ _) Hx), (proj2 (Z.ltb_lt _ _) Hy), !andb_true_r.
    destruct (IsFinished (fst r)); cbn [negb]; [reflexivity|].
    unfold bind. destruct (DecodeMCU idct props meta r) as [[[mcu props'] r1]|e]; [|reflexivity].
    cbv beta iota. unfold lift.
    destruct (write_mcu mcu meta cur_x cur_y img) as [img'|e]; [|reflexivity].
    pose proof (advance_origin k ltac:(lia)) as Ha. rewrite <- Ho in Ha. cbn [fst snd] in Ha.
    cbv beta iota. rewrite Ha.
    destruct (origin meta (k + 1)) as [ox' oy'] eqn:Eo.
    apply IH; [lia|lia|lia|symmetry; exact Eo].
Qed.

End Tiling.

(** C10 Refinement of the raster loop by the specification's walk
    (section 4.6): when the MCU steps are positive and no origin can wrap
    around 16 bits, the loop of [Decode] with at least [raster_fuel]
    rounds visits the MCU origins in row-major order,
    [(k mod cols * step_x, k / cols * step_y)] for [k = 0, 1, ...], one
    MCU decoded per origin, and stops after the last one or when the bit
    stream is finished: it never runs out of fuel. *)
Theorem raster_loop_tiling meta fuel props img r :
  0 < JPEGMeta.mcu_x_step meta -> 0 < JPEGMeta.mcu_y_step meta ->
  0 < JPEGMeta.width meta -> 0 < JPEGMeta.height meta ->
  JPEGMeta.width meta + JPEGMeta.mcu_x_step meta <= 65536 ->
  JPEGMeta.height meta + JPEGMeta.mcu_y_step meta <= 65536 ->
  (raster_fuel meta <= fuel)%nat ->
  raster_loop fuel meta props img 0 0 r = raster_ref (raster_fuel meta) 0 meta props img r.
Proof.
  intros Hsx Hsy Hw Hh Hwx Hhy Hf.
  pose proof (cols_pos meta Hsx Hw). pose proof (rows_pos meta Hsy Hh).
  apply raster_loop_from; try assumption.
  - lia.
  - unfold raster_fuel. rewrite Z2Nat.id by nia. lia.
  - unfold origin. rewrite Zmod_0_l, Zdiv_0_l. reflexivity.
Qed.



End Raster.

(** The sample file decodes to mid grey for every transform that maps
    the zero block to zero. *)
Lemma Decode_file_grey idct :
  idct zero_block = Ok zero_block ->
  Decode_file idct sample_jpeg = Ok (mk_image 8 8 (repeat (repeat (mk_rgb 128 128 128) 8) 8) None).
Proof.
  intros H. rewrite <- (zero_patch_id idct H). vm_compute. reflexivity.
Qed.

(** End to end, on the one-block grey sample file: with the
    decoder's transform ([IDCT88V2] between the two conversions), for any
    FFTW that maps the zero block to zero (as the linear [REDFT01] does),
    [Decode(filename)] returns the 8 x 8 raster of mid-grey pixels
    [(128, 128, 128)]: the metadata pass, the scan header, the entropy
    decoding of one all-zero block, the dequantisation, the transform,
    the level shift, the colour conversion and the raster write,
    composed. *)
Theorem Decode_file_sample redft01_2d :
  redft01_2d zero64 = zero64 ->
  Decode_file (decoder_idct redft01_2d) sample_jpeg =
    Ok (mk_image 8 8 (repeat (repeat (mk_rgb 128 128 128) 8) 8) None).
Proof. intros H. apply Decode_file_grey, decoder_idct_zero, H. Qed.

(** C34 The MCU origin is a [uint16_t]: whenever the origin after an MCU,
    [cur_x + mcu_x_step], reaches 65536 but wraps to a value below the
    width, [advance] keeps the row and moves the origin back to that
    wrapped value, although the origin has passed the width (where the
    specification moves down a row): the loop decodes the same row of
    MCUs again. *)
Theorem advance_wrap meta cur_x cur_y :
  JPEGMeta.width meta < 65536 -> 0 <= cur_x ->
  65536 <= cur_x + JPEGMeta.mcu_x_step meta < 65536 + JPEGMeta.width meta ->
  JPEGMeta.width meta <= cur_x + JPEGMeta.mcu_x_step meta /\
  advance meta cur_x cur_y = (cur_x + JPEGMeta.mcu_x_step meta - 65536, cur_y).
Proof.
  intros Hw Hx Hs. split; [lia|]. unfold advance.
  rewrite to_uint16_wrap by lia. destruct (Z.leb_spec (JPEGMeta.width meta) (cur_x + JPEGMeta.mcu_x_step meta - 65536)); [lia|].
  reflexivity.
Qed.

(** ** Witnesses *)

Lemma raster_loop_tiling_witness :
  let r := (BitStream_new (open_istream []) true, open_istream []) in
  raster_loop (fun c => Ok c) 1 sample_meta [] (Image_new 8 8) 0 0 r =
  raster_ref (fun c => Ok c) (raster_fuel sample_meta) 0 sample_meta [] (Image_new 8 8) r.
Proof. intros r. apply raster_loop_tiling; vm_compute; try reflexivity; discriminate. Defined.

Lemma Decode_file_sample_witness :
  Decode_file (decoder_idct (fun l => l)) sample_jpeg =
    Ok (mk_image 8 8 (repeat (repeat (mk_rgb 128 128 128) 8) 8) None).
Proof. apply Decode_file_sample. reflexivity. Defined.

Lemma Decode_file_raster_witness :
  exists meta s, JPEGMeta_new (open_istream sample_jpeg) = Ok (meta, s) /\
    image_ok (JPEGMeta.width meta) (JPEGMeta.height meta)
      (mk_image 8 8 (repeat (repeat (mk_rgb 128 128 128) 8) 8) None).
Proof. apply (Decode_file_raster (fun c => Ok c) raster_fuel). vm_compute. reflexivity. Defined.

Lemma advance_wrap_witness :
  let meta := JPEGMeta.mk 65535 16 8 8 8 1 1 [] [] [] [] [] in
  JPEGMeta.width meta < 65536 /\ 0 <= 65528 /\
  65536 <= 65528 + JPEGMeta.mcu_x_step meta < 65536 + JPEGMeta.width meta /\
  (JPEGMeta.width meta <= 65528 + JPEGMeta.mcu_x_step meta /\
   advance meta 65528 0 = (65528 + JPEGMeta.mcu_x_step meta - 65536, 0)).
Proof.
  cbv zeta. split; [cbn; lia|]. split; [lia|]. split; [cbn; lia|].
  apply advance_wrap; cbn; lia.
Defined.
