(* ===== verification/NQueens.v ===== *)
(** * The N-queens solver of [leetcode/51-nqueens.cpp]

    [Solution::solveNQueens(n)] searches by backtracking over three
    value arrays it copies at every step: [queens] and [restricted]
    ([std::array<bool, 96>], the board row-major at [ri * size + ci]) and
    [row_wise] ([std::array<bool, 16>], the rows holding a queen).  At
    each level it scans the rows from 0 and returns as soon as it meets a
    row that holds a queen; in a free row it tries every column not yet
    restricted, marks the row, the column and both diagonals of the new
    queen in a copy of [restricted], and recurses.  [answer] renders a
    board as strings of ['Q'] and ['.'].

    The arrays are lists, indexed without a check ([vec_get], [vec_set]
    of [Prelude.v]): an index past the end is undefined behaviour.  The
    four diagonal [while] loops run on fuel [size + 1], proved enough.

    The specification [search] is the same backtracking on the list of
    queens placed; [solveNQueens] refines it for every [n <= 9], the
    sizes whose boards fit the 96-cell arrays.  [search] returns only
    placements of [n] queens no two of which attack each other, and
    every such placement, given in any order, is returned listed row by
    row ([Section Complete]): the solver returns exactly the boards of
    the solutions. *)

From Stdlib Require Import String Ascii ZArith Bool List Lia.
From S2P Require Import Prelude.
Import ListNotations.
Open Scope Z_scope.
Open Scope jpeg_scope.

(** ** The solver *)

(** [answer(sol, n)]: row [ri] is the string of ['Q'] and ['.'] of the
    cells [sol[ri * n + ci]], with the index a [uint8_t]. *)
Definition answer (sol : list bool) (n : Z) : result (list string) :=
  rmap (fun ri : Z =>
    let? cells := rmap (fun ci : Z => vec_get sol (to_uint8 (ri * n + ci))) (zseq n) in
    Ok (string_of_list_ascii (map (fun q : bool => if q then "Q"%char else "."%char) cells)))
    (zseq n).

(** [std::accumulate(queens.begin(), queens.end(), 0)]. *)
Definition count_true (a : list bool) : Z := fold_left (fun acc b => acc + Z.b2z b) a 0.

(** A diagonal [while] loop: mark [(mdr, mdc)] and step by [(dr, dc)]
    while [cond] holds. *)
Fixpoint mark_while (fuel : nat) (cond : Z -> Z -> bool) (dr dc size mdr mdc : Z)
  (res : list bool) : result (list bool) :=
  if cond mdr mdc then
    match fuel with
    | O => Err OutOfFuel
    | S fuel' =>
        let? res' := vec_set res (mdr * size + mdc) true in
        mark_while fuel' cond dr dc size (mdr + dr) (mdc + dc) res'
    end
  else Ok res.

(** The marks of a new queen at [(ri, ci)] on the copy [res_copy]: its
    row, its column, then the four diagonal loops in the source's order
    and with the source's conditions. *)
Definition restrict (size ri ci : Z) (restricted : list bool) : result (list bool) :=
  let? r1 := rfold (fun r cii => vec_set r (ri * size + cii) true) (zseq size) restricted in
  let? r2 := rfold (fun r rii => vec_set r (rii * size + ci) true) (zseq size) r1 in
  let fuel := S (Z.to_nat size) in
  let inside mdr mdc := (mdr <? size) && (mdc <? size) && (0 <=? mdr) && (0 <=? mdc) in
  let? r3 := mark_while fuel (fun mdr mdc => (mdr <? size) && (mdc <? size)) 1 1 size ri ci r2 in
  let? r4 := mark_while fuel (fun mdr mdc => (0 <=? mdr) && (0 <=? mdc)) (-1) (-1) size ri ci r3 in
  let? r5 := mark_while fuel inside 1 (-1) size ri ci r4 in
  mark_while fuel inside (-1) 1 size ri ci r5.

Definition boards : Type := list (list string).

(** The body of the column loop: [continue] on a restricted cell, else
    the copies, the marks and the recursive call [recur]. *)
Definition col_step (recur : list bool -> list bool -> list bool -> boards -> result boards)
  (size ri : Z) (row_wise queens restricted : list bool) (ans : boards) (ci : Z) : result boards :=
  let? r := vec_get restricted (ri * size + ci) in
  if r then Ok ans
  else
    let? res_copy := restrict size ri ci restricted in
    let? queens_copy := vec_set queens (ri * size + ci) true in
    let? rw_copy := vec_set row_wise ri true in
    recur rw_copy queens_copy res_copy ans.

(** The row loop, with its [return] at the first row holding a queen. *)
Fixpoint row_loop (recur : list bool -> list bool -> list bool -> boards -> result boards)
  (size : Z) (row_wise queens restricted : list bool) (ris : list Z) (ans : boards) : result boards :=
  match ris with
  | [] => Ok ans
  | ri :: rest =>
      let? filled := vec_get row_wise ri in
      if filled then Ok ans
      else
        let? ans' := rfold (col_step recur size ri row_wise queens restricted) (zseq size) ans in
        row_loop recur size row_wise queens restricted rest ans'
  end.

(** [Solution::solveNQueensRec], [ans] passed by reference. *)
Fixpoint solveNQueensRec (left : nat) (size : Z) (row_wise queens restricted : list bool)
  (ans : boards) : result boards :=
  match left with
  | O =>
      if negb (count_true queens =? size) then Ok ans
      else let? a := answer queens size in Ok (ans ++ [a])
  | S left' =>
      row_loop (fun rw q r a => solveNQueensRec left' size rw q r a)
        size row_wise queens restricted (zseq size) ans
  end.

(** [Solution::solveNQueens(int n)], [n] passed on as a [uint8_t]. *)
Definition solveNQueens (n : Z) : result boards :=
  solveNQueensRec (Z.to_nat (to_uint8 n)) (to_uint8 n)
    (repeat false 16) (repeat false 96) (repeat false 96) [].

(** [main]: solves the 9 x 9 board, discards the answer and returns 0. *)
Definition main : result Z :=
  let? ans := solveNQueens 9 in
  Ok 0.

(** ** The specification: backtracking on the queens placed *)

Definition cell : Type := (Z * Z)%type.

(** Two cells on one row, column or diagonal. *)
Definition attacks (q p : cell) : bool :=
  (fst q =? fst p) || (snd q =? snd p) ||
  (fst q - snd q =? fst p - snd p) || (fst q + snd q =? fst p + snd p).

Definition attacked (P : list cell) (p : cell) : bool := existsb (fun q => attacks q p) P.

Definition occupied (P : list cell) (p : cell) : bool :=
  existsb (fun q => (fst q =? fst p) && (snd q =? snd p)) P.

Definition row_filled (P : list cell) (r : Z) : bool := existsb (fun q => fst q =? r) P.

(** The search the code performs, on the list of queens placed (the
    newest first): scan the rows from 0 up to the first one holding a
    queen, and in each try the columns in order; [next] continues the
    search from a new queen. *)
Fixpoint search_rows (next : cell -> list (list cell)) (P : list cell) (size : Z) (ris : list Z)
  : list (list cell) :=
  match ris with
  | [] => []
  | r :: rest =>
      if row_filled P r then []
      else flat_map (fun c => if attacked P (r, c) then [] else next (r, c)) (zseq size)
             ++ search_rows next P size rest
  end.

Fixpoint search (left : nat) (size : Z) (P : list cell) : list (list cell) :=
  match left with
  | O => [P]
  | S l => search_rows (fun q => search l size (q :: P)) P size (zseq size)
  end.

(** The board of a placement, as [answer] prints it. *)
Definition render (size : Z) (P : list cell) : list string :=
  map (fun r => string_of_list_ascii
                  (map (fun c => if occupied P (r, c) then "Q"%char else "."%char) (zseq size)))
      (zseq size).

(** A solution of the [n]-queens problem: [n] queens on the board, no
    two attacking each other. *)
Fixpoint non_attacking (P : list cell) : Prop :=
  match P with
  | [] => True
  | q :: rest => attacked rest q = false /\ non_attacking rest
  end.

Definition solution (n : Z) (P : list cell) : Prop :=
  Z.of_nat (List.length P) = n /\
  Forall (fun q => 0 <= fst q < n /\ 0 <= snd q < n) P /\ non_attacking P.

(** ** The arrays represent the placement *)

Lemma Ok_inj {A : Type} {x y : A} : @Ok A x = Ok y -> x = y.
Proof. intros H. injection H. exact id. Qed.

Lemma count_true_acc l a : fold_left (fun acc b => acc + Z.b2z b) l a = a + count_true l.
Proof.
  unfold count_true. revert a. induction l as [|b l IH]; intros a; cbn [fold_left]; [lia|].
  rewrite (IH (a + Z.b2z b)), (IH (0 + Z.b2z b)). lia.
Qed.

Lemma count_true_app l1 l2 : count_true (l1 ++ l2) = count_true l1 + count_true l2.
Proof. unfold count_true at 1. rewrite fold_left_app. apply count_true_acc. Qed.

(** Setting one [false] cell to [true] adds one to the count. *)
Lemma count_true_set (g : Z -> bool) n k :
  0 <= k < n -> g k = false ->
  count_true (map (fun j => if j =? k then true else g j) (zseq n)) = count_true (map g (zseq n)) + 1.
Proof.
  intros Hk Hg. unfold zseq. remember (Z.to_nat n) as m. assert (Hkm : (Z.to_nat k < m)%nat) by lia.
  assert (Hk0 : 0 <= k) by lia. clear Heqm Hk. induction m as [|m IH]; [lia|].
  rewrite seq_S, !map_app, !count_true_app. cbn [map plus].
  destruct (Nat.eq_dec (Z.to_nat k) m) as [<-|Hne].
  - rewrite Z2Nat.id, Z.eqb_refl, Hg by lia.
    rewrite (map_ext_in _ g); [change (count_true [true]) with 1; change (count_true [false]) with 0; lia|].
    intros j Hj. apply in_map_iff in Hj as (i & <- & Hi). apply in_seq in Hi.
    destruct (Z.eqb_spec (Z.of_nat i) k); [lia|reflexivity].
  - rewrite IH by lia. destruct (Z.eqb_spec (Z.of_nat m) k); [lia|]. lia.
Qed.

Lemma attacks_sym p q : attacks p q = attacks q p.
Proof.
  unfold attacks. rewrite (Z.eqb_sym (fst p)), (Z.eqb_sym (snd p)), (Z.eqb_sym (fst p - snd p)),
    (Z.eqb_sym (fst p + snd p)). reflexivity.
Qed.

Lemma attacks_row p q : fst p = fst q -> attacks p q = true.
Proof. intros E. unfold attacks. rewrite E, Z.eqb_refl. reflexivity. Qed.

Lemma attacked_false P q : attacked P q = false <-> forall p, In p P -> attacks p q = false.
Proof.
  unfold attacked. rewrite <- not_true_iff_false, existsb_exists. split.
  - intros H p Hp. apply not_true_iff_false. intros E. apply H. exists p. split; assumption.
  - intros H (p & Hp & E). rewrite H in E by exact Hp. discriminate.
Qed.

Lemma occupied_In P r c : occupied P (r, c) = true <-> In (r, c) P.
Proof.
  unfold occupied. rewrite existsb_exists. split.
  - intros ([r' c'] & Hin & E). apply andb_true_iff in E as [E1 E2].
    apply Z.eqb_eq in E1, E2. cbn in E1, E2. subst. exact Hin.
  - intros Hin. exists (r, c). split; [exact Hin|]. cbn. rewrite !Z.eqb_refl. reflexivity.
Qed.

(** Two different queens of a non-attacking placement do not attack
    each other; in particular no two share a row. *)
Lemma non_attacking_pair P p q :
  non_attacking P -> In p P -> In q P -> p <> q -> attacks p q = false.
Proof.
  induction P as [|x P IH]; cbn [non_attacking In]; [tauto|]. intros [Hx HN] Hp Hq Hne.
  rewrite attacked_false in Hx. destruct Hp as [<-|Hp], Hq as [<-|Hq].
  - congruence.
  - rewrite attacks_sym. apply Hx, Hq.
  - apply Hx, Hp.
  - apply IH; assumption.
Qed.

Lemma non_attacking_rows P : non_attacking P -> NoDup (map fst P).
Proof.
  induction P as [|x P IH]; cbn [non_attacking map]; intros HN; [constructor|].
  destruct HN as [Hx HN]. constructor; [|apply IH, HN].
  intros Hin. apply in_map_iff in Hin as (y & Hy & Hin). rewrite attacked_false in Hx.
  pose proof (Hx y Hin) as E. rewrite attacks_row in E by exact Hy. discriminate.
Qed.

Lemma occupied_attacked P q : occupied P q = true -> attacked P q = true.
Proof.
  unfold occupied, attacked. rewrite !existsb_exists. intros (x & Hx & E). exists x. split; [exact Hx|].
  apply andb_true_iff in E as [E _]. unfold attacks. rewrite E. reflexivity.
Qed.

(** Case analysis on the integer tests of a boolean goal. *)
Ltac bool_lia :=
  repeat match goal with
  | |- context [?a =? ?b] => destruct (Z.eqb_spec a b)
  | |- context [?a <=? ?b] => destruct (Z.leb_spec a b)
  | |- context [?a <? ?b] => destruct (Z.ltb_spec a b)
  end; cbn [andb orb negb]; try reflexivity; try lia.

Section Boards.

Context (s : Z).
Hypothesis Hs : 0 <= s <= 9.

(** A 96-cell array whose cell [r * s + c] holds [f r c] on the board
    and [false] off it. *)
Definition board (f : Z -> Z -> bool) : list bool :=
  map (fun k => (k <? s * s) && f (k / s) (k mod s)) (zseq 96).

Lemma cell_div_mod r c : 0 <= r < s -> 0 <= c < s -> (r * s + c) / s = r /\ (r * s + c) mod s = c.
Proof.
  intros Hr Hc. split; [symmetry; apply (Z.div_unique _ _ _ c)|symmetry; apply (Z.mod_unique _ _ r)]; lia.
Qed.

Lemma board_ext f g :
  (forall r c, 0 <= r < s -> 0 <= c < s -> f r c = g r c) -> board f = board g.
Proof.
  intros H. unfold board. apply map_ext_in. intros k Hk. apply in_zseq in Hk.
  destruct (Z.ltb_spec k (s * s)); [|reflexivity]. cbn [andb].
  assert (0 < s) by nia.
  apply H; [split; [apply Z.div_pos; lia|apply Z.div_lt_upper_bound; lia]|apply Z.mod_pos_bound; lia].
Qed.

Lemma board_get f r c : 0 <= r < s -> 0 <= c < s -> vec_get (board f) (r * s + c) = Ok (f r c).
Proof.
  intros Hr Hc. unfold board. rewrite vec_get_zseq by nia.
  destruct (cell_div_mod r c Hr Hc) as [-> ->].
  destruct (Z.ltb_spec (r * s + c) (s * s)); [reflexivity|nia].
Qed.

Lemma board_set f r c :
  0 <= r < s -> 0 <= c < s ->
  vec_set (board f) (r * s + c) true = Ok (board (fun r' c' => f r' c' || (r' =? r) && (c' =? c))).
Proof.
  intros Hr Hc. unfold board. rewrite vec_set_zseq by nia. f_equal. apply map_ext_in.
  intros k Hk. apply in_zseq in Hk. destruct (Z.eqb_spec k (r * s + c)) as [->|Hne].
  - destruct (cell_div_mod r c Hr Hc) as [-> ->]. rewrite !Z.eqb_refl, orb_true_r.
    destruct (Z.ltb_spec (r * s + c) (s * s)); [reflexivity|nia].
  - destruct (Z.ltb_spec k (s * s)); [|reflexivity]. cbn [andb].
    assert (0 < s) by nia. pose proof (Z.div_mod k s ltac:(lia)).
    destruct (Z.eqb_spec (k / s) r), (Z.eqb_spec (k mod s) c); cbn [andb];
      rewrite ?orb_false_r; try reflexivity; nia.
Qed.

(** The row marks, after the first [m] columns. *)
Lemma row_marks f ri m :
  0 <= ri < s -> (Z.of_nat m <= s) ->
  rfold (fun r cii => vec_set r (ri * s + cii) true) (map Z.of_nat (seq 0 m)) (board f)
  = Ok (board (fun r c => f r c || (r =? ri) && (c <? Z.of_nat m))).
Proof.
  intros Hri. induction m as [|m IH]; intros Hm.
  - cbn [seq map rfold]. f_equal. apply board_ext. intros r c Hr Hc. bool_lia; rewrite orb_false_r; reflexivity.
  - rewrite seq_S, map_app, rfold_app, IH by lia. cbn [rbind map rfold].
    rewrite board_set by lia. cbn [rbind]. f_equal. apply board_ext. intros r c Hr Hc.
    destruct (f r c); [reflexivity|]. cbn [orb]. bool_lia.
Qed.

(** The column marks, after the first [m] rows. *)
Lemma col_marks f ci m :
  0 <= ci < s -> (Z.of_nat m <= s) ->
  rfold (fun r rii => vec_set r (rii * s + ci) true) (map Z.of_nat (seq 0 m)) (board f)
  = Ok (board (fun r c => f r c || (c =? ci) && (r <? Z.of_nat m))).
Proof.
  intros Hci. induction m as [|m IH]; intros Hm.
  - cbn [seq map rfold]. f_equal. apply board_ext. intros r c Hr Hc. bool_lia; rewrite orb_false_r; reflexivity.
  - rewrite seq_S, map_app, rfold_app, IH by lia. cbn [rbind map rfold].
    rewrite board_set by lia. cbn [rbind]. f_equal. apply board_ext. intros r c Hr Hc.
    destruct (f r c); [reflexivity|]. cbn [orb]. bool_lia.
Qed.

Definition inb (r c : Z) : bool := (r <? s) && (c <? s) && (0 <=? r) && (0 <=? c).

(** The cells [(a + t dr, b + t dc)] of a diagonal ray, [t >= t0]. *)
Definition ray (a b dr dc t0 : Z) (r c : Z) : bool :=
  let t := (r - a) * dr in (t0 <=? t) && (c =? b + t * dc).

Lemma mark_while_ray cond dr dc a b :
  (dr = 1 \/ dr = -1) -> (dc = 1 \/ dc = -1) -> 0 <= a < s -> 0 <= b < s ->
  (forall t, 0 <= t -> cond (a + t * dr) (b + t * dc) = inb (a + t * dr) (b + t * dc)) ->
  forall fuel t0 x y f, 0 <= t0 -> s <= Z.of_nat fuel + t0 -> x = a + t0 * dr -> y = b + t0 * dc ->
  mark_while fuel cond dr dc s x y (board f) = Ok (board (fun r c => f r c || ray a b dr dc t0 r c)).
Proof.
  intros Hdr Hdc Ha Hb Hcond. induction fuel as [|fuel IH]; intros t0 x y f Ht0 Hf -> ->;
    cbn [mark_while]; rewrite (Hcond t0 Ht0); unfold inb.
  - destruct (_ && _) eqn:E.
    + apply andb_true_iff in E as [E E4]. apply andb_true_iff in E as [E E3].
      apply andb_true_iff in E as [E1 E2]. rewrite Z.ltb_lt in E1, E2. rewrite Z.leb_le in E3, E4.
      exfalso. destruct Hdr as [->| ->]; lia.
    + f_equal. apply board_ext. intros r c Hr Hc. destruct (f r c); [reflexivity|]. cbn [orb].
      symmetry. unfold ray. apply not_true_iff_false. intros Hray. apply andb_true_iff in Hray as [H1 H2].
      rewrite Z.leb_le in H1. rewrite Z.eqb_eq in H2. apply not_true_iff_false in E. apply E.
      destruct Hdr as [->| ->], Hdc as [->| ->]; bool_lia.
  - destruct (_ && _) eqn:E.
    + apply andb_true_iff in E as [E E4]. apply andb_true_iff in E as [E E3].
      apply andb_true_iff in E as [E1 E2]. rewrite Z.ltb_lt in E1, E2. rewrite Z.leb_le in E3, E4.
      rewrite board_set by lia. cbn [rbind].
      rewrite (IH (t0 + 1)) by lia. f_equal. apply board_ext. intros r c _ _.
      destruct (f r c); [reflexivity|]. cbn [orb]. unfold ray.
      destruct Hdr as [->| ->], Hdc as [->| ->]; bool_lia.
    + f_equal. apply board_ext. intros r c Hr Hc. destruct (f r c); [reflexivity|]. cbn [orb].
      symmetry. unfold ray. apply not_true_iff_false. intros Hray. apply andb_true_iff in Hray as [H1 H2].
      rewrite Z.leb_le in H1. rewrite Z.eqb_eq in H2. apply not_true_iff_false in E. apply E.
      destruct Hdr as [->| ->], Hdc as [->| ->]; bool_lia.
Qed.

Ltac ray_side := first [left; reflexivity | right; reflexivity | intros ? ?; unfold inb; bool_lia | lia].

(** The marks of a queen: its row, column and both diagonals on the
    board, the fuel of the diagonal loops being enough. *)
Lemma restrict_spec f ri ci :
  0 <= ri < s -> 0 <= ci < s ->
  restrict s ri ci (board f) = Ok (board (fun r c => f r c || attacks (ri, ci) (r, c))).
Proof.
  intros Hri Hci. unfold restrict. cbv beta zeta. unfold zseq.
  rewrite row_marks by lia. cbn [rbind]. rewrite col_marks by lia. cbn [rbind].
  rewrite (mark_while_ray _ 1 1 ri ci) with (t0 := 0) by ray_side. cbn [rbind].
  rewrite (mark_while_ray _ (-1) (-1) ri ci) with (t0 := 0) by ray_side. cbn [rbind].
  rewrite (mark_while_ray _ 1 (-1) ri ci) with (t0 := 0) by ray_side. cbn [rbind].
  rewrite (mark_while_ray _ (-1) 1 ri ci) with (t0 := 0) by ray_side.
  f_equal. apply board_ext. intros r c Hr Hc. destruct (f r c); [reflexivity|]. cbn [orb].
  unfold ray, attacks; cbn [fst snd]. apply eq_true_iff_eq.
  rewrite !orb_true_iff, !andb_true_iff, !Z.eqb_eq, !Z.leb_le, !Z.ltb_lt. split; intros; lia.
Qed.

(** Placing a queen on a free cell adds one to the count. *)
Lemma count_board_set f a b :
  0 <= a < s -> 0 <= b < s -> f a b = false ->
  count_true (board (fun r c => f r c || (r =? a) && (c =? b))) = count_true (board f) + 1.
Proof.
  intros Ha Hb Hf. pose proof (board_set f a b Ha Hb) as E. unfold board at 1 in E.
  rewrite vec_set_zseq in E by nia. rewrite <- (Ok_inj E). unfold board.
  apply count_true_set; [nia|]. destruct (cell_div_mod a b Ha Hb) as [-> ->]. rewrite Hf. apply andb_false_r.
Qed.

(** The three arrays of a placement [P]. *)
Definition qboard (P : list cell) : list bool := board (fun r c => occupied P (r, c)).
Definition rboard (P : list cell) : list bool := board (fun r c => attacked P (r, c)).
Definition rwboard (P : list cell) : list bool := map (row_filled P) (zseq 16).

Definition placed (P : list cell) : Prop :=
  Forall (fun q => 0 <= fst q < s /\ 0 <= snd q < s) P /\ non_attacking P.

Lemma board_false : board (fun _ _ => false) = repeat false 96.
Proof. unfold board. rewrite (map_ext _ (fun _ => false)) by (intros; apply andb_false_r). reflexivity. Qed.

Lemma qboard_set P a b :
  0 <= a < s -> 0 <= b < s -> vec_set (qboard P) (a * s + b) true = Ok (qboard ((a, b) :: P)).
Proof.
  intros Ha Hb. unfold qboard. rewrite board_set by assumption. f_equal. apply board_ext.
  intros r c _ _. unfold occupied. cbn [existsb fst snd]. rewrite orb_comm, (Z.eqb_sym a r), (Z.eqb_sym b c).
  reflexivity.
Qed.

Lemma rboard_restrict P a b :
  0 <= a < s -> 0 <= b < s -> restrict s a b (rboard P) = Ok (rboard ((a, b) :: P)).
Proof.
  intros Ha Hb. unfold rboard. rewrite restrict_spec by assumption. f_equal. apply board_ext.
  intros r c _ _. unfold attacked. cbn [existsb]. apply orb_comm.
Qed.

Lemma rwboard_set P a b : 0 <= a < s -> vec_set (rwboard P) a true = Ok (rwboard ((a, b) :: P)).
Proof.
  intros Ha. unfold rwboard. rewrite vec_set_zseq by lia. f_equal. apply map_ext. intros j.
  unfold row_filled. cbn [existsb fst]. rewrite (Z.eqb_sym a j). destruct (j =? a); reflexivity.
Qed.

Lemma count_qboard P : placed P -> count_true (qboard P) = Z.of_nat (length P).
Proof.
  induction P as [|[a b] P IH]; intros [HF HN].
  - unfold qboard. change (board _) with (board (fun _ _ => false)). rewrite board_false. reflexivity.
  - inversion HF as [|? ? [Ha Hb] HF']; subst. destruct HN as [Hq HN]. cbn [fst snd] in Ha, Hb.
    unfold qboard. rewrite (board_ext _ (fun r c => occupied P (r, c) || (r =? a) && (c =? b))).
    + rewrite count_board_set by (try assumption; apply not_true_iff_false; intros E;
        apply occupied_attacked in E; congruence).
      fold (qboard P). rewrite IH by (split; assumption). cbn [length]. lia.
    + intros r c _ _. unfold occupied. cbn [existsb fst snd].
      rewrite orb_comm, (Z.eqb_sym a r), (Z.eqb_sym b c). reflexivity.
Qed.

Lemma answer_qboard P : answer (qboard P) s = Ok (render s P).
Proof.
  unfold answer, render.
  apply rmap_ok. intros r Hr. apply in_zseq in Hr.
  rewrite (rmap_ok _ (fun c => occupied P (r, c))); [cbn [rbind]; rewrite map_map; reflexivity|].
  intros c Hc. apply in_zseq in Hc. unfold to_uint8. rewrite Z.mod_small by nia.
  apply board_get; assumption.
Qed.

(** The recursive call after a queen at [(r, c)] continues with [next]. *)
Definition continues (recur : list bool -> list bool -> list bool -> boards -> result boards)
  (next : cell -> list (list cell)) (P : list cell) : Prop :=
  forall r c ans, 0 <= r < s -> 0 <= c < s -> attacked P (r, c) = false ->
  recur (rwboard ((r, c) :: P)) (qboard ((r, c) :: P)) (rboard ((r, c) :: P)) ans
  = Ok (ans ++ map (render s) (next (r, c))).

Lemma col_loop_spec recur next P r :
  continues recur next P -> 0 <= r < s ->
  forall cs ans, (forall c, In c cs -> 0 <= c < s) ->
  rfold (col_step recur s r (rwboard P) (qboard P) (rboard P)) cs ans
  = Ok (ans ++ map (render s) (flat_map (fun c => if attacked P (r, c) then [] else next (r, c)) cs)).
Proof.
  intros Hrec Hr. induction cs as [|c cs IH]; intros ans Hcs; cbn [rfold flat_map].
  - rewrite app_nil_r. reflexivity.
  - assert (Hc : 0 <= c < s) by (apply Hcs; left; reflexivity).
    unfold col_step at 1. unfold rboard at 1. rewrite board_get by assumption. fold (rboard P).
    cbn [rbind]. destruct (attacked P (r, c)) eqn:E.
    + apply IH. intros; apply Hcs; right; assumption.
    + rewrite rboard_restrict, qboard_set, (rwboard_set _ _ c) by lia. cbn [rbind].
      rewrite Hrec by assumption. cbn [rbind]. rewrite IH by (intros; apply Hcs; right; assumption).
      rewrite map_app, app_assoc. reflexivity.
Qed.

Lemma row_loop_spec recur next P :
  continues recur next P ->
  forall rs ans, (forall r, In r rs -> 0 <= r < s) ->
  row_loop recur s (rwboard P) (qboard P) (rboard P) rs ans
  = Ok (ans ++ map (render s) (search_rows next P s rs)).
Proof.
  intros Hrec. induction rs as [|r rs IH]; intros ans Hrs; cbn [row_loop search_rows].
  - rewrite app_nil_r. reflexivity.
  - assert (Hr : 0 <= r < s) by (apply Hrs; left; reflexivity).
    unfold rwboard at 1. rewrite vec_get_zseq by lia. fold (rwboard P). cbn [rbind].
    destruct (row_filled P r).
    + rewrite app_nil_r. reflexivity.
    + rewrite (col_loop_spec _ next) by (try assumption; intros c Hc; apply in_zseq; exact Hc).
      cbn [rbind]. rewrite IH by (intros; apply Hrs; right; assumption).
      rewrite map_app, app_assoc. reflexivity.
Qed.

(** The recursion with [left] queens still to place refines [search]. *)
Lemma solve_rec_spec left : forall P ans,
  placed P -> Z.of_nat (length P + left) = s ->
  solveNQueensRec left s (rwboard P) (qboard P) (rboard P) ans = Ok (ans ++ map (render s) (search left s P)).
Proof.
  induction left as [|left IH]; intros P ans HP Hlen; cbn [solveNQueensRec search].
  - rewrite count_qboard by assumption. rewrite (proj2 (Z.eqb_eq _ _)) by lia. cbn [negb].
    rewrite answer_qboard. reflexivity.
  - apply row_loop_spec; [|intros r Hr; apply in_zseq; exact Hr].
    intros r c ans' Hr Hc Hatt. destruct HP as [HF HN]. apply IH.
    + split; [constructor; [split; assumption|exact HF]|split; assumption].
    + cbn [length]. lia.
Qed.

Lemma solve_top_spec :
  solveNQueensRec (Z.to_nat s) s (repeat false 16) (repeat false 96) (repeat false 96) []
  = Ok (map (render s) (search (Z.to_nat s) s [])).
Proof.
  rewrite <- board_false. change (repeat false 16) with (rwboard []).
  change (board _) with (qboard []) at 1. change (board _) with (rboard []).
  apply solve_rec_spec; [split; [constructor|exact I]|cbn [length]; lia].
Qed.

(** Every placement [search] returns extends [P] to a placement of
    [left] more queens. *)
Lemma search_rows_In next P rs X :
  In X (search_rows next P s rs) ->
  exists r c, In r rs /\ 0 <= c < s /\ attacked P (r, c) = false /\ In X (next (r, c)).
Proof.
  induction rs as [|r rs IH]; cbn [search_rows]; [intros []|].
  destruct (row_filled P r); [intros []|]. intros HX. apply in_app_or in HX as [HX|HX].
  - apply in_flat_map in HX as (c & Hc & HX). apply in_zseq in Hc.
    destruct (attacked P (r, c)) eqn:E; [destruct HX|].
    exists r, c. repeat split; try assumption; try lia. left; reflexivity.
  - destruct (IH HX) as (r' & c & ? & ? & ? & ?). exists r', c. repeat split; try assumption; try lia. right; assumption.
Qed.

Lemma search_sound left : forall P X,
  In X (search left s P) -> placed P -> placed X /\ length X = (length P + left)%nat.
Proof.
  induction left as [|left IH]; intros P X HX HP; cbn [search] in HX.
  - destruct HX as [<-|[]]. split; [exact HP|lia].
  - apply search_rows_In in HX as (r & c & Hr & Hc & Hatt & HX). apply in_zseq in Hr.
    destruct HP as [HF HN]. destruct (IH _ _ HX) as [HX' Hlen].
    + split; [constructor; [split; assumption|exact HF]|split; assumption].
    + split; [exact HX'|]. cbn [length] in Hlen. lia.
Qed.

(** [search_rows] reaches a queen at [(r, c)] when no row up to [r]
    holds a queen yet. *)
Lemma search_rows_intro next Q r c X :
  0 <= r < s -> 0 <= c < s -> attacked Q (r, c) = false ->
  (forall r', 0 <= r' <= r -> row_filled Q r' = false) -> In X (next (r, c)) ->
  In X (search_rows next Q s (zseq s)).
Proof.
  intros Hr Hc Hatt Hrows HX.
  assert (H : forall len a, (a <= Z.to_nat r < a + len)%nat ->
              In X (search_rows next Q s (map Z.of_nat (seq a len)))).
  { induction len as [|len IH]; intros a Ha; [lia|]. cbn [seq map search_rows].
    rewrite Hrows by lia. apply in_or_app.
    destruct (Nat.eq_dec a (Z.to_nat r)) as [->|Hne].
    - left. apply in_flat_map. exists c. split; [apply in_zseq; exact Hc|].
      rewrite Z2Nat.id, Hatt by lia. exact HX.
    - right. apply IH. lia. }
  apply H. lia.
Qed.

Lemma render_ext P Q :
  (forall r c, 0 <= r < s -> 0 <= c < s -> occupied P (r, c) = occupied Q (r, c)) ->
  render s P = render s Q.
Proof.
  intros H. unfold render. apply map_ext_in. intros r Hr. apply in_zseq in Hr. f_equal.
  apply map_ext_in. intros c Hc. apply in_zseq in Hc. rewrite H by assumption. reflexivity.
Qed.

(** A solution [P], given in any order, has one queen per row; listed
    row by row from the last it is a placement [search] returns. *)
Section Complete.

Variable P : list cell.
Hypothesis HP : solution s P.

Lemma every_row r : 0 <= r < s -> exists c, In (r, c) P.
Proof.
  intros Hr. destruct HP as (Hlen & HF & HN).
  assert (Hincl : incl (zseq s) (map fst P)).
  { apply NoDup_length_incl; [apply non_attacking_rows, HN|rewrite zseq_length, length_map, <- Hlen, Nat2Z.id; reflexivity|].
    intros x Hx. apply in_map_iff in Hx as (q & <- & Hq). apply in_zseq.
    rewrite Forall_forall in HF. apply HF, Hq. }
  pose proof (Hincl r (proj2 (in_zseq _ _) Hr)) as Hin.
  apply in_map_iff in Hin as ([r' c] & E & Hq).
  cbn in E. subst r'. exists c. exact Hq.
Qed.

Definition col_of (r : Z) : Z :=
  match find (fun q => fst q =? r) P with Some q => snd q | None => 0 end.

Lemma col_of_In r : 0 <= r < s -> In (r, col_of r) P.
Proof.
  intros Hr. unfold col_of. destruct (find (fun q => fst q =? r) P) as [[r' c]|] eqn:E.
  - apply find_some in E as [Hin Eq]. apply Z.eqb_eq in Eq. cbn in *. subst. exact Hin.
  - exfalso. destruct (every_row r Hr) as [c Hc]. apply (find_none _ _ E) in Hc.
    cbn in Hc. rewrite Z.eqb_refl in Hc. discriminate.
Qed.

Lemma col_of_unique r c : In (r, c) P -> c = col_of r.
Proof.
  intros Hin. destruct HP as (_ & HF & HN). rewrite Forall_forall in HF. destruct (HF _ Hin) as [Hr _].
  destruct (Z.eq_dec c (col_of r)) as [E|Hne]; [exact E|exfalso].
  pose proof (non_attacking_pair P _ _ HN Hin (col_of_In r Hr)) as E.
  rewrite attacks_row in E by reflexivity. discriminate E. congruence.
Qed.

(** The queens of the rows [j .. s - 1], row [j] first. *)
Definition canon (j : nat) : list cell :=
  map (fun k => (Z.of_nat k, col_of (Z.of_nat k))) (seq j (Z.to_nat s - j)).

Lemma canon_S j : (j < Z.to_nat s)%nat -> canon j = (Z.of_nat j, col_of (Z.of_nat j)) :: canon (S j).
Proof. intros Hj. unfold canon. replace (Z.to_nat s - j)%nat with (S (Z.to_nat s - S j)) by lia. reflexivity. Qed.

Lemma canon_search j : (j <= Z.to_nat s)%nat -> In (canon 0) (search j s (canon j)).
Proof.
  destruct HP as (_ & _ & HN).
  induction j as [|j IH]; intros Hj; [left; reflexivity|]. cbn [search].
  apply (search_rows_intro _ _ (Z.of_nat j) (col_of (Z.of_nat j))).
  - lia.
  - destruct HP as (_ & HF & _). rewrite Forall_forall in HF.
    destruct (HF (Z.of_nat j, col_of (Z.of_nat j))) as [_ Hc]; [apply col_of_In; lia|exact Hc].
  - apply attacked_false. intros y Hy. unfold canon in Hy.
    apply in_map_iff in Hy as (k & <- & Hk). apply in_seq in Hk.
    apply (non_attacking_pair P); [exact HN|apply col_of_In; lia|apply col_of_In; lia|].
    intros E. injection E as E _. lia.
  - intros r' Hr'. unfold row_filled. apply not_true_iff_false. rewrite existsb_exists.
    intros (y & Hy & E). unfold canon in Hy. apply in_map_iff in Hy as (k & <- & Hk).
    apply in_seq in Hk. cbn in E. apply Z.eqb_eq in E. lia.
  - rewrite <- canon_S by lia. apply IH. lia.
Qed.

Lemma render_canon : render s (canon 0) = render s P.
Proof.
  apply render_ext. intros r c Hr Hc. apply eq_true_iff_eq. rewrite !occupied_In. split.
  - unfold canon. intros Hin. apply in_map_iff in Hin as (k & E & Hk). injection E as <- <-.
    apply in_seq in Hk. apply col_of_In. lia.
  - intros Hin. rewrite (col_of_unique r c Hin). unfold canon. apply in_map_iff.
    exists (Z.to_nat r). rewrite Z2Nat.id by lia. split; [reflexivity|]. apply in_seq. lia.
Qed.

Lemma search_complete : In (render s P) (map (render s) (search (Z.to_nat s) s [])).
Proof.
  rewrite <- render_canon. apply in_map.
  replace (@nil cell) with (canon (Z.to_nat s)) by (unfold canon; rewrite Nat.sub_diag; reflexivity).
  apply canon_search. lia.
Qed.

End Complete.

End Boards.

(** ** The solver's contract *)

Lemma to_uint8_small n : 0 <= n <= 9 -> to_uint8 n = n.
Proof. intros Hn. unfold to_uint8. apply Z.mod_small. lia. Qed.

(** C17 Refinement: for every [0 <= n <= 9] the solver returns, in
    order, the boards of the placements [search] enumerates. *)
Theorem solveNQueens_search n :
  0 <= n <= 9 -> solveNQueens n = Ok (map (render n) (search (Z.to_nat n) n [])).
Proof. intros Hn. unfold solveNQueens. rewrite to_uint8_small by exact Hn. apply solve_top_spec, Hn. Qed.

Lemma search_solution n P : 0 <= n -> In P (search (Z.to_nat n) n []) -> solution n P.
Proof.
  intros Hn HP. destruct (search_sound n (Z.to_nat n) [] P HP) as [[HF HN] Hlen];
    [split; [constructor|exact I]|].
  split; [cbn [length] in Hlen; lia|split; assumption].
Qed.

(** C8 Correctness: for every [0 <= n <= 9] the solver returns a list
    of boards, and a board is in it exactly when it is the board of a
    solution of the [n]-queens problem ([n] queens on the [n x n] board
    no two of which attack each other, given in any order). *)
Theorem solveNQueens_correct n :
  0 <= n <= 9 ->
  exists bs, solveNQueens n = Ok bs /\
             forall b, In b bs <-> exists P, solution n P /\ b = render n P.
Proof.
  intros Hn. unfold solveNQueens. rewrite to_uint8_small, solve_top_spec by exact Hn.
  eexists. split; [reflexivity|]. intros b. split.
  - intros Hb. apply in_map_iff in Hb as (P & <- & HP). exists P. split; [|reflexivity].
    apply search_solution; [lia|exact HP].
  - intros (P & HP & ->). apply search_complete; assumption.
Qed.

(** The four-queens boards, in the order the search finds them. *)
Example solveNQueens_4 :
  solveNQueens 4 = Ok [["..Q."; "Q..."; "...Q"; ".Q.."]; [".Q.."; "...Q"; "Q..."; "..Q."]]%string.
Proof. vm_compute. reflexivity. Qed.

(** Ten queens overflow the 96-cell arrays: the first diagonal loop
    of the queen at [(0, 0)] writes cell [99], undefined behaviour. *)
Example solveNQueens_10_oob : solveNQueens 10 = Err (Undefined OutOfBoundsAccess).
Proof. vm_compute. reflexivity. Qed.

(** [main] runs without undefined behaviour and exits with 0. *)
Lemma main_exits_0 : main = Ok 0.
Proof.
  unfold main, solveNQueens. rewrite to_uint8_small, solve_top_spec by lia. reflexivity.
Qed.

Lemma solveNQueens_search_witness :
  0 <= 6 <= 9 /\ solveNQueens 6 = Ok (map (render 6) (search 6 6 [])).
Proof. split; [lia|apply (solveNQueens_search 6); lia]. Defined.

Lemma solveNQueens_correct_witness :
  0 <= 4 <= 9 /\
  exists bs, solveNQueens 4 = Ok bs /\
             forall b, In b bs <-> exists P, solution 4 P /\ b = render 4 P.
Proof. split; [lia|apply (solveNQueens_correct 4); lia]. Defined.
