(* ===== verification/Itertools.v ===== *)
(** * The iterator utilities of [components/include/itertools.h]

    [IteratorRange], [enumerate] and [zip] are seen by their callers only
    through a range-based [for] loop.  The iterators are instances of a
    class [ForwardIterator] (the [operator!=], [operator++] and
    [operator*] a range [for] uses), with an instance for the iterators
    of a [std::vector] and one for each of the iterators [enumerate] and
    [zip] build; [range_for] is the loop, collecting the values its body
    receives.  Dereferencing a vector iterator at or past the end is
    undefined behaviour.

    [zip]'s [operator!=] is the disjunction of its iterators'
    inequalities: over containers of different sizes it goes on past the
    end of the shorter one and dereferences it ([zip_spec]).  The two tests
    of [components/tests/test-itertools.cpp] are modelled and pass. *)

From Stdlib Require Import ZArith Bool List Lia String.
From S2P Require Import Prelude.
Import ListNotations.
Open Scope Z_scope.
Open Scope jpeg_scope.
Open Scope bool_scope.

(** The operations a range-based [for] applies to an iterator. *)
Class ForwardIterator (It T : Type) := {
  it_neq : It -> It -> bool;
  it_incr : It -> It;
  it_deref : It -> result T
}.

(** [for (auto x : range)]: the values the body receives, in order. *)
Fixpoint range_for {It T : Type} `{ForwardIterator It T} (fuel : nat) (it last : It)
  : result (list T) :=
  if it_neq it last then
    match fuel with
    | O => Err OutOfFuel
    | S fuel' =>
        let? x := it_deref it in
        let? xs := range_for fuel' (it_incr it) last in
        Ok (x :: xs)
    end
  else Ok [].

(** [IteratorRange]: a pair of iterators handed out by [begin()] and
    [end()]. *)
Record IteratorRange (It : Type) := mk_range { begin_ : It; end_ : It }.
Arguments mk_range {It} begin_ end_.
Arguments begin_ {It}.
Arguments end_ {It}.

(** A [std::vector<T>::const_iterator]: the vector and a position. *)
Record vec_iter (T : Type) := mk_vec_iter { vi_vec : list T; vi_pos : nat }.
Arguments mk_vec_iter {T} vi_vec vi_pos.
Arguments vi_vec {T}.
Arguments vi_pos {T}.

#[export] Instance vec_forward {T : Type} : ForwardIterator (vec_iter T) T := {
  it_neq a b := negb (Nat.eqb (vi_pos a) (vi_pos b));
  it_incr a := mk_vec_iter (vi_vec a) (S (vi_pos a));
  it_deref a := match nth_error (vi_vec a) (vi_pos a) with
                | Some x => Ok x
                | None => Err (Undefined OutOfBoundsAccess)
                end
}.

Definition vbegin {T : Type} (v : list T) : vec_iter T := mk_vec_iter v 0.
Definition vend {T : Type} (v : list T) : vec_iter T := mk_vec_iter v (List.length v).

(** [enumerate]'s iterator: a [size_t] counter beside the wrapped
    iterator, compared on the wrapped iterator only. *)
Record enum_iter (It : Type) := mk_enum_iter { ei_i : Z; ei_iter : It }.
Arguments mk_enum_iter {It} ei_i ei_iter.
Arguments ei_i {It}.
Arguments ei_iter {It}.

#[export] Instance enum_forward {It T : Type} `{ForwardIterator It T}
  : ForwardIterator (enum_iter It) (Z * T) := {
  it_neq a b := it_neq (ei_iter a) (ei_iter b);
  it_incr a := mk_enum_iter (ei_i a + 1) (it_incr (ei_iter a));
  it_deref a := let? x := it_deref (ei_iter a) in Ok (ei_i a, x)
}.

(** [enumerate(iterable)]: its [Wrapper]'s [begin()] and [end()]. *)
Definition enumerate {T : Type} (v : list T) : IteratorRange (enum_iter (vec_iter T)) :=
  mk_range (mk_enum_iter 0 (vbegin v)) (mk_enum_iter 0 (vend v)).

(** [zip_internal::Iterator] of two containers: [!=] is true when any
    of the iterators differs. *)
#[export] Instance zip_forward {It1 T1 It2 T2 : Type}
  `{ForwardIterator It1 T1} `{ForwardIterator It2 T2}
  : ForwardIterator (It1 * It2) (T1 * T2) := {
  it_neq a b := it_neq (fst a) (fst b) || it_neq (snd a) (snd b);
  it_incr a := (it_incr (fst a), it_incr (snd a));
  it_deref a := let? x := it_deref (fst a) in let? y := it_deref (snd a) in Ok (x, y)
}.

(** [zip(c1, c2)]: its [Wrapper]'s [begin()] and [end()]. *)
Definition zip {T1 T2 : Type} (v1 : list T1) (v2 : list T2)
  : IteratorRange (vec_iter T1 * vec_iter T2) :=
  mk_range (vbegin v1, vbegin v2) (vend v1, vend v2).

(** A range [for] over a range. *)
Definition for_range {It T : Type} `{ForwardIterator It T} (fuel : nat) (r : IteratorRange It)
  : result (list T) :=
  range_for fuel (begin_ r) (end_ r).

(** [enumerate] and [zip] of anything with [begin()] and [end()], such as
    the [Wrapper] another [zip] returns. *)
Definition enumerate_of {It : Type} (r : IteratorRange It) : IteratorRange (enum_iter It) :=
  mk_range (mk_enum_iter 0 (begin_ r)) (mk_enum_iter 0 (end_ r)).

Definition zip_of {It1 It2 : Type} (r1 : IteratorRange It1) (r2 : IteratorRange It2)
  : IteratorRange (It1 * It2) :=
  mk_range (begin_ r1, begin_ r2) (end_ r1, end_ r2).

(** [TEST(ItertoolsEnum, Simple)]: [Ok true] when every [ASSERT_EQ]
    holds. *)
Definition test_ItertoolsEnum_Simple : result bool :=
  let iter1 := ["a"; "ab"; "bb"; "bz"]%string in
  let iter2 := rev iter1 in
  let? e1 := for_range (S (List.length iter1)) (enumerate iter1) in
  let? ok1 := rfold (fun ok '(idx, it1) =>
                       let? x := vec_get iter1 idx in Ok (ok && String.eqb x it1)) e1 true in
  let? e2 := for_range (S (List.length iter2)) (enumerate iter2) in
  let? ok2 := rfold (fun ok '(idx, it2) =>
                       let? x := vec_get iter1 (Z.of_nat (List.length iter1) - idx - 1) in
                       Ok (ok && String.eqb x it2)) e2 true in
  Ok (ok1 && ok2).

(** [TEST(ItertoolsZip, Simple)]: [enumerate] over the [zip] of two
    [zip]s. *)
Definition test_ItertoolsZip_Simple : result bool :=
  let iter1 := ["a"; "ab"; "bb"; "bz"]%string in
  let iter2 := iter1 in
  let zip1 := zip iter1 iter2 in
  let zip2 := zip iter1 iter2 in
  let? es := for_range (S (List.length iter1)) (enumerate_of (zip_of zip1 zip2)) in
  Ok (forallb (fun '(_, (p1, p2)) => String.eqb (fst p1) (fst p2) && String.eqb (snd p1) (snd p2)) es).

(** ** A range [for] over a vector, [enumerate] and [zip] *)

Lemma nth_error_skipn_cons {T : Type} (v : list T) k x :
  nth_error v k = Some x -> skipn k v = x :: skipn (S k) v.
Proof.
  revert k. induction v as [|y v IH]; intros [|k] E; cbn in *; try discriminate.
  - injection E as ->. reflexivity.
  - apply IH, E.
Qed.

Lemma nth_error_lt {T : Type} (v : list T) k : (k < List.length v)%nat -> exists x, nth_error v k = Some x.
Proof. intros Hk. destruct (nth_error v k) eqn:E; [eauto|]. apply nth_error_None in E. lia. Qed.

(** The loop from position [k] receives the elements from [k] on. *)
Lemma range_for_vec_from {T : Type} (v : list T) : forall fuel k,
  (List.length v - k <= fuel)%nat -> (k <= List.length v)%nat ->
  range_for fuel (mk_vec_iter v k) (vend v) = Ok (skipn k v).
Proof.
  induction fuel as [|fuel IH]; intros k Hf Hk; cbn [range_for it_neq vec_forward vi_pos vend].
  - replace k with (List.length v) by lia. rewrite Nat.eqb_refl, skipn_all. reflexivity.
  - destruct (Nat.eqb_spec k (List.length v)) as [->|Hne]; cbn [negb].
    + rewrite skipn_all. reflexivity.
    + destruct (nth_error_lt v k) as [x Hx]; [lia|]. cbn [it_deref vec_forward vi_vec vi_pos it_incr].
      rewrite Hx. cbn [rbind]. rewrite IH by lia. cbn [rbind]. rewrite (nth_error_skipn_cons v k x Hx).
      reflexivity.
Qed.

Lemma range_for_enum_from {T : Type} (v : list T) : forall fuel k i,
  (List.length v - k <= fuel)%nat -> (k <= List.length v)%nat ->
  range_for fuel (mk_enum_iter i (mk_vec_iter v k)) (mk_enum_iter 0 (vend v))
  = Ok (combine (map (fun j => i + Z.of_nat j) (seq 0 (List.length v - k))) (skipn k v)).
Proof.
  induction fuel as [|fuel IH]; intros k i Hf Hk;
    cbn [range_for it_neq enum_forward vec_forward ei_iter vi_pos vend].
  - replace k with (List.length v) by lia. rewrite Nat.eqb_refl, skipn_all, combine_nil. reflexivity.
  - destruct (Nat.eqb_spec k (List.length v)) as [->|Hne]; cbn [negb].
    + rewrite skipn_all, combine_nil. reflexivity.
    + destruct (nth_error_lt v k) as [x Hx]; [lia|].
      cbn [it_deref enum_forward vec_forward ei_iter ei_i vi_vec vi_pos it_incr].
      rewrite Hx. cbn [rbind]. rewrite IH by lia. cbn [rbind].
      rewrite (nth_error_skipn_cons v k x Hx).
      replace (List.length v - k)%nat with (S (List.length v - S k)) by lia.
      cbn [seq map combine]. rewrite <- seq_shift, map_map, Z.add_0_r. do 3 f_equal.
      apply map_ext. intros j. lia.
Qed.

Lemma range_for_zip_from {T1 T2 : Type} (v1 : list T1) (v2 : list T2) : forall fuel k,
  List.length v1 = List.length v2 ->
  (List.length v1 - k <= fuel)%nat -> (k <= List.length v1)%nat ->
  range_for fuel (mk_vec_iter v1 k, mk_vec_iter v2 k) (vend v1, vend v2)
  = Ok (combine (skipn k v1) (skipn k v2)).
Proof.
  intros fuel k Hlen. revert k. induction fuel as [|fuel IH]; intros k Hf Hk;
    cbn [range_for it_neq zip_forward vec_forward fst snd vi_pos vend].
  - replace k with (List.length v1) by lia. rewrite <- Hlen, Nat.eqb_refl, !skipn_all2 by lia. reflexivity.
  - rewrite <- Hlen. destruct (Nat.eqb_spec k (List.length v1)) as [->|Hne]; cbn [negb orb].
    + rewrite !skipn_all2 by lia. reflexivity.
    + destruct (nth_error_lt v1 k) as [x Hx]; [lia|]. destruct (nth_error_lt v2 k) as [y Hy]; [lia|].
      cbn [it_deref zip_forward vec_forward fst snd vi_vec vi_pos it_incr].
      rewrite Hx, Hy. cbn [rbind]. rewrite IH by lia. cbn [rbind].
      rewrite (nth_error_skipn_cons v1 k x Hx), (nth_error_skipn_cons v2 k y Hy). reflexivity.
Qed.

Lemma range_for_zip_mismatch_from {T1 T2 : Type} (v1 : list T1) (v2 : list T2) : forall fuel k,
  List.length v1 <> List.length v2 ->
  (Nat.min (List.length v1) (List.length v2) - k < fuel)%nat ->
  (k <= Nat.min (List.length v1) (List.length v2))%nat ->
  range_for fuel (mk_vec_iter v1 k, mk_vec_iter v2 k) (vend v1, vend v2) = Err (Undefined OutOfBoundsAccess).
Proof.
  intros fuel k Hlen. revert k. induction fuel as [|fuel IH]; intros k Hf Hk; [lia|].
  cbn [range_for it_neq zip_forward vec_forward fst snd vi_pos vend].
  replace (negb (k =? List.length v1)%nat || negb (k =? List.length v2)%nat) with true
    by (destruct (Nat.eqb_spec k (List.length v1)), (Nat.eqb_spec k (List.length v2)); cbn; lia).
  cbn [it_deref zip_forward vec_forward fst snd vi_vec vi_pos it_incr].
  destruct (Nat.eq_dec k (Nat.min (List.length v1) (List.length v2))) as [->|Hne].
  - destruct (Nat.min_spec (List.length v1) (List.length v2)) as [[Hlt ->]|[Hge ->]].
    + rewrite (proj2 (nth_error_None v1 _)) by lia. reflexivity.
    + destruct (nth_error_lt v1 (List.length v2)) as [x Hx]; [lia|]. rewrite Hx. cbn [rbind].
      rewrite (proj2 (nth_error_None v2 _)) by lia. reflexivity.
  - destruct (nth_error_lt v1 k) as [x Hx]; [lia|]. destruct (nth_error_lt v2 k) as [y Hy]; [lia|].
    rewrite Hx, Hy. cbn [rbind]. rewrite IH by lia. reflexivity.
Qed.

(** [for (auto x : v)] over a vector receives its elements, given fuel
    for its length. *)
Lemma for_range_vec {T : Type} (v : list T) fuel :
  (List.length v <= fuel)%nat -> range_for fuel (vbegin v) (vend v) = Ok v.
Proof. intros Hf. apply range_for_vec_from; lia. Qed.

(** [enumerate(v)] pairs every element with its index. *)
Lemma for_range_enumerate {T : Type} (v : list T) fuel :
  (List.length v <= fuel)%nat ->
  for_range fuel (enumerate v) = Ok (combine (map Z.of_nat (seq 0 (List.length v))) v).
Proof.
  intros Hf. unfold for_range, enumerate. cbn [begin_ end_]. unfold vbegin.
  rewrite range_for_enum_from by lia. rewrite Nat.sub_0_r. reflexivity.
Qed.

(** C35 [zip(v1, v2)] pairs the elements of two vectors of one size, and
    dereferences the shorter one past its end when their sizes differ. *)
Theorem zip_spec {T1 T2 : Type} (v1 : list T1) (v2 : list T2) fuel :
  (List.length v1 < fuel)%nat -> (List.length v2 < fuel)%nat ->
  for_range fuel (zip v1 v2) =
  if (List.length v1 =? List.length v2)%nat then Ok (combine v1 v2)
  else Err (Undefined OutOfBoundsAccess).
Proof.
  intros H1 H2. unfold for_range, zip. cbn [begin_ end_]. unfold vbegin.
  destruct (Nat.eqb_spec (List.length v1) (List.length v2)) as [E|E].
  - apply range_for_zip_from; assumption || lia.
  - apply range_for_zip_mismatch_from; assumption || lia.
Qed.

Lemma zip_spec_witness :
  for_range 4 (zip [1; 2; 3] [true; false; true]) = Ok [(1, true); (2, false); (3, true)] /\
  for_range 4 (zip [1; 2; 3] [true]) = Err (Undefined OutOfBoundsAccess).
Proof.
  split; [apply (zip_spec [1; 2; 3] [true; false; true] 4)|apply (zip_spec [1; 2; 3] [true] 4)]; cbn; lia.
Defined.

(** The two tests of [test-itertools.cpp] pass. *)
Example test_itertools_pass : test_ItertoolsEnum_Simple = Ok true /\ test_ItertoolsZip_Simple = Ok true.
Proof. split; vm_compute; reflexivity. Qed.
