(* ===== verification/Traverse.v ===== *)
(** * Breadth-first search of [components/include/traverse.h]

    [traverses::BreadthFirstSearch(origin, graph, visitor)] keeps a
    [std::queue] of vertices and a [std::unordered_set] of the vertices
    pushed; it calls the visitor's [DiscoverVertex] when it pushes a
    vertex, [ExamineVertex] when it pops one and [ExamineEdge] on each
    outgoing edge.  The visitor is a record of three state-passing
    callbacks ([BfsVisitor], whose defaults do nothing, as the virtual
    methods of the class do); the graph is read through [OutgoingEdges],
    which sees the current state (the Aho-Corasick builder's graph is
    the automaton its visitors modify), and [GetTarget].

    The queue is a list popped at the front and pushed at the back, the
    set a list searched with the vertex equality [eqv].  The loop runs
    on fuel, one round per vertex popped.

    When the visitor leaves the graph's edges alone, the search is the
    visitor run over the event sequence of a pure breadth-first search
    ([BreadthFirstSearch_events]); on a tree that sequence is the level
    order ([bfs_trace_tree]), and its fuel is enough once it covers the
    vertices ([bfs_trace_fuel]). *)

From Stdlib Require Import ZArith Bool List Lia.
From S2P Require Import Prelude.
Import ListNotations.
Open Scope jpeg_scope.
Open Scope nat_scope.

(** The callbacks of [traverses::BfsVisitor]. *)
Record BfsVisitor (V E St : Type) := mk_visitor {
  DiscoverVertex : V -> St -> result St;
  ExamineEdge : E -> St -> result St;
  ExamineVertex : V -> St -> result St
}.
Arguments mk_visitor {V E St} DiscoverVertex ExamineEdge ExamineVertex.
Arguments DiscoverVertex {V E St}.
Arguments ExamineEdge {V E St}.
Arguments ExamineVertex {V E St}.

(** The defaults of the virtual methods: nothing happens. *)
Definition default_visitor {V E St : Type} : BfsVisitor V E St :=
  mk_visitor (fun _ s => Ok s) (fun _ s => Ok s) (fun _ s => Ok s).

(** What the search tells its visitor. *)
Inductive event (V E : Type) : Type :=
| EvDiscover (v : V)
| EvExamineVertex (v : V)
| EvExamineEdge (e : E).
Arguments EvDiscover {V E} v.
Arguments EvExamineVertex {V E} v.
Arguments EvExamineEdge {V E} e.

Definition apply_event {V E St : Type} (vis : BfsVisitor V E St) (ev : event V E) (s : St) : result St :=
  match ev with
  | EvDiscover v => DiscoverVertex vis v s
  | EvExamineVertex v => ExamineVertex vis v s
  | EvExamineEdge e => ExamineEdge vis e s
  end.

Definition run_events {V E St : Type} (vis : BfsVisitor V E St) (evs : list (event V E)) (s : St) : result St :=
  rfold (fun s ev => apply_event vis ev s) evs s.

Section BFS.

Context {V E St : Type}.
Variable eqv : V -> V -> bool.
Variable OutgoingEdges : St -> V -> result (list E).
Variable GetTarget : E -> V.

(** The body of the edge loop: [ExamineEdge], then push the target
    unless [vertices_pushed.insert(node)] finds it. *)
Definition visit_edge (vis : BfsVisitor V E St) (acc : list V * list V * St) (e : E)
  : result (list V * list V * St) :=
  let '(queue, pushed, s) := acc in
  let? s1 := ExamineEdge vis e s in
  let node := GetTarget e in
  if existsb (eqv node) pushed then Ok (queue, pushed, s1)
  else
    let? s2 := DiscoverVertex vis node s1 in
    Ok (queue ++ [node], node :: pushed, s2).

(** [while (!visiting_queue.empty())]: pop the front, [ExamineVertex],
    then the edges [OutgoingEdges] returns for it. *)
Fixpoint bfs_loop (vis : BfsVisitor V E St) (fuel : nat) (queue pushed : list V) (s : St)
  : result St :=
  match queue with
  | [] => Ok s
  | v :: rest =>
      match fuel with
      | O => Err OutOfFuel
      | S fuel' =>
          let? s1 := ExamineVertex vis v s in
          let? edges := OutgoingEdges s1 v in
          let? acc := rfold (visit_edge vis) edges (rest, pushed, s1) in
          let '(queue', pushed', s2) := acc in
          bfs_loop vis fuel' queue' pushed' s2
      end
  end.

Definition BreadthFirstSearch (vis : BfsVisitor V E St) (fuel : nat) (origin : V) (s : St) : result St :=
  let? s1 := DiscoverVertex vis origin s in
  bfs_loop vis fuel [origin] [origin] s1.

(** ** The pure search over fixed edges *)

Variable edges_of : V -> list E.

Fixpoint trace_edges (es : list E) (queue pushed : list V) : list (event V E) * list V * list V :=
  match es with
  | [] => ([], queue, pushed)
  | e :: rest =>
      let node := GetTarget e in
      if existsb (eqv node) pushed then
        let '(evs, q, p) := trace_edges rest queue pushed in (EvExamineEdge e :: evs, q, p)
      else
        let '(evs, q, p) := trace_edges rest (queue ++ [node]) (node :: pushed) in
        (EvExamineEdge e :: EvDiscover node :: evs, q, p)
  end.

Fixpoint bfs_trace_loop (fuel : nat) (queue pushed : list V) : option (list (event V E)) :=
  match queue with
  | [] => Some []
  | v :: rest =>
      match fuel with
      | O => None
      | S fuel' =>
          let '(evs, q, p) := trace_edges (edges_of v) rest pushed in
          option_map (fun t => EvExamineVertex v :: evs ++ t) (bfs_trace_loop fuel' q p)
      end
  end.

Definition bfs_trace (fuel : nat) (origin : V) : option (list (event V E)) :=
  option_map (cons (EvDiscover origin)) (bfs_trace_loop fuel [origin] [origin]).

End BFS.

(** ** The stateful search runs its visitor over the pure trace *)

Lemma run_events_app {V E St : Type} (vis : BfsVisitor V E St) l1 l2 s :
  run_events vis (l1 ++ l2) s = rbind (run_events vis l1 s) (run_events vis l2).
Proof. unfold run_events. apply rfold_app. Qed.

Lemma run_events_cons {V E St : Type} (vis : BfsVisitor V E St) ev l s :
  run_events vis (ev :: l) s = rbind (apply_event vis ev s) (run_events vis l).
Proof. reflexivity. Qed.

Section Events.

Context {V E St : Type}.
Variable eqv : V -> V -> bool.
Variable OutgoingEdges : St -> V -> result (list E).
Variable GetTarget : E -> V.
Variable edges_of : V -> list E.
Variable vis : BfsVisitor V E St.

(** The vertices the search may meet, closed under the edges. *)
Variable Vert : V -> Prop.
Hypothesis Vert_target : forall u e, Vert u -> In e (edges_of u) -> Vert (GetTarget e).

(** A property of the state every callback keeps, under which the graph
    has the fixed edges [edges_of]. *)
Variable Inv : St -> Prop.
Hypothesis Inv_edges : forall s v, Inv s -> Vert v -> OutgoingEdges s v = Ok (edges_of v).
Hypothesis Inv_event : forall ev s s', Inv s -> apply_event vis ev s = Ok s' -> Inv s'.

Lemma run_events_inv evs : forall s s', Inv s -> run_events vis evs s = Ok s' -> Inv s'.
Proof.
  unfold run_events. intros s s' Hs H.
  eapply (rfold_invariant Inv (fun s ev => apply_event vis ev s) evs); [|exact Hs|exact H].
  intros a x a' _ Ha Hf. exact (Inv_event x a a' Ha Hf).
Qed.

Lemma visit_edges_events es : forall q p s,
  rfold (visit_edge eqv GetTarget vis) es (q, p, s) =
  let '(evs, q', p') := trace_edges eqv GetTarget es q p in
  rbind (run_events vis evs s) (fun s' => Ok (q', p', s')).
Proof.
  induction es as [|e es IH]; intros q p s; cbn [rfold trace_edges].
  - reflexivity.
  - unfold visit_edge at 1.
    destruct (ExamineEdge vis e s) as [s1|err] eqn:E1; cbn [rbind];
      destruct (existsb (eqv (GetTarget e)) p); cbn [rbind].
    + rewrite IH. destruct (trace_edges eqv GetTarget es q p) as [[evs q'] p'].
      cbn [run_events rfold apply_event]. rewrite E1. reflexivity.
    + destruct (DiscoverVertex vis (GetTarget e) s1) as [s2|err] eqn:E2; cbn [rbind];
        [rewrite IH|];
        destruct (trace_edges eqv GetTarget es (q ++ [GetTarget e]) (GetTarget e :: p)) as [[evs q'] p'];
        cbn [run_events rfold apply_event]; rewrite E1; cbn [rbind]; rewrite E2; reflexivity.
    + destruct (trace_edges eqv GetTarget es q p) as [[evs q'] p'].
      cbn [run_events rfold apply_event]. rewrite E1. reflexivity.
    + destruct (trace_edges eqv GetTarget es (q ++ [GetTarget e]) (GetTarget e :: p)) as [[evs q'] p'].
      cbn [run_events rfold apply_event]. rewrite E1. reflexivity.
Qed.

Lemma trace_edges_queue es : forall q p evs q' p',
  trace_edges eqv GetTarget es q p = (evs, q', p') ->
  forall x, In x q' -> In x q \/ exists e, In e es /\ x = GetTarget e.
Proof.
  induction es as [|e es IH]; intros q p evs q' p' H x Hx; cbn [trace_edges] in H.
  - injection H as <- <- <-. left; exact Hx.
  - destruct (existsb (eqv (GetTarget e)) p).
    + destruct (trace_edges eqv GetTarget es q p) as [[evs1 q1] p1] eqn:Etr. injection H as <- <- <-.
      destruct (IH _ _ _ _ _ Etr x Hx) as [H|(e' & He' & ->)]; [left; exact H|right; exists e'; split; [right|]; auto].
    + destruct (trace_edges eqv GetTarget es (q ++ [GetTarget e]) (GetTarget e :: p)) as [[evs1 q1] p1] eqn:Etr.
      injection H as <- <- <-.
      destruct (IH _ _ _ _ _ Etr x Hx) as [H|(e' & He' & ->)].
      * apply in_app_or in H as [H|[<-|[]]]; [left; exact H|right; exists e; split; [left|]; auto].
      * right. exists e'. split; [right|]; auto.
Qed.

Lemma bfs_loop_events fuel : forall q p s t,
  Inv s -> (forall v, In v q -> Vert v) -> bfs_trace_loop eqv GetTarget edges_of fuel q p = Some t ->
  bfs_loop eqv OutgoingEdges GetTarget vis fuel q p s = run_events vis t s.
Proof.
  induction fuel as [|fuel IH]; intros [|v rest] p s t Hs Hq Ht; cbn [bfs_trace_loop] in Ht.
  - injection Ht as <-. reflexivity.
  - discriminate.
  - injection Ht as <-. reflexivity.
  - destruct (trace_edges eqv GetTarget (edges_of v) rest p) as [[evs q'] p'] eqn:Etr.
    destruct (bfs_trace_loop eqv GetTarget edges_of fuel q' p') as [t'|] eqn:Et'; cbn [option_map] in Ht;
      [|discriminate]. injection Ht as <-.
    cbn [bfs_loop run_events rfold apply_event]. fold (run_events vis (evs ++ t')).
    destruct (ExamineVertex vis v s) as [s1|err] eqn:E1; cbn [rbind]; [|reflexivity].
    assert (Hs1 : Inv s1) by exact (Inv_event (EvExamineVertex v) s s1 Hs E1).
    rewrite Inv_edges by (try exact Hs1; apply Hq; left; reflexivity). cbn [rbind].
    rewrite visit_edges_events, Etr, run_events_app.
    destruct (run_events vis evs s1) as [s2|err] eqn:E2; cbn [rbind]; [|reflexivity].
    apply IH; [exact (run_events_inv evs s1 s2 Hs1 E2)| |exact Et'].
    intros x Hx. destruct (trace_edges_queue _ _ _ _ _ _ Etr x Hx) as [H|(e & He & ->)].
    + apply Hq. right. exact H.
    + apply (Vert_target v); [apply Hq; left; reflexivity|exact He].
Qed.

(** The search with a visitor that keeps [Inv] is the visitor run over
    the events of the pure search, in order. *)
Theorem BreadthFirstSearch_events fuel origin s t :
  Inv s -> Vert origin -> bfs_trace eqv GetTarget edges_of fuel origin = Some t ->
  BreadthFirstSearch eqv OutgoingEdges GetTarget vis fuel origin s = run_events vis t s.
Proof.
  intros Hs Ho Ht. unfold bfs_trace in Ht.
  destruct (bfs_trace_loop eqv GetTarget edges_of fuel [origin] [origin]) as [t'|] eqn:Htl;
    cbn [option_map] in Ht; [|discriminate]. injection Ht as <-.
  unfold BreadthFirstSearch. cbn [run_events rfold apply_event].
  destruct (DiscoverVertex vis origin s) as [s1|err] eqn:E1; cbn [rbind]; [|reflexivity].
  apply bfs_loop_events; [exact (Inv_event (EvDiscover origin) s s1 Hs E1)| |exact Htl].
  intros v [<-|[]]. exact Ho.
Qed.

End Events.

(** ** On a tree the search is the level order *)

Section Tree.

Context {V E : Type}.
Variable eqv : V -> V -> bool.
Hypothesis eqv_spec : forall a b, eqv a b = true <-> a = b.
Variable GetTarget : E -> V.
Variable edges_of : V -> list E.
Variable origin : V.

(** A tree: every edge goes from a vertex to a child one level deeper,
    whose parent the vertex is; no two edges of a vertex share a
    target. *)
Variable parent : V -> V.
Variable depth : V -> nat.
Hypothesis depth_origin : depth origin = 0%nat.
Hypothesis edge_child : forall u e,
  In e (edges_of u) -> parent (GetTarget e) = u /\ depth (GetTarget e) = S (depth u).
Hypothesis edges_nodup : forall u, NoDup (map GetTarget (edges_of u)).

Definition children (u : V) : list V := map GetTarget (edges_of u).

Definition edge_events (e : E) : list (event V E) := [EvExamineEdge e; EvDiscover (GetTarget e)].

(** What examining one vertex produces. *)
Definition vertex_events (u : V) : list (event V E) :=
  EvExamineVertex u :: flat_map edge_events (edges_of u).

Fixpoint level (k : nat) : list V :=
  match k with
  | O => [origin]
  | S k' => flat_map children (level k')
  end.

(** The queue [q], the set [p] and the vertices examined so far [X]:
    the queue is in the set and not examined, and every vertex of the set
    is the origin or has its parent examined. *)
Definition fresh_inv (q p X : list V) : Prop :=
  (forall u, In u q -> In u p) /\ NoDup q /\ (forall x, In x X -> In x p) /\
  (forall u, In u q -> ~ In u X) /\ (forall y, In y p -> y = origin \/ In (parent y) X).

Lemma children_fresh q p X u x : fresh_inv q p X -> In u q -> In x (children u) -> ~ In x p.
Proof.
  intros (_ & _ & _ & HqX & Hp) Hu Hx Hxp. unfold children in Hx.
  apply in_map_iff in Hx as (e & <- & He). destruct (edge_child u e He) as [Hpar Hd].
  destruct (Hp _ Hxp) as [Ho|HX].
  - rewrite Ho, depth_origin in Hd. discriminate.
  - rewrite Hpar in HX. exact (HqX u Hu HX).
Qed.

Lemma trace_edges_fresh es : forall q p,
  NoDup (map GetTarget es) -> (forall e, In e es -> ~ In (GetTarget e) p) ->
  trace_edges eqv GetTarget es q p =
  (flat_map edge_events es, q ++ map GetTarget es, rev (map GetTarget es) ++ p).
Proof.
  induction es as [|e es IH]; intros q p Hnd Hfresh; cbn [trace_edges map flat_map].
  - rewrite app_nil_r. reflexivity.
  - replace (existsb (eqv (GetTarget e)) p) with false.
    2:{ symmetry. apply not_true_iff_false. intros Hx. apply existsb_exists in Hx as (y & Hy & Hxy).
        apply eqv_spec in Hxy. subst y. exact (Hfresh e (or_introl eq_refl) Hy). }
    inversion Hnd as [|? ? Hnotin Hnd']; subst. rewrite IH.
    + cbn [rev]. rewrite <- !app_assoc. reflexivity.
    + exact Hnd'.
    + intros e' He' [Heq|Hin].
      * apply Hnotin. rewrite Heq. apply in_map, He'.
      * exact (Hfresh e' (or_intror He') Hin).
Qed.

Lemma fresh_step u rest p X :
  fresh_inv (u :: rest) p X -> fresh_inv (rest ++ children u) (rev (children u) ++ p) (u :: X).
Proof.
  intros H. pose proof (fun x => children_fresh _ _ _ u x H (or_introl eq_refl)) as Hc.
  destruct H as (Hqp & Hnd & HXp & HqX & Hp). inversion Hnd as [|? ? Hu Hnd']; subst.
  repeat split.
  - intros x Hx. apply in_or_app. apply in_app_or in Hx as [Hx|Hx].
    + right. apply Hqp. right. exact Hx.
    + left. apply in_rev in Hx. exact Hx.
  - apply NoDup_app; [exact Hnd'|apply edges_nodup|].
    intros x Hx Hx'. apply (Hc x Hx'). apply Hqp. right. exact Hx.
  - intros x [<-|Hx]; apply in_or_app; right; [apply Hqp; left; reflexivity|apply HXp, Hx].
  - intros x Hx [<-|HxX]; apply in_app_or in Hx as [Hx|Hx].
    + exact (Hu Hx).
    + exact (Hc u Hx (Hqp u (or_introl eq_refl))).
    + exact (HqX x (or_intror Hx) HxX).
    + exact (Hc x Hx (HXp x HxX)).
  - intros y Hy. apply in_app_or in Hy as [Hy|Hy].
    + apply in_rev in Hy. unfold children in Hy. apply in_map_iff in Hy as (e & <- & He).
      right. left. symmetry. apply (edge_child u e He).
    + destruct (Hp y Hy) as [Ho|HX]; [left; exact Ho|right; right; exact HX].
Qed.

(** Processing the vertices [l] at the front of the queue produces their
    events and queues their children. *)
Lemma process_queue l : forall m p X f,
  fresh_inv (l ++ m) p X ->
  exists p' X', fresh_inv (m ++ flat_map children l) p' X' /\
    bfs_trace_loop eqv GetTarget edges_of (List.length l + f) (l ++ m) p =
    option_map (app (flat_map vertex_events l))
      (bfs_trace_loop eqv GetTarget edges_of f (m ++ flat_map children l) p').
Proof.
  induction l as [|u l IH]; intros m p X f H; cbn [app List.length flat_map Nat.add].
  - exists p, X. rewrite app_nil_r. split; [exact H|].
    assert (Hid : forall o : option (list (event V E)), option_map (app []) o = o) by (intros [?|]; reflexivity).
    rewrite Hid. reflexivity.
  - cbn [bfs_trace_loop].
    rewrite trace_edges_fresh.
    2:{ apply edges_nodup. }
    2:{ intros e He. apply (children_fresh _ _ _ u _ H (or_introl eq_refl)). apply in_map, He. }
    pose proof (fresh_step u (l ++ m) p X H) as H'. rewrite <- app_assoc in H'.
    destruct (IH _ _ _ f H') as (p' & X' & Hinv & Heq). exists p', X'.
    rewrite <- !app_assoc in *. split; [exact Hinv|]. fold (children u). rewrite Heq.
    destruct (bfs_trace_loop eqv GetTarget edges_of f (m ++ children u ++ flat_map children l) p');
      cbn [option_map]; [|reflexivity].
    unfold vertex_events. cbn [app]. rewrite app_assoc. reflexivity.
Qed.

Definition levels_size (k : nat) : nat := list_sum (map (fun i => List.length (level i)) (seq 0 k)).

Definition level_events (k : nat) : list (event V E) := flat_map (flat_map vertex_events) (map level (seq 0 k)).

Lemma bfs_levels k : forall f, exists p X, fresh_inv (level k) p X /\
  bfs_trace_loop eqv GetTarget edges_of (levels_size k + f) [origin] [origin] =
  option_map (app (level_events k)) (bfs_trace_loop eqv GetTarget edges_of f (level k) p).
Proof.
  induction k as [|k IH]; intros f.
  - exists [origin], []. split.
    + split; [intros u Hu; exact Hu|]. split; [repeat constructor; intros []|].
      split; [intros x []|]. split; [intros u _ []|]. intros y [<-|[]]. left; reflexivity.
    + cbn. destruct (bfs_trace_loop eqv GetTarget edges_of f [origin] [origin]); reflexivity.
  - destruct (IH (List.length (level k) + f)) as (p & X & Hinv & Heq).
    destruct (process_queue (level k) [] p X f) as (p' & X' & Hinv' & Heq');
      [rewrite app_nil_r; exact Hinv|].
    exists p', X'. split; [exact Hinv'|].
    unfold levels_size, level_events in *. rewrite seq_S, map_app, list_sum_app, map_app, flat_map_app.
    replace (list_sum (map (fun i => List.length (level i)) [(0 + k)%nat])) with (List.length (level k))
      by (cbn; lia).
    rewrite <- Nat.add_assoc, Heq. cbn [map flat_map Nat.add].
    rewrite app_nil_r in Heq'. rewrite Heq'. cbn [app]. change (level (S k)) with (flat_map children (level k)).
    destruct (bfs_trace_loop eqv GetTarget edges_of f (flat_map children (level k)) p'); cbn [option_map];
      rewrite ?app_nil_r, ?app_assoc; reflexivity.
Qed.

(** The search of a tree whose levels end at [D]: the origin
    discovered, then every vertex examined level by level, each with its
    edges and the discovery of its children. *)
Theorem bfs_trace_tree D f :
  level (S D) = [] ->
  bfs_trace eqv GetTarget edges_of (levels_size (S D) + f) origin =
  Some (EvDiscover origin :: level_events (S D)).
Proof.
  intros HD. unfold bfs_trace. destruct (bfs_levels (S D) f) as (p & X & _ & Heq).
  rewrite Heq, HD.
  replace (bfs_trace_loop eqv GetTarget edges_of f [] p) with (Some (@nil (event V E))) by (destruct f; reflexivity).
  cbn [option_map]. rewrite app_nil_r. reflexivity.
Qed.

Lemma level_depth k v : In v (level k) -> depth v = k.
Proof.
  revert v. induction k as [|k IH]; intros v Hv; cbn [level] in Hv.
  - destruct Hv as [<-|[]]. exact depth_origin.
  - apply in_flat_map in Hv as (u & Hu & Hv). unfold children in Hv.
    apply in_map_iff in Hv as (e & <- & He). rewrite (proj2 (edge_child u e He)), (IH u Hu). reflexivity.
Qed.

Lemma level_nodup k : NoDup (level k).
Proof.
  destruct k as [|k]; [repeat constructor; intros []|].
  destruct (bfs_levels k 0) as (p & X & Hinv & _).
  destruct (process_queue (level k) [] p X 0) as (p' & X' & (_ & Hnd & _) & _);
    [rewrite app_nil_r; exact Hinv|].
  exact Hnd.
Qed.

Lemma levels_nodup k : NoDup (flat_map level (seq 0 k)).
Proof.
  induction k as [|k IH]; [constructor|]. rewrite seq_S, flat_map_app. cbn [flat_map]. rewrite app_nil_r.
  apply NoDup_app; [exact IH|apply level_nodup|].
  intros x Hx Hx'. apply in_flat_map in Hx as (i & Hi & Hx). apply in_seq in Hi.
  apply level_depth in Hx. apply level_depth in Hx'. lia.
Qed.

End Tree.

Lemma levels_size_flat {V E : Type} (GetTarget : E -> V) (edges_of : V -> list E) (origin : V) k :
  levels_size GetTarget edges_of origin k =
  List.length (flat_map (level GetTarget edges_of origin) (seq 0 k)).
Proof.
  unfold levels_size. induction k as [|k IH]; [reflexivity|].
  rewrite seq_S, map_app, list_sum_app, flat_map_app, length_app, IH.
  cbn [map list_sum fold_right flat_map Nat.add]. rewrite app_nil_r, Nat.add_0_r. reflexivity.
Qed.

(** The level order grows by one level at a time. *)
Lemma level_events_S {V E : Type} (GetTarget : E -> V) (edges_of : V -> list E) (origin : V) k :
  level_events GetTarget edges_of origin (S k) =
  level_events GetTarget edges_of origin k ++
  flat_map (vertex_events GetTarget edges_of) (level GetTarget edges_of origin k).
Proof.
  unfold level_events. rewrite seq_S, map_app, flat_map_app. cbn [map flat_map]. rewrite app_nil_r.
  reflexivity.
Qed.

(** C19 [BreadthFirstSearch] on a tree, with a visitor that leaves the
    graph's edges as they are, runs the visitor over the level order:
    the origin discovered, then every vertex of each level in turn
    examined, each of its edges examined and its target discovered; the
    fuel is enough once it counts the vertices. *)
Theorem BreadthFirstSearch_tree {V E St : Type} (eqv : V -> V -> bool)
    (OutgoingEdges : St -> V -> result (list E)) (GetTarget : E -> V) (edges_of : V -> list E)
    (vis : BfsVisitor V E St) (parent : V -> V) (depth : V -> nat) (Vert : V -> Prop) (Inv : St -> Prop)
    (origin : V) (D f : nat) (s : St) :
  (forall a b, eqv a b = true <-> a = b) ->
  depth origin = 0 ->
  (forall u e, In e (edges_of u) -> parent (GetTarget e) = u /\ depth (GetTarget e) = S (depth u)) ->
  (forall u, NoDup (map GetTarget (edges_of u))) ->
  (forall u e, Vert u -> In e (edges_of u) -> Vert (GetTarget e)) ->
  (forall s v, Inv s -> Vert v -> OutgoingEdges s v = Ok (edges_of v)) ->
  (forall ev s s', Inv s -> apply_event vis ev s = Ok s' -> Inv s') ->
  Inv s -> Vert origin -> level GetTarget edges_of origin (S D) = [] ->
  BreadthFirstSearch eqv OutgoingEdges GetTarget vis (levels_size GetTarget edges_of origin (S D) + f) origin s =
  run_events vis (EvDiscover origin :: level_events GetTarget edges_of origin (S D)) s.
Proof.
  intros Heqv Hd0 Hchild Hnd Hvt Hedges Hinv Hs Ho Hend.
  apply (BreadthFirstSearch_events eqv OutgoingEdges GetTarget edges_of vis Vert Hvt Inv Hedges Hinv); [exact Hs|exact Ho|].
  apply (bfs_trace_tree eqv Heqv GetTarget edges_of origin parent depth Hd0 Hchild Hnd). exact Hend.
Qed.

(** A tree of four vertices, [0 -> 1 -> 3] and [0 -> 2], and a visitor
    that records the vertices it discovers. *)
Definition tree4_edges (v : nat) : list (nat * nat) :=
  match v with 0 => [(0, 1); (0, 2)] | 1 => [(1, 3)] | _ => [] end.

Definition tree4_parent (v : nat) : nat := match v with 3 => 1 | _ => 0 end.

Definition tree4_depth (v : nat) : nat := match v with 0 => 0 | 1 | 2 => 1 | 3 => 2 | _ => 0 end.

Definition tree4_recorder : BfsVisitor nat (nat * nat) (list nat) :=
  mk_visitor (fun v s => Ok (s ++ [v])) (fun _ s => Ok s) (fun _ s => Ok s).

Lemma BreadthFirstSearch_tree_witness :
  BreadthFirstSearch Nat.eqb (fun _ v => Ok (tree4_edges v)) snd tree4_recorder
    (levels_size snd tree4_edges 0 3 + 0) 0 [] =
  run_events tree4_recorder (EvDiscover 0 :: level_events snd tree4_edges 0 3) [] /\
  run_events tree4_recorder (EvDiscover 0 :: level_events snd tree4_edges 0 3) [] = Ok [0; 1; 2; 3].
Proof.
  split; [|vm_compute; reflexivity].
  apply (BreadthFirstSearch_tree Nat.eqb (fun _ v => Ok (tree4_edges v)) snd tree4_edges tree4_recorder
           tree4_parent tree4_depth (fun _ => True) (fun _ => True) 0 2 0 []).
  - intros a b. apply Nat.eqb_eq.
  - reflexivity.
  - intros [|[|u]] e He; cbn in He;
      [destruct He as [<-|[<-|[]]]|destruct He as [<-|[]]|destruct u; destruct He]; split; reflexivity.
  - intros [|[|u]]; cbn; [|repeat constructor; intros []|destruct u; constructor].
    repeat constructor; cbn; [intros [H|[]]; discriminate|intros []].
  - intros _ _ _ _. exact I.
  - intros s v _ _. reflexivity.
  - intros _ _ _ _ _. exact I.
  - exact I.
  - exact I.
  - reflexivity.
Defined.
