(* ===== verification/AhoCorasick.v ===== *)
(** * The Aho-Corasick automaton of [components/include/aho-corasick.h]
      and [components/src/aho-corasick.cpp]

    [AutomatonNode]s own their children through a
    [std::map<char, AutomatonNode>] and point at one another through
    [suffix_link], [terminal_link] and the transition cache.  The nodes
    live in a store (a [list AutomatonNode]); a pointer is an index into
    it, [None] for [nullptr].  The root, the member [Automaton::root_],
    is node [0]; [trie_transitions[c] = AutomatonNode()] appends a fresh
    node, whose address never changes afterwards, as the map's nodes do
    not move.  A [std::map<char, _>] is an association list sorted by the
    key's value as a signed [char] (the project's targets).

    The builder adds the words ([AddString]), then runs two breadth-first
    searches of [Traverse.v] over the trie with the visitors
    [SuffixLinkCalculator] and [TerminalLinkCalculator].  Matching walks
    [NodeReference::Next], which fills the transition cache of the node it
    leaves (the store is threaded through it), and
    [NodeReference::TraverseTerminal], which hands the callback the ids
    ending at the node and along its terminal links; the model returns
    them in order.

    Dereferencing [nullptr] is undefined behaviour.  The loops that walk
    suffix or terminal links run on fuel, the number of nodes. *)

From Stdlib Require Import String Ascii ZArith Bool List Sorted Lia.
From S2P Require Import Prelude Itertools Traverse.
Import ListNotations.
Open Scope Z_scope.
Open Scope jpeg_scope.
Open Scope bool_scope.

(** ** [std::map<char, T>] *)

(** A [char]'s value, signed. *)
Definition char_val (c : ascii) : Z := to_int8 (Z.of_nat (nat_of_ascii c)).

Definition cmap (A : Type) : Type := list (ascii * A).

(** [map.find(c)]. *)
Fixpoint map_find {A : Type} (c : ascii) (m : cmap A) : option A :=
  match m with
  | [] => None
  | (k, x) :: rest => if char_val k =? char_val c then Some x else map_find c rest
  end.

(** [map[c] = x]: assign the entry of [c], or insert it at its place. *)
Fixpoint map_assign {A : Type} (c : ascii) (x : A) (m : cmap A) : cmap A :=
  match m with
  | [] => [(c, x)]
  | (k, y) :: rest =>
      if char_val c <? char_val k then (c, x) :: m
      else if char_val k =? char_val c then (k, x) :: rest
      else (k, y) :: map_assign c x rest
  end.

(** ** Nodes and the store *)

Definition ptr : Type := option nat.

Record AutomatonNode := mk_node {
  terminated_string_ids : list Z;
  trie_transitions : cmap nat;
  automaton_transitions_cache : cmap ptr;
  suffix_link : ptr;
  terminal_link : ptr
}.

(** [AutomatonNode()]: no ids, no children, null links. *)
Definition AutomatonNode_new : AutomatonNode := mk_node [] [] [] None None.

Definition store : Type := list AutomatonNode.

Definition deref (st : store) (p : ptr) : result AutomatonNode :=
  match p with
  | None => Err (Undefined NullDereference)
  | Some n => match nth_error st n with
              | Some node => Ok node
              | None => Err (Undefined OutOfBoundsAccess)
              end
  end.

(** A write [p->field = ...]: the node updated by [f]. *)
Definition update (st : store) (p : ptr) (f : AutomatonNode -> AutomatonNode) : result store :=
  let? node := deref st p in
  match p with
  | Some n => match list_set st n (f node) with
              | Some st' => Ok st'
              | None => Err (Undefined OutOfBoundsAccess)
              end
  | None => Err (Undefined NullDereference)
  end.

Definition set_suffix_link (l : ptr) (node : AutomatonNode) : AutomatonNode :=
  mk_node (terminated_string_ids node) (trie_transitions node) (automaton_transitions_cache node)
    l (terminal_link node).

Definition set_terminal_link (l : ptr) (node : AutomatonNode) : AutomatonNode :=
  mk_node (terminated_string_ids node) (trie_transitions node) (automaton_transitions_cache node)
    (suffix_link node) l.

Definition set_cache (c : ascii) (p : ptr) (node : AutomatonNode) : AutomatonNode :=
  mk_node (terminated_string_ids node) (trie_transitions node)
    (map_assign c p (automaton_transitions_cache node)) (suffix_link node) (terminal_link node).

Definition set_child (c : ascii) (n : nat) (node : AutomatonNode) : AutomatonNode :=
  mk_node (terminated_string_ids node) (map_assign c n (trie_transitions node))
    (automaton_transitions_cache node) (suffix_link node) (terminal_link node).

Definition push_id (id : Z) (node : AutomatonNode) : AutomatonNode :=
  mk_node (terminated_string_ids node ++ [id]) (trie_transitions node)
    (automaton_transitions_cache node) (suffix_link node) (terminal_link node).

Definition root : ptr := Some 0%nat.

Definition ptr_eqb (p q : ptr) : bool :=
  match p, q with
  | None, None => true
  | Some a, Some b => Nat.eqb a b
  | _, _ => false
  end.

(** ** Transitions *)

(** [GetTrieTransition(node, character)]. *)
Definition GetTrieTransition (st : store) (node : ptr) (c : ascii) : result ptr :=
  let? n := deref st node in Ok (map_find c (trie_transitions n)).

(** The [while (current != root)] loop of [GetAutomatonTransition]. *)
Fixpoint transition_walk (fuel : nat) (st : store) (node rt : ptr) (c : ascii) (current : ptr)
  : result (ptr * store) :=
  if ptr_eqb current rt then
    let? st' := update st node (set_cache c None) in Ok (None, st')
  else
    match fuel with
    | O => Err OutOfFuel
    | S fuel' =>
        let? cur := deref st current in
        let current' := suffix_link cur in
        let? child := GetTrieTransition st current' c in
        match child with
        | Some _ => let? st' := update st node (set_cache c child) in Ok (child, st')
        | None => transition_walk fuel' st node rt c current'
        end
    end.

(** [GetAutomatonTransition(node, root, character)]: the cache, then the
    trie, then the suffix links; the answer is cached. *)
Definition GetAutomatonTransition (st : store) (node rt : ptr) (c : ascii) : result (ptr * store) :=
  let? n := deref st node in
  match map_find c (automaton_transitions_cache n) with
  | Some found => Ok (found, st)
  | None =>
      let? trie_trans := GetTrieTransition st node c in
      match trie_trans with
      | Some _ => let? st' := update st node (set_cache c trie_trans) in Ok (trie_trans, st')
      | None => transition_walk (List.length st) st node rt c node
      end
  end.

(** [NodeReference]: a node and the root. *)
Record NodeReference := mk_ref { node_ : ptr; root_ : ptr }.

(** [NodeReference()]: both pointers null. *)
Definition NodeReference_default : NodeReference := mk_ref None None.

(** [Automaton::Root()]. *)
Definition Root : NodeReference := mk_ref root root.

(** [NodeReference::Next(character)]: the root when there is no
    transition. *)
Definition Next (st : store) (r : NodeReference) (c : ascii) : result (NodeReference * store) :=
  let? res := GetAutomatonTransition st (node_ r) (root_ r) c in
  let '(transition, st') := res in
  match transition with
  | None => Ok (mk_ref (root_ r) (root_ r), st')
  | Some _ => Ok (mk_ref transition (root_ r), st')
  end.

(** [NodeReference::IsTerminal()]. *)
Definition NodeReference_IsTerminal (st : store) (r : NodeReference) : result bool :=
  let? n := deref st (node_ r) in
  Ok (negb (match terminated_string_ids n with [] => true | _ => false end)).

(** The private [NodeReference::TerminalLink()]: a reference to the
    node's terminal link (nothing calls it). *)
Definition TerminalLink (st : store) (r : NodeReference) : result NodeReference :=
  let? n := deref st (node_ r) in
  Ok (mk_ref (terminal_link n) (root_ r)).

(** [NodeReference::operator bool] and [operator==]. *)
Definition ref_valid (r : NodeReference) : bool :=
  match node_ r with None => false | Some _ => true end.

Definition ref_eqb (r r' : NodeReference) : bool := ptr_eqb (node_ r) (node_ r').

(** [TerminatedStringIds()]: the range of the node's ids. *)
Definition TerminatedStringIds (st : store) (r : NodeReference)
  : result (IteratorRange (vec_iter Z)) :=
  let? n := deref st (node_ r) in
  Ok (mk_range (vbegin (terminated_string_ids n)) (vend (terminated_string_ids n))).

(** The [while (current->terminal_link != nullptr)] loop. *)
Fixpoint terminal_walk (fuel : nat) (st : store) (current : ptr) : result (list Z) :=
  let? cur := deref st current in
  match terminal_link cur with
  | None => Ok []
  | Some _ =>
      match fuel with
      | O => Err OutOfFuel
      | S fuel' =>
          let current' := terminal_link cur in
          let? next := deref st current' in
          let? ids := for_range (S (List.length (terminated_string_ids next)))
                        (mk_range (vbegin (terminated_string_ids next))
                                  (vend (terminated_string_ids next))) in
          let? rest := terminal_walk fuel' st current' in
          Ok (ids ++ rest)
      end
  end.

(** [NodeReference::TraverseTerminal(on_hit)]: the ids [on_hit]
    receives, in order. *)
Definition TraverseTerminal (st : store) (r : NodeReference) : result (list Z) :=
  let? range := TerminatedStringIds st r in
  let? own := for_range (S (List.length (vi_vec (begin_ range)))) range in
  let? rest := terminal_walk (List.length st) st (node_ r) in
  Ok (own ++ rest).

(** ** Building the trie *)

(** [AddString(root, string_id, string)]: walk the string, creating the
    missing children, and record the id at the last node. *)
Fixpoint add_chars (st : store) (current : ptr) (cs : list ascii) : result (ptr * store) :=
  match cs with
  | [] => Ok (current, st)
  | c :: rest =>
      let? child := GetTrieTransition st current c in
      match child with
      | None =>
          let fresh := List.length st in
          let? st1 := update (st ++ [AutomatonNode_new]) current (set_child c fresh) in
          let? current' := GetTrieTransition st1 current c in
          add_chars st1 current' rest
      | Some _ => add_chars st child rest
      end
  end.

Definition AddString (st : store) (rt : ptr) (string_id : Z) (s : string) : result store :=
  let? res := add_chars st rt (list_ascii_of_string s) in
  let '(current, st1) := res in
  update st1 current (push_id string_id).

(** [AutomatonBuilder]: the words and ids added so far. *)
Record AutomatonBuilder := mk_builder { words_ : list string; ids_ : list Z }.

(** [AutomatonBuilder::Add(string, id)]. *)
Definition Add (b : AutomatonBuilder) (s : string) (id : Z) : AutomatonBuilder :=
  mk_builder (words_ b ++ [s]) (ids_ b ++ [id]).

(** [BuildTrie(words, ids, automaton)]: [ids[i]] unchecked. *)
Definition BuildTrie (words : list string) (ids : list Z) (st : store) : result store :=
  rfold (fun st i =>
           let? id := vec_get ids (Z.of_nat i) in
           let? w := vec_get words (Z.of_nat i) in
           AddString st root id w)
    (seq 0 (List.length words)) st.

(** ** The two searches *)

(** [internal::AutomatonGraph::Edge]. *)
Record Edge := mk_edge { source : nat; target : nat; character : ascii }.

(** [OutgoingEdges(graph, vertex)]: one edge per child, in key order. *)
Definition OutgoingEdges (st : store) (vertex : nat) : result (list Edge) :=
  let? n := deref st (Some vertex) in
  Ok (map (fun '(c, child) => mk_edge vertex child c) (trie_transitions n)).

Definition GetTarget (e : Edge) : nat := target e.

(** [SuffixLinkCalculator::ExamineEdge]'s loop
    [while (GetTrieTransition(current_source->suffix_link, c) == nullptr)]. *)
Fixpoint suffix_search (fuel : nat) (st : store) (e : Edge) (current_source : ptr) : result store :=
  let? cs := deref st current_source in
  let? t := GetTrieTransition st (suffix_link cs) (character e) in
  match t with
  | None =>
      if ptr_eqb current_source root then update st (Some (target e)) (set_suffix_link root)
      else
        match fuel with
        | O => Err OutOfFuel
        | S fuel' => suffix_search fuel' st e (suffix_link cs)
        end
  | Some _ =>
      let? cs' := deref st current_source in
      let? link := GetTrieTransition st (suffix_link cs') (character e) in
      update st (Some (target e)) (set_suffix_link link)
  end.

Definition SuffixLinkCalculator : BfsVisitor nat Edge store :=
  mk_visitor
    (fun _ st => Ok st)
    (fun e st =>
       if Nat.eqb (source e) 0 then update st (Some (target e)) (set_suffix_link root)
       else suffix_search (List.length st) st e (Some (source e)))
    (fun node st => if Nat.eqb node 0 then update st (Some node) (set_suffix_link root) else Ok st).

Definition TerminalLinkCalculator : BfsVisitor nat Edge store :=
  mk_visitor
    (fun node st =>
       let? n := deref st (Some node) in
       let current_suffix := suffix_link n in
       if Nat.eqb node 0 then update st (Some node) (set_terminal_link None)
       else
         let? cs := deref st current_suffix in
         match terminated_string_ids cs with
         | [] => update st (Some node) (set_terminal_link (terminal_link cs))
         | _ => update st (Some node) (set_terminal_link current_suffix)
         end)
    (fun _ st => Ok st)
    (fun _ st => Ok st).

Definition bfs (vis : BfsVisitor nat Edge store) (st : store) : result store :=
  BreadthFirstSearch Nat.eqb OutgoingEdges GetTarget vis (List.length st) 0%nat st.

Definition BuildSuffixLinks (st : store) : result store := bfs SuffixLinkCalculator st.

Definition BuildTerminalLinks (st : store) : result store := bfs TerminalLinkCalculator st.

(** [AutomatonBuilder::Build()]: a fresh automaton (its root alone),
    the trie, the suffix links, the terminal links. *)
Definition Build (b : AutomatonBuilder) : result store :=
  let? st1 := BuildTrie (words_ b) (ids_ b) [AutomatonNode_new] in
  let? st2 := BuildSuffixLinks st1 in
  BuildTerminalLinks st2.

(** ** Lemmas: characters, maps and the store *)

Lemma char_val_inj a b : char_val a = char_val b -> a = b.
Proof.
  unfold char_val, to_int8. intros H.
  pose proof (nat_ascii_bounded a) as Ha. pose proof (nat_ascii_bounded b) as Hb.
  assert (E : Z.of_nat (nat_of_ascii a) = Z.of_nat (nat_of_ascii b)).
  { set (x := Z.of_nat (nat_of_ascii a) + 2 ^ 7) in H. set (y := Z.of_nat (nat_of_ascii b) + 2 ^ 7) in H.
    pose proof (Z.div_mod x (2 ^ 8) ltac:(lia)). pose proof (Z.div_mod y (2 ^ 8) ltac:(lia)).
    pose proof (Z.mod_pos_bound x (2 ^ 8) ltac:(lia)). pose proof (Z.mod_pos_bound y (2 ^ 8) ltac:(lia)).
    assert (0 <= x / 2 ^ 8 <= 1) by (split; [apply Z.div_pos|apply Z.lt_succ_r, Z.div_lt_upper_bound]; lia).
    assert (0 <= y / 2 ^ 8 <= 1) by (split; [apply Z.div_pos|apply Z.lt_succ_r, Z.div_lt_upper_bound]; lia).
    subst x y. lia. }
  rewrite <- (ascii_nat_embedding a), <- (ascii_nat_embedding b). f_equal. lia.
Qed.

Lemma char_val_eqb a b : (char_val a =? char_val b) = if ascii_dec a b then true else false.
Proof.
  destruct (ascii_dec a b) as [->|Hne]; [apply Z.eqb_refl|].
  apply Z.eqb_neq. intros E. apply Hne, char_val_inj, E.
Qed.

(** [map[c] = x] then [map.find(c')]: the new entry, or the old lookup. *)
Lemma map_find_assign {A : Type} (c c' : ascii) (x : A) (m : cmap A) :
  map_find c' (map_assign c x m) = if ascii_dec c c' then Some x else map_find c' m.
Proof.
  induction m as [|[k y] rest IH]; cbn [map_assign].
  - cbn [map_find]. rewrite char_val_eqb. destruct (ascii_dec c c'); reflexivity.
  - destruct (char_val c <? char_val k).
    + cbn [map_find]. rewrite char_val_eqb. destruct (ascii_dec c c'); reflexivity.
    + destruct (char_val k =? char_val c) eqn:Ekc; cbn [map_find].
      * rewrite !char_val_eqb. rewrite char_val_eqb in Ekc.
        destruct (ascii_dec k c) as [->|]; [|discriminate]. destruct (ascii_dec c c'); reflexivity.
      * rewrite IH. rewrite !char_val_eqb. rewrite char_val_eqb in Ekc.
        destruct (ascii_dec k c') as [->|], (ascii_dec c c') as [->|]; try reflexivity.
        destruct (ascii_dec c' c'); [discriminate|congruence].
Qed.

(** The order of a [std::map<char, _>]: keys strictly increasing. *)
Definition key_lt {A : Type} (a b : ascii * A) : Prop := char_val (fst a) < char_val (fst b).

Lemma map_assign_sorted {A : Type} (c : ascii) (x : A) (m : cmap A) :
  StronglySorted key_lt m -> StronglySorted key_lt (map_assign c x m).
Proof.
  induction m as [|[k y] rest IH]; intros Hs; cbn [map_assign].
  - repeat constructor.
  - inversion Hs as [|? ? Hrest Hall]; subst. rewrite Forall_forall in Hall.
    destruct (Z.ltb_spec (char_val c) (char_val k)) as [Hlt|Hge].
    + constructor; [exact Hs|]. constructor; [exact Hlt|].
      apply Forall_forall. intros z Hz. specialize (Hall z Hz). unfold key_lt in *. cbn in *. lia.
    + destruct (Z.eqb_spec (char_val k) (char_val c)) as [Heq|Hne].
      * constructor; [exact Hrest|]. apply Forall_forall. exact Hall.
      * constructor; [apply IH, Hrest|]. apply Forall_forall. intros z Hz.
        assert (Hkeys : forall z, In z (map_assign c x rest) -> fst z = c \/ In z rest).
        { clear. induction rest as [|[k' y'] rest IH]; intros z Hz; cbn [map_assign] in Hz.
          - destruct Hz as [<-|[]]. left. reflexivity.
          - destruct (char_val c <? char_val k').
            + destruct Hz as [<-|Hz]; [left; reflexivity|right; exact Hz].
            + destruct (char_val k' =? char_val c) eqn:E.
              * destruct Hz as [<-|Hz]; [|right; right; exact Hz].
                apply Z.eqb_eq in E. left. cbn. apply char_val_inj. exact E.
              * destruct Hz as [<-|Hz]; [right; left; reflexivity|].
                destruct (IH z Hz) as [H|H]; [left; exact H|right; right; exact H]. }
        destruct (Hkeys z Hz) as [Hc|Hz'].
        -- unfold key_lt. cbn. rewrite Hc. lia.
        -- apply Hall, Hz'.
Qed.

Lemma map_find_In {A : Type} (c : ascii) (x : A) (m : cmap A) :
  StronglySorted key_lt m -> In (c, x) m -> map_find c m = Some x.
Proof.
  induction m as [|[k y] rest IH]; intros Hs Hin; [destruct Hin|]. cbn [map_find].
  inversion Hs as [|? ? Hrest Hall]; subst. rewrite Forall_forall in Hall.
  destruct Hin as [E|Hin].
  - injection E as -> ->. rewrite Z.eqb_refl. reflexivity.
  - specialize (Hall _ Hin). unfold key_lt in Hall. cbn in Hall.
    replace (char_val k =? char_val c) with false by (symmetry; apply Z.eqb_neq; lia). apply IH; assumption.
Qed.

Lemma map_find_Some_In {A : Type} (c : ascii) (x : A) (m : cmap A) :
  map_find c m = Some x -> In (c, x) m.
Proof.
  induction m as [|[k y] rest IH]; intros H; cbn [map_find] in H; [discriminate|].
  destruct (char_val k =? char_val c) eqn:E.
  - injection H as <-. apply Z.eqb_eq, char_val_inj in E. subst. left. reflexivity.
  - right. apply IH, H.
Qed.

Lemma map_find_eq {A : Type} (c : ascii) (m : cmap A) :
  map_find c m = match find (fun kv => if ascii_dec (fst kv) c then true else false) m with
                 | Some kv => Some (snd kv) | None => None end.
Proof.
  induction m as [|[k y] rest IH]; cbn; [reflexivity|]. rewrite char_val_eqb.
  destruct (ascii_dec k c); [reflexivity|exact IH].
Qed.

(** A write to a live node: the node updated, the others unchanged. *)
Lemma update_spec st n node f :
  nth_error st n = Some node ->
  exists st', update st (Some n) f = Ok st' /\ List.length st' = List.length st /\
    forall j, nth_error st' j = if Nat.eqb j n then Some (f node) else nth_error st j.
Proof.
  intros Hn. unfold update, deref. rewrite Hn. cbn [rbind].
  destruct (list_set_some st n (f node)) as [st' E]; [apply nth_error_Some; congruence|].
  rewrite E. exists st'. split; [reflexivity|]. split; [eapply list_set_length; exact E|].
  intros j. apply (list_set_nth _ _ _ _ _ E).
Qed.

Lemma update_inv st p f st' :
  update st p f = Ok st' ->
  exists n node, p = Some n /\ nth_error st n = Some node /\ List.length st' = List.length st /\
    forall j, nth_error st' j = if Nat.eqb j n then Some (f node) else nth_error st j.
Proof.
  intros H. destruct p as [n|]; [|discriminate]. unfold update, deref in H.
  destruct (nth_error st n) as [node|] eqn:Hn; cbn [rbind] in H; [|discriminate].
  exists n, node. split; [reflexivity|]. split; [exact Hn|].
  destruct (list_set st n (f node)) as [st''|] eqn:E; [|discriminate]. injection H as <-.
  split; [eapply list_set_length; exact E|]. intros j. apply (list_set_nth _ _ _ _ _ E).
Qed.
