(* ===== verification/AhoTrie.v ===== *)
(** * The trie the Aho-Corasick builder builds

    [AutomatonBuilder::BuildTrie] adds every word with [AddString].  The
    invariant [trie_inv D st labs] relates the store [st] to the
    dictionary [D] (the words added so far with their ids, in order)
    through a list of labels, [labs]: node [n] is the node of the word
    [nth labs n].  The labels are distinct, closed under prefixes, start
    with the empty word at the root and contain every word of [D]; the
    children of a node are the nodes of its label extended by one
    character; the ids a node holds are those of [D]'s entries for its
    label, in the order they were added.  [BuildTrie_spec] shows that
    the builder's trie satisfies it, with empty transition caches. *)

From Stdlib Require Import String Ascii ZArith Bool List Sorted Lia.
From S2P Require Import Prelude Itertools AhoCorasick.
Import ListNotations.
Open Scope Z_scope.
Open Scope jpeg_scope.

(** ** Words, dictionaries and labels *)

Definition word : Type := list ascii.

Definition word_eqb (u v : word) : bool := if list_eq_dec ascii_dec u v then true else false.

(** The position of a label in the list of labels. *)
Fixpoint index_of (x : word) (labs : list word) : option nat :=
  match labs with
  | [] => None
  | y :: rest => if word_eqb y x then Some 0%nat else option_map S (index_of x rest)
  end.

(** A dictionary: the words added, with their ids, in order. *)
Definition dict : Type := list (word * Z).

Definition ids_of (D : dict) (u : word) : list Z :=
  map snd (filter (fun p => word_eqb (fst p) u) D).

(** The dictionary of [words_] and [ids_]. *)
Definition dict_of (words : list string) (ids : list Z) : dict :=
  combine (map list_ascii_of_string words) ids.

Record trie_inv (D : dict) (st : store) (labs : list word) : Prop := {
  ti_length : List.length labs = List.length st;
  ti_root : nth_error labs 0 = Some [];
  ti_nodup : NoDup labs;
  ti_prefix : forall x c, In (x ++ [c]) labs -> In x labs;
  ti_words : forall w id, In (w, id) D -> In w labs;
  ti_children : forall n node u c, nth_error st n = Some node -> nth_error labs n = Some u ->
    map_find c (trie_transitions node) = index_of (u ++ [c]) labs;
  ti_ids : forall n node u, nth_error st n = Some node -> nth_error labs n = Some u ->
    terminated_string_ids node = ids_of D u;
  ti_sorted : forall n node, nth_error st n = Some node -> StronglySorted key_lt (trie_transitions node)
}.

Definition caches_empty (st : store) : Prop :=
  forall node, In node st -> automaton_transitions_cache node = [].

(** ** Lemmas on labels *)

Lemma word_eqb_spec u v : word_eqb u v = true <-> u = v.
Proof. unfold word_eqb. destruct (list_eq_dec ascii_dec u v); split; congruence. Qed.

Lemma word_eqb_refl u : word_eqb u u = true.
Proof. apply word_eqb_spec. reflexivity. Qed.

Lemma index_of_Some x labs n : index_of x labs = Some n -> nth_error labs n = Some x.
Proof.
  revert n. induction labs as [|y rest IH]; intros n H; cbn [index_of] in H; [discriminate|].
  destruct (word_eqb y x) eqn:E.
  - injection H as <-. apply word_eqb_spec in E. subst. reflexivity.
  - destruct (index_of x rest) as [i|]; cbn in H; [|discriminate]. injection H as <-. apply IH. reflexivity.
Qed.

Lemma index_of_In x labs : In x labs -> exists n, index_of x labs = Some n.
Proof.
  induction labs as [|y rest IH]; intros H; [destruct H|]. cbn [index_of].
  destruct (word_eqb y x) eqn:E; [eauto|].
  destruct H as [<-|H]; [rewrite word_eqb_refl in E; discriminate|].
  destruct (IH H) as [n ->]. exists (S n). reflexivity.
Qed.

Lemma index_of_not_In x labs : ~ In x labs -> index_of x labs = None.
Proof.
  induction labs as [|y rest IH]; intros H; [reflexivity|]. cbn [index_of].
  destruct (word_eqb y x) eqn:E.
  - apply word_eqb_spec in E. subst. exfalso. apply H. left. reflexivity.
  - rewrite IH; [reflexivity|]. intros Hx. apply H. right. exact Hx.
Qed.

Lemma index_of_nth labs n x : NoDup labs -> nth_error labs n = Some x -> index_of x labs = Some n.
Proof.
  intros Hnd Hn. destruct (index_of_In x labs) as [m Hm]; [eapply nth_error_In; exact Hn|].
  rewrite Hm. f_equal. apply index_of_Some in Hm.
  eapply NoDup_nth_error; [exact Hnd|apply nth_error_Some; congruence|congruence].
Qed.

Lemma index_of_app x labs y :
  index_of x (labs ++ [y]) =
  match index_of x labs with
  | Some i => Some i
  | None => if word_eqb y x then Some (List.length labs) else None
  end.
Proof.
  induction labs as [|z rest IH]; cbn [index_of app List.length].
  - destruct (word_eqb y x); reflexivity.
  - destruct (word_eqb z x); [reflexivity|]. rewrite IH.
    destruct (index_of x rest); [reflexivity|]. destruct (word_eqb y x); reflexivity.
Qed.

Lemma ids_of_app_other D w id u : u <> w -> ids_of (D ++ [(w, id)]) u = ids_of D u.
Proof.
  intros Hne. unfold ids_of. rewrite filter_app, map_app. cbn [filter fst].
  replace (word_eqb w u) with false by (symmetry; apply not_true_iff_false; rewrite word_eqb_spec; congruence).
  rewrite app_nil_r. reflexivity.
Qed.

Lemma ids_of_app_same D w id : ids_of (D ++ [(w, id)]) w = ids_of D w ++ [id].
Proof. unfold ids_of. rewrite filter_app, map_app. cbn [filter fst]. rewrite word_eqb_refl. reflexivity. Qed.

Lemma ids_of_nil D u : (forall w id, In (w, id) D -> w <> u) -> ids_of D u = [].
Proof.
  intros H. unfold ids_of. induction D as [|[w id] D IH]; [reflexivity|]. cbn [filter fst].
  replace (word_eqb w u) with false.
  - apply IH. intros w' id' Hin. apply (H w' id'). right. exact Hin.
  - symmetry. apply not_true_iff_false. rewrite word_eqb_spec. apply (H w id). left. reflexivity.
Qed.

Lemma nth_error_app_last {A : Type} (l : list A) x n :
  nth_error (l ++ [x]) n = if Nat.eqb n (List.length l) then Some x else nth_error l n.
Proof.
  destruct (Nat.eqb_spec n (List.length l)) as [->|Hne].
  - rewrite nth_error_app2, Nat.sub_diag by lia. reflexivity.
  - destruct (Nat.ltb_spec n (List.length l)).
    + apply nth_error_app1. exact H.
    + rewrite nth_error_app2 by lia. rewrite (proj2 (nth_error_None l n)) by lia.
      destruct (n - List.length l)%nat eqn:E; [lia|]. destruct n0; reflexivity.
Qed.

Lemma In_index_of x labs : In x labs <-> exists n, index_of x labs = Some n.
Proof.
  split; [apply index_of_In|]. intros (n & Hn). apply index_of_Some in Hn. eapply nth_error_In. exact Hn.
Qed.

Lemma NoDup_snoc {A : Type} (l : list A) x : NoDup l -> ~ In x l -> NoDup (l ++ [x]).
Proof.
  intros Hnd Hx. apply NoDup_app; [exact Hnd|repeat constructor; intros []|].
  intros y Hy [<-|[]]. exact (Hx Hy).
Qed.

Lemma app_char_inj (u v : word) c c' : u ++ [c] = v ++ [c'] -> u = v /\ c = c'.
Proof. intros H. apply app_inj_tail in H. exact H. Qed.

Lemma nth_error_labs_store D st labs n u :
  trie_inv D st labs -> nth_error labs n = Some u -> exists node, nth_error st n = Some node.
Proof.
  intros Hti Hn. destruct (nth_error st n) as [node|] eqn:E; [eauto|].
  apply nth_error_None in E. rewrite <- (ti_length _ _ _ Hti) in E. apply nth_error_None in E. congruence.
Qed.

(** [trie_transitions[c] = AutomatonNode()] at a node without a child
    [c]: the fresh node is the node of the extended label. *)
Lemma add_fresh_child D st labs n node u c :
  trie_inv D st labs -> caches_empty st ->
  nth_error st n = Some node -> nth_error labs n = Some u -> map_find c (trie_transitions node) = None ->
  exists st1, update (st ++ [AutomatonNode_new]) (Some n) (set_child c (List.length st)) = Ok st1 /\
    trie_inv D st1 (labs ++ [u ++ [c]]) /\ caches_empty st1 /\
    GetTrieTransition st1 (Some n) c = Ok (Some (List.length st)).
Proof.
  intros Hti Hce Hnode Hlab Hnone.
  assert (Hlen : List.length labs = List.length st) by apply (ti_length _ _ _ Hti).
  assert (Hnlt : (n < List.length st)%nat) by (apply nth_error_Some; congruence).
  assert (Hnew : ~ In (u ++ [c]) labs).
  { rewrite (ti_children _ _ _ Hti n node u c Hnode Hlab) in Hnone. rewrite In_index_of. intros [i Hi]. congruence. }
  assert (Hnode0 : nth_error (st ++ [AutomatonNode_new]) n = Some node) by (rewrite nth_error_app1 by lia; exact Hnode).
  destruct (update_spec _ _ _ (set_child c (List.length st)) Hnode0) as (st1 & Hupd & Hlen1 & Hst1).
  rewrite length_app in Hlen1. cbn [List.length] in Hlen1.
  exists st1. split; [exact Hupd|]. split; [|split].
  - constructor.
    + rewrite length_app, Hlen1, Hlen. reflexivity.
    + rewrite nth_error_app1; [apply (ti_root _ _ _ Hti)|]. apply nth_error_Some. rewrite (ti_root _ _ _ Hti). discriminate.
    + apply NoDup_snoc; [apply (ti_nodup _ _ _ Hti)|exact Hnew].
    + intros x c' Hx. apply in_or_app. apply in_app_or in Hx as [Hx|[Hx|[]]].
      * left. exact (ti_prefix _ _ _ Hti x c' Hx).
      * left. apply app_char_inj in Hx as [<- _]. eapply nth_error_In. exact Hlab.
    + intros w id Hw. apply in_or_app. left. exact (ti_words _ _ _ Hti w id Hw).
    + intros j nd v c' Hj Hv. rewrite index_of_app. rewrite Hst1 in Hj.
      destruct (Nat.eqb_spec j n) as [->|Hjn].
      * injection Hj as <-. rewrite nth_error_app1 in Hv by lia. rewrite Hlab in Hv. injection Hv as <-.
        cbn [set_child trie_transitions]. rewrite map_find_assign.
        rewrite <- (ti_children _ _ _ Hti n node u c' Hnode Hlab).
        destruct (ascii_dec c c') as [<-|Hcc].
        -- rewrite Hnone, word_eqb_refl, Hlen. reflexivity.
        -- destruct (map_find c' (trie_transitions node)); [reflexivity|].
           replace (word_eqb (u ++ [c]) (u ++ [c'])) with false; [reflexivity|].
           symmetry. apply not_true_iff_false. rewrite word_eqb_spec. intros E. apply app_char_inj in E. tauto.
      * rewrite nth_error_app_last in Hj. rewrite nth_error_app_last in Hv. rewrite Hlen in Hv.
        destruct (Nat.eqb_spec j (List.length st)) as [->|Hjs].
        -- injection Hj as <-. injection Hv as <-. cbn [AutomatonNode_new trie_transitions map_find].
           rewrite (index_of_not_In ((u ++ [c]) ++ [c'])).
           ++ replace (word_eqb (u ++ [c]) ((u ++ [c]) ++ [c'])) with false; [reflexivity|].
              symmetry. apply not_true_iff_false. rewrite word_eqb_spec. intros E.
              apply (f_equal (@List.length ascii)) in E. rewrite !length_app in E. cbn in E. lia.
           ++ intros Hin. exact (Hnew (ti_prefix _ _ _ Hti _ _ Hin)).
        -- rewrite (ti_children _ _ _ Hti j nd v c' Hj Hv).
           destruct (index_of (v ++ [c']) labs); [reflexivity|].
           replace (word_eqb (u ++ [c]) (v ++ [c'])) with false; [reflexivity|].
           symmetry. apply not_true_iff_false. rewrite word_eqb_spec. intros E.
           apply app_char_inj in E as [<- _]. apply Hjn.
           eapply NoDup_nth_error; [apply (ti_nodup _ _ _ Hti)|apply nth_error_Some; congruence|congruence].
    + intros j nd v Hj Hv. rewrite Hst1 in Hj. destruct (Nat.eqb_spec j n) as [->|Hjn].
      * injection Hj as <-. rewrite nth_error_app1 in Hv by lia. cbn [set_child terminated_string_ids].
        exact (ti_ids _ _ _ Hti n node v Hnode Hv).
      * rewrite nth_error_app_last in Hj. rewrite nth_error_app_last in Hv. rewrite Hlen in Hv.
        destruct (Nat.eqb_spec j (List.length st)) as [->|Hjs].
        -- injection Hj as <-. injection Hv as <-. cbn [AutomatonNode_new terminated_string_ids]. symmetry.
           apply ids_of_nil. intros w id Hw ->. exact (Hnew (ti_words _ _ _ Hti _ _ Hw)).
        -- exact (ti_ids _ _ _ Hti j nd v Hj Hv).
    + intros j nd Hj. rewrite Hst1 in Hj. destruct (Nat.eqb_spec j n) as [Hjn|Hjn].
      * injection Hj as <-. apply map_assign_sorted, (ti_sorted _ _ _ Hti n node Hnode).
      * rewrite nth_error_app_last in Hj. destruct (Nat.eqb_spec j (List.length st)).
        -- injection Hj as <-. constructor.
        -- exact (ti_sorted _ _ _ Hti j nd Hj).
  - intros nd Hnd. apply In_nth_error in Hnd as (j & Hj). rewrite Hst1 in Hj.
    destruct (Nat.eqb_spec j n) as [Hjn|Hjn].
    + injection Hj as <-. cbn [set_child automaton_transitions_cache]. apply Hce. eapply nth_error_In. exact Hnode.
    + rewrite nth_error_app_last in Hj. destruct (Nat.eqb_spec j (List.length st)).
      * injection Hj as <-. reflexivity.
      * apply Hce. eapply nth_error_In. exact Hj.
  - unfold GetTrieTransition, deref. rewrite Hst1, Nat.eqb_refl. cbn [rbind set_child trie_transitions].
    rewrite map_find_assign. destruct (ascii_dec c c) as [_|]; [reflexivity|congruence].
Qed.

Lemma GetTrieTransition_label D st labs n node u c :
  trie_inv D st labs -> nth_error st n = Some node -> nth_error labs n = Some u ->
  GetTrieTransition st (Some n) c = Ok (index_of (u ++ [c]) labs).
Proof.
  intros Hti Hn Hu. unfold GetTrieTransition, deref. rewrite Hn. cbn [rbind].
  rewrite (ti_children _ _ _ Hti n node u c Hn Hu). reflexivity.
Qed.

(** The walk of [AddString] over the characters [cs] from the node of
    [u] ends at the node of [u ++ cs], creating what is missing. *)
Lemma add_chars_spec cs : forall D st labs n u,
  trie_inv D st labs -> caches_empty st -> nth_error labs n = Some u ->
  exists st' labs' m, add_chars st (Some n) cs = Ok (Some m, st') /\
    trie_inv D st' labs' /\ caches_empty st' /\ nth_error labs' m = Some (u ++ cs).
Proof.
  induction cs as [|c cs IH]; intros D st labs n u Hti Hce Hu; cbn [add_chars].
  - exists st, labs, n. rewrite app_nil_r. auto.
  - destruct (nth_error_labs_store _ _ _ _ _ Hti Hu) as [node Hn].
    rewrite (GetTrieTransition_label _ _ _ _ _ _ c Hti Hn Hu). cbn [rbind].
    destruct (index_of (u ++ [c]) labs) as [m|] eqn:Hm.
    + apply index_of_Some in Hm. destruct (IH _ _ _ _ _ Hti Hce Hm) as (st' & labs' & m' & H).
      exists st', labs', m'. rewrite <- app_assoc in H. exact H.
    + assert (Hnone : map_find c (trie_transitions node) = None)
        by (rewrite (ti_children _ _ _ Hti n node u c Hn Hu); exact Hm).
      destruct (add_fresh_child _ _ _ _ _ _ _ Hti Hce Hn Hu Hnone) as (st1 & Hupd & Hti1 & Hce1 & Hget).
      rewrite Hupd. cbn [rbind]. rewrite Hget. cbn [rbind].
      assert (Hlast : nth_error (labs ++ [u ++ [c]]) (List.length st) = Some (u ++ [c])).
      { rewrite nth_error_app_last, (ti_length _ _ _ Hti), Nat.eqb_refl. reflexivity. }
      destruct (IH _ _ _ _ _ Hti1 Hce1 Hlast) as (st' & labs' & m' & H).
      exists st', labs', m'. rewrite <- app_assoc in H. exact H.
Qed.

(** [AddString(root, id, w)] adds the entry [(w, id)] to the dictionary. *)
Lemma AddString_spec D st labs id s :
  trie_inv D st labs -> caches_empty st ->
  exists st' labs', AddString st root id s = Ok st' /\
    trie_inv (D ++ [(list_ascii_of_string s, id)]) st' labs' /\ caches_empty st'.
Proof.
  intros Hti Hce. set (w := list_ascii_of_string s).
  destruct (add_chars_spec w D st labs 0 [] Hti Hce (ti_root _ _ _ Hti)) as (st1 & labs1 & m & Hadd & Hti1 & Hce1 & Hm).
  unfold AddString, root. fold w. rewrite Hadd. cbn [rbind app].
  cbn [app] in Hm. destruct (nth_error_labs_store _ _ _ _ _ Hti1 Hm) as [node Hnode].
  destruct (update_spec _ _ _ (push_id id) Hnode) as (st' & Hupd & Hlen' & Hst').
  exists st', labs1. rewrite Hupd. split; [reflexivity|]. split.
  - constructor.
    + rewrite Hlen'. apply (ti_length _ _ _ Hti1).
    + apply (ti_root _ _ _ Hti1).
    + apply (ti_nodup _ _ _ Hti1).
    + apply (ti_prefix _ _ _ Hti1).
    + intros w' id' Hin. apply in_app_or in Hin as [Hin|[E|[]]].
      * exact (ti_words _ _ _ Hti1 _ _ Hin).
      * injection E as <- _. eapply nth_error_In. exact Hm.
    + intros j nd v c Hj Hv. rewrite Hst' in Hj. destruct (Nat.eqb_spec j m) as [Hjm|Hjm].
      * injection Hj as <-. subst j. cbn [push_id trie_transitions].
        exact (ti_children _ _ _ Hti1 m node v c Hnode Hv).
      * exact (ti_children _ _ _ Hti1 j nd v c Hj Hv).
    + intros j nd v Hj Hv. rewrite Hst' in Hj. destruct (Nat.eqb_spec j m) as [Hjm|Hjm].
      * injection Hj as <-. subst j. rewrite Hm in Hv. injection Hv as <-. cbn [push_id terminated_string_ids].
        rewrite (ti_ids _ _ _ Hti1 m node w Hnode Hm), ids_of_app_same. reflexivity.
      * rewrite (ti_ids _ _ _ Hti1 j nd v Hj Hv), ids_of_app_other; [reflexivity|].
        intros ->. apply Hjm. eapply NoDup_nth_error; [apply (ti_nodup _ _ _ Hti1)|apply nth_error_Some; rewrite Hv; discriminate|rewrite Hv, Hm; reflexivity].
    + intros j nd Hj. rewrite Hst' in Hj. destruct (Nat.eqb_spec j m) as [Hjm|Hjm].
      * injection Hj as <-. exact (ti_sorted _ _ _ Hti1 m node Hnode).
      * exact (ti_sorted _ _ _ Hti1 j nd Hj).
  - intros nd Hnd. apply In_nth_error in Hnd as (j & Hj). rewrite Hst' in Hj.
    destruct (Nat.eqb_spec j m) as [Hjm|Hjm].
    + injection Hj as <-. cbn [push_id automaton_transitions_cache]. apply Hce1. eapply nth_error_In. exact Hnode.
    + apply Hce1. eapply nth_error_In. exact Hj.
Qed.

(** The root alone is the trie of the empty dictionary. *)
Lemma trie_inv_root : trie_inv [] [AutomatonNode_new] [[]].
Proof.
  constructor; try reflexivity.
  - repeat constructor. intros [].
  - intros x c [E|[]]. destruct x; discriminate.
  - intros w id [].
  - intros [|[|j]] nd u c Hj Hu; cbn in Hj, Hu; try discriminate.
    injection Hj as <-. injection Hu as <-. reflexivity.
  - intros [|[|j]] nd u Hj Hu; cbn in Hj, Hu; try discriminate.
    injection Hj as <-. injection Hu as <-. reflexivity.
  - intros [|[|j]] nd Hj; cbn in Hj; try discriminate. injection Hj as <-. constructor.
Qed.

Lemma dict_of_snoc words ids w id :
  List.length words = List.length ids ->
  dict_of (words ++ [w]) (ids ++ [id]) = dict_of words ids ++ [(list_ascii_of_string w, id)].
Proof. intros H. unfold dict_of. rewrite map_app, combine_app; [reflexivity|]. rewrite length_map. exact H. Qed.

Lemma firstn_nth_snoc {A : Type} (l : list A) k x :
  nth_error l k = Some x -> firstn (S k) l = firstn k l ++ [x].
Proof.
  revert k. induction l as [|y l IH]; intros [|k] H; cbn in H; try discriminate.
  - injection H as ->. reflexivity.
  - change (y :: firstn (S k) l = (y :: firstn k l) ++ [x]). rewrite (IH k H). reflexivity.
Qed.

(** [BuildTrie] on the builder's words and ids, as many of each: the
    trie of their dictionary, with empty caches. *)
Theorem BuildTrie_spec words ids :
  List.length words = List.length ids ->
  exists st labs, BuildTrie words ids [AutomatonNode_new] = Ok st /\
    trie_inv (dict_of words ids) st labs /\ caches_empty st.
Proof.
  intros Hlen. unfold BuildTrie.
  assert (H : forall k, (k <= List.length words)%nat ->
            exists st labs, rfold (fun st i =>
                                     let? id := vec_get ids (Z.of_nat i) in
                                     let? w := vec_get words (Z.of_nat i) in
                                     AddString st root id w) (seq 0 k) [AutomatonNode_new] = Ok st /\
              trie_inv (dict_of (firstn k words) (firstn k ids)) st labs /\ caches_empty st).
  { induction k as [|k IH]; intros Hk.
    - exists [AutomatonNode_new], [[]]. split; [reflexivity|]. split; [exact trie_inv_root|].
      intros nd [<-|[]]. reflexivity.
    - destruct IH as (st & labs & Hrf & Hti & Hce); [lia|].
      destruct (nth_error_lt words k) as [w Hw]; [lia|]. destruct (nth_error_lt ids k) as [id Hid]; [lia|].
      destruct (AddString_spec _ _ _ id w Hti Hce) as (st' & labs' & Hadd & Hti' & Hce').
      exists st', labs'. rewrite seq_S, rfold_app, Hrf. cbn [rbind rfold Nat.add].
      unfold vec_get. rewrite Nat2Z.id. replace (Z.of_nat k <? 0) with false by (symmetry; apply Z.ltb_ge; lia).
      rewrite Hid, Hw. cbn [rbind]. rewrite Hadd. split; [reflexivity|]. split; [|exact Hce'].
      rewrite (firstn_nth_snoc words k w Hw), (firstn_nth_snoc ids k id Hid).
      rewrite dict_of_snoc; [exact Hti'|]. rewrite !length_firstn. lia. }
  destruct (H (List.length words) (le_n _)) as (st & labs & Hrf & Hti & Hce).
  exists st, labs. rewrite firstn_all in Hti. rewrite Hlen, firstn_all in Hti. auto.
Qed.
