(* ===== verification/AhoLinks.v ===== *)
(** * The suffix and terminal links the Aho-Corasick builder computes

    Over the labels of the trie ([AhoTrie.v]), [lsuf x] is the longest
    suffix of [x] that is a label (the empty word always is), [slink x]
    the longest proper one: the label of the node [x]'s suffix link must
    point to.  [lword x] is the longest suffix of [x] that is a word of
    the dictionary, and [tlink x] the longest proper one, which the
    terminal link must point to.

    The builder computes the links with two breadth-first searches of
    [Traverse.v].  The trie is a tree whose levels are the labels of
    each length; the visitors change links only, so each search is its
    visitor run over the level order ([BreadthFirstSearch_events],
    [bfs_trace_tree]).  In that order every node's links are computed
    after those of every shorter label, which the loop of
    [SuffixLinkCalculator::ExamineEdge] and the reading of the suffix's
    terminal link in [TerminalLinkCalculator::DiscoverVertex] rely on. *)

From Stdlib Require Import String Ascii ZArith Bool List Sorted Lia.
From S2P Require Import Prelude Itertools Traverse AhoCorasick AhoTrie.
Import ListNotations.
Open Scope Z_scope.
Open Scope jpeg_scope.

(** ** Suffixes among the labels *)

Definition is_suffix (y x : word) : Prop := exists z, x = z ++ y.

Section Labels.

Variable labs : list word.

Definition in_labs (x : word) : bool :=
  match index_of x labs with Some _ => true | None => false end.

(** The longest suffix of [x] among the labels. *)
Fixpoint lsuf (x : word) : word :=
  if in_labs x then x else match x with [] => [] | _ :: r => lsuf r end.

(** The label a suffix link points to: the longest proper suffix among
    the labels, the root for the root. *)
Definition slink (x : word) : word := match x with [] => [] | _ :: r => lsuf r end.

Hypothesis labs_root : In [] labs.
Hypothesis labs_prefix : forall x c, In (x ++ [c]) labs -> In x labs.

Lemma in_labs_spec x : in_labs x = true <-> In x labs.
Proof.
  unfold in_labs. rewrite In_index_of. destruct (index_of x labs); split; try discriminate; eauto.
  intros [n Hn]. discriminate.
Qed.

Lemma in_labs_false x : in_labs x = false <-> ~ In x labs.
Proof. rewrite <- in_labs_spec. destruct (in_labs x); split; congruence. Qed.

Lemma lsuf_in x : In (lsuf x) labs.
Proof.
  induction x as [|a r IH]; cbn [lsuf]; destruct (in_labs _) eqn:E; try exact IH; try exact labs_root.
  all: apply in_labs_spec; exact E.
Qed.

Lemma lsuf_id x : In x labs -> lsuf x = x.
Proof. intros H. destruct x; cbn [lsuf]; apply in_labs_spec in H; rewrite H; reflexivity. Qed.

Lemma is_suffix_refl x : is_suffix x x.
Proof. exists []. reflexivity. Qed.

Lemma is_suffix_trans x y z : is_suffix x y -> is_suffix y z -> is_suffix x z.
Proof. intros [a ->] [b ->]. exists (b ++ a). apply app_assoc. Qed.

Lemma is_suffix_cons y a r : is_suffix y r -> is_suffix y (a :: r).
Proof. intros [z ->]. exists (a :: z). reflexivity. Qed.

Lemma is_suffix_length y x : is_suffix y x -> (List.length y <= List.length x)%nat.
Proof. intros [z ->]. rewrite length_app. lia. Qed.

Lemma is_suffix_antisym x y : is_suffix x y -> is_suffix y x -> x = y.
Proof.
  intros [a Ha] [b Hb]. subst y. rewrite app_assoc in Hb.
  assert (Hl : List.length (b ++ a) = 0%nat).
  { apply (f_equal (@List.length ascii)) in Hb. rewrite !length_app in Hb. rewrite length_app. lia. }
  destruct a; [reflexivity|]. rewrite length_app in Hl. cbn in Hl. lia.
Qed.

Lemma lsuf_suffix x : is_suffix (lsuf x) x.
Proof.
  induction x as [|a r IH]; cbn [lsuf]; destruct (in_labs _); try apply is_suffix_refl.
  apply is_suffix_cons, IH.
Qed.

(** No label longer than [lsuf x] is a suffix of [x]. *)
Lemma lsuf_max x y : is_suffix y x -> In y labs -> is_suffix y (lsuf x).
Proof.
  induction x as [|a r IH]; intros Hy Hin; cbn [lsuf]; destruct (in_labs _) eqn:E; try exact Hy.
  - apply in_labs_false in E. destruct Hy as [[|b z] Hz].
    + cbn in Hz. subst y. contradiction.
    + injection Hz as -> Hz. apply IH; [exists z; exact Hz|exact Hin].
Qed.

Lemma is_suffix_snoc y x c :
  is_suffix y (x ++ [c]) -> y = [] \/ exists y', y = y' ++ [c] /\ is_suffix y' x.
Proof.
  intros [z Hz]. destruct (rev y) as [|d ry] eqn:Ey.
  - left. apply (f_equal (@rev ascii)) in Ey. rewrite rev_involutive in Ey. exact Ey.
  - right. apply (f_equal (@rev ascii)) in Ey. rewrite rev_involutive in Ey. cbn in Ey. subst y.
    rewrite app_assoc in Hz. apply app_inj_tail in Hz as [Hz ->].
    exists (rev ry). split; [reflexivity|]. exists z. exact Hz.
Qed.

(** The longest label ending [t ++ [c]] ends [lsuf t ++ [c]]. *)
Lemma lsuf_snoc t c : lsuf (t ++ [c]) = lsuf (lsuf t ++ [c]).
Proof.
  apply is_suffix_antisym.
  - apply lsuf_max; [|apply lsuf_in].
    destruct (is_suffix_snoc _ _ _ (lsuf_suffix (t ++ [c]))) as [->|(y' & Hy' & Hsuf)].
    + exists (lsuf t ++ [c]). rewrite app_nil_r. reflexivity.
    + rewrite Hy'. assert (Hin : In y' labs).
      { apply (labs_prefix y' c). rewrite <- Hy'. apply lsuf_in. }
      destruct (lsuf_max t y' Hsuf Hin) as [z Hz]. exists z. rewrite Hz, app_assoc. reflexivity.
  - apply lsuf_max; [|apply lsuf_in].
    apply (is_suffix_trans _ (lsuf t ++ [c])); [apply lsuf_suffix|].
    destruct (lsuf_suffix t) as [z Hz]. exists z. rewrite app_assoc, <- Hz. reflexivity.
Qed.

(** One round of the suffix-link loop: when [y ++ [c]] is not a label,
    the answer is that of the suffix link of [y]. *)
Lemma lsuf_step y c : ~ In (y ++ [c]) labs -> lsuf (y ++ [c]) = lsuf (slink y ++ [c]).
Proof.
  intros Hy. destruct y as [|a r]; [reflexivity|]. cbn [slink app lsuf].
  replace (in_labs (a :: r ++ [c])) with false by (symmetry; apply in_labs_false; exact Hy).
  apply lsuf_snoc.
Qed.

Lemma slink_in x : In (slink x) labs.
Proof. destruct x; [exact labs_root|apply lsuf_in]. Qed.

Lemma slink_shorter x : x <> [] -> (List.length (slink x) < List.length x)%nat.
Proof.
  intros Hx. destruct x as [|a r]; [congruence|]. cbn [slink List.length].
  pose proof (is_suffix_length _ _ (lsuf_suffix r)). lia.
Qed.

(** The suffix link of [x ++ [c]] is the longest label ending
    [slink x ++ [c]]. *)
Lemma slink_snoc x c : x <> [] -> slink (x ++ [c]) = lsuf (slink x ++ [c]).
Proof. intros Hx. destruct x as [|a r]; [congruence|]. cbn [app slink]. apply lsuf_snoc. Qed.

Lemma labs_prefix_app y z : In (y ++ z) labs -> In y labs.
Proof.
  revert y. induction z as [|c z IH] using rev_ind; intros y H.
  - rewrite app_nil_r in H. exact H.
  - rewrite app_assoc in H. apply IH, (labs_prefix _ c), H.
Qed.

End Labels.

(** A label is shorter than the number of labels: its prefixes are
    distinct labels. *)
Lemma label_length_bound (labs : list word) (x : word) :
  NoDup labs -> (forall x c, In (x ++ [c]) labs -> In x labs) -> In x labs ->
  (List.length x < List.length labs)%nat.
Proof.
  intros Hnd Hpref Hx.
  assert (Hinc : incl (map (fun i => firstn i x) (seq 0 (S (List.length x)))) labs).
  { intros y Hy. apply in_map_iff in Hy as (i & <- & _).
    apply (labs_prefix_app labs Hpref _ (skipn i x)). rewrite firstn_skipn. exact Hx. }
  assert (Hnd' : NoDup (map (fun i => firstn i x) (seq 0 (S (List.length x))))).
  { apply NoDup_map_NoDup_ForallPairs; [|apply seq_NoDup].
    intros i j Hi Hj E. apply in_seq in Hi, Hj. apply (f_equal (@List.length ascii)) in E.
    rewrite !length_firstn in E. lia. }
  apply NoDup_incl_length in Hinc; [|exact Hnd']. rewrite length_map, length_seq in Hinc. unfold word in *. lia.
Qed.

(** ** The links a visitor writes; the trie it leaves alone *)

(** What the searches and the matcher never change: ids and children. *)
Definition skel (node : AutomatonNode) : list Z * cmap nat :=
  (terminated_string_ids node, trie_transitions node).

Lemma skel_nth st s n node :
  map skel s = map skel st -> nth_error st n = Some node ->
  exists node', nth_error s n = Some node' /\ skel node' = skel node.
Proof.
  intros Hs Hn. apply (f_equal (fun l => nth_error l n)) in Hs. rewrite !nth_error_map, Hn in Hs.
  destruct (nth_error s n) as [node'|]; cbn [option_map] in Hs; [|discriminate].
  exists node'. split; [reflexivity|congruence].
Qed.

Lemma update_skel f s p s' :
  (forall nd, skel (f nd) = skel nd) -> update s p f = Ok s' -> map skel s' = map skel s.
Proof.
  intros Hf H. destruct (update_inv _ _ _ _ H) as (n & node & -> & Hn & _ & Hs').
  apply nth_error_ext. intros j. rewrite !nth_error_map, Hs'.
  destruct (Nat.eqb_spec j n) as [->|]; [rewrite Hn; cbn; rewrite Hf|]; reflexivity.
Qed.

Lemma trie_inv_skel D st s labs : map skel s = map skel st -> trie_inv D st labs -> trie_inv D s labs.
Proof.
  intros Hs Hti. assert (Hlen : List.length s = List.length st).
  { apply (f_equal (@List.length _)) in Hs. rewrite !length_map in Hs. exact Hs. }
  assert (Hback : forall n node', nth_error s n = Some node' ->
            exists node, nth_error st n = Some node /\ skel node' = skel node).
  { intros n node' Hn. apply (f_equal (fun l => nth_error l n)) in Hs. rewrite !nth_error_map, Hn in Hs.
    destruct (nth_error st n) as [node|]; cbn [option_map] in Hs; [|discriminate].
    exists node. split; [reflexivity|congruence]. }
  constructor; try apply (ti_root _ _ _ Hti); try apply (ti_nodup _ _ _ Hti);
    try apply (ti_prefix _ _ _ Hti); try apply (ti_words _ _ _ Hti).
  - rewrite Hlen. apply (ti_length _ _ _ Hti).
  - intros n node' u c Hn Hu. destruct (Hback n node' Hn) as (node & Hnode & Hsk).
    injection Hsk as _ ->. exact (ti_children _ _ _ Hti n node u c Hnode Hu).
  - intros n node' u Hn Hu. destruct (Hback n node' Hn) as (node & Hnode & Hsk).
    injection Hsk as -> _. exact (ti_ids _ _ _ Hti n node u Hnode Hu).
  - intros n node' Hn. destruct (Hback n node' Hn) as (node & Hnode & Hsk).
    injection Hsk as _ ->. exact (ti_sorted _ _ _ Hti n node Hnode).
Qed.

(** The edges of the trie, as [OutgoingEdges] lists them. *)
Definition trie_edges (st : store) (n : nat) : list Edge :=
  match nth_error st n with
  | Some node => map (fun kv => mk_edge n (snd kv) (fst kv)) (trie_transitions node)
  | None => []
  end.

Lemma OutgoingEdges_skel st s n :
  map skel s = map skel st -> (n < List.length st)%nat -> OutgoingEdges s n = Ok (trie_edges st n).
Proof.
  intros Hs Hn. destruct (nth_error st n) as [node|] eqn:Hnode; [|apply nth_error_None in Hnode; lia].
  destruct (skel_nth _ _ _ _ Hs Hnode) as (node' & Hnode' & Hsk). injection Hsk as _ Htr.
  unfold OutgoingEdges, trie_edges, deref. rewrite Hnode', Hnode. cbn [rbind]. rewrite Htr.
  f_equal. apply map_ext. intros [c child]. reflexivity.
Qed.

(** ** The trie is a tree, its levels the labels of each length *)

Section TrieTree.

Variable D : dict.
Variable st : store.
Variable labs : list word.
Hypothesis Hti : trie_inv D st labs.

Definition depth (n : nat) : nat := List.length (nth n labs []).

Definition parent (n : nat) : nat :=
  match index_of (removelast (nth n labs [])) labs with Some p => p | None => 0%nat end.

Lemma label_nth n u : nth_error labs n = Some u -> nth n labs [] = u.
Proof. intros H. apply nth_error_nth, H. Qed.

Lemma trie_edge_label u e :
  In e (trie_edges st u) ->
  source e = u /\ nth_error labs (target e) = Some (nth u labs [] ++ [character e]).
Proof.
  unfold trie_edges. destruct (nth_error st u) as [node|] eqn:Hu; [|intros []].
  intros He. apply in_map_iff in He as ([c child] & <- & Hin). cbn [source target character].
  split; [reflexivity|].
  destruct (nth_error labs u) as [x|] eqn:Hx.
  2:{ apply nth_error_None in Hx. rewrite (ti_length _ _ _ Hti) in Hx. apply nth_error_None in Hx. congruence. }
  rewrite (label_nth _ _ Hx). apply index_of_Some.
  cbn [fst snd]. rewrite <- (ti_children _ _ _ Hti u node x c Hu Hx). apply map_find_In; [|exact Hin].
  exact (ti_sorted _ _ _ Hti u node Hu).
Qed.

Lemma trie_edge_child u e :
  In e (trie_edges st u) -> parent (target e) = u /\ depth (target e) = S (depth u).
Proof.
  intros He. destruct (trie_edge_label u e He) as [_ Hlab]. unfold parent, depth.
  rewrite (label_nth _ _ Hlab), removelast_last, length_app. cbn [List.length].
  split; [|lia].
  assert (Hu : (u < List.length st)%nat).
  { unfold trie_edges in He. destruct (nth_error st u) eqn:E; [apply nth_error_Some; congruence|destruct He]. }
  rewrite index_of_nth with (n := u); [reflexivity|apply (ti_nodup _ _ _ Hti)|].
  apply nth_error_nth'. rewrite (ti_length _ _ _ Hti). exact Hu.
Qed.

Lemma trie_edges_nodup u : NoDup (map GetTarget (trie_edges st u)).
Proof.
  assert (Hinj : forall e e', In e (trie_edges st u) -> In e' (trie_edges st u) -> target e = target e' -> e = e').
  { unfold trie_edges. destruct (nth_error st u) as [node|] eqn:Hu; [|intros e e' []].
    intros e e' He He' Ht. apply in_map_iff in He as ([c x] & <- & Hin), He' as ([c' x'] & <- & Hin').
    cbn in Ht. subst x'. assert (Hc : c = c').
    { pose proof (trie_edge_label u (mk_edge u x c)) as H1. pose proof (trie_edge_label u (mk_edge u x c')) as H2.
      unfold trie_edges in H1, H2. rewrite Hu in H1, H2.
      destruct (H1 (in_map (fun kv => mk_edge u (snd kv) (fst kv)) _ (c, x) Hin)) as [_ E1].
      destruct (H2 (in_map (fun kv => mk_edge u (snd kv) (fst kv)) _ (c', x) Hin')) as [_ E2].
      cbn in E1, E2. rewrite E1 in E2. injection E2 as E2. apply app_char_inj in E2 as [_ E2]. exact E2. }
    subst c'. reflexivity. }
  assert (Hnd : NoDup (trie_edges st u)).
  { unfold trie_edges. destruct (nth_error st u) as [node|] eqn:Hu; [|constructor].
    pose proof (ti_sorted _ _ _ Hti u node Hu) as Hs. clear Hinj.
    induction (trie_transitions node) as [|[c x] rest IH]; cbn [map]; [constructor|].
    inversion Hs as [|? ? Hrest Hall]; subst. rewrite Forall_forall in Hall. constructor; [|apply IH, Hrest].
    intros Hin. apply in_map_iff in Hin as ([c' x'] & E & Hin). injection E as -> ->.
    specialize (Hall _ Hin). unfold key_lt in Hall. cbn in Hall. lia. }
  apply NoDup_map_NoDup_ForallPairs; [|exact Hnd]. intros e e' He He' Ht. exact (Hinj e e' He He' Ht).
Qed.

Lemma depth_root : depth 0 = 0%nat.
Proof. unfold depth. rewrite (label_nth _ _ (ti_root _ _ _ Hti)). reflexivity. Qed.

Definition trie_level : nat -> list nat := level GetTarget (trie_edges st) 0%nat.

Lemma trie_level_vert k v : In v (trie_level k) -> (v < List.length st)%nat.
Proof.
  revert v. induction k as [|k IH]; intros v Hv; cbn [trie_level level] in Hv.
  - destruct Hv as [<-|[]]. rewrite <- (ti_length _ _ _ Hti). apply nth_error_Some. rewrite (ti_root _ _ _ Hti). discriminate.
  - apply in_flat_map in Hv as (u & _ & Hv). unfold children in Hv. apply in_map_iff in Hv as (e & <- & He).
    destruct (trie_edge_label u e He) as [_ Hl]. rewrite <- (ti_length _ _ _ Hti). apply nth_error_Some. unfold GetTarget. rewrite Hl. discriminate.
Qed.

(** Every node is on the level of its label's length. *)
Lemma trie_level_complete v : (v < List.length st)%nat -> In v (trie_level (depth v)).
Proof.
  intros Hv. remember (depth v) as k eqn:Hk. revert v Hv Hk. induction k as [|k IH]; intros v Hv Hk.
  - assert (Hlab : nth_error labs v = Some []).
    { unfold depth in Hk. rewrite (@nth_error_nth' _ labs v []) by (rewrite (ti_length _ _ _ Hti); exact Hv).
      destruct (nth v labs []); [reflexivity|discriminate]. }
    assert (v = 0%nat) as ->.
    { eapply NoDup_nth_error; [apply (ti_nodup _ _ _ Hti)|apply nth_error_Some; congruence|].
      rewrite Hlab, (ti_root _ _ _ Hti). reflexivity. }
    left. reflexivity.
  - assert (Hlab : nth_error labs v = Some (nth v labs [])) by (apply nth_error_nth'; rewrite (ti_length _ _ _ Hti); exact Hv).
    destruct (exists_last (l := nth v labs [])) as (x & c & Hxc).
    { intros E. unfold depth in Hk. rewrite E in Hk. discriminate. }
    rewrite Hxc in Hlab.
    assert (Hx : In x labs) by (apply (ti_prefix _ _ _ Hti x c); eapply nth_error_In; exact Hlab).
    destruct (index_of_In _ _ Hx) as [p Hp]. pose proof (index_of_Some _ _ _ Hp) as Hpl.
    destruct (nth_error_labs_store _ _ _ _ _ Hti Hpl) as [node Hnode].
    assert (Hp_lt : (p < List.length st)%nat) by (apply nth_error_Some; congruence).
    assert (Hdp : depth p = k).
    { unfold depth in *. rewrite (label_nth _ _ Hpl). rewrite Hxc, length_app in Hk. cbn in Hk. lia. }
    cbn [trie_level level]. apply in_flat_map. exists p. split; [apply IH; auto|].
    unfold children, trie_edges. rewrite Hnode. rewrite map_map. apply in_map_iff. exists (c, v). split; [reflexivity|].
    apply map_find_Some_In. rewrite (ti_children _ _ _ Hti p node x c Hnode Hpl).
    apply index_of_nth; [apply (ti_nodup _ _ _ Hti)|exact Hlab].
Qed.

(** The deepest label's length. *)
Definition max_depth : nat := list_max (map (@List.length ascii) labs).

Lemma depth_le_max v : (depth v <= max_depth)%nat.
Proof.
  unfold depth, max_depth. destruct (Nat.ltb_spec v (List.length labs)).
  - pose proof (proj1 (list_max_le (map (@List.length ascii) labs) _) (le_n _)) as H1.
    rewrite Forall_forall in H1. apply H1, in_map, nth_In, H.
  - rewrite nth_overflow by lia. cbn. lia.
Qed.

Lemma trie_level_end : trie_level (S max_depth) = [].
Proof.
  destruct (trie_level (S max_depth)) as [|v rest] eqn:E; [reflexivity|]. exfalso.
  assert (Hv : In v (trie_level (S max_depth))) by (rewrite E; left; reflexivity).
  pose proof (level_depth GetTarget (trie_edges st) 0%nat parent depth depth_root trie_edge_child _ _ Hv).
  pose proof (depth_le_max v). lia.
Qed.

Lemma nat_eqb_spec' a b : Nat.eqb a b = true <-> a = b.
Proof. apply Nat.eqb_eq. Qed.

Lemma trie_levels_size : (levels_size GetTarget (trie_edges st) 0%nat (S max_depth) <= List.length st)%nat.
Proof.
  rewrite levels_size_flat. rewrite <- (length_seq (List.length st) 0).
  apply NoDup_incl_length.
  - apply (levels_nodup Nat.eqb nat_eqb_spec' GetTarget (trie_edges st) 0%nat parent depth depth_root
             trie_edge_child trie_edges_nodup).
  - intros v Hv. apply in_flat_map in Hv as (k & _ & Hv). apply in_seq. split; [lia|].
    exact (trie_level_vert k v Hv).
Qed.

Lemma trie_vert_target u e :
  (u < List.length st)%nat -> In e (trie_edges st u) -> (GetTarget e < List.length st)%nat.
Proof.
  intros _ He. destruct (trie_edge_label u e He) as [_ Hl]. rewrite <- (ti_length _ _ _ Hti).
  apply nth_error_Some. unfold GetTarget. rewrite Hl. discriminate.
Qed.

(** A search of the trie whose visitor changes no ids and no children
    is its visitor run over the level order. *)
Lemma bfs_trie_events vis :
  (forall ev s s', map skel s = map skel st -> apply_event vis ev s = Ok s' -> map skel s' = map skel st) ->
  bfs vis st = run_events vis (EvDiscover 0%nat :: level_events GetTarget (trie_edges st) 0%nat (S max_depth)) st.
Proof.
  intros Hvis. unfold bfs.
  replace (List.length st) with (levels_size GetTarget (trie_edges st) 0%nat (S max_depth) +
                                 (List.length st - levels_size GetTarget (trie_edges st) 0%nat (S max_depth)))%nat
    by (pose proof trie_levels_size; lia).
  apply (BreadthFirstSearch_events Nat.eqb OutgoingEdges GetTarget (trie_edges st) vis
           (fun v => (v < List.length st)%nat) trie_vert_target (fun s => map skel s = map skel st)).
  - intros s v Hs Hv. apply OutgoingEdges_skel; assumption.
  - exact Hvis.
  - reflexivity.
  - rewrite <- (ti_length _ _ _ Hti). apply nth_error_Some. rewrite (ti_root _ _ _ Hti). discriminate.
  - apply (bfs_trace_tree Nat.eqb nat_eqb_spec' GetTarget (trie_edges st) 0%nat parent depth depth_root
             trie_edge_child trie_edges_nodup). exact trie_level_end.
Qed.

End TrieTree.
