(* ===== verification/AhoBuild.v ===== *)
(** * The links [AutomatonBuilder::Build] computes

    Both searches of the builder run their visitor over the level order
    of the trie ([bfs_trie_events] of [AhoLinks.v]).  [LevelFold] turns
    that into an induction on the levels: a visitor that writes a node's
    correct value once the nodes of smaller depth hold theirs leaves every
    node correct.  [BuildSuffixLinks_spec] and [BuildTerminalLinks_spec]
    instantiate it with [SuffixLinkCalculator] and
    [TerminalLinkCalculator]: the first sets each node's suffix link to
    the node of [slink] of its label, the second its terminal link to the
    node of [tlink]; both leave everything else as it was. *)

From Stdlib Require Import String Ascii ZArith Bool List Sorted Lia.
From S2P Require Import Prelude Itertools Traverse AhoCorasick AhoTrie AhoLinks.
Import ListNotations.
Open Scope Z_scope.
Open Scope jpeg_scope.

(** ** A visitor run over the levels *)

Section LevelFold.

Variable D : dict.
Variable st : store.
Variable labs : list word.
Hypothesis Hti : trie_inv D st labs.

Variable vis : BfsVisitor nat Edge store.
(** [Frame s]: what the visitor keeps of the store; [Good s n]: node [n]
    holds its final value. *)
Variable Frame : store -> Prop.
Variable Good : store -> nat -> Prop.

Definition upto (s : store) (k : nat) : Prop :=
  forall n, (n < List.length st)%nat -> (depth labs n <= k)%nat -> Good s n.

Definition mono (s s' : store) : Prop := forall n, Good s n -> Good s' n.

Hypothesis start_ok : forall s, Frame s ->
  exists s', run_events vis [EvDiscover 0%nat; EvExamineVertex 0%nat] s = Ok s' /\ Frame s' /\ Good s' 0%nat.
Hypothesis vertex_ok : forall s u, u <> 0%nat -> Frame s ->
  exists s', ExamineVertex vis u s = Ok s' /\ Frame s' /\ mono s s'.
Hypothesis edge_ok : forall s u e, In e (trie_edges st u) -> Frame s -> upto s (depth labs u) ->
  exists s', run_events vis (edge_events GetTarget e) s = Ok s' /\ Frame s' /\ mono s s' /\ Good s' (target e).

Lemma upto_mono s s' k : mono s s' -> upto s k -> upto s' k.
Proof. intros Hm Hu n Hn Hd. apply Hm, Hu; assumption. Qed.

Lemma edges_fold u es : forall s, incl es (trie_edges st u) -> Frame s -> upto s (depth labs u) ->
  exists s', run_events vis (flat_map (edge_events GetTarget) es) s = Ok s' /\ Frame s' /\ mono s s' /\
    forall e, In e es -> Good s' (target e).
Proof.
  induction es as [|e es IH]; intros s Hinc Hf Hu.
  - exists s. repeat split; [assumption|intros n H; exact H|intros e []].
  - destruct (edge_ok s u e ltac:(apply Hinc; left; reflexivity) Hf Hu) as (s1 & E1 & Hf1 & Hm1 & Hg1).
    destruct (IH s1 ltac:(intros x Hx; apply Hinc; right; exact Hx) Hf1 ltac:(apply (upto_mono s); assumption))
      as (s2 & E2 & Hf2 & Hm2 & Hg2).
    exists s2. cbn [flat_map]. rewrite run_events_app, E1. cbn [rbind]. rewrite E2.
    split; [reflexivity|]. split; [exact Hf2|]. split; [intros n H; apply Hm2, Hm1, H|].
    intros x [<-|Hx]; [apply Hm2, Hg1|apply Hg2, Hx].
Qed.

Lemma vertices_fold k us : forall s, (1 <= k)%nat -> incl us (trie_level st k) -> Frame s -> upto s k ->
  exists s', run_events vis (flat_map (vertex_events GetTarget (trie_edges st)) us) s = Ok s' /\
    Frame s' /\ mono s s' /\ forall u e, In u us -> In e (trie_edges st u) -> Good s' (target e).
Proof.
  induction us as [|u us IH]; intros s Hk Hinc Hf Hu.
  - exists s. repeat split; [assumption|intros n H; exact H|intros u e []].
  - assert (Hdu : depth labs u = k).
    { apply (level_depth GetTarget (trie_edges st) 0%nat (parent labs) (depth labs) (depth_root _ _ _ Hti)
               (trie_edge_child _ _ _ Hti)), Hinc. left. reflexivity. }
    assert (Hu0 : u <> 0%nat) by (intros ->; rewrite (depth_root _ _ _ Hti) in Hdu; lia).
    destruct (vertex_ok s u Hu0 Hf) as (s1 & E1 & Hf1 & Hm1).
    destruct (edges_fold u (trie_edges st u) s1 (incl_refl _) Hf1
                ltac:(rewrite Hdu; apply (upto_mono s); assumption)) as (s2 & E2 & Hf2 & Hm2 & Hg2).
    destruct (IH s2 Hk ltac:(intros x Hx; apply Hinc; right; exact Hx) Hf2
                ltac:(apply (upto_mono s); [intros n H; apply Hm2, Hm1, H|exact Hu])) as (s3 & E3 & Hf3 & Hm3 & Hg3).
    exists s3. cbn [flat_map]. rewrite run_events_app. unfold vertex_events at 1.
    rewrite run_events_cons. cbn [apply_event]. rewrite E1. cbn [rbind]. rewrite E2. cbn [rbind]. rewrite E3.
    split; [reflexivity|]. split; [exact Hf3|]. split; [intros n H; apply Hm3, Hm2, Hm1, H|].
    intros x e [<-|Hx] He; [apply Hm3, Hg2, He|apply (Hg3 x e Hx He)].
Qed.

(** A node one level down is the target of an edge of the level. *)
Lemma level_succ_target n k :
  (n < List.length st)%nat -> depth labs n = S k ->
  exists u e, In u (trie_level st k) /\ In e (trie_edges st u) /\ target e = n.
Proof.
  intros Hn Hd. pose proof (trie_level_complete _ _ _ Hti n Hn) as Hl. rewrite Hd in Hl.
  unfold trie_level in Hl. cbn [level] in Hl. apply in_flat_map in Hl as (u & Hu & Hc).
  unfold children in Hc. apply in_map_iff in Hc as (e & <- & He). exists u, e. auto.
Qed.

Lemma depth_zero n : (n < List.length st)%nat -> depth labs n = 0%nat -> n = 0%nat.
Proof.
  intros Hn Hd. pose proof (trie_level_complete _ _ _ Hti n Hn) as Hl. rewrite Hd in Hl.
  destruct Hl as [<-|[]]. reflexivity.
Qed.

Lemma levels_fold k : Frame st ->
  exists s', run_events vis (EvDiscover 0%nat :: level_events GetTarget (trie_edges st) 0%nat (S k)) st = Ok s' /\
    Frame s' /\ upto s' (S k).
Proof.
  intros Hst. induction k as [|k IH].
  - destruct (start_ok st Hst) as (s1 & E1 & Hf1 & Hg1).
    assert (Hu1 : upto s1 (depth labs 0%nat)).
    { rewrite (depth_root _ _ _ Hti). intros n Hn Hd.
      replace n with 0%nat by (symmetry; apply depth_zero; [exact Hn|lia]). exact Hg1. }
    destruct (edges_fold 0%nat (trie_edges st 0%nat) s1 (incl_refl _) Hf1 Hu1) as (s2 & E2 & Hf2 & Hm2 & Hg2).
    assert (Hev : EvDiscover 0%nat :: level_events GetTarget (trie_edges st) 0%nat 1 =
                  [EvDiscover 0%nat; EvExamineVertex 0%nat] ++ flat_map (edge_events GetTarget) (trie_edges st 0%nat)).
    { unfold level_events, vertex_events. cbn [seq map flat_map level]. rewrite !app_nil_r. reflexivity. }
    exists s2. rewrite Hev, run_events_app, E1. cbn [rbind]. rewrite E2. split; [reflexivity|]. split; [exact Hf2|].
    intros n Hn Hd. destruct (depth labs n) as [|[|d]] eqn:Hdn; [|clear Hd|lia].
    + apply Hm2. replace n with 0%nat by (symmetry; apply depth_zero; assumption). exact Hg1.
    + destruct (level_succ_target n 0%nat Hn Hdn) as (u & e & Hu & He & <-).
      destruct Hu as [<-|[]]. apply Hg2, He.
  - destruct IH as (s1 & E1 & Hf1 & Hu1).
    destruct (vertices_fold (S k) (trie_level st (S k)) s1 ltac:(lia) (incl_refl _) Hf1 Hu1)
      as (s2 & E2 & Hf2 & Hm2 & Hg2).
    exists s2. rewrite level_events_S. rewrite app_comm_cons, run_events_app, E1. cbn [rbind].
    fold (trie_level st (S k)). rewrite E2. split; [reflexivity|]. split; [exact Hf2|].
    intros n Hn Hd. destruct (Nat.eq_dec (depth labs n) (S (S k))) as [Hdn|Hdn].
    + destruct (level_succ_target n (S k) Hn Hdn) as (u & e & Hu & He & <-). exact (Hg2 u e Hu He).
    + apply Hm2, Hu1; [exact Hn|lia].
Qed.

(** The visitor run over the whole level order leaves every node good. *)
Lemma levels_fold_all : Frame st ->
  exists s', run_events vis (EvDiscover 0%nat :: level_events GetTarget (trie_edges st) 0%nat (S (max_depth labs))) st = Ok s' /\
    Frame s' /\ forall n, (n < List.length st)%nat -> Good s' n.
Proof.
  intros Hst. destruct (levels_fold (max_depth labs) Hst) as (s' & E & Hf & Hu).
  exists s'. split; [exact E|]. split; [exact Hf|]. intros n Hn. apply Hu; [exact Hn|].
  pose proof (depth_le_max labs n). lia.
Qed.

End LevelFold.

(** ** Suffix links *)

Lemma set_suffix_link_twice l l' node : set_suffix_link l (set_suffix_link l' node) = set_suffix_link l node.
Proof. destruct node; reflexivity. Qed.

Lemma skel_set_suffix_link l node : skel (set_suffix_link l node) = skel node.
Proof. destruct node; reflexivity. Qed.

Lemma deref_nth s n x : nth_error s n = Some x -> deref s (Some n) = Ok x.
Proof. intros H. unfold deref. rewrite H. reflexivity. Qed.

Lemma lsuf_nil labs : lsuf labs [] = [].
Proof. cbn [lsuf]. destruct (in_labs labs []); reflexivity. Qed.

Lemma lsuf_single labs c : lsuf labs [c] = if in_labs labs [c] then [c] else [].
Proof. cbn [lsuf]. destruct (in_labs labs [c]); [reflexivity|]. destruct (in_labs labs []); reflexivity. Qed.

(** One round of [suffix_search], the fuel looked at only when it
    recurses. *)
Lemma suffix_search_eq fuel s e cur :
  suffix_search fuel s e cur =
  let? cs := deref s cur in
  let? t := GetTrieTransition s (suffix_link cs) (character e) in
  match t with
  | None =>
      if ptr_eqb cur root then update s (Some (target e)) (set_suffix_link root)
      else match fuel with O => Err OutOfFuel | S f => suffix_search f s e (suffix_link cs) end
  | Some _ =>
      let? cs' := deref s cur in
      let? link := GetTrieTransition s (suffix_link cs') (character e) in
      update s (Some (target e)) (set_suffix_link link)
  end.
Proof. destruct fuel; reflexivity. Qed.

Lemma suffix_search_skel fuel : forall s e cur s',
  suffix_search fuel s e cur = Ok s' -> map skel s' = map skel s.
Proof.
  induction fuel as [|f IH]; intros s e cur s' H; rewrite suffix_search_eq in H;
    destruct (deref s cur) as [cs|]; cbn [rbind] in H; try discriminate;
    destruct (GetTrieTransition s (suffix_link cs) (character e)) as [[t|]|]; cbn [rbind] in H; try discriminate.
  all: try (destruct (deref s cur); cbn [rbind] in H; [|discriminate];
            destruct (GetTrieTransition _ _ _); cbn [rbind] in H; [|discriminate]).
  all: try (destruct (ptr_eqb cur root); [|try discriminate; apply (IH _ _ _ _ H)]).
  all: apply (update_skel _ _ _ _ (skel_set_suffix_link _) H).
Qed.

Lemma SuffixLinkCalculator_skel ev s s' :
  apply_event SuffixLinkCalculator ev s = Ok s' -> map skel s' = map skel s.
Proof.
  destruct ev as [v|v|e]; cbn [apply_event SuffixLinkCalculator DiscoverVertex ExamineVertex ExamineEdge].
  - intros H. injection H as <-. reflexivity.
  - destruct (Nat.eqb v 0); intros H; [apply (update_skel _ _ _ _ (skel_set_suffix_link _) H)|injection H as <-; reflexivity].
  - destruct (Nat.eqb (source e) 0); intros H;
      [apply (update_skel _ _ _ _ (skel_set_suffix_link _) H)|apply (suffix_search_skel _ _ _ _ _ H)].
Qed.

(** ** Writing one field of every node *)

(** A visitor that writes one link of each node: [set] writes it, [val n]
    is node [n]'s final value.  [wframe s]: [s] is [base] with that field
    changed anywhere; [wgood s n]: node [n]'s field is final. *)
Section FieldWrites.

Variable set : ptr -> AutomatonNode -> AutomatonNode.
Hypothesis set_twice : forall l l' nd, set l (set l' nd) = set l nd.
Variable base : store.
Variable val : nat -> ptr.

Definition wframe (s : store) : Prop :=
  List.length s = List.length base /\
  forall n node, nth_error base n = Some node -> exists l, nth_error s n = Some (set l node).

Definition wgood (s : store) (n : nat) : Prop :=
  exists node, nth_error base n = Some node /\ nth_error s n = Some (set (val n) node).

(** The store with every node's field final. *)
Definition written : store := map (fun n => set (val n) (nth n base AutomatonNode_new)) (seq 0 (List.length base)).

Lemma wframe_base : (forall nd, exists l, set l nd = nd) -> wframe base.
Proof.
  intros Hself. split; [reflexivity|]. intros n node Hn. destruct (Hself node) as [l Hl].
  exists l. rewrite Hn, Hl. reflexivity.
Qed.

(** Writing a node's final value keeps the frame and every final value. *)
Lemma write_ok s v :
  wframe s -> (v < List.length base)%nat ->
  exists s', update s (Some v) (set (val v)) = Ok s' /\ wframe s' /\ mono wgood s s' /\ wgood s' v.
Proof.
  intros [Hlen Hf] Hv. destruct (nth_error base v) as [node|] eqn:Hnode; [|apply nth_error_None in Hnode; lia].
  destruct (Hf _ _ Hnode) as [l Hs].
  destruct (update_spec _ _ _ (set (val v)) Hs) as (s' & E & Hlen' & Hnth).
  rewrite set_twice in Hnth. exists s'. split; [exact E|]. split; [|split].
  - split; [lia|]. intros n nd Hn. rewrite Hnth. destruct (Nat.eqb_spec n v) as [->|]; [|apply Hf, Hn].
    rewrite Hnode in Hn. injection Hn as <-. eexists. reflexivity.
  - intros n (nd & Hn & Hsn). exists nd. split; [exact Hn|]. rewrite Hnth.
    destruct (Nat.eqb_spec n v) as [->|]; [congruence|exact Hsn].
  - exists node. split; [exact Hnode|]. rewrite Hnth, Nat.eqb_refl. reflexivity.
Qed.

Lemma written_eq s : wframe s -> (forall n, (n < List.length base)%nat -> wgood s n) -> s = written.
Proof.
  intros [Hlen _] Hg. apply nth_error_ext. intros n. unfold written. rewrite nth_error_map, nth_error_seq.
  destruct (Nat.ltb_spec n (List.length base)) as [Hn|Hn].
  - destruct (Hg n Hn) as (node & Hnode & Hs). rewrite Hs. cbn.
    rewrite (nth_error_nth _ _ AutomatonNode_new Hnode). reflexivity.
  - apply nth_error_None. lia.
Qed.

Lemma written_nth n : nth_error written n = option_map (set (val n)) (nth_error base n).
Proof.
  unfold written. rewrite nth_error_map, nth_error_seq.
  destruct (Nat.ltb_spec n (List.length base)) as [Hn|Hn].
  - rewrite (nth_error_nth' base AutomatonNode_new Hn). reflexivity.
  - rewrite (proj2 (nth_error_None base n) Hn). reflexivity.
Qed.

Lemma written_skel : (forall l nd, skel (set l nd) = skel nd) -> map skel written = map skel base.
Proof.
  intros Hs. apply nth_error_ext. intros n. rewrite !nth_error_map, written_nth.
  destruct (nth_error base n); cbn [option_map]; [rewrite Hs|]; reflexivity.
Qed.

End FieldWrites.

Section SuffixLinks.

Variable D : dict.
Variable st : store.
Variable labs : list word.
Hypothesis Hti : trie_inv D st labs.

(** The node of the suffix link of node [n]: that of [slink] of its label. *)
Definition slink_idx (n : nat) : ptr := index_of (slink labs (nth n labs [])) labs.

(** The store [BuildSuffixLinks] leaves: the trie with these links. *)
Definition suffix_linked : store := written set_suffix_link st slink_idx.

Definition sl_frame : store -> Prop := wframe set_suffix_link st.

Definition sl_good : store -> nat -> Prop := wgood set_suffix_link st slink_idx.

Lemma labs_root : In [] labs.
Proof. eapply nth_error_In, (ti_root _ _ _ Hti). Qed.

Lemma index_of_root : index_of [] labs = Some 0%nat.
Proof. apply index_of_nth; [apply (ti_nodup _ _ _ Hti)|apply (ti_root _ _ _ Hti)]. Qed.

Lemma label_root_only i : nth_error labs i = Some [] -> i = 0%nat.
Proof.
  intros Hi. eapply NoDup_nth_error; [apply (ti_nodup _ _ _ Hti)|apply nth_error_Some; congruence|].
  rewrite Hi, (ti_root _ _ _ Hti). reflexivity.
Qed.

Lemma slink_idx_spec i : exists j, slink_idx i = Some j /\ nth_error labs j = Some (slink labs (nth i labs [])).
Proof.
  destruct (index_of_In _ _ (slink_in labs labs_root (nth i labs []))) as [j Hj].
  exists j. split; [exact Hj|apply index_of_Some, Hj].
Qed.

Lemma sl_trie_transition s j z c :
  sl_frame s -> nth_error labs j = Some z -> GetTrieTransition s (Some j) c = Ok (index_of (z ++ [c]) labs).
Proof.
  intros [_ Hf] Hz. destruct (nth_error_labs_store _ _ _ _ _ Hti Hz) as [node Hn].
  destruct (Hf _ _ Hn) as [l Hs]. unfold GetTrieTransition. rewrite (deref_nth _ _ _ Hs). cbn [rbind].
  f_equal. apply (ti_children _ _ _ Hti j node z c Hn Hz).
Qed.

Lemma sl_frame_st : sl_frame st.
Proof. apply wframe_base. intros nd. exists (suffix_link nd). destruct nd; reflexivity. Qed.

Lemma sl_write s v :
  sl_frame s -> (v < List.length st)%nat ->
  exists s', update s (Some v) (set_suffix_link (slink_idx v)) = Ok s' /\ sl_frame s' /\
    mono sl_good s s' /\ sl_good s' v.
Proof. apply write_ok, set_suffix_link_twice. Qed.

Lemma label_lt i y : nth_error labs i = Some y -> (i < List.length st)%nat.
Proof. intros H. rewrite <- (ti_length _ _ _ Hti). apply nth_error_Some. congruence. Qed.

(** The loop of [ExamineEdge]: from a node [i] of label [y], with the
    links of every node up to [i]'s depth right, the loop writes the
    node of [lsuf (slink y ++ [c])] to the edge's target. *)
Lemma suffix_search_spec s K e A :
  sl_frame s -> upto st labs sl_good s K ->
  forall fuel i y, nth_error labs i = Some y -> (List.length y <= fuel)%nat -> (depth labs i <= K)%nat ->
  lsuf labs (slink labs y ++ [character e]) = A ->
  suffix_search fuel s e (Some i) = update s (Some (target e)) (set_suffix_link (index_of A labs)).
Proof.
  intros Hf HK fuel. induction fuel as [|f IH]; intros i y Hi Hy Hd HA;
    destruct (HK i (label_lt i y Hi) Hd) as (node & Hn & Hs);
    destruct (slink_idx_spec i) as (j & Hj & Hjl); rewrite (label_nth _ _ _ Hi) in Hjl;
    rewrite suffix_search_eq, (deref_nth _ _ _ Hs); cbn [rbind suffix_link set_suffix_link];
    rewrite Hj, (sl_trie_transition s j _ _ Hf Hjl); cbn [rbind];
    (destruct (index_of (slink labs y ++ [character e]) labs) as [w|] eqn:Ew;
     [rewrite <- HA, lsuf_id, Ew;
      [reflexivity|apply (nth_error_In _ w), index_of_Some, Ew]|]);
    cbn [ptr_eqb root]; destruct (Nat.eqb_spec i 0) as [->|Hi0].
  1,3: rewrite (ti_root _ _ _ Hti) in Hi; injection Hi as <-; rewrite <- HA; cbn [slink app] in Ew |- *;
       cbn [app] in Ew |- *; rewrite lsuf_single; unfold in_labs;
       rewrite Ew, index_of_root; reflexivity.
  - destruct y; [exfalso; apply Hi0, label_root_only, Hi|cbn in Hy; lia].
  - assert (Hy0 : y <> []) by (intros ->; apply Hi0, label_root_only, Hi).
    pose proof (slink_shorter labs y Hy0) as Hshort.
    apply (IH j (slink labs y) Hjl); [lia| |].
    + unfold depth in *. rewrite (label_nth _ _ _ Hjl). rewrite (label_nth _ _ _ Hi) in Hd. lia.
    + rewrite <- HA. symmetry. apply (lsuf_step labs labs_root (ti_prefix _ _ _ Hti)).
      intros Hin. destruct (index_of_In _ _ Hin) as [w Hw]. congruence.
Qed.

Lemma edge_source_lt u e : In e (trie_edges st u) -> (u < List.length st)%nat.
Proof.
  unfold trie_edges. destruct (nth_error st u) eqn:E; [|intros []]. intros _. apply nth_error_Some. congruence.
Qed.

Lemma edge_target_lt u e : In e (trie_edges st u) -> (target e < List.length st)%nat.
Proof. intros He. destruct (trie_edge_label _ _ _ Hti u e He) as [_ Hl]. exact (label_lt _ _ Hl). Qed.

(** [ExamineEdge] on a trie edge, once the links up to its source's
    depth are right, writes the target's suffix link. *)
Lemma ExamineEdge_suffix s u e :
  In e (trie_edges st u) -> sl_frame s -> upto st labs sl_good s (depth labs u) ->
  ExamineEdge SuffixLinkCalculator e s = update s (Some (target e)) (set_suffix_link (slink_idx (target e))).
Proof.
  intros He Hf HK. destruct (trie_edge_label _ _ _ Hti u e He) as [Hsrc Hl].
  unfold slink_idx. rewrite (label_nth _ _ _ Hl). cbn [SuffixLinkCalculator ExamineEdge]. rewrite Hsrc.
  destruct (Nat.eqb_spec u 0) as [->|Hu0].
  - rewrite (label_nth _ _ _ (ti_root _ _ _ Hti)). cbn [app slink]. rewrite lsuf_nil, index_of_root. reflexivity.
  - assert (Hu : nth_error labs u = Some (nth u labs [])).
    { apply nth_error_nth'. rewrite (ti_length _ _ _ Hti). exact (edge_source_lt u e He). }
    assert (Hx0 : nth u labs [] <> []) by (intros E; rewrite E in Hu; apply Hu0, label_root_only, Hu).
    rewrite (slink_snoc labs labs_root (ti_prefix _ _ _ Hti) _ _ Hx0).
    apply (suffix_search_spec s (depth labs u) e _ Hf HK _ u (nth u labs [])); [exact Hu| |lia|reflexivity].
    destruct Hf as [Hlen _]. rewrite Hlen, <- (ti_length _ _ _ Hti).
    pose proof (label_length_bound labs _ (ti_nodup _ _ _ Hti) (ti_prefix _ _ _ Hti) (nth_error_In _ _ Hu)). lia.
Qed.

Lemma slink_idx_root : slink_idx 0%nat = root.
Proof. unfold slink_idx. rewrite (label_nth _ _ _ (ti_root _ _ _ Hti)). apply index_of_root. Qed.

Lemma sl_start s : sl_frame s ->
  exists s', run_events SuffixLinkCalculator [EvDiscover 0%nat; EvExamineVertex 0%nat] s = Ok s' /\
    sl_frame s' /\ sl_good s' 0%nat.
Proof.
  intros Hf. destruct (sl_write s 0%nat Hf (label_lt 0%nat [] (ti_root _ _ _ Hti))) as (s' & E & Hf' & _ & Hg).
  exists s'. rewrite slink_idx_root in E. cbn. rewrite E. auto.
Qed.

Lemma sl_vertex s u : u <> 0%nat -> sl_frame s ->
  exists s', ExamineVertex SuffixLinkCalculator u s = Ok s' /\ sl_frame s' /\ mono sl_good s s'.
Proof.
  intros Hu Hf. exists s. cbn [SuffixLinkCalculator ExamineVertex]. rewrite (proj2 (Nat.eqb_neq u 0) Hu).
  split; [reflexivity|]. split; [exact Hf|]. intros n H; exact H.
Qed.

Lemma sl_edge s u e : In e (trie_edges st u) -> sl_frame s -> upto st labs sl_good s (depth labs u) ->
  exists s', run_events SuffixLinkCalculator (edge_events GetTarget e) s = Ok s' /\ sl_frame s' /\
    mono sl_good s s' /\ sl_good s' (target e).
Proof.
  intros He Hf HK. destruct (sl_write s (target e) Hf (edge_target_lt u e He)) as (s' & E & Hf' & Hm & Hg).
  exists s'. unfold edge_events. rewrite run_events_cons. cbn [apply_event].
  rewrite (ExamineEdge_suffix s u e He Hf HK), E. cbn. auto.
Qed.

(** [BuildSuffixLinks] on the trie sets the suffix link of every node
    to the node of [slink] of its label, and changes nothing else. *)
Theorem BuildSuffixLinks_spec : BuildSuffixLinks st = Ok suffix_linked.
Proof.
  unfold BuildSuffixLinks. rewrite (bfs_trie_events D st labs Hti).
  2:{ intros ev s s' Hs H. rewrite (SuffixLinkCalculator_skel ev s s' H). exact Hs. }
  destruct (levels_fold_all D st labs Hti SuffixLinkCalculator sl_frame sl_good sl_start sl_vertex sl_edge sl_frame_st)
    as (s' & E & Hf & Hg).
  transitivity (Ok s' : result store); [exact E|]. f_equal. exact (written_eq _ _ _ _ Hf Hg).
Qed.

End SuffixLinks.

(** ** Terminal links *)

Lemma set_terminal_link_twice l l' node :
  set_terminal_link l (set_terminal_link l' node) = set_terminal_link l node.
Proof. destruct node; reflexivity. Qed.

Lemma skel_set_terminal_link l node : skel (set_terminal_link l node) = skel node.
Proof. destruct node; reflexivity. Qed.

Lemma TerminalLinkCalculator_skel ev s s' :
  apply_event TerminalLinkCalculator ev s = Ok s' -> map skel s' = map skel s.
Proof.
  destruct ev as [v|v|e]; cbn [apply_event TerminalLinkCalculator DiscoverVertex ExamineVertex ExamineEdge];
    [|intros H; injection H as <-; reflexivity..].
  destruct (deref s (Some v)) as [n|]; cbn [rbind]; [|discriminate].
  destruct (Nat.eqb v 0); [apply (update_skel _ _ _ _ (skel_set_terminal_link _))|].
  destruct (deref s (suffix_link n)) as [cs|]; cbn [rbind]; [|discriminate].
  destruct (terminated_string_ids cs); apply (update_skel _ _ _ _ (skel_set_terminal_link _)).
Qed.

Section TerminalLinks.

Variable D : dict.
Variable st : store.
Variable labs : list word.
Hypothesis Hti : trie_inv D st labs.
(** The suffix links are those [BuildSuffixLinks] computes. *)
Hypothesis Hsl : forall n node, nth_error st n = Some node -> suffix_link node = slink_idx labs n.

(** The longest suffix of [y] that is a word of the dictionary. *)
Fixpoint wsuf (y : word) : option word :=
  match ids_of D y with
  | [] => match y with [] => None | _ :: r => wsuf r end
  | _ => Some y
  end.

(** The label a terminal link points to: the longest proper suffix that
    is a word, none for the root. *)
Definition tlink (x : word) : option word := match x with [] => None | _ :: r => wsuf r end.

Definition tlink_idx (n : nat) : ptr :=
  match tlink (nth n labs []) with Some w => index_of w labs | None => None end.

Lemma ids_label w : ids_of D w <> [] -> In w labs.
Proof.
  unfold ids_of. destruct (filter (fun p => word_eqb (fst p) w) D) as [|[w' id] rest] eqn:E;
    [intros H; exfalso; apply H; reflexivity|].
  intros _. assert (Hin : In (w', id) (filter (fun p => word_eqb (fst p) w) D)) by (rewrite E; left; reflexivity).
  apply filter_In in Hin as [Hin Hw]. apply word_eqb_spec in Hw. cbn in Hw. subst w'.
  exact (ti_words _ _ _ Hti w id Hin).
Qed.

(** The words ending [y] are those ending its longest label suffix. *)
Lemma wsuf_lsuf y : wsuf y = wsuf (lsuf labs y).
Proof.
  induction y as [|a r IH]; [rewrite lsuf_nil; reflexivity|]. cbn [lsuf].
  destruct (in_labs labs (a :: r)) eqn:E; [reflexivity|]. rewrite <- IH. cbn [wsuf].
  destruct (ids_of D (a :: r)) eqn:Ei; [reflexivity|].
  exfalso. apply in_labs_false in E. apply E, ids_label. rewrite Ei. discriminate.
Qed.

(** The terminal link of [x] is its suffix link's node, when that is a
    word, or the suffix link's own terminal link. *)
Lemma tlink_step x : x <> [] ->
  tlink x = match ids_of D (slink labs x) with [] => tlink (slink labs x) | _ => Some (slink labs x) end.
Proof.
  destruct x as [|a r]; [congruence|]. intros _. cbn [tlink slink]. rewrite wsuf_lsuf.
  destruct (lsuf labs r) as [|b z]; cbn [wsuf tlink]; destruct (ids_of D _); reflexivity.
Qed.


Definition terminal_linked : store := written set_terminal_link st tlink_idx.

Definition tl_frame : store -> Prop := wframe set_terminal_link st.

Definition tl_good : store -> nat -> Prop := wgood set_terminal_link st tlink_idx.

Lemma tl_frame_st : tl_frame st.
Proof. apply wframe_base. intros nd. exists (terminal_link nd). destruct nd; reflexivity. Qed.

Lemma tlink_idx_root : tlink_idx 0%nat = None.
Proof. unfold tlink_idx. rewrite (label_nth _ _ _ (ti_root _ _ _ Hti)). reflexivity. Qed.

Lemma tl_deref s n : tl_frame s -> (n < List.length st)%nat ->
  exists node l, nth_error st n = Some node /\ deref s (Some n) = Ok (set_terminal_link l node).
Proof.
  intros [_ Hf] Hn. destruct (nth_error st n) as [node|] eqn:E; [|apply nth_error_None in E; lia].
  destruct (Hf _ _ E) as [l Hl]. exists node, l. split; [reflexivity|apply deref_nth, Hl].
Qed.

(** [DiscoverVertex] of a node other than the root, once the nodes of
    smaller depth have their terminal links, writes its own. *)
Lemma DiscoverVertex_terminal s v :
  (v < List.length st)%nat -> v <> 0%nat -> tl_frame s ->
  (forall j, (depth labs j < depth labs v)%nat -> (j < List.length st)%nat -> tl_good s j) ->
  DiscoverVertex TerminalLinkCalculator v s = update s (Some v) (set_terminal_link (tlink_idx v)).
Proof.
  intros Hv Hv0 Hf HK. destruct (tl_deref s v Hf Hv) as (node & l & Hnode & Hs).
  cbn [TerminalLinkCalculator DiscoverVertex]. rewrite Hs. cbn [rbind].
  rewrite (proj2 (Nat.eqb_neq v 0) Hv0). cbn [suffix_link set_terminal_link].
  rewrite (Hsl v node Hnode).
  set (x := nth v labs []).
  assert (Hx0 : x <> []).
  { intros E. apply Hv0, (label_root_only D st labs Hti). rewrite <- E. apply nth_error_nth'.
    rewrite (ti_length _ _ _ Hti). exact Hv. }
  destruct (slink_idx_spec D st labs Hti v) as (j & Hj & Hjl). fold x in Hjl. rewrite Hj.
  assert (Hjv : (depth labs j < depth labs v)%nat).
  { unfold depth. rewrite (label_nth _ _ _ Hjl). apply slink_shorter, Hx0. }
  destruct (HK j Hjv (label_lt D st labs Hti _ _ Hjl)) as (nj & Hnj & Hsj).
  rewrite (deref_nth _ _ _ Hsj). cbn [rbind terminated_string_ids terminal_link set_terminal_link].
  rewrite (ti_ids _ _ _ Hti j nj _ Hnj Hjl).
  unfold tlink_idx at 2. fold x. rewrite (tlink_step x Hx0).
  destruct (ids_of D (slink labs x)).
  - unfold tlink_idx. rewrite (label_nth _ _ _ Hjl). reflexivity.
  - rewrite (index_of_nth _ _ _ (ti_nodup _ _ _ Hti) Hjl). reflexivity.
Qed.


Lemma tl_start s : tl_frame s ->
  exists s', run_events TerminalLinkCalculator [EvDiscover 0%nat; EvExamineVertex 0%nat] s = Ok s' /\
    tl_frame s' /\ tl_good s' 0%nat.
Proof.
  intros Hf. pose proof (label_lt D st labs Hti 0%nat [] (ti_root _ _ _ Hti)) as H0.
  destruct (write_ok _ set_terminal_link_twice _ tlink_idx s 0%nat Hf H0) as (s' & E & Hf' & _ & Hg).
  destruct (tl_deref s 0%nat Hf H0) as (node & l & _ & Hs).
  exists s'. rewrite tlink_idx_root in E. cbn [run_events rfold apply_event TerminalLinkCalculator DiscoverVertex].
  rewrite Hs. cbn [rbind Nat.eqb]. rewrite E. cbn. auto.
Qed.

Lemma tl_vertex s u : u <> 0%nat -> tl_frame s ->
  exists s', ExamineVertex TerminalLinkCalculator u s = Ok s' /\ tl_frame s' /\ mono tl_good s s'.
Proof. intros _ Hf. exists s. split; [reflexivity|]. split; [exact Hf|]. intros n H; exact H. Qed.

Lemma tl_edge s u e : In e (trie_edges st u) -> tl_frame s -> upto st labs tl_good s (depth labs u) ->
  exists s', run_events TerminalLinkCalculator (edge_events GetTarget e) s = Ok s' /\ tl_frame s' /\
    mono tl_good s s' /\ tl_good s' (target e).
Proof.
  intros He Hf HK. pose proof (edge_target_lt D st labs Hti u e He) as Hv.
  destruct (write_ok _ set_terminal_link_twice _ tlink_idx s (target e) Hf Hv) as (s' & E & Hf' & Hm & Hg).
  destruct (trie_edge_child _ _ _ Hti u e He) as [_ Hd].
  assert (Hv0 : target e <> 0%nat).
  { intros E0. unfold GetTarget in Hd. rewrite E0, (depth_root _ _ _ Hti) in Hd. discriminate. }
  exists s'. unfold edge_events. rewrite run_events_cons.
  change (apply_event TerminalLinkCalculator (EvExamineEdge e) s) with (Ok s : result store). cbn [rbind].
  rewrite run_events_cons.
  change (apply_event TerminalLinkCalculator (EvDiscover (GetTarget e)) s)
    with (DiscoverVertex TerminalLinkCalculator (target e) s).
  rewrite (DiscoverVertex_terminal s (target e) Hv Hv0 Hf), E; [cbn; auto|].
  intros j Hj Hjl. apply HK; [exact Hjl|]. unfold GetTarget in Hd. lia.
Qed.

(** [BuildTerminalLinks] on the trie with its suffix links sets the
    terminal link of every node to the node of [tlink] of its label, and
    changes nothing else. *)
Theorem BuildTerminalLinks_spec : BuildTerminalLinks st = Ok terminal_linked.
Proof.
  unfold BuildTerminalLinks. rewrite (bfs_trie_events D st labs Hti).
  2:{ intros ev s s' Hs H. rewrite (TerminalLinkCalculator_skel ev s s' H). exact Hs. }
  destruct (levels_fold_all D st labs Hti TerminalLinkCalculator tl_frame tl_good tl_start tl_vertex tl_edge tl_frame_st)
    as (s' & E & Hf & Hg).
  transitivity (Ok s' : result store); [exact E|]. f_equal. exact (written_eq _ _ _ _ Hf Hg).
Qed.

End TerminalLinks.

(** ** The automaton [Build] returns *)

(** The automaton over the labels [labs] of dictionary [D]: the trie,
    every suffix link the node of [slink] of the label, every terminal
    link the node of [tlink]. *)
Record aut_inv (D : dict) (s : store) (labs : list word) : Prop := {
  ai_trie : trie_inv D s labs;
  ai_suffix : forall n node, nth_error s n = Some node -> suffix_link node = slink_idx labs n;
  ai_terminal : forall n node, nth_error s n = Some node -> terminal_link node = tlink_idx D labs n
}.

Lemma written_inv set base val n node :
  nth_error (written set base val) n = Some node ->
  exists nd, nth_error base n = Some nd /\ node = set (val n) nd.
Proof.
  rewrite written_nth. destruct (nth_error base n) as [nd|]; cbn [option_map]; [|discriminate].
  intros H. injection H as <-. exists nd. auto.
Qed.

Lemma written_caches set base val :
  (forall l nd, automaton_transitions_cache (set l nd) = automaton_transitions_cache nd) ->
  caches_empty base -> caches_empty (written set base val).
Proof.
  intros Hset Hce node Hin. apply In_nth_error in Hin as [n Hn].
  destruct (written_inv _ _ _ _ _ Hn) as (nd & Hnd & ->). rewrite Hset. apply Hce, (nth_error_In _ n), Hnd.
Qed.

(** [Build] on [Add]ed words: the trie of the words, with its links, and
    empty transition caches. *)
Theorem Build_spec b :
  List.length (words_ b) = List.length (ids_ b) ->
  exists s labs, Build b = Ok s /\ aut_inv (dict_of (words_ b) (ids_ b)) s labs /\ caches_empty s.
Proof.
  intros Hlen. destruct (BuildTrie_spec _ _ Hlen) as (st & labs & E1 & Hti & Hce).
  set (D := dict_of (words_ b) (ids_ b)) in *.
  set (st2 := suffix_linked st labs).
  assert (Hti2 : trie_inv D st2 labs)
    by (apply (trie_inv_skel D st); [apply written_skel, skel_set_suffix_link|exact Hti]).
  assert (Hsl2 : forall n node, nth_error st2 n = Some node -> suffix_link node = slink_idx labs n).
  { intros n node Hn. destruct (written_inv _ _ _ _ _ Hn) as (nd & _ & ->). destruct nd; reflexivity. }
  exists (terminal_linked D st2 labs), labs. unfold Build. rewrite E1. cbn [rbind].
  rewrite (BuildSuffixLinks_spec D st labs Hti). cbn [rbind]. fold st2.
  rewrite (BuildTerminalLinks_spec D st2 labs Hti2 Hsl2). split; [reflexivity|]. split.
  - constructor.
    + apply (trie_inv_skel D st2); [apply written_skel, skel_set_terminal_link|exact Hti2].
    + intros n node Hn. destruct (written_inv _ _ _ _ _ Hn) as (nd & Hnd & ->).
      rewrite <- (Hsl2 n nd Hnd). destruct nd; reflexivity.
    + intros n node Hn. destruct (written_inv _ _ _ _ _ Hn) as (nd & Hnd & ->). destruct nd; reflexivity.
  - apply written_caches; [intros l nd; destruct nd; reflexivity|].
    apply written_caches; [intros l nd; destruct nd; reflexivity|exact Hce].
Qed.

(** The builder of the repository's test: "a", "ab", "bb", "bz" with the
    ids [0 .. 3] [enumerate] gives them. *)
Definition test_builder : AutomatonBuilder :=
  Add (Add (Add (Add (mk_builder [] []) "a" 0) "ab" 1) "bb" 2) "bz" 3.

(** C18 No pointer of the automaton [Build] returns dangles: every child
    of the trie, every suffix link (never [nullptr]) and every terminal
    link that is set points to a node of the automaton, and the transition
    caches start empty. *)
Theorem Build_pointers_valid b :
  List.length (words_ b) = List.length (ids_ b) ->
  exists s, Build b = Ok s /\ forall node, In node s ->
    (forall c child, In (c, child) (trie_transitions node) -> (child < List.length s)%nat) /\
    (exists j, suffix_link node = Some j /\ (j < List.length s)%nat) /\
    (forall j, terminal_link node = Some j -> (j < List.length s)%nat) /\
    automaton_transitions_cache node = [].
Proof.
  intros Hlen. destruct (Build_spec b Hlen) as (s & labs & E & Hai & Hce). exists s. split; [exact E|].
  intros node Hin. pose proof (ai_trie _ _ _ Hai) as Hti. apply In_nth_error in Hin as [n Hn].
  assert (Hu : nth_error labs n = Some (nth n labs [])).
  { apply nth_error_nth'. rewrite (ti_length _ _ _ Hti). apply nth_error_Some. congruence. }
  split; [|split; [|split]].
  - intros c child Hc. apply (label_lt _ s labs Hti child (nth n labs [] ++ [c])), index_of_Some.
    rewrite <- (ti_children _ _ _ Hti n node _ c Hn Hu). apply map_find_In; [exact (ti_sorted _ _ _ Hti n node Hn)|exact Hc].
  - rewrite (ai_suffix _ _ _ Hai n node Hn). destruct (slink_idx_spec _ s labs Hti n) as (j & Hj & Hjl).
    exists j. split; [exact Hj|exact (label_lt _ s labs Hti _ _ Hjl)].
  - intros j Hj. rewrite (ai_terminal _ _ _ Hai n node Hn) in Hj. unfold tlink_idx in Hj.
    destruct (tlink _ _) as [w|]; [|discriminate]. exact (label_lt _ s labs Hti _ _ (index_of_Some _ _ _ Hj)).
  - apply Hce, (nth_error_In _ n), Hn.
Qed.

Lemma Build_pointers_valid_witness :
  List.length (words_ test_builder) = List.length (ids_ test_builder) /\
  exists s, Build test_builder = Ok s /\ forall node, In node s ->
    (forall c child, In (c, child) (trie_transitions node) -> (child < List.length s)%nat) /\
    (exists j, suffix_link node = Some j /\ (j < List.length s)%nat) /\
    (forall j, terminal_link node = Some j -> (j < List.length s)%nat) /\
    automaton_transitions_cache node = [].
Proof. split; [reflexivity|]. apply Build_pointers_valid. reflexivity. Defined.
