(* ===== verification/AhoMatch.v ===== *)
(** * Matching with the Aho-Corasick automaton

    [NodeReference::Next] follows [GetAutomatonTransition], which answers
    from the node's transition cache, else from the trie, else by walking
    suffix links, and caches the answer.  Over the labels of the trie,
    the answer for the node of [x] and the character [c] is the node of
    [lsuf (x ++ [c])], the longest label ending [x ++ [c]] ([goto]; the
    root, [nullptr] in the cache, when that is the empty word).
    [match_inv] is the automaton [Build] returns ([aut_inv]) with a cache
    whose every entry is that answer; [Next] keeps it.

    [NodeReference::TraverseTerminal] reports the ids of the node's label
    and of every label along the terminal links: the ids of every word
    that is a suffix of the label, longest first ([hits]).  Feeding a text
    from [Root], the node after each prefix is that of the prefix's
    longest label suffix, so after each character the ids reported are
    those of every word ending there ([match_text_spec]). *)

From Stdlib Require Import String Ascii ZArith Bool List Sorted Lia.
From S2P Require Import Prelude Itertools Traverse AhoCorasick AhoTrie AhoLinks AhoBuild.
Import ListNotations.
Open Scope Z_scope.
Open Scope jpeg_scope.

(** ** Walking the text *)

(** The loop of the repository's test: [ref = ref.Next(c)], then the hits
    [ref.TraverseTerminal] reports, for every character. *)
Fixpoint match_text (s : store) (r : NodeReference) (cs : list ascii) : result (list (list Z)) :=
  match cs with
  | [] => Ok []
  | c :: rest =>
      let? res := Next s r c in
      let '(r', s') := res in
      let? hits := TraverseTerminal s' r' in
      let? more := match_text s' r' rest in
      Ok (hits :: more)
  end.

(** [TEST(Automaton, Build)] of [components/tests/test-aho-corasick.cpp]:
    the words added with the indices [enumerate] gives, then the text
    walked with [zip] over the expected hits and the characters; [Ok true]
    when every [ASSERT_EQ] holds, [Ok false] at the first that fails. *)
Definition test_Automaton_Build : result bool :=
  let for_trie := ["a"; "ab"; "bb"; "bz"]%string in
  let? entries := for_range (S (List.length for_trie)) (enumerate for_trie) in
  let builder := fold_left (fun b '(idx, word) => Add b word idx) entries (mk_builder [] []) in
  let? trie := Build builder in
  let transitions := ["a"; "b"; "z"]%char in
  let hit_ids := [[0]; [1]; [3]] in
  let? steps := for_range (S (List.length hit_ids)) (zip hit_ids transitions) in
  let? res := rfold (fun acc '(hits, transition) =>
      let '(ok, ref, st) := acc in
      if negb ok then Ok acc else
      let? res := Next st ref transition in
      let '(ref', st') := res in
      let? actual_hits := TraverseTerminal st' ref' in
      if negb (Nat.eqb (List.length hits) (List.length actual_hits)) then Ok (false, ref', st') else
      let? pairs := for_range (S (List.length hits)) (zip hits actual_hits) in
      Ok (forallb (fun '(e, a) => Z.eqb e a) pairs, ref', st'))
    steps (true, Root, trie) in
  let '(ok, _, _) := res in Ok ok.

(** Every suffix of a word, longest first. *)
Fixpoint suffixes (x : word) : list word :=
  match x with [] => [[]] | _ :: r => x :: suffixes r end.

Definition psufs (x : word) : list word := match x with [] => [] | _ :: r => suffixes r end.

(** ** Lemmas on the cache writes *)

Lemma skel_set_cache c p node : skel (set_cache c p node) = skel node.
Proof. destruct node; reflexivity. Qed.

Section Matching.

Variable D : dict.
Variable labs : list word.

(** The answer of [GetAutomatonTransition] for the node of [x]. *)
Definition goto (x : word) (c : ascii) : ptr :=
  match lsuf labs (x ++ [c]) with [] => None | y => index_of y labs end.

Definition cache_ok (s : store) : Prop :=
  forall n node c p, nth_error s n = Some node ->
    map_find c (automaton_transitions_cache node) = Some p -> p = goto (nth n labs []) c.

Record match_inv (s : store) : Prop := {
  mi_aut : aut_inv D s labs;
  mi_cache : cache_ok s
}.

(** The ids of every word that is a suffix of [x], longest first. *)
Definition hits (x : word) : list Z := flat_map (ids_of D) (suffixes x).

Lemma match_inv_trie s : match_inv s -> trie_inv D s labs.
Proof. intros H. exact (ai_trie _ _ _ (mi_aut _ H)). Qed.

Lemma empty_cache_ok s : caches_empty s -> cache_ok s.
Proof.
  intros Hce n node c p Hn Hf. rewrite (Hce node (nth_error_In _ _ Hn)) in Hf. discriminate.
Qed.

(** Node [n] has the answer for [c] in its cache. *)
Definition cached (s : store) (n : nat) (c : ascii) : Prop :=
  exists node, nth_error s n = Some node /\
    map_find c (automaton_transitions_cache node) = Some (goto (nth n labs []) c).

(** Caching the answer keeps the invariant. *)
Lemma cache_write s n c :
  match_inv s -> (n < List.length s)%nat ->
  exists s', update s (Some n) (set_cache c (goto (nth n labs []) c)) = Ok s' /\ match_inv s' /\
    List.length s' = List.length s /\ cached s' n c.
Proof.
  intros [[Hti Hsl Htl] Hc] Hn. destruct (nth_error s n) as [node|] eqn:Hnode; [|apply nth_error_None in Hnode; lia].
  destruct (update_spec _ _ _ (set_cache c (goto (nth n labs []) c)) Hnode) as (s' & E & Hlen & Hnth).
  exists s'. split; [exact E|]. split; [|split; [exact Hlen|]].
  2:{ exists (set_cache c (goto (nth n labs []) c) node). rewrite Hnth, Nat.eqb_refl. split; [reflexivity|].
      cbn [set_cache automaton_transitions_cache]. rewrite map_find_assign.
      destruct (ascii_dec c c); [reflexivity|congruence]. }
  assert (Hback : forall j nd, nth_error s' j = Some nd ->
            exists nd0, nth_error s j = Some nd0 /\ (nd = nd0 \/ j = n /\ nd0 = node /\ nd = set_cache c (goto (nth n labs []) c) node)).
  { intros j nd Hj. rewrite Hnth in Hj. destruct (Nat.eqb_spec j n) as [->|]; [|exists nd; auto].
    injection Hj as <-. exists node. auto. }
  constructor; [constructor|].
  - apply (trie_inv_skel D s); [|exact Hti]. apply (update_skel _ _ _ _ (skel_set_cache _ _) E).
  - intros j nd Hj. destruct (Hback j nd Hj) as (nd0 & Hj0 & [->|(-> & -> & ->)]); [apply Hsl, Hj0|].
    rewrite <- (Hsl n node Hnode). destruct node; reflexivity.
  - intros j nd Hj. destruct (Hback j nd Hj) as (nd0 & Hj0 & [->|(-> & -> & ->)]); [apply Htl, Hj0|].
    rewrite <- (Htl n node Hnode). destruct node; reflexivity.
  - intros j nd c' p Hj Hf. destruct (Hback j nd Hj) as (nd0 & Hj0 & [->|(-> & -> & ->)]); [apply (Hc j nd0 c' p Hj0 Hf)|].
    cbn [set_cache automaton_transitions_cache] in Hf. rewrite map_find_assign in Hf.
    destruct (ascii_dec c c') as [<-|]; [injection Hf as <-; reflexivity|apply (Hc n node c' p Hnode Hf)].
Qed.

Lemma goto_nonempty x c : lsuf labs (x ++ [c]) <> [] -> goto x c = index_of (lsuf labs (x ++ [c])) labs.
Proof. unfold goto. destruct (lsuf labs (x ++ [c])); [congruence|reflexivity]. Qed.

Lemma goto_root x c : lsuf labs (x ++ [c]) = [] -> goto x c = None.
Proof. unfold goto. intros ->. reflexivity. Qed.

Lemma lsuf_absent c : ~ In [c] labs -> lsuf labs [c] = [].
Proof. intros H. rewrite lsuf_single. apply in_labs_false in H. rewrite H. reflexivity. Qed.

Lemma match_nth s i y : match_inv s -> nth_error labs i = Some y ->
  exists node, nth_error s i = Some node /\ suffix_link node = slink_idx labs i.
Proof.
  intros Hm Hi. destruct (nth_error_labs_store _ _ _ _ _ (match_inv_trie s Hm) Hi) as [node Hn].
  exists node. split; [exact Hn|]. exact (ai_suffix _ _ _ (mi_aut _ Hm) i node Hn).
Qed.

(** The loop [while (current != root)] of [GetAutomatonTransition]: from
    a node of label [y] with [y ++ [c]] no label and the same longest
    label ending [y ++ [c]] as [x ++ [c]], it caches and returns
    [goto x c]. *)
Lemma transition_walk_spec s n c :
  match_inv s ->
  forall fuel i y, nth_error labs i = Some y -> ~ In (y ++ [c]) labs -> (List.length y <= fuel)%nat ->
  lsuf labs (y ++ [c]) = lsuf labs (nth n labs [] ++ [c]) ->
  transition_walk fuel s (Some n) root c (Some i) =
    let? s' := update s (Some n) (set_cache c (goto (nth n labs []) c)) in Ok (goto (nth n labs []) c, s').
Proof.
  intros Hm fuel. pose proof (match_inv_trie s Hm) as Hti. set (x := nth n labs []).
  pose proof (labs_root D s labs Hti) as Hroot. pose proof (ti_prefix _ _ _ Hti) as Hpref.
  induction fuel as [|f IH]; intros i y Hi Hy Hlen HA; cbn [transition_walk ptr_eqb root];
    destruct (Nat.eqb_spec i 0) as [->|Hi0].
  1,3: rewrite (ti_root _ _ _ Hti) in Hi; injection Hi as <-; rewrite (goto_root x c); [reflexivity|];
       rewrite <- HA; apply lsuf_absent, Hy.
  - destruct y; [exfalso; apply Hi0, (label_root_only D s labs Hti), Hi|cbn in Hlen; lia].
  - assert (Hy0 : y <> []) by (intros ->; apply Hi0, (label_root_only D s labs Hti), Hi).
    destruct (match_nth s i y Hm Hi) as (node & Hn & Hsl). rewrite (deref_nth _ _ _ Hn). cbn [rbind].
    destruct (slink_idx_spec D s labs Hti i) as (j & Hj & Hjl). rewrite (label_nth _ _ _ Hi) in Hjl.
    destruct (nth_error_labs_store _ _ _ _ _ Hti Hjl) as [nj Hnj].
    rewrite Hsl, Hj, (GetTrieTransition_label _ _ _ _ _ _ c Hti Hnj Hjl). cbn [rbind].
    assert (Hstep : lsuf labs (x ++ [c]) = lsuf labs (slink labs y ++ [c]))
      by (rewrite <- HA; apply (lsuf_step labs Hroot Hpref), Hy).
    destruct (index_of (slink labs y ++ [c]) labs) as [w|] eqn:Ew.
    + assert (Hw : In (slink labs y ++ [c]) labs) by (apply (nth_error_In _ w), index_of_Some, Ew).
      rewrite (goto_nonempty x c), Hstep, (lsuf_id _ _ Hw), Ew; [reflexivity|].
      rewrite Hstep, (lsuf_id _ _ Hw). destruct (slink labs y); discriminate.
    + apply (IH j (slink labs y) Hjl).
      * intros Hin. apply In_index_of in Hin as [w Hw]. congruence.
      * pose proof (slink_shorter labs y Hy0). lia.
      * rewrite <- Hstep. reflexivity.
Qed.

Lemma label_of s n : match_inv s -> (n < List.length s)%nat -> nth_error labs n = Some (nth n labs []).
Proof. intros Hm Hn. apply nth_error_nth'. rewrite (ti_length _ _ _ (match_inv_trie s Hm)). exact Hn. Qed.

Lemma label_short s i x : match_inv s -> nth_error labs i = Some x -> (List.length x <= List.length s)%nat.
Proof.
  intros Hm Hi. pose proof (match_inv_trie s Hm) as Hti. rewrite <- (ti_length _ _ _ Hti).
  pose proof (label_length_bound labs x (ti_nodup _ _ _ Hti) (ti_prefix _ _ _ Hti) (nth_error_In _ _ Hi)). lia.
Qed.

(** [GetAutomatonTransition] from the node of [x] returns [goto x c],
    with its answer cached. *)
Lemma GetAutomatonTransition_spec s n c :
  match_inv s -> (n < List.length s)%nat ->
  exists s', GetAutomatonTransition s (Some n) root c = Ok (goto (nth n labs []) c, s') /\
    match_inv s' /\ List.length s' = List.length s /\ cached s' n c.
Proof.
  intros Hm Hn. pose proof (match_inv_trie s Hm) as Hti. pose proof (label_of s n Hm Hn) as Hx.
  destruct (cache_write s n c Hm Hn) as (s' & E & Hm' & Hlen' & Hc').
  destruct (nth_error s n) as [node|] eqn:Hnode; [|apply nth_error_None in Hnode; lia].
  unfold GetAutomatonTransition. rewrite (deref_nth _ _ _ Hnode). cbn [rbind].
  destruct (map_find c (automaton_transitions_cache node)) as [p|] eqn:Ec.
  - pose proof (mi_cache _ Hm n node c p Hnode Ec) as ->. exists s.
    split; [reflexivity|]. split; [exact Hm|]. split; [reflexivity|]. exists node. auto.
  - exists s'. split; [|auto]. rewrite (GetTrieTransition_label _ _ _ _ _ _ c Hti Hnode Hx). cbn [rbind].
    destruct (index_of (nth n labs [] ++ [c]) labs) as [w|] eqn:Ew.
    + assert (Hw : In (nth n labs [] ++ [c]) labs) by (apply (nth_error_In _ w), index_of_Some, Ew).
      assert (Hg : goto (nth n labs []) c = Some w).
      { rewrite goto_nonempty, (lsuf_id _ _ Hw), Ew; [reflexivity|]. rewrite (lsuf_id _ _ Hw). destruct (nth n labs []); discriminate. }
      rewrite Hg in E |- *. rewrite E. reflexivity.
    + rewrite (transition_walk_spec s n c Hm _ n _ Hx); [rewrite E; reflexivity| |apply (label_short s n); assumption|reflexivity].
      intros Hin. apply In_index_of in Hin as [w Hw]. congruence.
Qed.

(** [NodeReference::Next] from the node of [x] goes to the node of the
    longest label ending [x ++ [c]]. *)
Lemma Next_spec s n c :
  match_inv s -> (n < List.length s)%nat ->
  exists m s', Next s (mk_ref (Some n) root) c = Ok (mk_ref (Some m) root, s') /\
    nth_error labs m = Some (lsuf labs (nth n labs [] ++ [c])) /\ match_inv s' /\ List.length s' = List.length s.
Proof.
  intros Hm Hn. pose proof (match_inv_trie s Hm) as Hti.
  destruct (GetAutomatonTransition_spec s n c Hm Hn) as (s' & E & Hm' & Hlen & _).
  unfold Next. cbn [node_ root_]. rewrite E. cbn [rbind].
  destruct (list_eq_dec ascii_dec (lsuf labs (nth n labs [] ++ [c])) []) as [El|El].
  - rewrite (goto_root _ _ El), El. exists 0%nat, s'. split; [reflexivity|]. split; [apply (ti_root _ _ _ Hti)|auto].
  - rewrite (goto_nonempty _ _ El).
    destruct (index_of_In _ _ (lsuf_in labs (labs_root D s labs Hti) (nth n labs [] ++ [c]))) as [m Hm0].
    rewrite Hm0. exists m, s'. split; [reflexivity|]. split; [apply index_of_Some, Hm0|auto].
Qed.

Lemma hits_split x : hits x = ids_of D x ++ flat_map (ids_of D) (psufs x).
Proof. destruct x; reflexivity. Qed.

(** The ids along the suffixes of [y] start at its longest word suffix. *)
Lemma wsuf_hits y :
  flat_map (ids_of D) (suffixes y) =
  match wsuf D y with None => [] | Some w => ids_of D w ++ flat_map (ids_of D) (psufs w) end.
Proof.
  induction y as [|a r IH]; cbn [suffixes flat_map wsuf psufs].
  - destruct (ids_of D []) eqn:E; cbn [psufs flat_map]; rewrite ?E; reflexivity.
  - destruct (ids_of D (a :: r)) eqn:E; [exact IH|]. rewrite E. reflexivity.
Qed.

Lemma psufs_tlink x :
  flat_map (ids_of D) (psufs x) =
  match tlink D x with None => [] | Some w => ids_of D w ++ flat_map (ids_of D) (psufs w) end.
Proof. destruct x as [|a r]; [reflexivity|]. apply wsuf_hits. Qed.

Lemma wsuf_some y w : wsuf D y = Some w -> ids_of D w <> [] /\ is_suffix w y.
Proof.
  induction y as [|a r IH]; cbn [wsuf]; intros H.
  - destruct (ids_of D []) eqn:E; [discriminate|]. injection H as <-. rewrite E.
    split; [discriminate|apply is_suffix_refl].
  - destruct (ids_of D (a :: r)) eqn:E.
    + destruct (IH H) as [Hw Hs]. split; [exact Hw|apply is_suffix_cons, Hs].
    + injection H as <-. rewrite E. split; [discriminate|apply is_suffix_refl].
Qed.

Lemma tlink_some x w : tlink D x = Some w -> ids_of D w <> [] /\ (List.length w < List.length x)%nat.
Proof.
  destruct x as [|a r]; [discriminate|]. intros H. destruct (wsuf_some r w H) as [Hw Hs].
  split; [exact Hw|]. pose proof (is_suffix_length _ _ Hs). cbn [List.length]. lia.
Qed.

Lemma for_range_ids (v : list Z) : for_range (S (List.length v)) (mk_range (vbegin v) (vend v)) = Ok v.
Proof. unfold for_range. cbn [begin_ end_]. apply for_range_vec. lia. Qed.

(** The loop along the terminal links reports the ids of the proper
    suffixes of the label. *)
Lemma terminal_walk_spec s :
  match_inv s ->
  forall fuel i x, nth_error labs i = Some x -> (List.length x <= fuel)%nat ->
  terminal_walk fuel s (Some i) = Ok (flat_map (ids_of D) (psufs x)).
Proof.
  intros Hm. pose proof (match_inv_trie s Hm) as Hti.
  induction fuel as [|f IH]; intros i x Hi Hlen;
    destruct (nth_error_labs_store _ _ _ _ _ Hti Hi) as [node Hn];
    cbn [terminal_walk]; rewrite (deref_nth _ _ _ Hn); cbn [rbind];
    rewrite (ai_terminal _ _ _ (mi_aut _ Hm) i node Hn), psufs_tlink; unfold tlink_idx;
    rewrite (label_nth _ _ _ Hi); destruct (tlink D x) as [w|] eqn:Et; try reflexivity;
    destruct (tlink_some x w Et) as [Hw Hwl];
    destruct (index_of_In _ _ (ids_label D s labs Hti w Hw)) as [j Hj]; rewrite Hj; [cbn in Hlen; lia|].
  pose proof (index_of_Some _ _ _ Hj) as Hjl. destruct (nth_error_labs_store _ _ _ _ _ Hti Hjl) as [nj Hnj].
  rewrite (deref_nth _ _ _ Hnj). cbn [rbind]. rewrite (ti_ids _ _ _ Hti j nj w Hnj Hjl), for_range_ids. cbn [rbind].
  rewrite (IH j w Hjl); [reflexivity|lia].
Qed.

(** [NodeReference::TraverseTerminal] at the node of [x] reports the ids
    of every word ending [x], longest first. *)
Lemma TraverseTerminal_spec s n :
  match_inv s -> (n < List.length s)%nat -> TraverseTerminal s (mk_ref (Some n) root) = Ok (hits (nth n labs [])).
Proof.
  intros Hm Hn. pose proof (match_inv_trie s Hm) as Hti. pose proof (label_of s n Hm Hn) as Hx.
  destruct (nth_error_labs_store _ _ _ _ _ Hti Hx) as [node Hnode].
  unfold TraverseTerminal, TerminatedStringIds. cbn [node_]. rewrite (deref_nth _ _ _ Hnode). cbn [rbind begin_ vi_vec vbegin].
  rewrite (ti_ids _ _ _ Hti n node _ Hnode Hx), for_range_ids. cbn [rbind].
  rewrite (terminal_walk_spec s Hm _ n _ Hx (label_short s n _ Hm Hx)). rewrite hits_split. reflexivity.
Qed.

Lemma GetAutomatonTransition_cached s n c :
  cached s n c -> GetAutomatonTransition s (Some n) root c = Ok (goto (nth n labs []) c, s).
Proof. intros (node & Hn & Hf). unfold GetAutomatonTransition. rewrite (deref_nth _ _ _ Hn). cbn [rbind]. rewrite Hf. reflexivity. Qed.

(** C20 A transition taken once is cached: [Next] from the same node on
    the same character again answers from the node's transition cache,
    with the same node and the store as it is; the automaton's invariant
    (its trie, its links and a cache of right answers) is kept. *)
Theorem Next_cached s n c r' s' :
  match_inv s -> (n < List.length s)%nat -> Next s (mk_ref (Some n) root) c = Ok (r', s') ->
  match_inv s' /\ Next s' (mk_ref (Some n) root) c = Ok (r', s').
Proof.
  intros Hm Hn H. destruct (GetAutomatonTransition_spec s n c Hm Hn) as (s1 & E & Hm1 & _ & Hc).
  unfold Next in *. cbn [node_ root_] in *. rewrite E in H. cbn [rbind] in H.
  destruct (goto (nth n labs []) c) as [g|] eqn:Eg; injection H as <- <-; (split; [exact Hm1|]);
    rewrite (GetAutomatonTransition_cached s1 n c Hc), Eg; reflexivity.
Qed.

(** The words ending [p] end its longest label suffix: every word is a
    label. *)
Lemma hits_lsuf s p : match_inv s -> hits (lsuf labs p) = hits p.
Proof.
  intros Hm. pose proof (match_inv_trie s Hm) as Hti.
  induction p as [|a r IH]; [rewrite lsuf_nil; reflexivity|]. cbn [lsuf].
  destruct (in_labs labs (a :: r)) eqn:E; [reflexivity|]. rewrite IH. unfold hits. cbn [suffixes flat_map].
  destruct (ids_of D (a :: r)) eqn:Ei; [reflexivity|].
  exfalso. apply in_labs_false in E. apply E, (ids_label D s labs Hti). rewrite Ei. discriminate.
Qed.

(** From the node of [p]'s longest label suffix, the text [cs] reports
    after each character the hits of [p] extended by the text so far. *)
Lemma match_text_from cs : forall s n p,
  match_inv s -> nth_error labs n = Some (lsuf labs p) ->
  match_text s (mk_ref (Some n) root) cs = Ok (map (fun k => hits (p ++ firstn k cs)) (seq 1 (List.length cs))).
Proof.
  induction cs as [|c rest IH]; intros s n p Hm Hn; [reflexivity|].
  pose proof (match_inv_trie s Hm) as Hti.
  assert (Hlt : (n < List.length s)%nat) by (rewrite <- (ti_length _ _ _ Hti); apply nth_error_Some; congruence).
  destruct (Next_spec s n c Hm Hlt) as (m & s' & E & Hml & Hm' & _).
  rewrite (label_nth _ _ _ Hn), <- (lsuf_snoc labs (labs_root D s labs Hti) (ti_prefix _ _ _ Hti)) in Hml.
  cbn [match_text]. rewrite E. cbn [rbind].
  assert (Hmlt : (m < List.length s')%nat)
    by (rewrite <- (ti_length _ _ _ (match_inv_trie s' Hm')); apply nth_error_Some; congruence).
  rewrite (TraverseTerminal_spec s' m Hm' Hmlt), (label_nth _ _ _ Hml), (hits_lsuf s' _ Hm'). cbn [rbind].
  rewrite (IH s' m (p ++ [c]) Hm' Hml). cbn [rbind List.length seq map firstn]. f_equal. f_equal.
  rewrite <- (seq_shift _ 1), map_map. apply map_ext. intros k. cbn [firstn]. rewrite <- app_assoc. reflexivity.
Qed.

End Matching.

(** ** The automaton the builder returns finds every occurrence *)

(** C9 Build the automaton of the [Add]ed words and feed it a text from
    [Root]: after the first [k] characters, [TraverseTerminal] reports the
    ids of every word that ends there, longest word first, the ids of one
    word in the order they were added. *)
Theorem Build_match_text b text :
  List.length (words_ b) = List.length (ids_ b) ->
  exists s, Build b = Ok s /\
    match_text s Root text =
      Ok (map (fun k => hits (dict_of (words_ b) (ids_ b)) (firstn k text)) (seq 1 (List.length text))).
Proof.
  intros Hlen. destruct (Build_spec b Hlen) as (s & labs & E & Hai & Hce). exists s. split; [exact E|].
  apply (match_text_from _ labs text s 0%nat []); [split; [exact Hai|apply empty_cache_ok, Hce]|].
  rewrite lsuf_nil. apply (ti_root _ _ _ (ai_trie _ _ _ Hai)).
Qed.

(** The repository's test passes. *)
Example test_Automaton_Build_passes : test_Automaton_Build = Ok true.
Proof. vm_compute. reflexivity. Qed.

Lemma Build_match_text_witness :
  List.length (words_ test_builder) = List.length (ids_ test_builder) /\
  (exists s, Build test_builder = Ok s /\
    match_text s Root ["a"; "b"; "z"]%char =
      Ok (map (fun k => hits (dict_of (words_ test_builder) (ids_ test_builder)) (firstn k ["a"; "b"; "z"]%char))
              (seq 1 3))) /\
  map (fun k => hits (dict_of (words_ test_builder) (ids_ test_builder)) (firstn k ["a"; "b"; "z"]%char))
      (seq 1 3) = [[0]; [1]; [3]].
Proof.
  split; [reflexivity|]. split; [apply (Build_match_text test_builder ["a"; "b"; "z"]%char); reflexivity|].
  vm_compute. reflexivity.
Defined.

Lemma Next_cached_witness :
  exists labs s r' s', match_inv (dict_of (words_ test_builder) (ids_ test_builder)) labs s /\
    (0 < List.length s)%nat /\ Next s Root "a"%char = Ok (r', s') /\
    match_inv (dict_of (words_ test_builder) (ids_ test_builder)) labs s' /\
    Next s' Root "a"%char = Ok (r', s').
Proof.
  destruct (Build_spec test_builder eq_refl) as (s & labs & E & Hai & Hce).
  assert (Hm : match_inv (dict_of (words_ test_builder) (ids_ test_builder)) labs s)
    by (split; [exact Hai|apply empty_cache_ok, Hce]).
  assert (H0 : (0 < List.length s)%nat) by (vm_compute in E; injection E as <-; vm_compute; lia).
  destruct (Next_spec _ labs s 0%nat "a"%char Hm H0) as (m & s' & En & _ & _ & _).
  exists labs, s, (mk_ref (Some m) root), s'. split; [exact Hm|]. split; [exact H0|]. split; [exact En|].
  apply (Next_cached _ labs s 0%nat "a"%char _ _ Hm H0 En).
Defined.
